(** * APHQ-ViT post-training quantization: the matmul calibration search

    A shallow embedding of

    - [quantizers/uniform.py]       (class [UniformQuantizer]),
    - [quant_layers/matmul.py]      (classes [MinMaxQuantMatMul],
      [PTQSLQuantMatMul], [PTQSLBatchingQuantMatMul],
      [AsymmetricallyBatchingQuantMatMul]),
    - [utils/calibrator.py]         (class [QuantCalibrator]),

    together with the properties of the calibration search that the
    specification states about them.

    Conventions of the embedding.

    - Tensor entries are real numbers: float32 arithmetic is idealised as exact
      arithmetic in [R].  [torch.round] is rounding half to even.
    - The operands of the matmul operator have the ViT layout of the class
      docstring, [b, heads, dim1, dim2], with [head_channel_wise = True] and
      [input_shape_lenth = 4] (the constructor defaults): a 4-d tensor is a
      list (samples) of lists (heads) of matrices.  Quantizer parameters of
      shape [1, heads, 1, 1] are the list of their per-head entries.
    - A Python exception is a value [Raise e] of the [result] type.  Shape
      errors raised inside torch are not modelled: operands are taken to be
      shape compatible, as the calibrator captures them.  On operands that
      are not, the entry-wise operations and the product of the embedding
      cut the longer operand short where torch raises or broadcasts; a
      statement that says that such an operation returns, or what shape its
      result has, states the compatibility as a hypothesis ([heads_fit],
      [shaped]).
    - An instance attribute is [Val v], [PyNone] (set to [None]) or [Deleted]
      (never set, or removed with [del]).
    - Where torch divides by zero (a zero scale, a gradient that is zero
      everywhere) it yields an infinity or a nan, which [R] does not have; a
      statement that depends on the value of such a quotient excludes the
      case.
    - [_search_best_A_scale] and [_search_best_B_scale] are the same code up
      to the side: they are one definition, [search_best_scale], with the side
      as an argument.
    - The controller keeps a record of the searches it calls ([SearchCall]),
      and the orchestrator of what it does ([Event]); the records are there
      for the statements about order and are not state of the program. *)

From Stdlib Require Import String Reals Lra Lia ZArith Bool Arith List.
Import ListNotations.

Open Scope R_scope.

(** ** Exceptions and results *)

Inductive exn : Type :=
| AssertionError
| NotImplementedError
| EnvironmentError
| ZeroDivisionError
| RuntimeError
| AttributeError
| IndexError
| ValueError
| TypeError
| StopIteration.

Inductive result (A : Type) : Type :=
| Ok (a : A)
| Raise (e : exn).

Arguments Ok {A} a.
Arguments Raise {A} e.

Definition bind {A B : Type} (m : result A) (k : A -> result B) : result B :=
  match m with
  | Ok a => k a
  | Raise e => Raise e
  end.

Notation "x <- m ;; k" := (bind m (fun x => k))
  (at level 61, m at next level, right associativity).
Notation "' p <- m ;; k" := (bind m (fun p => k))
  (at level 61, p pattern, m at next level, right associativity).

Definition assert (b : bool) : result unit :=
  if b then Ok tt else Raise AssertionError.

Fixpoint mapM {A B : Type} (f : A -> result B) (l : list A) : result (list B) :=
  match l with
  | [] => Ok []
  | a :: l' => b <- f a ;; bs <- mapM f l' ;; Ok (b :: bs)
  end.

(** Instance attributes of a Python object. *)
Inductive attr (A : Type) : Type :=
| Deleted
| PyNone
| Val (a : A).

Arguments Deleted {A}.
Arguments PyNone {A}.
Arguments Val {A} a.

(** Reading an attribute whose value is then used as a tensor: a missing
    attribute raises [AttributeError], [None] raises [TypeError] at its use. *)
Definition get_attr {A : Type} (a : attr A) : result A :=
  match a with
  | Val v => Ok v
  | PyNone => Raise TypeError
  | Deleted => Raise AttributeError
  end.

(** ** Scalars and tensors *)

(** [torch.round]: to the nearest integer, ties to the even one. *)
Definition round_half_even (x : R) : R :=
  let n := Int_part x in
  let f := x - IZR n in
  if Rlt_dec f (1 / 2) then IZR n
  else if Rlt_dec (1 / 2) f then IZR (n + 1)
  else if Z.even n then IZR n else IZR (n + 1).

(** [t.clamp(lo, hi)] is [min(max(t, lo), hi)]. *)
Definition clamp (lo hi x : R) : R := Rmin (Rmax x lo) hi.

Definition Mat : Type := list (list R).
Definition T3 : Type := list Mat.          (* heads, dim1, dim2 *)
Definition T4 : Type := list T3.           (* b, heads, dim1, dim2 *)

Definition mat_map (f : R -> R) (m : Mat) : Mat := map (map f) m.
Definition t4_map (f : R -> R) (x : T4) : T4 := map (map (mat_map f)) x.

Fixpoint zip_with {A B C : Type} (f : A -> B -> C) (l : list A) (l' : list B)
  : list C :=
  match l, l' with
  | a :: t, b :: t' => f a b :: zip_with f t t'
  | _, _ => []
  end.

Fixpoint zip_with3 {A B C D : Type} (f : A -> B -> C -> D)
  (l : list A) (l' : list B) (l'' : list C) : list D :=
  match l, l', l'' with
  | a :: t, b :: t', c :: t'' => f a b c :: zip_with3 f t t' t''
  | _, _, _ => []
  end.

Definition mat_zip (f : R -> R -> R) (m m' : Mat) : Mat :=
  zip_with (zip_with f) m m'.
Definition t4_zip (f : R -> R -> R) (x y : T4) : T4 :=
  zip_with (zip_with (mat_zip f)) x y.
Definition t4_zip3 (f : R -> R -> R -> R) (x y z : T4) : T4 :=
  zip_with3 (zip_with3 (zip_with3 (zip_with3 f))) x y z.

(** Broadcasting of a parameter of shape [1, heads, 1, 1] (or with a head axis
    of size one) along the head axis of a sample. *)
Definition expand_heads {A : Type} (p : list A) (heads : nat) : list A :=
  match p with
  | [v] => repeat v heads
  | _ => p
  end.

(** [f s x] and [f s z x] applied entry by entry, the parameters chosen by the
    head of the entry.  The parameters fit the tensor when they have one
    entry, or one entry for each head of every sample; on parameters that do
    not fit, torch raises, or repeats a tensor of one head for every
    parameter, and these definitions keep the heads that have a parameter
    only. *)
Definition per_head (f : R -> R -> R) (s : list R) (x : T4) : T4 :=
  map (fun sample : T3 =>
         zip_with (fun sh m => mat_map (f sh) m)
                  (expand_heads s (length sample)) sample) x.

Definition per_head2 (f : R -> R -> R -> R) (s z : list R) (x : T4) : T4 :=
  map (fun sample : T3 =>
         zip_with3 (fun sh zh m => mat_map (f sh zh) m)
                   (expand_heads s (length sample))
                   (expand_heads z (length sample)) sample) x.

Definition flatten_mat (m : Mat) : list R := concat m.
Definition flatten_t3 (s : T3) : list R := concat (map flatten_mat s).
Definition flatten_t4 (x : T4) : list R := concat (map flatten_t3 x).

Definition Rsum (l : list R) : R := fold_right Rplus 0 l.
Definition numel (l : list R) : R := INR (length l).
Definition mean (l : list R) : R := Rsum l / numel l.

(** ** [quantizers/uniform.py] *)

Record UniformQuantizer : Type := mkUniformQuantizer {
  sym : bool;
  n_bits : Z;
  channel_wise : bool;
  drop_prob : R;
  inited : bool;
  training_mode : bool;
  scale : attr (list R);        (* set by the owning operator *)
  zero_point : attr (list R)    (* set by the owning operator *)
}.

(** [self.n_levels = 2 ** (self.n_bits - 1)]. *)
Definition n_levels (q : UniformQuantizer) : R := powerRZ 2 (n_bits q - 1).

(** [UniformQuantizer.__init__]. *)
Definition UniformQuantizer_init (bits : Z) (symmetric chw : bool)
  : UniformQuantizer :=
  {| sym := symmetric; n_bits := bits; channel_wise := chw; drop_prob := 1;
     inited := false; training_mode := false;
     scale := Deleted; zero_point := Deleted |}.

Definition init_training (q : UniformQuantizer) : UniformQuantizer :=
  {| sym := sym q; n_bits := n_bits q; channel_wise := channel_wise q;
     drop_prob := drop_prob q; inited := inited q; training_mode := true;
     scale := scale q; zero_point := zero_point q |}.

Definition end_training (q : UniformQuantizer) : UniformQuantizer :=
  {| sym := sym q; n_bits := n_bits q; channel_wise := channel_wise q;
     drop_prob := drop_prob q; inited := inited q; training_mode := false;
     scale := scale q; zero_point := zero_point q |}.

(** Modelled from the spec: [round_ste] of [quantizers/_ste.py], which is not
    among the sources; a straight-through estimator, whose forward value is
    that of [torch.round]. *)
Definition round_ste (x : R) : R := round_half_even x.

Definition Rltb (x y : R) : bool := if Rlt_dec x y then true else false.

(** One entry through the symmetric and through the asymmetric branch. *)
Definition quant_sym (training : bool) (L s x : R) : R :=
  let x_int := if training then round_ste (x / s) else round_half_even (x / s) in
  let x_quant := clamp (- L) (L - 1) x_int in
  x_quant * s.

Definition quant_asym (training : bool) (L s z x : R) : R :=
  let x_int := if training then round_ste (x / s) else round_half_even (x / s) in
  let x_quant := clamp 0 (2 * L - 1) (x_int + round_half_even z) in
  (x_quant - round_half_even z) * s.

Section Quantizer.

(** [torch.rand_like]: the random draws of the stochastic bypass. *)
Variable rand_like : T4 -> T4.

(** [UniformQuantizer.forward]. *)
Definition UniformQuantizer_forward (q : UniformQuantizer) (x : T4)
  : result T4 :=
  if (n_bits q =? 32)%Z then Ok x
  else
    _ <- assert (inited q) ;;
    let dropping := training_mode q && Rltb (drop_prob q) 1 in
    s <- get_attr (scale q) ;;
    x_dequant <-
      (if sym q
       then Ok (per_head (quant_sym (training_mode q) (n_levels q)) s x)
       else
         z <- get_attr (zero_point q) ;;
         Ok (per_head2 (quant_asym (training_mode q) (n_levels q)) s z x)) ;;
    if dropping
    then Ok (t4_zip3 (fun u d o => if Rltb u (drop_prob q) then d else o)
                     (rand_like x) x_dequant x)
    else Ok x_dequant.

End Quantizer.

(** ** [quant_layers/matmul.py]: the similarity scorer *)

(** [g.reshape_as(t)]: the entries of [g], in row-major order, laid out in the
    shape of [t]; fails when the numbers of entries differ. *)
Definition refill_row (skel data : list R) : list R * list R :=
  (firstn (length skel) data, skipn (length skel) data).

Fixpoint refill_list {A : Type} (f : A -> list R -> A * list R)
  (skel : list A) (data : list R) : list A * list R :=
  match skel with
  | [] => ([], data)
  | a :: t =>
      let '(a', d') := f a data in
      let '(t', d'') := refill_list f t d' in
      (a' :: t', d'')
  end.

Definition reshape_as (g t : T4) : result T4 :=
  if (length (flatten_t4 g) =? length (flatten_t4 t))%nat
  then Ok (fst (refill_list (refill_list (refill_list refill_row)) t
                            (flatten_t4 g)))
  else Raise RuntimeError.

(** [raw_grad.abs() * torch.sqrt(raw_grad.numel() / raw_grad.pow(2).sum())].
    For a gradient that is zero everywhere the quotient of torch is an
    infinity and the product a nan; in [R] the quotient is 0. *)
Definition grad_factor (g : T4) : R :=
  sqrt (numel (flatten_t4 g) / Rsum (map (fun v => v ^ 2) (flatten_t4 g))).

Definition normalize_grad (g : T4) : T4 :=
  t4_map (fun v => Rabs v * grad_factor g) g.

Definition metric_in (m : string) (l : list string) : bool :=
  existsb (String.eqb m) l.

(** [PTQSLQuantMatMul._get_similarity]. *)
Definition _get_similarity (tensor_raw tensor_sim : T4) (metric : string)
  (raw_grad : option T4) : result T4 :=
  if String.eqb metric "mae" then
    Ok (t4_zip (fun r s => - Rabs (r - s)) tensor_raw tensor_sim)
  else if String.eqb metric "mse" then
    Ok (t4_zip (fun r s => - (r - s) ^ 2) tensor_raw tensor_sim)
  else if metric_in metric ["hessian"; "jacobian"; "hessian_new"]%string then
    match raw_grad with
    | None => Raise AssertionError
    | Some g =>
        g <- reshape_as g tensor_raw ;;
        let raw_grad := normalize_grad g in
        if String.eqb metric "hessian" then
          Ok (t4_zip3 (fun g r s => - (g * (r - s)) ^ 2)
                      raw_grad tensor_raw tensor_sim)
        else if String.eqb metric "jacobian" then
          Ok (t4_zip3 (fun g r s => - (Rabs g * Rabs (r - s)))
                      raw_grad tensor_raw tensor_sim)
        else
          Ok (t4_zip3 (fun g r s => - (Rabs g * (r - s) ^ 2))
                      raw_grad tensor_raw tensor_sim)
    end
  else Raise NotImplementedError.

(** ** [quant_layers/matmul.py]: the operator *)

Inductive MatMulClass : Type :=
| MinMaxQuantMatMul
| PTQSLQuantMatMul
| PTQSLBatchingQuantMatMul
| AsymmetricallyBatchingQuantMatMul.

Record QuantMatMul : Type := mkQuantMatMul {
  cls : MatMulClass;
  (* MinMaxQuantMatMul *)
  mode : string;
  A_quantizer : UniformQuantizer;
  B_quantizer : UniformQuantizer;
  raw_input : attr (T4 * T4);
  raw_out : attr T4;
  tmp_input : attr (list T4 * list T4);
  tmp_out : attr (list T4);
  calibrated : bool;
  (* PTQSLQuantMatMul *)
  metric : string;
  search_round : Z;
  eq_n : Z;
  raw_grad : attr T4;
  tmp_grad : attr (list T4);
  num_heads : nat;
  (* PTQSLBatchingQuantMatMul *)
  calib_batch_size : Z;
  (* written by _initialize_calib_parameters *)
  calib_size : attr Z;
  parallel_eq_n : attr Z
}.

Definition set_quantizers (qa qb : UniformQuantizer) (m : QuantMatMul)
  : QuantMatMul :=
  {| cls := cls m; mode := mode m; A_quantizer := qa; B_quantizer := qb;
     raw_input := raw_input m; raw_out := raw_out m;
     tmp_input := tmp_input m; tmp_out := tmp_out m;
     calibrated := calibrated m; metric := metric m;
     search_round := search_round m; eq_n := eq_n m;
     raw_grad := raw_grad m; tmp_grad := tmp_grad m;
     num_heads := num_heads m; calib_batch_size := calib_batch_size m;
     calib_size := calib_size m; parallel_eq_n := parallel_eq_n m |}.

Definition set_A_quantizer (q : UniformQuantizer) (m : QuantMatMul) :=
  set_quantizers q (B_quantizer m) m.
Definition set_B_quantizer (q : UniformQuantizer) (m : QuantMatMul) :=
  set_quantizers (A_quantizer m) q m.

Definition set_mode (s : string) (m : QuantMatMul) : QuantMatMul :=
  {| cls := cls m; mode := s;
     A_quantizer := A_quantizer m; B_quantizer := B_quantizer m;
     raw_input := raw_input m; raw_out := raw_out m;
     tmp_input := tmp_input m; tmp_out := tmp_out m;
     calibrated := calibrated m; metric := metric m;
     search_round := search_round m; eq_n := eq_n m;
     raw_grad := raw_grad m; tmp_grad := tmp_grad m;
     num_heads := num_heads m; calib_batch_size := calib_batch_size m;
     calib_size := calib_size m; parallel_eq_n := parallel_eq_n m |}.

Definition set_calib_parameters (cs pe : Z) (m : QuantMatMul) : QuantMatMul :=
  {| cls := cls m; mode := mode m;
     A_quantizer := A_quantizer m; B_quantizer := B_quantizer m;
     raw_input := raw_input m; raw_out := raw_out m;
     tmp_input := tmp_input m; tmp_out := tmp_out m;
     calibrated := calibrated m; metric := metric m;
     search_round := search_round m; eq_n := eq_n m;
     raw_grad := raw_grad m; tmp_grad := tmp_grad m;
     num_heads := num_heads m; calib_batch_size := calib_batch_size m;
     calib_size := Val cs; parallel_eq_n := Val pe |}.

(** The captured tensors: [raw_input], [raw_out], [tmp_input], [tmp_out]. *)
Definition set_captured (ri : attr (T4 * T4)) (ro : attr T4)
  (ti : attr (list T4 * list T4)) (to : attr (list T4)) (m : QuantMatMul)
  : QuantMatMul :=
  {| cls := cls m; mode := mode m;
     A_quantizer := A_quantizer m; B_quantizer := B_quantizer m;
     raw_input := ri; raw_out := ro; tmp_input := ti; tmp_out := to;
     calibrated := calibrated m; metric := metric m;
     search_round := search_round m; eq_n := eq_n m;
     raw_grad := raw_grad m; tmp_grad := tmp_grad m;
     num_heads := num_heads m; calib_batch_size := calib_batch_size m;
     calib_size := calib_size m; parallel_eq_n := parallel_eq_n m |}.

(** The last statements of [hyperparameter_searching]:
    [self.calibrated = True] and [del self.raw_input, self.raw_out,
    self.raw_grad]. *)
Definition latch_and_release (m : QuantMatMul) : QuantMatMul :=
  {| cls := cls m; mode := mode m;
     A_quantizer := A_quantizer m; B_quantizer := B_quantizer m;
     raw_input := Deleted; raw_out := Deleted;
     tmp_input := tmp_input m; tmp_out := tmp_out m;
     calibrated := true; metric := metric m;
     search_round := search_round m; eq_n := eq_n m;
     raw_grad := Deleted; tmp_grad := tmp_grad m;
     num_heads := num_heads m; calib_batch_size := calib_batch_size m;
     calib_size := calib_size m; parallel_eq_n := parallel_eq_n m |}.

Definition set_scale (s : list R) (q : UniformQuantizer) : UniformQuantizer :=
  {| sym := sym q; n_bits := n_bits q; channel_wise := channel_wise q;
     drop_prob := drop_prob q; inited := inited q;
     training_mode := training_mode q;
     scale := Val s; zero_point := zero_point q |}.

Definition set_zero_point (z : list R) (q : UniformQuantizer)
  : UniformQuantizer :=
  {| sym := sym q; n_bits := n_bits q; channel_wise := channel_wise q;
     drop_prob := drop_prob q; inited := inited q;
     training_mode := training_mode q;
     scale := scale q; zero_point := Val z |}.

Definition set_inited (q : UniformQuantizer) : UniformQuantizer :=
  {| sym := sym q; n_bits := n_bits q; channel_wise := channel_wise q;
     drop_prob := drop_prob q; inited := true;
     training_mode := training_mode q;
     scale := scale q; zero_point := zero_point q |}.

(** [MinMaxQuantMatMul.__init__]: symmetric per-tensor quantizers, whose
    [scale] nobody has set. *)
Definition MinMaxQuantMatMul_init (A_bit B_bit : Z) (mode0 : string)
  : QuantMatMul :=
  {| cls := MinMaxQuantMatMul; mode := mode0;
     A_quantizer := UniformQuantizer_init A_bit true false;
     B_quantizer := UniformQuantizer_init B_bit true false;
     raw_input := PyNone; raw_out := PyNone;
     tmp_input := PyNone; tmp_out := PyNone;
     calibrated := false;
     metric := EmptyString; search_round := 0; eq_n := 0;
     raw_grad := Deleted; tmp_grad := Deleted; num_heads := 0%nat;
     calib_batch_size := 0;
     calib_size := Deleted; parallel_eq_n := Deleted |}.

(** [PTQSLQuantMatMul.__init__], with [head_channel_wise = True]: the scales
    are [torch.zeros(1, num_heads, 1, 1)]. *)
Definition PTQSLQuantMatMul_init (A_bit B_bit : Z) (mode0 metric0 : string)
  (search_round0 eq_n0 : Z) (num_heads0 : nat) : QuantMatMul :=
  let zeros := repeat 0 num_heads0 in
  {| cls := PTQSLQuantMatMul; mode := mode0;
     A_quantizer := set_scale zeros (UniformQuantizer_init A_bit true true);
     B_quantizer := set_scale zeros (UniformQuantizer_init B_bit true true);
     raw_input := PyNone; raw_out := PyNone;
     tmp_input := PyNone; tmp_out := PyNone;
     calibrated := false;
     metric := metric0; search_round := search_round0; eq_n := eq_n0;
     raw_grad := PyNone; tmp_grad := PyNone; num_heads := num_heads0;
     calib_batch_size := 0;
     calib_size := Deleted; parallel_eq_n := Deleted |}.

Definition with_class_and_batch (c : MatMulClass) (cbs : Z) (m : QuantMatMul)
  : QuantMatMul :=
  {| cls := c; mode := mode m;
     A_quantizer := A_quantizer m; B_quantizer := B_quantizer m;
     raw_input := raw_input m; raw_out := raw_out m;
     tmp_input := tmp_input m; tmp_out := tmp_out m;
     calibrated := calibrated m; metric := metric m;
     search_round := search_round m; eq_n := eq_n m;
     raw_grad := raw_grad m; tmp_grad := tmp_grad m;
     num_heads := num_heads m; calib_batch_size := cbs;
     calib_size := calib_size m; parallel_eq_n := parallel_eq_n m |}.

(** [PTQSLBatchingQuantMatMul.__init__]. *)
Definition PTQSLBatchingQuantMatMul_init (A_bit B_bit : Z)
  (mode0 metric0 : string) (calib_batch_size0 search_round0 eq_n0 : Z)
  (num_heads0 : nat) : QuantMatMul :=
  with_class_and_batch PTQSLBatchingQuantMatMul calib_batch_size0
    (PTQSLQuantMatMul_init A_bit B_bit mode0 metric0 search_round0 eq_n0
                           num_heads0).

(** [AsymmetricallyBatchingQuantMatMul.__init__]: the quantizers are replaced
    by asymmetric ones, with zero scales and zero-points. *)
Definition AsymmetricallyBatchingQuantMatMul_init (A_bit B_bit : Z)
  (mode0 metric0 : string) (calib_batch_size0 search_round0 eq_n0 : Z)
  (num_heads0 : nat) : QuantMatMul :=
  let zeros := repeat 0 num_heads0 in
  let fresh bits :=
    set_zero_point zeros
      (set_scale zeros (UniformQuantizer_init bits false true)) in
  set_quantizers (fresh A_bit) (fresh B_bit)
    (with_class_and_batch AsymmetricallyBatchingQuantMatMul calib_batch_size0
       (PTQSLQuantMatMul_init A_bit B_bit mode0 metric0 search_round0 eq_n0
                              num_heads0)).

(** [hasattr(module, 'metric')]. *)
Definition has_metric (m : QuantMatMul) : bool :=
  match cls m with
  | MinMaxQuantMatMul => false
  | _ => true
  end.

(** [A @ B] on [b, heads, dim1, dim2] operands: sample by sample and head by
    head the product of a [dim1 x k] with a [k x dim3] matrix.  On operands
    whose samples, heads or inner dimensions differ, where torch raises or
    broadcasts, the definitions stop at the shorter one. *)
Definition dot (u v : list R) : R := Rsum (zip_with Rmult u v).

Fixpoint transpose (m : Mat) : Mat :=
  match m with
  | [] => []
  | [r] => map (fun v => [v]) r
  | r :: t => zip_with cons r (transpose t)
  end.

Definition mat_mul (a b : Mat) : Mat :=
  map (fun row => map (dot row) (transpose b)) a.

Definition matmul (A B : T4) : T4 := zip_with (zip_with mat_mul) A B.

Section Operator.

Variable rand_like : T4 -> T4.

Definition quant_input_A (m : QuantMatMul) (x : T4) : result T4 :=
  UniformQuantizer_forward rand_like (A_quantizer m) x.

Definition quant_input_B (m : QuantMatMul) (x : T4) : result T4 :=
  UniformQuantizer_forward rand_like (B_quantizer m) x.

(** [MinMaxQuantMatMul.quant_forward]. *)
Definition quant_forward (m : QuantMatMul) (A B : T4) : result T4 :=
  _ <- assert (calibrated m) ;;
  a <- quant_input_A m A ;;
  b <- quant_input_B m B ;;
  Ok (matmul a b).

Definition u_perturbation_forward (A B : T4) : T4 :=
  t4_map (fun v => v + 1 * (1 / 1000000)) (matmul A B).

Definition d_perturbation_forward (A B : T4) : T4 :=
  t4_map (fun v => v - 1 * (1 / 1000000)) (matmul A B).

(** [MinMaxQuantMatMul.forward]. *)
Definition forward (m : QuantMatMul) (A B : T4) : result T4 :=
  if String.eqb (mode m) "raw" then Ok (matmul A B)
  else if String.eqb (mode m) "quant_forward" then quant_forward m A B
  else if String.eqb (mode m) "u_perturbation"
       then Ok (u_perturbation_forward A B)
  else if String.eqb (mode m) "d_perturbation"
       then Ok (d_perturbation_forward A B)
  else Raise NotImplementedError.

End Operator.

(** ** Python ranges, indices and slices *)

(** [range(n)]. *)
Definition py_range (n : Z) : list Z := map Z.of_nat (seq 0 (Z.to_nat n)).

(** [math.ceil(a / b)] for integers, [ZeroDivisionError] when [b = 0]. *)
Definition ceil_div (a b : Z) : result Z :=
  if (b =? 0)%Z then Raise ZeroDivisionError else Ok (- ((- a) / b))%Z.

(** [range(0, stop, step)]. *)
Definition py_range_step (stop step : Z) : result (list Z) :=
  if (step =? 0)%Z then Raise ValueError
  else
    count <- ceil_div stop step ;;
    Ok (map (fun i => i * step)%Z (py_range count)).

(** An index or slice bound brought into [0, len]: a negative one counts from
    the end. *)
Definition slice_bound (len i : Z) : Z :=
  if (i <? 0)%Z then Z.max (i + len) 0 else Z.min i len.

(** [l[st:ed]]. *)
Definition py_slice {A : Type} (st ed : Z) (l : list A) : list A :=
  let len := Z.of_nat (length l) in
  let s := Z.to_nat (slice_bound len st) in
  let e := Z.to_nat (slice_bound len ed) in
  firstn (e - s) (skipn s l).

(** [l[i]], with [IndexError] out of range. *)
Definition py_index {A : Type} (l : list A) (i : Z) : result A :=
  let len := Z.of_nat (length l) in
  let j := if (i <? 0)%Z then (i + len)%Z else i in
  if ((0 <=? j) && (j <? len))%Z
  then match nth_error l (Z.to_nat j) with
       | Some v => Ok v
       | None => Raise IndexError
       end
  else Raise IndexError.

(** ** The memory budget *)

Record Device : Type := mkDevice {
  cuda_is_available : bool;
  total_memory : Z           (* of device 0, in bytes *)
}.

Definition t4_numel (x : T4) : Z := Z.of_nat (length (flatten_t4 x)).

(** [max(int((memory / 4) // numel), 1)]: the quotient is a floor. *)
Definition initial_parallel (memory numel : Z) : result Z :=
  if (numel =? 0)%Z then Raise ZeroDivisionError
  else Ok (Z.max (memory / (4 * numel)) 1).

(** [math.ceil(eq_n * 1.0 / math.ceil(eq_n * 1.0 / parallel_eq_n))]. *)
Definition balanced_parallel (eq_n p : Z) : result Z :=
  groups <- ceil_div eq_n p ;;
  ceil_div eq_n groups.

(** [PTQSLBatchingQuantMatMul._initialize_calib_parameters]. *)
Definition _initialize_calib_parameters (dev : Device) (m : QuantMatMul)
  : result QuantMatMul :=
  '(rA, rB) <- get_attr (raw_input m) ;;
  let calib_size := Z.of_nat (length rA) in
  if negb (cuda_is_available dev) then Raise EnvironmentError
  else
    let memory := (total_memory dev / 2)%Z in
    ro <- get_attr (raw_out m) ;;
    let numel := (4 * t4_numel (py_slice 0 calib_size rA)
                  + 4 * t4_numel (py_slice 0 calib_size rB)
                  + 8 * t4_numel (py_slice 0 (calib_batch_size m) ro))%Z in
    p <- initial_parallel memory numel ;;
    pe <- balanced_parallel (eq_n m) p ;;
    Ok (set_calib_parameters calib_size pe m).

(** ** The candidate generator *)

(** A grid of candidates, of shape [eq_n + 1, 1, heads, 1, 1]: one row per
    candidate, one entry per head. *)
Definition Grid : Type := list (list R).

(** [x ** k] for a float base that is never negative here:
    [0.0 ** k] is [0.0] for [k > 0], [1.0] for [k = 0], and raises for
    [k < 0]. *)
Definition py_pow (x k : R) : result R :=
  if Req_dec_T x 0 then
    if Rlt_dec 0 k then Ok 0
    else if Req_dec_T k 0 then Ok 1
    else Raise ZeroDivisionError
  else Ok (Rpower x k).

(** One level: [l + (r - l) * (i / (self.eq_n - 1))**k]. *)
Definition percentile_level (eq_n : Z) (l r k : R) (i : Z) : result R :=
  if (eq_n - 1 =? 0)%Z then Raise ZeroDivisionError
  else
    p <- py_pow (IZR i / IZR (eq_n - 1)) k ;;
    Ok (l + (r - l) * p).

(** [pct]: the levels of [range(eq_n)], then [1.0]. *)
Definition percentile_levels (eq_n : Z) (l r k : R) : result (list R) :=
  body <- mapM (percentile_level eq_n l r k) (py_range eq_n) ;;
  Ok (body ++ [1]).

(** Sorting, for [torch.quantile]. *)
Fixpoint insert_sorted (v : R) (l : list R) : list R :=
  match l with
  | [] => [v]
  | w :: t => if Rle_dec v w then v :: l else w :: insert_sorted v t
  end.

Definition sort_R (l : list R) : list R := fold_right insert_sorted [] l.

(** Linear interpolation in a sorted row at a fractional rank: between the
    entries at [floor(rank)] and [ceil(rank)]. *)
Definition interpolate (sorted : list R) (rank : R) : R :=
  let below := Int_part rank in
  let above := (- Int_part (- rank))%Z in
  let weight := rank - IZR below in
  let v_below := nth (Z.to_nat below) sorted 0 in
  let v_above := nth (Z.to_nat above) sorted 0 in
  v_below + weight * (v_above - v_below).

(** [torch.quantile(row, q)] with linear interpolation, at the rank
    [q * (n - 1)]; it rejects a level outside [0, 1] and an empty row. *)
Definition torch_quantile (row : list R) (q : R) : result R :=
  if Rltb q 0 || Rltb 1 q then Raise RuntimeError
  else
    match row with
    | [] => Raise RuntimeError
    | _ => Ok (interpolate (sort_R row) (q * (INR (length row) - 1)))
    end.

(** [x.transpose(0, 1).contiguous().view(heads, 1, -1)]: per head, the entries
    of all samples in order; the [view] fails on a tensor without entries. *)
Definition per_head_rows (x : T4) : result (list (list R)) :=
  match x with
  | [] => Raise RuntimeError
  | s :: _ =>
      if (length s =? 0)%nat then Raise RuntimeError
      else Ok (map (fun h => concat (map (fun sample : T3 =>
                                            flatten_mat (nth h sample [])) x))
                   (seq 0 (length s)))
  end.

(** Splitting a row in [n] parts of equal length. *)
Fixpoint chunks_of (size count : nat) (l : list R) : list (list R) :=
  match count with
  | O => []
  | S c => firstn size l :: chunks_of size c (skipn size l)
  end.

(** [x_.view(heads, mini_batch_size, -1)]. *)
Definition view_mini_batches (mbs : nat) (rows : list (list R))
  : result (list (list (list R))) :=
  mapM (fun row : list R =>
          if ((length row =? 0) || negb (length row mod mbs =? 0))%nat
          then Raise RuntimeError
          else Ok (chunks_of (length row / mbs) mbs row)) rows.

(** The row of one level [p]: per head, the mean over the mini-batches of
    their [p]-quantiles. *)
Definition level_row (x_ : list (list (list R))) (p : R) : result (list R) :=
  mapM (fun head : list (list R) =>
          qs <- mapM (fun part => torch_quantile part p) head ;;
          Ok (mean qs)) x_.

Section Generator.

(** Whether [torch.quantile] accepts a tensor: it raises on one that is too
    large, or when the device memory is short. *)
Variable quantile_accepts : list (list (list R)) -> bool.

(** [torch.quantile(x_, q, dim=-1).mean(dim=-1)]: shape [len(q), heads]. *)
Definition quantile_means (x_ : list (list (list R))) (q : list R)
  : result Grid :=
  if quantile_accepts x_ then mapM (level_row x_) q
  else Raise RuntimeError.

(** The [while tensor_too_large] loop: any exception of the two quantile
    calls doubles [mini_batch_size]; the [view] of the handler raises once
    the size no longer divides the row, which bounds the iterations. *)
Fixpoint quantile_retry (fuel mbs : nat) (rows : list (list R))
  (pct : list R) : result (Grid * Grid) :=
  match fuel with
  | O => Raise RuntimeError
  | S fuel' =>
      x_ <- view_mini_batches mbs rows ;;
      match (uppers <- quantile_means x_ pct ;;
             lowers <- quantile_means x_ (map (fun p => 1 - p) pct) ;;
             Ok (uppers, lowers)) with
      | Ok res => Ok res
      | Raise _ => quantile_retry fuel' (2 * mbs) rows pct
      end
  end.

(** [AsymmetricallyBatchingQuantMatMul.calculate_percentile_candidates]. *)
Definition calculate_percentile_candidates (m : QuantMatMul) (x : T4)
  (l r k : R) : result (Grid * Grid) :=
  pct <- percentile_levels (eq_n m) l r k ;;
  rows <- per_head_rows x ;;
  '(uppers, lowers) <-
    quantile_retry (S (length (hd [] rows))) 1 rows pct ;;
  (* .view(eq_n + 1, 1, -1, 1, 1) *)
  if (Z.of_nat (length pct) =? eq_n m + 1)%Z
  then Ok (uppers, lowers)
  else Raise RuntimeError.

End Generator.

(** ** The per-side search *)

(** Broadcasting along the candidate axis, and entry-wise grid arithmetic. *)
Definition grid_zip (f : R -> R -> R) (g g' : Grid) : Grid :=
  zip_with (zip_with f) (expand_heads g (length g'))
                        (expand_heads g' (length g)).

(** [(uppers - lowers) / (2 * n_levels - 1)]. *)
Definition scale_candidates (L : R) (uppers lowers : Grid) : Grid :=
  grid_zip (fun u l => (u - l) / (2 * L - 1)) uppers lowers.

(** [-(lowers / scale).round()]. *)
Definition zero_point_candidates (lowers scales : Grid) : Grid :=
  grid_zip (fun l s => - round_half_even (l / s)) lowers scales.

(** The searched side under one candidate:
    [((x / s).round_() + z).clamp(0, 2 * n_levels - 1)], then
    [(x_quant - z).mul_(s)]. *)
Definition candidate_sim (L : R) (s z : list R) (x : T4) : T4 :=
  per_head2 (fun sh zh v =>
               (clamp 0 (2 * L - 1) (round_half_even (v / sh) + zh) - zh) * sh)
            s z x.

(** Entry-wise sum of a non-empty list of rows. *)
Definition sum_rows (rows : list (list R)) : list R :=
  match rows with
  | [] => []
  | r :: t => fold_left (zip_with Rplus) t r
  end.

(** [torch.mean] over the matrix axes, then [sum] over the samples: one score
    per head. *)
Definition head_scores (similarity : T4) : list R :=
  sum_rows (map (map (fun m : Mat => mean (flatten_mat m))) similarity).

(** [torch.cat] of a Python list of tensors fails on the empty list. *)
Definition torch_cat {A : Type} (l : list (list A)) : result (list A) :=
  match l with
  | [] => Raise RuntimeError
  | _ => Ok (concat l)
  end.

(** [torch.cat(tables, dim=1).sum(dim=1)]. *)
Definition sum_tables (tables : list Grid) : result Grid :=
  match tables with
  | [] => Raise RuntimeError
  | t :: ts => Ok (fold_left (zip_with (zip_with Rplus)) ts t)
  end.

(** [torch.argmax]: the first index of a largest entry. *)
Fixpoint argmax_from (best : nat) (bv : R) (i : nat) (l : list R) : nat :=
  match l with
  | [] => best
  | v :: t =>
      if Rlt_dec bv v then argmax_from i v (S i) t
      else argmax_from best bv (S i) t
  end.

Definition argmax (l : list R) : nat :=
  match l with
  | [] => O
  | v :: t => argmax_from 0 v 1 t
  end.

Definition column (h : nat) (g : Grid) : list R :=
  map (fun row => nth h row 0) g.

(** [torch.argmax(table, dim=0)]: one index per head. *)
Definition argmax_dim0 (table : Grid) : list nat :=
  map (fun h => argmax (column h table)) (seq 0 (length (hd [] table))).

(** [torch.gather(g, dim=0, index=best_index)]: per head, the entry of the
    candidate chosen for that head. *)
Definition gather (g : Grid) (best_index : list nat) : list R :=
  map (fun hi : nat * nat => nth (fst hi) (nth (snd hi) g []) 0)
      (combine (seq 0 (length best_index)) best_index).

Inductive Side : Type := SideA | SideB.

Definition quantizer_of (side : Side) (m : QuantMatMul) : UniformQuantizer :=
  match side with
  | SideA => A_quantizer m
  | SideB => B_quantizer m
  end.

Definition set_quantizer_of (side : Side) (q : UniformQuantizer)
  (m : QuantMatMul) : QuantMatMul :=
  match side with
  | SideA => set_A_quantizer q m
  | SideB => set_B_quantizer q m
  end.

Section Search.

Variable rand_like : T4 -> T4.

(** The other side of a chunk, as it enters the recomputation:
    [B_sim = self.quant_input_B(B)] when A is searched,
    [A_sim = self.quant_input_A(A)] when B is searched. *)
Definition other_side_sim (side : Side) (m : QuantMatMul) (A B : T4)
  : result T4 :=
  match side with
  | SideA => quant_input_B rand_like m B
  | SideB => quant_input_A rand_like m A
  end.

(** [out_sim] of one candidate [(s, z)] of the searched side. *)
Definition candidate_out_sim (side : Side) (m : QuantMatMul)
  (A B other_sim : T4) (s z : list R) : T4 :=
  match side with
  | SideA =>
      matmul (candidate_sim (n_levels (A_quantizer m)) s z A) other_sim
  | SideB =>
      matmul other_sim (candidate_sim (n_levels (B_quantizer m)) s z B)
  end.

(** The score, [1, heads], of one candidate [(s, z)]: [out_sim], its
    similarity to [raw_out], the mean over the matrix axes and the sum over
    the samples. *)
Definition candidate_score (side : Side) (m : QuantMatMul)
  (A B other_sim raw_out : T4) (raw_grad : option T4)
  (sz : list R * list R) : result (list R) :=
  let out_sim := candidate_out_sim side m A B other_sim (fst sz) (snd sz) in
  similarity <- _get_similarity raw_out out_sim (metric m) raw_grad ;;
  Ok (head_scores similarity).

(** The body of [for p_st in range(0, self.eq_n, self.parallel_eq_n)]: the
    scores, [parallel_eq_n, 1, heads], of one group of candidates. *)
Definition group_similarity (side : Side) (m : QuantMatMul)
  (A B other_sim raw_out : T4) (raw_grad : option T4)
  (scales zero_points : Grid) (pe p_st : Z) : result Grid :=
  let p_ed := Z.min (eq_n m) (p_st + pe) in
  let cur_scale := py_slice p_st p_ed scales in
  let cur_zero_point := py_slice p_st p_ed zero_points in
  mapM (candidate_score side m A B other_sim raw_out raw_grad)
       (combine cur_scale cur_zero_point).

(** The body of [for b_st in range(0, self.calib_size,
    self.calib_batch_size)]: the scores, [eq_n, 1, heads], of one chunk of
    the calibration set. *)
Definition chunk_similarities (side : Side) (m : QuantMatMul)
  (scales zero_points : Grid) (cs b_st : Z) : result Grid :=
  let b_ed := Z.min cs (b_st + calib_batch_size m) in
  '(rA, rB) <- get_attr (raw_input m) ;;
  let A := py_slice b_st b_ed rA in
  let B := py_slice b_st b_ed rB in
  other_sim <- other_side_sim side m A B ;;
  ro <- get_attr (raw_out m) ;;
  let raw_out := py_slice b_st b_ed ro in
  raw_grad <-
    match raw_grad m with
    | PyNone => Ok None
    | Val g => Ok (Some (py_slice b_st b_ed g))
    | Deleted => Raise AttributeError
    end ;;
  pe <- get_attr (parallel_eq_n m) ;;
  starts <- py_range_step (eq_n m) pe ;;
  groups <- mapM (group_similarity side m A B other_sim raw_out raw_grad
                                   scales zero_points pe) starts ;;
  torch_cat groups.

(** [_search_best_A_scale] and [_search_best_B_scale], which differ in the
    side only: the scores of the first [eq_n] candidates summed over the
    chunks, the best index per head, and the winner written into the side's
    quantizer. *)
Definition search_best_scale (side : Side) (m : QuantMatMul)
  (scales zero_points : Grid) : result (list nat * QuantMatMul) :=
  cs <- get_attr (calib_size m) ;;
  b_starts <- py_range_step cs (calib_batch_size m) ;;
  batch_similarities <-
    mapM (chunk_similarities side m scales zero_points cs) b_starts ;;
  table <- sum_tables batch_similarities ;;
  let best_index := argmax_dim0 table in
  let tmp_scale := gather scales best_index in
  let tmp_zero_point := gather zero_points best_index in
  let q := quantizer_of side m in
  _ <- get_attr (scale q) ;;
  _ <- get_attr (zero_point q) ;;
  Ok (best_index,
      set_quantizer_of side (set_zero_point tmp_zero_point
                               (set_scale tmp_scale q)) m).

Definition _search_best_A_scale := search_best_scale SideA.
Definition _search_best_B_scale := search_best_scale SideB.

End Search.

(** ** The search controller *)

Fixpoint foldM {A S : Type} (f : A -> S -> result S) (l : list A) (s : S)
  : result S :=
  match l with
  | [] => Ok s
  | a :: l' => s' <- f a s ;; foldM f l' s'
  end.

(** The percentile candidates of both operands. *)
Record Percentiles : Type := mkPercentiles {
  A_uppers : Grid;
  A_lowers : Grid;
  B_uppers : Grid;
  B_lowers : Grid
}.

Definition uppers_of (side : Side) (p : Percentiles) : Grid :=
  match side with SideA => A_uppers p | SideB => B_uppers p end.
Definition lowers_of (side : Side) (p : Percentiles) : Grid :=
  match side with SideA => A_lowers p | SideB => B_lowers p end.

(** The scale and zero-point grids of both operands. *)
Record Candidates : Type := mkCandidates {
  A_scale_candidates : Grid;
  A_zero_point_candidates : Grid;
  B_scale_candidates : Grid;
  B_zero_point_candidates : Grid
}.

(** A call of [_search_best_A_scale] or [_search_best_B_scale], with its
    arguments: the record the controller's run leaves behind. *)
Record SearchCall : Type := mkSearchCall {
  call_side : Side;
  call_scales : Grid;
  call_zero_points : Grid
}.

(** The operator together with the calls made so far. *)
Definition Run : Type := (QuantMatMul * list SearchCall)%type.

(** [q.scale.data.copy_(scales[-2])], [q.zero_point.data.copy_(zps[-2])]. *)
Definition seed_quantizer (scales zero_points : Grid) (q : UniformQuantizer)
  : result UniformQuantizer :=
  _ <- get_attr (scale q) ;;
  s <- py_index scales (-2) ;;
  _ <- get_attr (zero_point q) ;;
  z <- py_index zero_points (-2) ;;
  Ok (set_zero_point z (set_scale s q)).

Section Controller.

Variable rand_like : T4 -> T4.
Variable quantile_accepts : list (list (list R)) -> bool.
Variable dev : Device.

(** The first part of [hyperparameter_searching], up to
    [self.B_quantizer.inited = True]: the memory budget, the candidate
    grids, and the seeding of both quantizers. *)
Definition seeding (m : QuantMatMul)
  : result (Percentiles * Candidates * QuantMatMul) :=
  m <- _initialize_calib_parameters dev m ;;
  '(rA, rB) <- get_attr (raw_input m) ;;
  '(Au, Al) <- calculate_percentile_candidates quantile_accepts m rA
                 (999 / 1000) (99999 / 100000) (1 / 10) ;;
  '(Bu, Bl) <- calculate_percentile_candidates quantile_accepts m rB
                 (999 / 1000) (99999 / 100000) (1 / 10) ;;
  let A_sc := scale_candidates (n_levels (A_quantizer m)) Au Al in
  let A_zp := zero_point_candidates Al A_sc in
  let B_sc := scale_candidates (n_levels (B_quantizer m)) Bu Bl in
  let B_zp := zero_point_candidates Bl B_sc in
  qa <- seed_quantizer A_sc A_zp (A_quantizer m) ;;
  qb <- seed_quantizer B_sc B_zp (B_quantizer m) ;;
  Ok (mkPercentiles Au Al Bu Bl, mkCandidates A_sc A_zp B_sc B_zp,
      set_quantizers (set_inited qa) (set_inited qb) m).

(** A call of the per-side search, recorded. *)
Definition call_search (side : Side) (scales zero_points : Grid) (run : Run)
  : result (list nat * Run) :=
  '(best_index, m) <-
    search_best_scale rand_like side (fst run) scales zero_points ;;
  Ok (best_index, (m, snd run ++ [mkSearchCall side scales zero_points])).

(** The grids of one refinement phase: for even [ee] the upper endpoint is
    held at the best index and the lower endpoints are swept, for odd [ee]
    the other way round. *)
Definition phase_candidates (L : R) (uppers lowers : Grid)
  (best_index : list nat) (ee : Z) : Grid * Grid :=
  let uppers_ :=
    if (ee mod 2 =? 0)%Z then [gather uppers best_index] else uppers in
  let lowers_ :=
    if (ee mod 2 =? 0)%Z then lowers else [gather lowers best_index] in
  let scales := scale_candidates L uppers_ lowers_ in
  (scales, zero_point_candidates lowers_ scales).

(** The body of [for ee in range(2)]. *)
Definition refine_phase (side : Side) (uppers lowers : Grid) (ee : Z)
  (acc : list nat * Run) : result (list nat * Run) :=
  let '(best_index, run) := acc in
  let '(scales, zero_points) :=
    phase_candidates (n_levels (quantizer_of side (fst run)))
                     uppers lowers best_index ee in
  call_search side scales zero_points run.

(** [if self.X_quantizer.n_bits < 32: for ee in range(2): ...]. *)
Definition refine_side (side : Side) (p : Percentiles)
  (acc : list nat * Run) : result (list nat * Run) :=
  if (n_bits (quantizer_of side (fst (snd acc))) <? 32)%Z
  then foldM (refine_phase side (uppers_of side p) (lowers_of side p))
             (py_range 2) acc
  else Ok acc.

(** The body of [for e in range(self.search_round)]. *)
Definition refinement_round (p : Percentiles) (e : Z)
  (acc : list nat * list nat * Run) : result (list nat * list nat * Run) :=
  let '(A_best_index, B_best_index, run) := acc in
  '(A_best_index, run) <- refine_side SideA p (A_best_index, run) ;;
  '(B_best_index, run) <- refine_side SideB p (B_best_index, run) ;;
  Ok (A_best_index, B_best_index, run).

(** The two initial searches and the refinement rounds. *)
Definition searching (p : Percentiles) (c : Candidates) (m : QuantMatMul)
  : result Run :=
  '(A_best_index, run) <-
    call_search SideA (A_scale_candidates c) (A_zero_point_candidates c)
                (m, []) ;;
  '(B_best_index, run) <-
    call_search SideB (B_scale_candidates c) (B_zero_point_candidates c)
                run ;;
  '(_, _, run) <-
    foldM (refinement_round p) (py_range (search_round m))
          (A_best_index, B_best_index, run) ;;
  Ok run.

(** [AsymmetricallyBatchingQuantMatMul.hyperparameter_searching]: the
    operator it leaves, and the searches it has run. *)
Definition hyperparameter_searching (m : QuantMatMul) : result Run :=
  '(p, c, m) <- seeding m ;;
  '(m, calls) <- searching p c m ;;
  Ok (latch_and_release m, calls).

End Controller.

(** ** [utils/calibrator.py] *)

Inductive ExternClass : Type :=
| MinMaxQuantLinear
| MinMaxQuantConv2d
| OtherModule.

(** Modelled from the spec: a module of a class that is not among the sources
    ([MinMaxQuantLinear], [MinMaxQuantConv2d], or any other [nn.Module] of the
    network), by the attributes of the operator contract that the calibrator
    reads and writes; a missing [mode] attribute is [Deleted]. *)
Record Extern : Type := mkExtern {
  e_class : ExternClass;
  e_has_metric : bool;
  e_calibrated : bool;
  e_mode : attr string;
  e_tmp_input : attr (list T4);
  e_tmp_out : attr (list T4);
  e_raw_input : attr T4;
  e_raw_out : attr T4;
  e_has_prev_layer : bool;  (* has a [prev_layer] that is not [None] *)
  e_has_parameters : bool   (* [parameters()] yields at least one *)
}.

Inductive Module : Type :=
| MatMulModule (op : QuantMatMul)
| ExternModule (e : Extern).

(** [hasattr(module, 'metric')], [module.calibrated], and [module.mode] if the
    module has one. *)
Definition module_has_metric (md : Module) : bool :=
  match md with
  | MatMulModule op => has_metric op
  | ExternModule e => e_has_metric e
  end.

Definition module_calibrated (md : Module) : bool :=
  match md with
  | MatMulModule op => calibrated op
  | ExternModule e => e_calibrated e
  end.

Definition module_mode (md : Module) : attr string :=
  match md with
  | MatMulModule op => Val (mode op)
  | ExternModule e => e_mode e
  end.

(** Whether [module.parameters()] yields a parameter.  The parameters of a
    matmul operator are the [scale] and [zero_point] tensors assigned to its
    quantizers, which are [nn.Parameter]s (the constructor of
    [MinMaxQuantMatMul] assigns none). *)
Definition owns_parameter (q : UniformQuantizer) : bool :=
  match scale q, zero_point q with
  | Val _, _ => true
  | _, Val _ => true
  | _, _ => false
  end.

Definition module_has_parameters (md : Module) : bool :=
  match md with
  | MatMulModule op =>
      owns_parameter (A_quantizer op) || owns_parameter (B_quantizer op)
  | ExternModule e => e_has_parameters e
  end.

(** [next(self.model.parameters())]: [StopIteration] on a network none of
    whose modules owns a parameter. *)
Definition first_parameter (model : list Module) : result unit :=
  if existsb module_has_parameters model then Ok tt else Raise StopIteration.

Definition set_extern_captured (ri ro : attr T4) (ti to : attr (list T4))
  (e : Extern) : Extern :=
  {| e_class := e_class e; e_has_metric := e_has_metric e;
     e_calibrated := e_calibrated e; e_mode := e_mode e;
     e_tmp_input := ti; e_tmp_out := to;
     e_raw_input := ri; e_raw_out := ro;
     e_has_prev_layer := e_has_prev_layer e;
     e_has_parameters := e_has_parameters e |}.

Definition set_extern_mode (s : string) (e : Extern) : Extern :=
  {| e_class := e_class e; e_has_metric := e_has_metric e;
     e_calibrated := e_calibrated e; e_mode := Val s;
     e_tmp_input := e_tmp_input e; e_tmp_out := e_tmp_out e;
     e_raw_input := e_raw_input e; e_raw_out := e_raw_out e;
     e_has_prev_layer := e_has_prev_layer e;
     e_has_parameters := e_has_parameters e |}.

(** [if module.tmp is None: module.tmp = []] and [module.tmp.append(t)]. *)
Definition hook_append {A : Type} (tmp : attr (list A)) (t : A)
  : result (attr (list A)) :=
  match tmp with
  | PyNone => Ok (Val [t])
  | Val l => Ok (Val (l ++ [t]))
  | Deleted => Raise AttributeError
  end.

(** [double_input_forward_hook]: the two lists are created together. *)
Definition hook_append2 (tmp : attr (list T4 * list T4)) (a b : T4)
  : result (attr (list T4 * list T4)) :=
  match tmp with
  | PyNone => Ok (Val ([a], [b]))
  | Val (la, lb) => Ok (Val (la ++ [a], lb ++ [b]))
  | Deleted => Raise AttributeError
  end.

(** What a forward pass of the network hands to the hooks of one module: its
    two inputs (the second is unused by a single-input module) and its
    output. *)
Definition Capture : Type := (T4 * T4 * T4)%type.

(** The hooks registered on the module under calibration, fired by one call:
    [outp_forward_hook] first, then the input hook of its class. *)
Definition fire_hooks (md : Module) (c : Capture) : result Module :=
  let '(a, b, out) := c in
  match md with
  | MatMulModule op =>
      to <- hook_append (tmp_out op) out ;;
      ti <- hook_append2 (tmp_input op) a b ;;
      Ok (MatMulModule (set_captured (raw_input op) (raw_out op) ti to op))
  | ExternModule e =>
      to <- hook_append (e_tmp_out e) out ;;
      match e_class e with
      | OtherModule =>
          Ok (ExternModule (set_extern_captured (e_raw_input e) (e_raw_out e)
                                                (e_tmp_input e) to e))
      | _ =>
          ti <- hook_append (e_tmp_input e) a ;;
          Ok (ExternModule (set_extern_captured (e_raw_input e) (e_raw_out e)
                                                ti to e))
      end
  end.

(** "replace cached raw_inputs, raw_outs": [torch.cat] of the captured
    tensors along the sample axis, then [tmp_input = tmp_out = None]. *)
Definition collect_captured (md : Module) : result Module :=
  match md with
  | MatMulModule op =>
      to <- get_attr (tmp_out op) ;;
      ro <- torch_cat to ;;
      '(la, lb) <- get_attr (tmp_input op) ;;
      ra <- torch_cat la ;;
      rb <- torch_cat lb ;;
      Ok (MatMulModule (set_captured (Val (ra, rb)) (Val ro) PyNone PyNone op))
  | ExternModule e =>
      to <- get_attr (e_tmp_out e) ;;
      ro <- torch_cat to ;;
      match e_class e with
      | OtherModule =>
          Ok (ExternModule (set_extern_captured (e_raw_input e) (Val ro)
                                                PyNone PyNone e))
      | _ =>
          ti <- get_attr (e_tmp_input e) ;;
          ri <- torch_cat ti ;;
          Ok (ExternModule (set_extern_captured (Val ri) (Val ro)
                                                PyNone PyNone e))
      end
  end.

(** What the orchestrator does, in order: a forward pass of the whole network
    (with the module whose hooks are attached, if any, and the modes of all
    modules during the pass), a search, a reparameterization, a write of
    [mode]. *)
Inductive Event : Type :=
| EvForward (hooked : option nat) (modes : list (attr string))
| EvSearch (idx : nat)
| EvReparam (idx : nat)
| EvSetMode (idx : nat).

Fixpoint list_set {A : Type} (i : nat) (v : A) (l : list A) : list A :=
  match l, i with
  | [], _ => []
  | _ :: t, O => v :: t
  | a :: t, S i' => a :: list_set i' v t
  end.

Definition Calib : Type := (list Module * list Event)%type.

Section Calibrator.

Variable rand_like : T4 -> T4.
Variable quantile_accepts : list (list (list R)) -> bool.
Variable dev : Device.

(** [self.model(inp)]: a forward pass of the network in the current state of
    its modules; per module, what its call (if any) received and returned. *)
Variable run_model : list Module -> T4 -> result (list (option Capture)).

(** [hyperparameter_searching] and [reparam] of the classes that are not
    among the sources. *)
Variable extern_search : Extern -> result Extern.
Variable extern_reparam : Extern -> result Extern.

(** [module.hyperparameter_searching()]: only the asymmetric matmul class
    defines the method. *)
Definition module_search (md : Module) : result Module :=
  match md with
  | MatMulModule op =>
      match cls op with
      | AsymmetricallyBatchingQuantMatMul =>
          '(op', _) <-
            hyperparameter_searching rand_like quantile_accepts dev op ;;
          Ok (MatMulModule op')
      | _ => Raise AttributeError
      end
  | ExternModule e => e' <- extern_search e ;; Ok (ExternModule e')
  end.

(** The first loop: one pass over the calibration set, no hooks. *)
Definition warm_pass (model : list Module) (inp : T4) (log : list Event)
  : result (list Event) :=
  _ <- run_model model inp ;;
  Ok (log ++ [EvForward None (map module_mode model)]).

(** One batch through the network while module [idx] carries the hooks. *)
Definition capture_pass (idx : nat) (inp : T4) (st : Calib) : result Calib :=
  let '(model, log) := st in
  captures <- run_model model inp ;;
  let log := log ++ [EvForward (Some idx) (map module_mode model)] in
  match nth_error model idx, nth idx captures None with
  | Some md, Some c =>
      md' <- fire_hooks md c ;;
      Ok (list_set idx md' model, log)
  | _, _ => Ok (model, log)
  end.

(** The body of the loop over [named_modules()]. *)
Definition calibrate_module (calib_loader : list T4) (idx : nat)
  (st : Calib) : result Calib :=
  match nth_error (fst st) idx with
  | None => Ok st
  | Some md =>
      if negb (module_has_metric md) || module_calibrated md then Ok st
      else
        '(model, log) <- foldM (capture_pass idx) calib_loader st ;;
        md <- match nth_error model idx with
              | Some md => Ok md
              | None => Raise IndexError
              end ;;
        md <- collect_captured md ;;
        md <- module_search md ;;
        let log := log ++ [EvSearch idx] in
        match md with
        | ExternModule e =>
            if e_has_prev_layer e then
              e' <- extern_reparam e ;;
              Ok (list_set idx (ExternModule e') model,
                  log ++ [EvReparam idx])
            else Ok (list_set idx md model, log)
        | MatMulModule _ => Ok (list_set idx md model, log)
        end
  end.

(** "end calibration": every module that has a [mode] gets
    ["quant_forward"]. *)
Definition flip_mode (idx : nat) (st : Calib) : Calib :=
  let '(model, log) := st in
  match nth_error model idx with
  | Some (MatMulModule op) =>
      (list_set idx (MatMulModule (set_mode "quant_forward" op)) model,
       log ++ [EvSetMode idx])
  | Some (ExternModule e) =>
      match e_mode e with
      | Deleted => st
      | _ => (list_set idx (ExternModule (set_extern_mode "quant_forward" e))
                       model,
              log ++ [EvSetMode idx])
      end
  | None => st
  end.

(** [QuantCalibrator.batching_quant_calib]. *)
Definition batching_quant_calib (model : list Module)
  (calib_loader : list T4) : result Calib :=
  (* device = next(self.model.parameters()).device *)
  _ <- first_parameter model ;;
  log <- foldM (warm_pass model) calib_loader [] ;;
  st <- foldM (calibrate_module calib_loader)
              (seq 0 (length model)) (model, log) ;;
  Ok (fold_left (fun st idx => flip_mode idx st)
                (seq 0 (length (fst st))) st).

End Calibrator.

(** ** The operations on a matmul operator *)

(** The methods of the matmul classes, and what the calibrator does to a
    matmul module. *)
Inductive Operation : Type :=
| OpForward (A B : T4)
| OpQuantForward (A B : T4)
| OpQuantInput (side : Side) (x : T4)
| OpPerturbationForward (up : bool) (A B : T4)
| OpGetSimilarity (tensor_raw tensor_sim : T4) (metric : string)
                  (raw_grad : option T4)
| OpInitializeCalibParameters
| OpSearchBestScale (side : Side) (scales zero_points : Grid)
| OpCalculatePercentileCandidates (x : T4) (l r k : R)
| OpHyperparameterSearching
| OpFireHooks (c : Capture)
| OpCollectCaptured
| OpSetMode (s : string).

Definition as_matmul (md : Module) : result QuantMatMul :=
  match md with
  | MatMulModule op => Ok op
  | ExternModule _ => Raise TypeError
  end.

Section Operations.

Variable rand_like : T4 -> T4.
Variable quantile_accepts : list (list (list R)) -> bool.
Variable dev : Device.

(** The operator after an operation, when the operation returns. *)
Definition step (o : Operation) (m : QuantMatMul) : result QuantMatMul :=
  match o with
  | OpForward A B => _ <- forward rand_like m A B ;; Ok m
  | OpQuantForward A B => _ <- quant_forward rand_like m A B ;; Ok m
  | OpQuantInput SideA x => _ <- quant_input_A rand_like m x ;; Ok m
  | OpQuantInput SideB x => _ <- quant_input_B rand_like m x ;; Ok m
  | OpPerturbationForward _ _ _ => Ok m
  | OpGetSimilarity r s mt g => _ <- _get_similarity r s mt g ;; Ok m
  | OpInitializeCalibParameters => _initialize_calib_parameters dev m
  | OpSearchBestScale side sc zp =>
      '(_, m') <- search_best_scale rand_like side m sc zp ;; Ok m'
  | OpCalculatePercentileCandidates x l r k =>
      _ <- calculate_percentile_candidates quantile_accepts m x l r k ;;
      Ok m
  | OpHyperparameterSearching =>
      '(m', _) <-
        hyperparameter_searching rand_like quantile_accepts dev m ;;
      Ok m'
  | OpFireHooks c => md <- fire_hooks (MatMulModule m) c ;; as_matmul md
  | OpCollectCaptured =>
      md <- collect_captured (MatMulModule m) ;; as_matmul md
  | OpSetMode s => Ok (set_mode s m)
  end.

End Operations.

(** The power [x^k] of a non-negative real, as the specification writes it. *)
Definition real_pow (x k : R) : R :=
  if Req_dec_T x 0 then 0 else Rpower x k.

(** ** Notions used by the statements *)

(** The level of index [i], as the specification writes it. *)
Definition level (eq_n : Z) (l r k : R) (i : Z) : R :=
  l + (r - l) * real_pow (IZR i / IZR (eq_n - 1)) k.

(** A refill keeps the entries it consumes, in order. *)
Definition refills {A : Type} (flat : A -> list R)
  (f : A -> list R -> A * list R) : Prop :=
  forall a d, (length (flat a) <= length d)%nat ->
    flat (fst (f a d)) ++ snd (f a d) = d /\
    length (flat (fst (f a d))) = length (flat a).

(** The row of a level when every quantile is defined. *)
Definition row_value (x_ : list (list (list R))) (p : R) : list R :=
  map (fun head : list (list R) =>
         mean (map (fun part : list R =>
                      interpolate (sort_R part)
                                  (p * (INR (length part) - 1))) head)) x_.

(** The percentile levels of [hyperparameter_searching]. *)
Definition search_levels (eq_n : Z) : list R :=
  map (level eq_n (999 / 1000) (99999 / 100000) (1 / 10)) (py_range eq_n)
  ++ [1].

(** The rows of an operand, each as a single mini-batch. *)
Definition single_batches (rows : list (list R)) : list (list (list R)) :=
  map (fun row => [row]) rows.

(** The upper and lower percentile grids of an operand. *)
Definition operand_percentiles (eq_n : Z) (x_ : list (list (list R)))
  : Grid * Grid :=
  (map (row_value x_) (search_levels eq_n),
   map (row_value x_) (map (fun p => 1 - p) (search_levels eq_n))).

(** A quantizer seeded with the second-to-last candidate, and initialised. *)
Definition seeded (scales zero_points : Grid) (q : UniformQuantizer)
  : UniformQuantizer :=
  set_inited
    (set_zero_point (nth (length zero_points - 2) zero_points [])
       (set_scale (nth (length scales - 2) scales []) q)).

(** What a search leaves untouched in an operator. *)
Definition same_settings (m m' : QuantMatMul) : Prop :=
  cls m' = cls m /\ mode m' = mode m /\ calibrated m' = calibrated m /\
  eq_n m' = eq_n m /\ search_round m' = search_round m /\
  n_bits (A_quantizer m') = n_bits (A_quantizer m) /\
  n_bits (B_quantizer m') = n_bits (B_quantizer m).

(** The refinement of one side in one round: for a bit-width below 32, two
    searches in order, the first over the candidates with the upper endpoint
    held at the incoming best index, the second over those with the lower
    endpoint held at the index the first has returned; for any other
    bit-width, nothing. *)
Definition refined (rand_like : T4 -> T4) (side : Side) (p : Percentiles)
  (m : QuantMatMul) (best : list nat)
  (m' : QuantMatMul) (best' : list nat) (calls : list SearchCall) : Prop :=
  if (n_bits (quantizer_of side m) <? 32)%Z then
    exists mid m_mid,
      let L := n_levels (quantizer_of side m) in
      let upper_held :=
        phase_candidates L (uppers_of side p) (lowers_of side p) best 0 in
      let lower_held :=
        phase_candidates L (uppers_of side p) (lowers_of side p) mid 1 in
      search_best_scale rand_like side m (fst upper_held) (snd upper_held)
        = Ok (mid, m_mid) /\
      search_best_scale rand_like side m_mid (fst lower_held) (snd lower_held)
        = Ok (best', m') /\
      calls = [mkSearchCall side (fst upper_held) (snd upper_held);
               mkSearchCall side (fst lower_held) (snd lower_held)]
  else m' = m /\ best' = best /\ calls = [].

(** ** A small operator to run the definitions on

    One sample, one head: [A = [0, 1000]] (1 x 2) and [B] its transpose
    (2 x 1), so that [A @ B = [1000000]]; 8-bit asymmetric quantizers, the
    metric "mse", [eq_n = 2], one refinement round. *)
Definition example_A : T4 := [[[[0; 1000]]]].
Definition example_B : T4 := [[[[0]; [1000]]]].
Definition example_out : T4 := [[[[1000000]]]].

Definition example_fresh : QuantMatMul :=
  AsymmetricallyBatchingQuantMatMul_init 8 8 "raw" "mse" 32 1 2 1.

(** The operator after the calibrator has captured its tensors. *)
Definition example_op : QuantMatMul :=
  set_captured (Val (example_A, example_B)) (Val example_out) PyNone PyNone
               example_fresh.

(** A device with CUDA and 16 GiB of memory. *)
Definition example_dev : Device := mkDevice true 17179869184.

(** No stochastic bypass, and a quantile that always fits. *)
Definition no_rand : T4 -> T4 := fun x => x.
Definition always_accepts : list (list (list R)) -> bool := fun _ => true.

(** The operator with calibration parameters and hand-made quantizer
    parameters, and a grid of three candidates per side. *)
Definition example_ready : QuantMatMul :=
  set_quantizers
    (set_inited (set_zero_point [0] (set_scale [4] (A_quantizer example_op))))
    (set_inited (set_zero_point [0] (set_scale [4] (B_quantizer example_op))))
    (set_calib_parameters 1 2 example_op).

Definition example_scales : Grid := [[8]; [4]; [2]].
Definition example_zero_points : Grid := [[0]; [0]; [0]].

(** ** When the search returns *)

Definition is_val {A : Type} (a : attr A) : bool :=
  match a with Val _ => true | _ => false end.

(** A quantizer whose forward pass returns: initialised, with a scale and a
    zero-point. *)
Definition quantizer_ready (q : UniformQuantizer) : bool :=
  inited q && is_val (scale q) && is_val (zero_point q).

(** An operator on which a per-side search returns: captured tensors and
    calibration parameters are there, every loop runs at least once, the
    metric needs no gradient, and both quantizers are ready. *)
Definition searchable (m : QuantMatMul) : bool :=
  match calib_size m, parallel_eq_n m with
  | Val cs, Val pe =>
      (1 <=? cs)%Z && (1 <=? pe)%Z && (1 <=? calib_batch_size m)%Z
      && (1 <=? eq_n m)%Z
      && is_val (raw_input m) && is_val (raw_out m)
      && match raw_grad m with Deleted => false | _ => true end
      && (String.eqb (metric m) "mae" || String.eqb (metric m) "mse")
      && quantizer_ready (A_quantizer m) && quantizer_ready (B_quantizer m)
  | _, _ => false
  end.

(** An operand whose per-head rows are not empty and whose quantiles are
    accepted at the first attempt. *)
Definition rows_ready (acc : list (list (list R)) -> bool) (x : T4) : bool :=
  match per_head_rows x with
  | Ok rows =>
      forallb (fun row : list R => negb (length row =? 0)%nat) rows
      && acc (single_batches rows)
  | Raise _ => false
  end.

(** An operator on which the seeding returns: the memory budget is computed,
    [eq_n >= 2], both operands are ready and both quantizers own a scale and
    a zero-point. *)
Definition calibratable (acc : list (list (list R)) -> bool) (dev : Device)
  (m : QuantMatMul) : bool :=
  match raw_input m, _initialize_calib_parameters dev m with
  | Val (rA, rB), Ok _ =>
      (2 <=? eq_n m)%Z && rows_ready acc rA && rows_ready acc rB
      && is_val (scale (A_quantizer m)) && is_val (zero_point (A_quantizer m))
      && is_val (scale (B_quantizer m)) && is_val (zero_point (B_quantizer m))
  | _, _ => false
  end.

(** What the searches need beyond the seeding: chunks of at least one sample,
    a gradient attribute, and a metric that needs no gradient. *)
Definition plain_search (m : QuantMatMul) : bool :=
  (1 <=? calib_batch_size m)%Z
  && match raw_grad m with Deleted => false | _ => true end
  && (String.eqb (metric m) "mae" || String.eqb (metric m) "mse").

(** The seed of a side: scale and zero-point of the level
    [r = 0.99999]. *)
Definition seed_scale (L : R) (x_ : list (list (list R))) : list R :=
  zip_with (fun u l => (u - l) / (2 * L - 1))
           (row_value x_ (99999 / 100000))
           (row_value x_ (1 - 99999 / 100000)).

Definition seed_zero_point (L : R) (x_ : list (list (list R))) : list R :=
  zip_with (fun l s => - round_half_even (l / s))
           (row_value x_ (1 - 99999 / 100000))
           (seed_scale L x_).

(** An operator as one of the four constructors leaves it. *)
Inductive fresh : QuantMatMul -> Prop :=
| fresh_MinMax (A_bit B_bit : Z) (mode0 : string) :
    fresh (MinMaxQuantMatMul_init A_bit B_bit mode0)
| fresh_PTQSL (A_bit B_bit : Z) (mode0 metric0 : string)
    (search_round0 eq_n0 : Z) (num_heads0 : nat) :
    fresh (PTQSLQuantMatMul_init A_bit B_bit mode0 metric0 search_round0 eq_n0
                                 num_heads0)
| fresh_PTQSLBatching (A_bit B_bit : Z) (mode0 metric0 : string)
    (calib_batch_size0 search_round0 eq_n0 : Z) (num_heads0 : nat) :
    fresh (PTQSLBatchingQuantMatMul_init A_bit B_bit mode0 metric0
             calib_batch_size0 search_round0 eq_n0 num_heads0)
| fresh_Asymmetric (A_bit B_bit : Z) (mode0 metric0 : string)
    (calib_batch_size0 search_round0 eq_n0 : Z) (num_heads0 : nat) :
    fresh (AsymmetricallyBatchingQuantMatMul_init A_bit B_bit mode0 metric0
             calib_batch_size0 search_round0 eq_n0 num_heads0).

(** The same operator with a full-precision side B, and percentile grids of
    three candidates. *)
Definition example_mixed : QuantMatMul :=
  set_B_quantizer
    (set_inited (set_zero_point [0]
                   (set_scale [4] (UniformQuantizer_init 32 false true))))
    example_ready.

Definition example_percentiles : Percentiles :=
  mkPercentiles [[998]; [999]; [1000]] [[2]; [1]; [0]]
                [[998]; [999]; [1000]] [[2]; [1]; [0]].

(** ** Notions for the orchestrator *)

(** [hasattr(module, 'mode')]. *)
Definition has_mode (md : Module) : bool :=
  match module_mode md with
  | Deleted => false
  | _ => true
  end.

(** A module after the final pass. *)
Definition flipped (md : Module) : Module :=
  match md with
  | MatMulModule op => MatMulModule (set_mode "quant_forward" op)
  | ExternModule e =>
      match e_mode e with
      | Deleted => md
      | _ => ExternModule (set_extern_mode "quant_forward" e)
      end
  end.

(** Calibration-eligible: has a metric and is not calibrated yet. *)
Definition eligible (md : Module) : bool :=
  module_has_metric md && negb (module_calibrated md).

(** An event of the calibration proper: not a write of [mode], and if it is a
    forward pass, one that runs with the modes the modules of [model] have. *)
Definition work_event (model : list Module) (ev : Event) : Prop :=
  match ev with
  | EvSetMode _ => False
  | EvForward _ modes => modes = map module_mode model
  | _ => True
  end.

(** A network of three modules: a plain matmul without metric, the example
    operator, and a module without [mode]; a forward pass hands the example
    tensors to the hooks of the second. *)
Definition example_model : list Module :=
  [MatMulModule (MinMaxQuantMatMul_init 8 8 "raw");
   MatMulModule example_fresh;
   ExternModule (mkExtern OtherModule false false Deleted
                          PyNone PyNone PyNone PyNone false false)].

Definition example_run_model (_ : list Module) (_ : T4)
  : result (list (option Capture)) :=
  Ok [None; Some (example_A, example_B, example_out); None].

Definition example_loader : list T4 := [[[[[1]]]]].

(** Whether the module of index [i] has a [mode]. *)
Definition mode_at (model : list Module) (i : nat) : bool :=
  match nth_error (map module_mode model) i with
  | Some Deleted | None => false
  | Some _ => true
  end.

(** ** Notions for the entry-wise statements *)

(** The parameters of the heads of a sample of [n] heads: the scale of a
    symmetric quantizer, and the pair of scale and zero-point of an asymmetric
    one. *)
Definition scale_of_heads (s : list R) (n : nat) : list R := expand_heads s n.

Definition params_of_heads (s z : list R) (n : nat) : list (R * R) :=
  combine (expand_heads s n) (expand_heads z n).

(** [P p xv yv] for every entry [xv] of [x] and the entry [yv] of [y] at the
    same place, [p] being the parameters of the head of the entry; [x] and [y]
    have the same shape. *)
Definition heads_all2 {A : Type} (P : A -> R -> R -> Prop)
  (params : nat -> list A) (x y : T4) : Prop :=
  Forall2 (fun sx sy : T3 =>
             Forall2 (fun (p : A * Mat) (my : Mat) =>
                        Forall2 (Forall2 (P (fst p))) (snd p) my)
                     (combine (params (length sx)) sx) sy) x y.

(** A per-head parameter fits a tensor when torch broadcasts it along the
    head axis without changing the shape of the tensor: it has one entry, or
    one entry for each head of every sample. *)
Definition heads_fit {A : Type} (p : list A) (x : T4) : Prop :=
  length p = 1%nat \/ Forall (fun sample : T3 => length sample = length p) x.

(** Two tensors of the same shape: as many samples, heads, rows and
    entries in each row. *)
Definition same_shape (x y : T4) : Prop :=
  Forall2 (Forall2 (Forall2 (fun r r' : list R => length r = length r'))) x y.

(** A tensor of shape [b, h, r, c]. *)
Definition shaped (b h r c : nat) (x : T4) : Prop :=
  length x = b /\
  Forall (fun sample : T3 =>
            length sample = h /\
            Forall (fun m : Mat =>
                      length m = r /\ Forall (fun row => length row = c) m)
                   sample) x.

(** [P xv] for every entry of a tensor. *)
Definition t4_all (P : R -> Prop) (x : T4) : Prop :=
  Forall (Forall (Forall (Forall P))) x.

(** A row in non-decreasing order: every entry is at most the entries after
    it. *)
Fixpoint ascending (l : list R) : Prop :=
  match l with
  | [] => True
  | a :: t => (forall b, In b t -> a <= b) /\ ascending t
  end.

(** [module.tmp_out]. *)
Definition module_tmp_out (md : Module) : attr (list T4) :=
  match md with
  | MatMulModule op => tmp_out op
  | ExternModule e => e_tmp_out e
  end.

(** A matmul module as its calibration leaves it: of the class that defines
    the search, calibrated, the captured tensors deleted and the hook buffers
    reset. *)
Definition calibrated_matmul (md : Module) : Prop :=
  exists op,
    md = MatMulModule op /\
    cls op = AsymmetricallyBatchingQuantMatMul /\
    calibrated op = true /\
    raw_input op = Deleted /\ raw_out op = Deleted /\ raw_grad op = Deleted /\
    tmp_input op = PyNone /\ tmp_out op = PyNone.

(** What the orchestrator's step of a module does to the module: nothing if
    it is not eligible, and a calibration if it is an eligible matmul
    module. *)
Definition step_post (md md' : Module) : Prop :=
  (eligible md = false -> md' = md) /\
  (forall op, md = MatMulModule op -> eligible md = true ->
              calibrated_matmul md').

(** The forward passes of the network in a record of the orchestrator, and
    the calibration-eligible modules of a model. *)
Definition is_forward (ev : Event) : bool :=
  match ev with
  | EvForward _ _ => true
  | _ => false
  end.

Definition forward_passes (log : list Event) : nat :=
  length (filter is_forward log).

Definition count_eligible (model : list Module) : nat :=
  length (filter eligible model).

(** ** Shapes of parameters and grids *)

(** The scale and the zero-point of a quantizer, as far as it owns them, fit
    tensors of [h] heads: each has one entry, or [h] entries. *)
Definition quantizer_fits (q : UniformQuantizer) (h : nat) : Prop :=
  (forall s, scale q = Val s -> length s = 1%nat \/ length s = h) /\
  (forall z, zero_point q = Val z -> length z = 1%nat \/ length z = h).

(** A quantizer that owns a scale and a zero-point of one entry per head,
    for [h] heads. *)
Definition per_head_parameters (h : nat) (q : UniformQuantizer) : Prop :=
  exists s z,
    scale q = Val s /\ zero_point q = Val z /\ length s = h /\ length z = h.

(** A grid of at least one candidate, each with one entry per head. *)
Definition per_head_grid (h : nat) (g : Grid) : Prop :=
  g <> [] /\ Forall (fun row => length row = h) g.

(** An operator in the course of a search on captured tensors [rA], [rB] and
    [ro] of [N] samples and [h] heads. *)
Definition searching_on (N h : nat) (rA rB ro : T4) (m : QuantMatMul)
  : Prop :=
  raw_input m = Val (rA, rB) /\ raw_out m = Val ro /\
  calib_size m = Val (Z.of_nat N) /\ (1 <= eq_n m)%Z /\
  per_head_parameters h (A_quantizer m) /\
  per_head_parameters h (B_quantizer m).

(** ** Notions for the statements about a whole run *)

(** The grids of the two phases of a refinement, as the specification
    describes them.  Upper endpoint held: the candidate of index [i] has, for
    every head, the upper percentile at the best index of that head and the
    lower percentile of index [i].  Lower endpoint held: the other way
    round.  The scale is [(upper - lower) / (2 * n_levels - 1)] and the
    zero-point [-round(lower / scale)]. *)
Definition upper_held_grids (L : R) (uppers lowers : Grid)
  (best : list nat) : Grid * Grid :=
  let held := gather uppers best in
  let scales :=
    map (fun lrow => zip_with (fun u l => (u - l) / (2 * L - 1)) held lrow)
        lowers in
  (scales,
   zip_with (zip_with (fun l s => - round_half_even (l / s))) lowers scales).

Definition lower_held_grids (L : R) (uppers lowers : Grid)
  (best : list nat) : Grid * Grid :=
  let held := gather lowers best in
  let scales :=
    map (fun urow => zip_with (fun u l => (u - l) / (2 * L - 1)) urow held)
        uppers in
  (scales,
   map (fun srow => zip_with (fun l s => - round_half_even (l / s)) held srow)
       scales).

(** The output of the operator recomputed for one candidate [(s, z)] of the
    searched side: the searched operand quantized with the candidate,
    multiplied with the other operand as it enters. *)
Definition recomputed_output (side : Side) (m : QuantMatMul)
  (A B other : T4) (s z : list R) : T4 :=
  match side with
  | SideA => matmul (candidate_sim (n_levels (A_quantizer m)) s z A) other
  | SideB => matmul other (candidate_sim (n_levels (B_quantizer m)) s z B)
  end.

(** The score table of the chunk of samples that starts at [b_st], in a
    search of [side] on the operator [m] with captured tensors [rA], [rB] and
    [ro]: the other operand passes once through its own quantizer, as the
    operator holds it, and each of the first [eq_n] candidates is scored on
    the output recomputed with it. *)
Definition recomputed_chunk (rand_like : T4 -> T4) (side : Side)
  (m : QuantMatMul) (scales zero_points : Grid) (rA rB ro : T4) (cs : Z)
  (b_st : Z) (table : Grid) : Prop :=
  let b_ed := Z.min cs (b_st + calib_batch_size m) in
  let A := py_slice b_st b_ed rA in
  let B := py_slice b_st b_ed rB in
  let raw_grad :=
    match raw_grad m with
    | Val g => Some (py_slice b_st b_ed g)
    | _ => None
    end in
  exists other,
    match side with
    | SideA => UniformQuantizer_forward rand_like (B_quantizer m) B
    | SideB => UniformQuantizer_forward rand_like (A_quantizer m) A
    end = Ok other /\
    mapM (fun sz : list R * list R =>
            similarity <-
              _get_similarity (py_slice b_st b_ed ro)
                (recomputed_output side m A B other (fst sz) (snd sz))
                (metric m) raw_grad ;;
            Ok (head_scores similarity))
         (firstn (Z.to_nat (eq_n m)) (combine scales zero_points))
      = Ok table.

(** A search of [side] on the operator [m] over the grids [scales] and
    [zero_points], as the specification describes it: in every chunk of
    samples the first [eq_n] candidates are scored on the recomputed output,
    the tables of the chunks are summed, the best index of every head is the
    row of its highest summed score, hence below [eq_n], and the entries of
    the candidates at the best indices are written into the quantizer of the
    side. *)
Definition recomputed_search (rand_like : T4 -> T4) (side : Side)
  (m : QuantMatMul) (scales zero_points : Grid) (best : list nat)
  (m' : QuantMatMul) : Prop :=
  exists rA rB ro cs b_starts tables table,
    raw_input m = Val (rA, rB) /\ raw_out m = Val ro /\
    calib_size m = Val cs /\
    py_range_step cs (calib_batch_size m) = Ok b_starts /\
    Forall2 (recomputed_chunk rand_like side m scales zero_points rA rB ro cs)
            b_starts tables /\
    sum_tables tables = Ok table /\
    best = argmax_dim0 table /\
    (forall h i, nth_error best h = Some i -> (Z.of_nat i < eq_n m)%Z) /\
    m' = set_quantizer_of side
           (set_zero_point (gather zero_points best)
              (set_scale (gather scales best) (quantizer_of side m))) m.

(** A call of the per-side search that has returned [best] and left the
    operator [m'], that is such a search, and that returns the same on all
    grids with the same first [eq_n] candidates: the candidates from index
    [eq_n] on are not scored. *)
Definition scored_search (rand_like : T4 -> T4) (side : Side)
  (m : QuantMatMul) (scales zero_points : Grid) (best : list nat)
  (m' : QuantMatMul) : Prop :=
  search_best_scale rand_like side m scales zero_points = Ok (best, m') /\
  recomputed_search rand_like side m scales zero_points best m' /\
  forall scales' zero_points',
    firstn (Z.to_nat (eq_n m)) scales' = firstn (Z.to_nat (eq_n m)) scales ->
    firstn (Z.to_nat (eq_n m)) zero_points'
      = firstn (Z.to_nat (eq_n m)) zero_points ->
    search_best_scale rand_like side m scales' zero_points' = Ok (best, m').

(** What an operand becomes in a quantizer that holds the scale [s] and the
    zero-point [z], outside training: itself at 32 bits, and at any other
    bit-width its entries quantized with [s], and with [z] if the quantizer
    is asymmetric. *)
Definition quantized_with (q : UniformQuantizer) (s z : list R) (x : T4)
  : T4 :=
  if (n_bits q =? 32)%Z then x
  else if sym q then per_head (quant_sym false (n_levels q)) s x
  else per_head2 (quant_asym false (n_levels q)) s z x.

(** The refinement of one side in one round, for a side of bit-width [bits]
    and [L] levels: below 32 bits two searches in order, the first over the
    grids that hold the upper endpoint at the incoming best index, the second
    over the grids that hold the lower endpoint at the index the first search
    has returned; at any other bit-width nothing. *)
Definition side_refinement (rand_like : T4 -> T4) (side : Side) (bits : Z)
  (L : R) (uppers lowers : Grid) (m : QuantMatMul) (best : list nat)
  (m' : QuantMatMul) (best' : list nat) (calls : list SearchCall) : Prop :=
  if (bits <? 32)%Z then
    exists mid m_mid,
      let first := upper_held_grids L uppers lowers best in
      let second := lower_held_grids L uppers lowers mid in
      scored_search rand_like side m (fst first) (snd first) mid m_mid /\
      scored_search rand_like side m_mid (fst second) (snd second)
                    best' m' /\
      calls = [mkSearchCall side (fst first) (snd first);
               mkSearchCall side (fst second) (snd second)]
  else m' = m /\ best' = best /\ calls = [].

(** [rounds] refinement rounds in a row, each refining side A and then side
    B, from the operator [m] and the best indices [A_best] and [B_best] to
    the operator [m'], with the searches [calls] in the order they are
    run. *)
Fixpoint refinement_rounds (rand_like : T4 -> T4) (rounds : nat)
  (bitsA bitsB : Z) (LA LB : R) (p : Percentiles) (m : QuantMatMul)
  (A_best B_best : list nat) (m' : QuantMatMul) (calls : list SearchCall)
  : Prop :=
  match rounds with
  | O => m' = m /\ calls = []
  | S rounds' =>
      exists mA A_best' callsA mB B_best' callsB rest,
        side_refinement rand_like SideA bitsA LA (A_uppers p) (A_lowers p)
                        m A_best mA A_best' callsA /\
        side_refinement rand_like SideB bitsB LB (B_uppers p) (B_lowers p)
                        mA B_best mB B_best' callsB /\
        refinement_rounds rand_like rounds' bitsA bitsB LA LB p
                          mB A_best' B_best' m' rest /\
        calls = callsA ++ callsB ++ rest
  end.

(** A whole run of [hyperparameter_searching] on [m], with the operator it
    leaves and the searches it has run: the seeding, the search of A on the
    seeded operator, the search of B on the operator that the search of A has
    left, then [search_round] refinement rounds, and the latch. *)
Definition search_run (rand_like : T4 -> T4)
  (acc : list (list (list R)) -> bool) (dev : Device) (m : QuantMatMul)
  (p : Percentiles) (c : Candidates) (ms : QuantMatMul)
  (A_best : list nat) (mA : QuantMatMul) (B_best : list nat)
  (mB : QuantMatMul) (m' : QuantMatMul) (calls : list SearchCall) : Prop :=
  seeding acc dev m = Ok (p, c, ms) /\
  scored_search rand_like SideA ms (A_scale_candidates c)
                (A_zero_point_candidates c) A_best mA /\
  scored_search rand_like SideB mA (B_scale_candidates c)
                (B_zero_point_candidates c) B_best mB /\
  exists mR rest,
    refinement_rounds rand_like (Z.to_nat (search_round m))
      (n_bits (A_quantizer m)) (n_bits (B_quantizer m))
      (n_levels (A_quantizer m)) (n_levels (B_quantizer m))
      p mB A_best B_best mR rest /\
    calls = mkSearchCall SideA (A_scale_candidates c)
                         (A_zero_point_candidates c)
            :: mkSearchCall SideB (B_scale_candidates c)
                            (B_zero_point_candidates c)
            :: rest /\
    m' = latch_and_release mR.

(** Percentile grids of three candidates for one refinement phase on the
    example: the upper endpoint 1020, and the lower endpoints 255, -127.5 and
    -255, which give the scales 3, 4.5 and 5. *)
Definition example_held_uppers : Grid := [[1020]; [1020]; [1020]].
Definition example_swept_lowers : Grid := [[255]; [-255 / 2]; [-255]].

(** A quantile that fits only once every head is split into at least two
    mini-batches: the first attempt of the candidate generator fails. *)
Definition accepts_split : list (list (list R)) -> bool :=
  forallb (fun head : list (list R) => (2 <=? length head)%nat).

(** * Properties *)

(** ** The affine quantizer *)

(** A 32-bit quantizer that was never initialised passes its input through. *)
Lemma forward_uninited_full_precision :
  inited (UniformQuantizer_init 32 false false) = false /\
  UniformQuantizer_forward (fun x => x) (UniformQuantizer_init 32 false false)
                           [[[[1]]]] = Ok [[[[1]]]].
Proof. split; reflexivity. Qed.

(** C5 (as amended): while [inited] is false, [forward] fails with the
    assertion error for every bit-width other than 32; at 32 bits the
    pass-through comes first and the input is returned unchanged. *)
Theorem forward_before_inited (rand_like : T4 -> T4) (q : UniformQuantizer)
  (x : T4) :
  inited q = false ->
  UniformQuantizer_forward rand_like q x =
    if (n_bits q =? 32)%Z then Ok x else Raise AssertionError.
Proof.
  intros Hq. unfold UniformQuantizer_forward.
  destruct (n_bits q =? 32)%Z; [reflexivity|].
  rewrite Hq. reflexivity.
Qed.

Lemma forward_before_inited_witness :
  UniformQuantizer_forward (fun x => x) (UniformQuantizer_init 8 false false)
                           [[[[1]]]] = Raise AssertionError.
Proof.
  exact (forward_before_inited (fun x => x) (UniformQuantizer_init 8 false false)
           [[[[1]]]] eq_refl).
Defined.

(** ** The memory budget *)

(** With [eq_n = 100] and a bound of 40 the chosen parallelism is 34, which
    does not divide 100: the groups are 34, 34 and 32. *)
Lemma balanced_parallel_100_40 :
  balanced_parallel 100 40 = Ok 34%Z /\ (100 mod 34 = 32)%Z.
Proof. split; reflexivity. Qed.

Lemma ceil_div_pos (a b : Z) :
  (0 < b)%Z -> exists c, ceil_div a b = Ok c /\ (b * (c - 1) < a <= b * c)%Z.
Proof.
  intros Hb. unfold ceil_div.
  destruct (Z.eqb_spec b 0); [lia|].
  eexists; split; [reflexivity|].
  pose proof (Z.div_mod (- a) b ltac:(lia)).
  pose proof (Z.mod_pos_bound (- a) b Hb). nia.
Qed.

Lemma ceil_div_unique (a b c : Z) :
  (0 < b)%Z -> (b * (c - 1) < a <= b * c)%Z -> ceil_div a b = Ok c.
Proof.
  intros Hb Hc. destruct (ceil_div_pos a b Hb) as (c' & -> & Hc').
  f_equal. nia.
Qed.

Lemma balanced_parallel_range (n p : Z) :
  (1 <= n)%Z -> (1 <= p)%Z ->
  exists pe, balanced_parallel n p = Ok pe /\
             (1 <= pe <= p)%Z /\
             ceil_div n pe = ceil_div n p.
Proof.
  intros Hn Hp. unfold balanced_parallel.
  destruct (ceil_div_pos n p ltac:(lia)) as (g & Hg & Hgb).
  assert (1 <= g)%Z by nia.
  destruct (ceil_div_pos n g ltac:(lia)) as (pe & Hpe & Hpeb).
  exists pe. rewrite Hg. cbn [bind]. split; [exact Hpe|].
  assert (1 <= pe <= p)%Z by nia.
  split; [assumption|].
  apply ceil_div_unique; [lia|]. nia.
Qed.

(** C2 (as amended): for [eq_n >= 1] and a bound [p >= 1], the chosen
    parallelism lies between 1 and [p] and needs exactly as many groups as
    [p] does, [ceil(eq_n / pe) = ceil(eq_n / p)]; it need not divide
    [eq_n]. *)
Theorem balanced_parallel_bounds (n p : Z) :
  (1 <= n)%Z -> (1 <= p)%Z ->
  exists pe, balanced_parallel n p = Ok pe /\
             (1 <= pe <= p)%Z /\
             ceil_div n pe = ceil_div n p.
Proof. exact (balanced_parallel_range n p). Qed.

Lemma balanced_parallel_bounds_witness :
  exists pe, balanced_parallel 100 30 = Ok pe /\
             (1 <= pe <= 30)%Z /\
             ceil_div 100 pe = ceil_div 100 30.
Proof. apply (balanced_parallel_bounds 100 30); lia. Defined.

(** What [_initialize_calib_parameters] stores is the balanced parallelism of
    the memory-derived bound, which is at least 1. *)
Lemma initialize_calib_parameters_parallel (dev : Device) (m m' : QuantMatMul) :
  _initialize_calib_parameters dev m = Ok m' ->
  exists rA rB p pe,
    raw_input m = Val (rA, rB) /\
    (1 <= p)%Z /\
    balanced_parallel (eq_n m) p = Ok pe /\
    m' = set_calib_parameters (Z.of_nat (length rA)) pe m.
Proof.
  unfold _initialize_calib_parameters. intros H.
  destruct (raw_input m) as [| |[rA rB]]; cbn in H; try discriminate.
  destruct (cuda_is_available dev); cbn in H; [|discriminate].
  destruct (raw_out m) as [| |ro]; cbn in H; try discriminate.
  unfold initial_parallel in H.
  destruct (_ =? 0)%Z; cbn in H; [discriminate|].
  match type of H with
  | bind (balanced_parallel _ ?p) _ = _ =>
      destruct (balanced_parallel (eq_n m) p) as [pe|] eqn:Hpe;
      cbn in H; [|discriminate];
      exists rA, rB, p, pe
  end.
  injection H as <-. repeat split; [lia | exact Hpe].
Qed.

Lemma initialize_calib_parameters_raw_out (dev : Device) (m m' : QuantMatMul) :
  _initialize_calib_parameters dev m = Ok m' -> is_val (raw_out m) = true.
Proof.
  unfold _initialize_calib_parameters. intros H.
  destruct (raw_input m) as [| |[rA rB]]; cbn in H; try discriminate.
  destruct (cuda_is_available dev); cbn in H; [|discriminate].
  destruct (raw_out m) as [| |ro]; cbn in H; try discriminate. reflexivity.
Qed.

(** ** The percentile levels *)

Lemma mapM_map {A B : Type} (f : A -> result B) (g : A -> B) (l : list A) :
  (forall a, In a l -> f a = Ok (g a)) -> mapM f l = Ok (map g l).
Proof.
  induction l as [|a l IH]; intros Hf; [reflexivity|].
  cbn [mapM map]. rewrite (Hf a (or_introl eq_refl)). cbn [bind].
  rewrite IH; [reflexivity|]. intros b Hb. apply Hf. right. exact Hb.
Qed.

Lemma in_py_range (n i : Z) : In i (py_range n) <-> (0 <= i < n)%Z.
Proof.
  unfold py_range. rewrite in_map_iff. split.
  - intros (j & <- & Hj). apply in_seq in Hj. lia.
  - intros Hi. exists (Z.to_nat i). split; [lia|]. apply in_seq. lia.
Qed.

Lemma length_py_range (n : Z) : length (py_range n) = Z.to_nat n.
Proof. unfold py_range. now rewrite length_map, length_seq. Qed.

Lemma nth_py_range (n : Z) (i : nat) (d : Z) :
  (i < Z.to_nat n)%nat -> nth i (py_range n) d = Z.of_nat i.
Proof.
  intros Hi. unfold py_range.
  rewrite (nth_indep _ d (Z.of_nat 0)) by now rewrite length_map, length_seq.
  rewrite map_nth, seq_nth by exact Hi. reflexivity.
Qed.

Lemma real_pow_nonneg (x k : R) : 0 <= real_pow x k.
Proof.
  unfold real_pow. destruct (Req_dec_T x 0); [lra|].
  unfold Rpower. left. apply exp_pos.
Qed.

Lemma real_pow_one (k : R) : real_pow 1 k = 1.
Proof.
  unfold real_pow. destruct (Req_dec_T 1 0); [lra|].
  unfold Rpower. rewrite ln_1, Rmult_0_r. apply exp_0.
Qed.

Lemma real_pow_monotone (x y k : R) :
  0 < k -> 0 <= x <= y -> real_pow x k <= real_pow y k.
Proof.
  intros Hk [Hx Hxy]. unfold real_pow at 1.
  destruct (Req_dec_T x 0) as [->|Hx0]; [apply real_pow_nonneg|].
  unfold real_pow. destruct (Req_dec_T y 0); [lra|].
  apply Rle_Rpower_l; lra.
Qed.

Lemma py_pow_real_pow (x k : R) : 0 < k -> py_pow x k = Ok (real_pow x k).
Proof.
  intros Hk. unfold py_pow, real_pow.
  destruct (Req_dec_T x 0); [|reflexivity].
  destruct (Rlt_dec 0 k); [reflexivity|contradiction].
Qed.

Lemma percentile_level_ok (eq_n : Z) (l r k : R) (i : Z) :
  (2 <= eq_n)%Z -> 0 < k ->
  percentile_level eq_n l r k i = Ok (level eq_n l r k i).
Proof.
  intros Hn Hk. unfold percentile_level.
  destruct (Z.eqb_spec (eq_n - 1) 0); [lia|].
  rewrite py_pow_real_pow by exact Hk. reflexivity.
Qed.

Lemma percentile_levels_ok (eq_n : Z) (l r k : R) :
  (2 <= eq_n)%Z -> 0 < k ->
  percentile_levels eq_n l r k =
    Ok (map (level eq_n l r k) (py_range eq_n) ++ [1]).
Proof.
  intros Hn Hk. unfold percentile_levels.
  rewrite (mapM_map _ (level eq_n l r k)); [reflexivity|].
  intros i _. now apply percentile_level_ok.
Qed.

Lemma level_monotone (eq_n : Z) (l r k : R) (i j : Z) :
  (2 <= eq_n)%Z -> l < r -> 0 < k -> (0 <= i <= j)%Z ->
  level eq_n l r k i <= level eq_n l r k j.
Proof.
  intros Hn Hlr Hk Hij. unfold level.
  apply Rplus_le_compat_l, Rmult_le_compat_l; [lra|].
  apply real_pow_monotone; [exact Hk|].
  assert (0 < IZR (eq_n - 1)) by (apply IZR_lt; lia).
  assert (0 <= IZR i) by (apply IZR_le; lia).
  assert (IZR i <= IZR j) by (apply IZR_le; lia).
  split.
  - apply Rmult_le_pos; [assumption|]. left. now apply Rinv_0_lt_compat.
  - apply Rmult_le_compat_r; [|assumption]. left. now apply Rinv_0_lt_compat.
Qed.

Lemma level_last (eq_n : Z) (l r k : R) :
  (2 <= eq_n)%Z -> level eq_n l r k (eq_n - 1) = r.
Proof.
  intros Hn. unfold level.
  assert (0 < IZR (eq_n - 1)) by (apply IZR_lt; lia).
  replace (IZR (eq_n - 1) / IZR (eq_n - 1)) with 1 by (field; lra).
  rewrite real_pow_one. lra.
Qed.

Lemma nth_levels (eq_n : Z) (l r k : R) (i : nat) :
  (i < Z.to_nat eq_n)%nat ->
  nth i (map (level eq_n l r k) (py_range eq_n) ++ [1]) 0 =
    level eq_n l r k (Z.of_nat i).
Proof.
  intros Hi. rewrite app_nth1 by now rewrite length_map, length_py_range.
  rewrite (nth_indep _ 0 (level eq_n l r k 0%Z))
    by now rewrite length_map, length_py_range.
  rewrite map_nth, nth_py_range by exact Hi. reflexivity.
Qed.

Lemma nth_levels_final (eq_n : Z) (l r k : R) :
  nth (Z.to_nat eq_n) (map (level eq_n l r k) (py_range eq_n) ++ [1]) 0 = 1.
Proof.
  rewrite app_nth2; rewrite length_map, length_py_range; [|lia].
  now rewrite Nat.sub_diag.
Qed.

(** C9: for [eq_n >= 2], [l < r <= 1] and [0 < k] the generator returns
    [eq_n + 1] levels, [l + (r - l) * (i / (eq_n - 1))^k] at index
    [i < eq_n] and exactly 1 at index [eq_n], and they are non-decreasing. *)
Theorem percentile_levels_grid (eq_n : Z) (l r k : R) :
  (2 <= eq_n)%Z -> l < r -> r <= 1 -> 0 < k ->
  exists pct,
    percentile_levels eq_n l r k = Ok pct /\
    Z.of_nat (length pct) = (eq_n + 1)%Z /\
    (forall i, (0 <= i < eq_n)%Z ->
       nth (Z.to_nat i) pct 0 =
         l + (r - l) * real_pow (IZR i / IZR (eq_n - 1)) k) /\
    nth (Z.to_nat eq_n) pct 0 = 1 /\
    (forall i j, (i <= j)%nat -> (j < length pct)%nat ->
       nth i pct 0 <= nth j pct 0).
Proof.
  intros Hn Hlr Hr Hk.
  exists (map (level eq_n l r k) (py_range eq_n) ++ [1]).
  split; [now apply percentile_levels_ok|].
  split; [rewrite length_app, length_map, length_py_range; cbn; lia|].
  split.
  { intros i Hi. rewrite nth_levels by lia. now rewrite Z2Nat.id by lia. }
  split; [apply nth_levels_final|].
  intros i j Hij Hj.
  rewrite length_app, length_map, length_py_range in Hj. cbn in Hj.
  assert (Hlast : forall a, (a < Z.to_nat eq_n)%nat ->
            level eq_n l r k (Z.of_nat a) <= 1).
  { intros a Ha. rewrite <- (level_last eq_n l r k Hn) in Hr.
    eapply Rle_trans; [|exact Hr].
    apply level_monotone; try assumption; lia. }
  destruct (Nat.eq_dec j (Z.to_nat eq_n)) as [->|Hj'].
  - rewrite nth_levels_final.
    destruct (Nat.eq_dec i (Z.to_nat eq_n)) as [->|Hi'].
    + rewrite nth_levels_final. lra.
    + rewrite nth_levels by lia. apply Hlast. lia.
  - rewrite !nth_levels by lia.
    apply level_monotone; try assumption; lia.
Qed.

Lemma percentile_levels_grid_witness :
  exists pct,
    percentile_levels 100 (999 / 1000) (99999 / 100000) (1 / 10) = Ok pct /\
    Z.of_nat (length pct) = 101%Z /\
    (forall i, (0 <= i < 100)%Z ->
       nth (Z.to_nat i) pct 0 =
         999 / 1000 + (99999 / 100000 - 999 / 1000)
                      * real_pow (IZR i / IZR (100 - 1)) (1 / 10)) /\
    nth (Z.to_nat 100) pct 0 = 1 /\
    (forall i j, (i <= j)%nat -> (j < length pct)%nat ->
       nth i pct 0 <= nth j pct 0).
Proof.
  apply (percentile_levels_grid 100 (999 / 1000) (99999 / 100000) (1 / 10));
    [lia | lra | lra | lra].
Defined.

(** ** The similarity scorer *)

Lemma refills_row : refills (fun row => row) refill_row.
Proof.
  intros a d Hd. unfold refill_row. cbn [fst snd]. split.
  - apply firstn_skipn.
  - rewrite length_firstn. lia.
Qed.

Lemma refills_list {A : Type} (flat : A -> list R) f :
  refills flat f ->
  refills (fun l => concat (map flat l)) (refill_list f).
Proof.
  intros Hf l. induction l as [|a l IH]; intros d Hd.
  - cbn. split; reflexivity.
  - cbn [refill_list]. cbn [map concat] in Hd. rewrite length_app in Hd.
    destruct (Hf a d ltac:(lia)) as [E1 L1].
    destruct (f a d) as [a' d'] eqn:Ef. cbn [fst snd] in E1, L1.
    assert (Hd' : (length (concat (map flat l)) <= length d')%nat).
    { rewrite <- E1, length_app in Hd. lia. }
    destruct (IH d' Hd') as [E2 L2].
    destruct (refill_list f l d') as [t' d''] eqn:Et. cbn [fst snd] in *.
    cbn [map concat]. split.
    + rewrite <- app_assoc, E2. exact E1.
    + rewrite !length_app. lia.
Qed.

Lemma refills_mat : refills flatten_mat (refill_list refill_row).
Proof.
  intros a d Hd. unfold flatten_mat in *.
  pose proof (refills_list _ _ refills_row a d) as H. cbn beta in H.
  rewrite !map_id in H. apply H. exact Hd.
Qed.

Lemma reshape_as_flatten (g t : T4) :
  length (flatten_t4 g) = length (flatten_t4 t) ->
  exists g', reshape_as g t = Ok g' /\ flatten_t4 g' = flatten_t4 g.
Proof.
  intros Hlen. unfold reshape_as. rewrite Hlen, Nat.eqb_refl.
  eexists; split; [reflexivity|].
  pose proof (refills_list _ _ (refills_list _ _ refills_mat)) as H.
  destruct (H t (flatten_t4 g)) as [E L].
  { rewrite Hlen. apply Nat.le_refl. }
  change (flatten_t4 (fst (refill_list (refill_list (refill_list refill_row))
                                      t (flatten_t4 g)))
          ++ snd (refill_list (refill_list (refill_list refill_row))
                              t (flatten_t4 g)) = flatten_t4 g) in E.
  change (length (flatten_t4 (fst (refill_list (refill_list
            (refill_list refill_row)) t (flatten_t4 g))))
          = length (flatten_t4 t)) in L.
  destruct (refill_list (refill_list (refill_list refill_row)) t (flatten_t4 g))
    as [res rest]. cbn [fst snd] in *.
  assert (rest = []) as ->.
  { apply length_zero_iff_nil.
    apply (f_equal (@length R)) in E. rewrite length_app in E. lia. }
  rewrite app_nil_r in E. exact E.
Qed.

Lemma zip_with3_map_l {A A' B C D : Type} (f : A' -> B -> C -> D) (h : A -> A')
  (l : list A) (l' : list B) (l'' : list C) :
  zip_with3 f (map h l) l' l'' = zip_with3 (fun a b c => f (h a) b c) l l' l''.
Proof.
  revert l' l''. induction l as [|a l IH]; intros [|b l'] [|c l''];
    cbn; try reflexivity.
  now rewrite IH.
Qed.

Lemma zip_with3_ext {A B C D : Type} (f g : A -> B -> C -> D)
  (l : list A) (l' : list B) (l'' : list C) :
  (forall a b c, f a b c = g a b c) -> zip_with3 f l l' l'' = zip_with3 g l l' l''.
Proof.
  intros Hfg. revert l' l''. induction l as [|a l IH]; intros [|b l'] [|c l''];
    cbn; try reflexivity.
  now rewrite IH, Hfg.
Qed.

Lemma t4_zip3_map_l (f : R -> R -> R -> R) (h : R -> R) (x y z : T4) :
  t4_zip3 f (t4_map h x) y z = t4_zip3 (fun a b c => f (h a) b c) x y z.
Proof.
  unfold t4_zip3, t4_map, mat_map.
  rewrite zip_with3_map_l. apply zip_with3_ext. intros a b c.
  rewrite zip_with3_map_l. apply zip_with3_ext. intros a' b' c'.
  rewrite zip_with3_map_l. apply zip_with3_ext. intros a'' b'' c''.
  apply zip_with3_map_l.
Qed.

Lemma t4_zip3_ext (f g : R -> R -> R -> R) (x y z : T4) :
  (forall a b c, f a b c = g a b c) -> t4_zip3 f x y z = t4_zip3 g x y z.
Proof.
  intros Hfg. unfold t4_zip3.
  repeat (apply zip_with3_ext; intros). apply Hfg.
Qed.

Lemma grad_factor_nonneg (g : T4) : 0 <= grad_factor g.
Proof. apply sqrt_pos. Qed.

Lemma sqrt_quarter : sqrt (1 / 4) = 1 / 2.
Proof. apply sqrt_lem_1; lra. Qed.

(** With [G = 2], [R = 1], [S = 0] the gradient is first normalised to 1, and
    the jacobian score is [-1], not [-(|G| * |R - S|) = -2]. *)
Lemma jacobian_normalizes_gradient :
  _get_similarity [[[[1]]]] [[[[0]]]] "jacobian" (Some [[[[2]]]])
    = Ok [[[[-1]]]] /\
  t4_zip3 (fun g r s => - (Rabs g * Rabs (r - s)))
          [[[[2]]]] [[[[1]]]] [[[[0]]]] = [[[[-2]]]] /\
  Ok [[[[-1]]]] <> Ok [[[[-2]]]].
Proof.
  split; [|split; [|intros H; injection H as H; lra]].
  - cbn. unfold normalize_grad, grad_factor; cbn.
    unfold numel, Rsum; cbn.
    replace (1 / (2 * (2 * 1) + 0)) with (1 / 4) by field.
    rewrite sqrt_quarter.
    do 5 f_equal.
    rewrite (Rabs_pos_eq 2) by lra.
    replace (2 * (1 / 2)) with 1 by field.
    replace (1 - 0) with 1 by ring.
    rewrite Rabs_pos_eq by lra. ring.
  - cbn. do 4 f_equal.
    replace (1 - 0) with 1 by ring.
    rewrite (Rabs_pos_eq 2), (Rabs_pos_eq 1) by lra. ring.
Qed.

(** C1 (as amended): with metric "jacobian", a gradient [G] of as many entries
    as [R], not all zero, is reshaped as [R] and normalised to unit mean
    square like for the other gradient metrics; the score is
    [-(|G| * sqrt(numel(G) / sum(G^2)) * |R - S|)], entry by entry. *)
Theorem jacobian_similarity (tensor_raw tensor_sim raw_grad : T4) :
  length (flatten_t4 raw_grad) = length (flatten_t4 tensor_raw) ->
  Rsum (map (fun v => v ^ 2) (flatten_t4 raw_grad)) <> 0 ->
  exists G,
    reshape_as raw_grad tensor_raw = Ok G /\
    flatten_t4 G = flatten_t4 raw_grad /\
    _get_similarity tensor_raw tensor_sim "jacobian" (Some raw_grad) =
      Ok (t4_zip3 (fun g r s =>
                     - (Rabs g
                        * sqrt (numel (flatten_t4 raw_grad)
                                / Rsum (map (fun v => v ^ 2)
                                            (flatten_t4 raw_grad)))
                        * Rabs (r - s)))
                  G tensor_raw tensor_sim).
Proof.
  intros Hlen _.
  destruct (reshape_as_flatten raw_grad tensor_raw Hlen) as (G & HG & Hflat).
  exists G. split; [exact HG|]. split; [exact Hflat|].
  unfold _get_similarity.
  cbn [String.eqb Ascii.eqb Bool.eqb metric_in existsb orb].
  cbn. rewrite HG. cbn [bind].
  unfold normalize_grad. rewrite t4_zip3_map_l.
  f_equal. apply t4_zip3_ext. intros a b c.
  fold (grad_factor raw_grad).
  assert (grad_factor G = grad_factor raw_grad) as ->.
  { unfold grad_factor. now rewrite Hflat. }
  rewrite Rabs_mult, Rabs_Rabsolu.
  rewrite (Rabs_pos_eq (grad_factor raw_grad)) by apply grad_factor_nonneg.
  reflexivity.
Qed.

Lemma jacobian_similarity_witness :
  exists G,
    reshape_as [[[[2]]]] [[[[1]]]] = Ok G /\
    flatten_t4 G = flatten_t4 [[[[2]]]] /\
    _get_similarity [[[[1]]]] [[[[0]]]] "jacobian" (Some [[[[2]]]]) =
      Ok (t4_zip3 (fun g r s =>
                     - (Rabs g
                        * sqrt (numel (flatten_t4 [[[[2]]]])
                                / Rsum (map (fun v => v ^ 2)
                                            (flatten_t4 [[[[2]]]])))
                        * Rabs (r - s)))
                  G [[[[1]]]] [[[[0]]]]).
Proof.
  apply (jacobian_similarity [[[[1]]]] [[[[0]]]] [[[[2]]]]).
  - reflexivity.
  - cbn. lra.
Defined.

(** ** The candidate generator *)

Lemma bind_ok {A B : Type} (m : result A) (k : A -> result B) (b : B) :
  bind m k = Ok b -> exists a, m = Ok a /\ k a = Ok b.
Proof. destruct m as [a|e]; cbn; [eauto | discriminate]. Qed.

Lemma mapM_length {A B : Type} (f : A -> result B) (l : list A) (r : list B) :
  mapM f l = Ok r -> length r = length l.
Proof.
  revert r. induction l as [|a l IH]; intros r H; cbn in H.
  - now injection H as <-.
  - apply bind_ok in H as (b & _ & H). apply bind_ok in H as (bs & Hbs & H).
    injection H as <-. cbn. f_equal. now apply IH.
Qed.

Lemma level_bounds (eq_n : Z) (l r k : R) (i : Z) :
  (2 <= eq_n)%Z -> l < r -> 0 < k -> (0 <= i < eq_n)%Z ->
  l <= level eq_n l r k i <= r.
Proof.
  intros Hn Hlr Hk Hi. split.
  - unfold level. pose proof (real_pow_nonneg (IZR i / IZR (eq_n - 1)) k). nra.
  - rewrite <- (level_last eq_n l r k Hn) at 2.
    apply level_monotone; try assumption; lia.
Qed.

Lemma search_levels_bounds (eq_n : Z) (p : R) :
  (2 <= eq_n)%Z -> In p (search_levels eq_n) -> 0 < p <= 1.
Proof.
  intros Hn Hp. unfold search_levels in Hp. apply in_app_or in Hp as [Hp|Hp].
  - apply in_map_iff in Hp as (i & <- & Hi). apply in_py_range in Hi.
    pose proof (level_bounds eq_n (999 / 1000) (99999 / 100000) (1 / 10) i Hn
                  ltac:(lra) ltac:(lra) Hi). lra.
  - destruct Hp as [<-|[]]. lra.
Qed.

Lemma search_levels_ok (eq_n : Z) :
  (2 <= eq_n)%Z ->
  percentile_levels eq_n (999 / 1000) (99999 / 100000) (1 / 10)
    = Ok (search_levels eq_n).
Proof. intros Hn. apply percentile_levels_ok; [exact Hn | lra]. Qed.

Lemma length_search_levels (eq_n : Z) :
  (0 <= eq_n)%Z -> Z.of_nat (length (search_levels eq_n)) = (eq_n + 1)%Z.
Proof.
  intros Hn. unfold search_levels.
  rewrite length_app, length_map, length_py_range. cbn. lia.
Qed.

Lemma torch_quantile_ok (row : list R) (q : R) :
  row <> [] -> 0 <= q <= 1 ->
  torch_quantile row q =
    Ok (interpolate (sort_R row) (q * (INR (length row) - 1))).
Proof.
  intros Hrow Hq. unfold torch_quantile, Rltb.
  destruct (Rlt_dec q 0); [lra|]. destruct (Rlt_dec 1 q); [lra|].
  cbn [orb]. destruct row; [contradiction | reflexivity].
Qed.

Lemma level_row_ok (x_ : list (list (list R))) (p : R) :
  Forall (Forall (fun part => part <> [])) x_ -> 0 <= p <= 1 ->
  level_row x_ p = Ok (row_value x_ p).
Proof.
  intros Hx Hp. unfold level_row, row_value. apply mapM_map.
  intros head Hhead.
  rewrite (mapM_map _ (fun part : list R =>
             interpolate (sort_R part) (p * (INR (length part) - 1)))).
  - reflexivity.
  - intros part Hpart. apply torch_quantile_ok; [|exact Hp].
    rewrite Forall_forall in Hx. specialize (Hx head Hhead).
    rewrite Forall_forall in Hx. now apply Hx.
Qed.

Lemma view_single_batches (rows : list (list R)) :
  Forall (fun row => row <> []) rows ->
  view_mini_batches 1 rows = Ok (single_batches rows).
Proof.
  intros Hrows. unfold view_mini_batches, single_batches. apply mapM_map.
  intros row Hrow. rewrite Forall_forall in Hrows. specialize (Hrows row Hrow).
  assert (Hlen : length row <> 0%nat) by (destruct row; cbn; congruence).
  apply Nat.eqb_neq in Hlen. rewrite Hlen, Nat.mod_1_r. cbn [Nat.eqb negb orb].
  rewrite Nat.div_1_r. cbn [chunks_of]. now rewrite firstn_all.
Qed.

Lemma single_batches_nonempty (rows : list (list R)) :
  Forall (fun row => row <> []) rows ->
  Forall (Forall (fun part => part <> [])) (single_batches rows).
Proof.
  intros H. unfold single_batches. apply Forall_map.
  eapply Forall_impl; [|exact H]. intros row Hrow. now constructor.
Qed.

(** The candidates of one operand: with rows that are not empty and a
    quantile that is accepted at the first attempt, the generator returns the
    quantile rows of the [eq_n + 1] levels and of their complements. *)
Lemma calculate_percentile_candidates_ok acc (m : QuantMatMul) (x : T4)
  (rows : list (list R)) :
  (2 <= eq_n m)%Z ->
  per_head_rows x = Ok rows ->
  Forall (fun row => row <> []) rows ->
  acc (single_batches rows) = true ->
  calculate_percentile_candidates acc m x
      (999 / 1000) (99999 / 100000) (1 / 10) =
    Ok (map (row_value (single_batches rows)) (search_levels (eq_n m)),
        map (row_value (single_batches rows))
            (map (fun p => 1 - p) (search_levels (eq_n m)))).
Proof.
  intros Hn Hrows Hne Hacc. unfold calculate_percentile_candidates.
  rewrite search_levels_ok by exact Hn. cbn [bind]. rewrite Hrows. cbn [bind].
  cbn [quantile_retry]. rewrite view_single_batches by exact Hne. cbn [bind].
  unfold quantile_means. rewrite Hacc.
  rewrite (mapM_map _ (row_value (single_batches rows))).
  2:{ intros p Hp. apply level_row_ok; [now apply single_batches_nonempty|].
      pose proof (search_levels_bounds _ _ Hn Hp). lra. }
  cbn [bind].
  rewrite (mapM_map _ (row_value (single_batches rows))).
  2:{ intros p Hp. apply level_row_ok; [now apply single_batches_nonempty|].
      apply in_map_iff in Hp as (p' & <- & Hp').
      pose proof (search_levels_bounds _ _ Hn Hp'). lra. }
  cbn [bind]. rewrite length_search_levels by lia.
  now rewrite Z.eqb_refl.
Qed.

(** ** The seeding *)

Lemma py_index_minus_two {A : Type} (l : list A) (d : A) :
  (2 <= length l)%nat -> py_index l (-2) = Ok (nth (length l - 2) l d).
Proof.
  intros Hl. unfold py_index. cbn [Z.ltb Z.compare].
  replace (0 <=? -2 + Z.of_nat (length l))%Z with true
    by (symmetry; apply Z.leb_le; lia).
  replace (-2 + Z.of_nat (length l) <? Z.of_nat (length l))%Z with true
    by (symmetry; apply Z.ltb_lt; lia).
  cbn [andb].
  replace (Z.to_nat (-2 + Z.of_nat (length l))) with (length l - 2)%nat by lia.
  destruct (nth_error l (length l - 2)) as [v|] eqn:Hv.
  - now rewrite (nth_error_nth _ _ _ Hv).
  - apply nth_error_None in Hv. lia.
Qed.

Lemma length_zip_with {A B C : Type} (f : A -> B -> C) (l : list A)
  (l' : list B) : length (zip_with f l l') = Nat.min (length l) (length l').
Proof.
  revert l'. induction l as [|a l IH]; intros [|b l']; cbn; try reflexivity.
  now rewrite IH.
Qed.

Lemma expand_heads_long {A : Type} (p : list A) (n : nat) :
  (2 <= length p)%nat -> expand_heads p n = p.
Proof. destruct p as [|a [|b p]]; cbn; intros; try lia; reflexivity. Qed.

Lemma length_grid_zip (f : R -> R -> R) (g g' : Grid) :
  (2 <= length g)%nat -> length g' = length g ->
  length (grid_zip f g g') = length g.
Proof.
  intros Hg Hg'. unfold grid_zip.
  rewrite !expand_heads_long by lia. rewrite length_zip_with. lia.
Qed.

Lemma length_operand_percentiles (eq_n : Z) x_ :
  (0 <= eq_n)%Z ->
  length (fst (operand_percentiles eq_n x_)) = Z.to_nat (eq_n + 1) /\
  length (snd (operand_percentiles eq_n x_)) = Z.to_nat (eq_n + 1).
Proof.
  intros Hn. unfold operand_percentiles. cbn [fst snd].
  rewrite !length_map. pose proof (length_search_levels eq_n Hn). lia.
Qed.

Lemma seed_quantizer_ok (scales zero_points : Grid) (q : UniformQuantizer)
  (s0 z0 : list R) :
  scale q = Val s0 -> zero_point q = Val z0 ->
  (2 <= length scales)%nat -> (2 <= length zero_points)%nat ->
  seed_quantizer scales zero_points q =
    Ok (set_zero_point (nth (length zero_points - 2) zero_points [])
          (set_scale (nth (length scales - 2) scales []) q)).
Proof.
  intros Hs Hz Hls Hlz. unfold seed_quantizer.
  rewrite Hs, Hz. cbn [get_attr bind].
  rewrite (py_index_minus_two scales []) by exact Hls. cbn [bind].
  rewrite (py_index_minus_two zero_points []) by exact Hlz. reflexivity.
Qed.

(** The seeding returns: on a device with CUDA, for [eq_n >= 2], captured
    operands whose per-head rows are not empty, a quantile accepted at the
    first attempt and quantizers that own a scale and a zero-point. *)
Lemma seeding_returns acc (dev : Device) (m m1 : QuantMatMul) (rA rB : T4)
  (rowsA rowsB : list (list R)) (sA zA sB zB : list R) :
  _initialize_calib_parameters dev m = Ok m1 ->
  raw_input m = Val (rA, rB) ->
  (2 <= eq_n m)%Z ->
  per_head_rows rA = Ok rowsA -> Forall (fun row => row <> []) rowsA ->
  per_head_rows rB = Ok rowsB -> Forall (fun row => row <> []) rowsB ->
  acc (single_batches rowsA) = true -> acc (single_batches rowsB) = true ->
  scale (A_quantizer m) = Val sA -> zero_point (A_quantizer m) = Val zA ->
  scale (B_quantizer m) = Val sB -> zero_point (B_quantizer m) = Val zB ->
  let '(Au, Al) := operand_percentiles (eq_n m) (single_batches rowsA) in
  let '(Bu, Bl) := operand_percentiles (eq_n m) (single_batches rowsB) in
  let A_sc := scale_candidates (n_levels (A_quantizer m)) Au Al in
  let A_zp := zero_point_candidates Al A_sc in
  let B_sc := scale_candidates (n_levels (B_quantizer m)) Bu Bl in
  let B_zp := zero_point_candidates Bl B_sc in
  seeding acc dev m =
    Ok (mkPercentiles Au Al Bu Bl, mkCandidates A_sc A_zp B_sc B_zp,
        set_quantizers (seeded A_sc A_zp (A_quantizer m))
                       (seeded B_sc B_zp (B_quantizer m)) m1).
Proof.
  intros Hinit Hraw Hn HrA HneA HrB HneB HaccA HaccB HsA HzA HsB HzB.
  destruct (initialize_calib_parameters_parallel dev m m1 Hinit)
    as (rA' & rB' & p & pe & Hraw' & Hp & Hpe & ->).
  destruct (length_operand_percentiles (eq_n m) (single_batches rowsA)
              ltac:(lia)) as [LAu LAl].
  destruct (length_operand_percentiles (eq_n m) (single_batches rowsB)
              ltac:(lia)) as [LBu LBl].
  unfold operand_percentiles in *. cbn [fst snd] in *. cbv zeta.
  unfold seeding. rewrite Hinit. cbn [bind].
  change (raw_input (set_calib_parameters _ _ m)) with (raw_input m).
  rewrite Hraw. cbn [get_attr bind].
  rewrite (calculate_percentile_candidates_ok acc _ rA rowsA);
    [|exact Hn|exact HrA|exact HneA|exact HaccA].
  cbn [bind].
  rewrite (calculate_percentile_candidates_ok acc _ rB rowsB);
    [|exact Hn|exact HrB|exact HneB|exact HaccB].
  cbn [bind].
  change (eq_n (set_calib_parameters _ _ m)) with (eq_n m).
  change (A_quantizer (set_calib_parameters _ _ m)) with (A_quantizer m).
  change (B_quantizer (set_calib_parameters _ _ m)) with (B_quantizer m).
  assert (Hlen : forall f g g', length g = Z.to_nat (eq_n m + 1) ->
            length g' = Z.to_nat (eq_n m + 1) ->
            length (grid_zip f g g') = Z.to_nat (eq_n m + 1)).
  { intros f g g' Hg Hg'. rewrite length_grid_zip; lia. }
  rewrite (seed_quantizer_ok _ _ _ sA zA HsA HzA).
  2:{ unfold scale_candidates. rewrite Hlen; lia. }
  2:{ unfold zero_point_candidates, scale_candidates.
      rewrite Hlen; [lia | lia | rewrite Hlen; lia]. }
  cbn [bind].
  rewrite (seed_quantizer_ok _ _ _ sB zB HsB HzB).
  2:{ unfold scale_candidates. rewrite Hlen; lia. }
  2:{ unfold zero_point_candidates, scale_candidates.
      rewrite Hlen; [lia | lia | rewrite Hlen; lia]. }
  reflexivity.
Qed.

(** ** The per-side search *)

Lemma firstn_plus_skipn {A : Type} (a b : nat) (l : list A) :
  firstn a l ++ firstn b (skipn a l) = firstn (a + b) l.
Proof.
  revert l. induction a as [|a IH]; intros l; [reflexivity|].
  destruct l as [|x l]; cbn.
  - now rewrite firstn_nil.
  - now rewrite IH.
Qed.

Lemma py_slice_nonneg {A : Type} (a b : Z) (l : list A) :
  (0 <= a <= b)%Z ->
  py_slice a b l = firstn (Z.to_nat b - Z.to_nat a) (skipn (Z.to_nat a) l).
Proof.
  intros Hab. unfold py_slice, slice_bound.
  destruct (Z.ltb_spec a 0); [lia|]. destruct (Z.ltb_spec b 0); [lia|].
  set (len := length l).
  destruct (Z.le_gt_cases (Z.of_nat len) a) as [Ha|Ha].
  - rewrite !skipn_all2 by (fold len; lia). now rewrite !firstn_nil.
  - replace (Z.to_nat (Z.min a (Z.of_nat len))) with (Z.to_nat a) by lia.
    destruct (Z.le_gt_cases b (Z.of_nat len)) as [Hb|Hb].
    + now replace (Z.to_nat (Z.min b (Z.of_nat len))) with (Z.to_nat b) by lia.
    + replace (Z.to_nat (Z.min b (Z.of_nat len))) with len by lia.
      rewrite !firstn_all2; try reflexivity; rewrite length_skipn; fold len; lia.
Qed.

Lemma combine_skipn {A B : Type} (n : nat) (l : list A) (l' : list B) :
  combine (skipn n l) (skipn n l') = skipn n (combine l l').
Proof.
  revert l l'. induction n as [|n IH]; intros [|a l] [|b l']; cbn;
    try reflexivity.
  - now destruct (skipn n l).
  - apply IH.
Qed.

Lemma combine_py_slice {A B : Type} (a b : Z) (l : list A) (l' : list B) :
  (0 <= a <= b)%Z ->
  combine (py_slice a b l) (py_slice a b l') = py_slice a b (combine l l').
Proof.
  intros Hab. rewrite !py_slice_nonneg by exact Hab.
  now rewrite <- combine_firstn, combine_skipn.
Qed.

(** The groups of a stride [pe > 0] tile the first [n] entries. *)
Lemma groups_tile_prefix {A : Type} (n pe : Z) (l : list A) (c : nat) :
  (0 < pe)%Z -> (0 <= n)%Z -> (Z.of_nat c * pe < n + pe)%Z ->
  concat (map (fun p_st => py_slice p_st (Z.min n (p_st + pe)) l)
              (map (fun i => i * pe)%Z (map Z.of_nat (seq 0 c))))
  = firstn (Z.to_nat (Z.min n (Z.of_nat c * pe))) l.
Proof.
  intros Hpe Hn. induction c as [|c IH]; intros Hc.
  - cbn. replace (Z.to_nat (Z.min n 0)) with 0%nat by lia. reflexivity.
  - rewrite seq_S, !map_app, concat_app, IH by lia. cbn [map concat plus].
    rewrite app_nil_r, py_slice_nonneg by lia.
    replace (Z.min n (Z.of_nat c * pe)) with (Z.of_nat c * pe)%Z by lia.
    rewrite firstn_plus_skipn. f_equal. lia.
Qed.

Lemma py_range_step_pos (n pe : Z) :
  (0 < pe)%Z -> (0 <= n)%Z ->
  exists c, py_range_step n pe
              = Ok (map (fun i => i * pe)%Z (map Z.of_nat (seq 0 c))) /\
            (Z.of_nat c * pe < n + pe)%Z /\ (n <= Z.of_nat c * pe)%Z.
Proof.
  intros Hpe Hn. unfold py_range_step.
  destruct (Z.eqb_spec pe 0); [lia|].
  destruct (ceil_div_pos n pe Hpe) as (c & -> & Hc). cbn [bind].
  exists (Z.to_nat c). unfold py_range. split; [reflexivity|]. nia.
Qed.

Lemma evaluated_candidates {A : Type} (n pe : Z) (l : list A)
  (starts : list Z) :
  (0 < pe)%Z -> (0 <= n)%Z -> py_range_step n pe = Ok starts ->
  concat (map (fun p_st => py_slice p_st (Z.min n (p_st + pe)) l) starts)
  = firstn (Z.to_nat n) l.
Proof.
  intros Hpe Hn Hs.
  destruct (py_range_step_pos n pe Hpe Hn) as (c & Hc & Hlt & Hge).
  rewrite Hc in Hs. injection Hs as <-.
  rewrite groups_tile_prefix by assumption. f_equal. lia.
Qed.

Lemma mapM_app {A B : Type} (f : A -> result B) (l l' : list A) :
  mapM f (l ++ l') =
    (r <- mapM f l ;; r' <- mapM f l' ;; Ok (r ++ r')).
Proof.
  induction l as [|a l IH]; cbn.
  - destruct (mapM f l'); reflexivity.
  - destruct (f a); cbn; [|reflexivity]. rewrite IH.
    destruct (mapM f l); cbn; [|reflexivity].
    destruct (mapM f l'); reflexivity.
Qed.

Lemma mapM_concat {A B C : Type} (f : B -> result C) (g : A -> list B)
  (l : list A) :
  (rs <- mapM (fun a => mapM f (g a)) l ;; Ok (concat rs))
  = mapM f (concat (map g l)).
Proof.
  induction l as [|a l IH]; [reflexivity|].
  cbn [mapM map concat]. rewrite mapM_app, <- IH.
  destruct (mapM f (g a)); cbn; [|reflexivity].
  destruct (mapM (fun a0 => mapM f (g a0)) l); reflexivity.
Qed.

Lemma group_similarity_slices (side : Side) (m : QuantMatMul)
  (A B other raw_out : T4) (raw_grad : option T4) (scales zero_points : Grid)
  (pe : Z) (starts : list Z) :
  (0 < pe)%Z ->
  (forall p_st, In p_st starts -> (0 <= p_st < eq_n m)%Z) ->
  mapM (group_similarity side m A B other raw_out raw_grad
                         scales zero_points pe) starts
  = mapM (fun p_st =>
            mapM (candidate_score side m A B other raw_out raw_grad)
                 (py_slice p_st (Z.min (eq_n m) (p_st + pe))
                           (combine scales zero_points)))
         starts.
Proof.
  intros Hpe Hin. induction starts as [|p_st starts IH]; [reflexivity|].
  cbn [mapM]. unfold group_similarity at 1.
  rewrite combine_py_slice by (specialize (Hin p_st (or_introl eq_refl)); lia).
  rewrite IH; [reflexivity|]. intros q Hq. apply Hin. now right.
Qed.

(** The groups of one chunk score the first [eq_n] candidates, each once and
    in order, whatever the parallelism. *)
Lemma groups_score_prefix (side : Side) (m : QuantMatMul)
  (A B other raw_out : T4) (raw_grad : option T4) (scales zero_points : Grid)
  (pe : Z) (starts : list Z) :
  (0 < pe)%Z -> (1 <= eq_n m)%Z -> py_range_step (eq_n m) pe = Ok starts ->
  (groups <- mapM (group_similarity side m A B other raw_out raw_grad
                                    scales zero_points pe) starts ;;
   torch_cat groups)
  = mapM (candidate_score side m A B other raw_out raw_grad)
         (firstn (Z.to_nat (eq_n m)) (combine scales zero_points)).
Proof.
  intros Hpe Hn Hs.
  rewrite <- (evaluated_candidates (eq_n m) pe (combine scales zero_points)
                starts Hpe ltac:(lia) Hs).
  rewrite <- mapM_concat.
  destruct (py_range_step_pos (eq_n m) pe Hpe ltac:(lia)) as (c & Hc & Hlt & Hge).
  rewrite Hc in Hs. injection Hs as <-.
  rewrite group_similarity_slices; [|exact Hpe|].
  2:{ intros p_st Hp. apply in_map_iff in Hp as (i & <- & Hi).
      apply in_map_iff in Hi as (j & <- & Hj). apply in_seq in Hj. nia. }
  destruct (mapM _ _) as [groups|e] eqn:Hg; cbn [bind]; [|reflexivity].
  destruct groups as [|g groups]; [|reflexivity].
  apply mapM_length in Hg. rewrite !length_map, length_seq in Hg.
  cbn in Hg. subst c. cbn in Hge. lia.
Qed.

Lemma argmax_from_bound (best : nat) (bv : R) (i : nat) (l : list R) :
  (best < i)%nat -> (argmax_from best bv i l < i + length l)%nat.
Proof.
  revert best bv i. induction l as [|v l IH]; intros best bv i Hb; cbn.
  - lia.
  - destruct (Rlt_dec bv v).
    + specialize (IH i v (S i) ltac:(lia)). lia.
    + specialize (IH best bv (S i) ltac:(lia)). lia.
Qed.

Lemma argmax_bound (l : list R) : l <> [] -> (argmax l < length l)%nat.
Proof.
  destruct l as [|v l]; [contradiction|]. intros _. cbn.
  pose proof (argmax_from_bound 0 v 1 l ltac:(lia)). lia.
Qed.

Lemma argmax_dim0_bound (table : Grid) (i : nat) :
  In i (argmax_dim0 table) -> (i < length table)%nat.
Proof.
  unfold argmax_dim0. destruct table as [|row table]; [intros []|].
  intros Hi. apply in_map_iff in Hi as (h & <- & _).
  pose proof (argmax_bound (column h (row :: table)) ltac:(discriminate)) as H.
  unfold column in H. now rewrite length_map in H.
Qed.

Lemma length_fold_zip {A : Type} (f : A -> A -> A) (ts : list (list A))
  (t : list A) :
  (length (fold_left (zip_with f) ts t) <= length t)%nat.
Proof.
  revert t. induction ts as [|t' ts IH]; intros t; cbn; [lia|].
  specialize (IH (zip_with f t t')). rewrite length_zip_with in IH. lia.
Qed.

Lemma sum_tables_length (tables : list Grid) (table : Grid) (n : nat) :
  sum_tables tables = Ok table ->
  Forall (fun t => (length t <= n)%nat) tables ->
  (length table <= n)%nat.
Proof.
  destruct tables as [|t ts]; cbn; [discriminate|].
  intros H Hall. injection H as <-. inversion Hall; subst.
  pose proof (length_fold_zip (zip_with Rplus) ts t). lia.
Qed.

Lemma mapM_Forall {A B : Type} (f : A -> result B) (P : B -> Prop)
  (l : list A) (r : list B) :
  mapM f l = Ok r -> (forall a b, In a l -> f a = Ok b -> P b) -> Forall P r.
Proof.
  revert r. induction l as [|a l IH]; intros r H HP; cbn in H.
  - injection H as <-. constructor.
  - apply bind_ok in H as (b & Hb & H). apply bind_ok in H as (bs & Hbs & H).
    injection H as <-. constructor.
    + apply (HP a b); [now left | exact Hb].
    + apply IH; [exact Hbs|]. intros a' b' Ha'. apply HP. now right.
Qed.

(** What one chunk evaluates: the other side through its quantizer, and
    against it the first [eq_n] candidates of the grid. *)
Lemma chunk_similarities_evaluates rand_like (side : Side) (m : QuantMatMul)
  (scales zero_points : Grid) (cs b_st : Z) (table : Grid) :
  (0 <= eq_n m)%Z ->
  chunk_similarities rand_like side m scales zero_points cs b_st = Ok table ->
  exists rA rB ro other raw_grad,
    raw_input m = Val (rA, rB) /\ raw_out m = Val ro /\
    let b_ed := Z.min cs (b_st + calib_batch_size m) in
    let A := py_slice b_st b_ed rA in
    let B := py_slice b_st b_ed rB in
    other_side_sim rand_like side m A B = Ok other /\
    mapM (candidate_score side m A B other (py_slice b_st b_ed ro) raw_grad)
         (firstn (Z.to_nat (eq_n m)) (combine scales zero_points))
      = Ok table.
Proof.
  intros Hn H. unfold chunk_similarities in H.
  destruct (raw_input m) as [| |[rA rB]]; cbn [get_attr bind] in H;
    try discriminate.
  apply bind_ok in H as (other & Hother & H).
  destruct (raw_out m) as [| |ro]; cbn [get_attr bind] in H; try discriminate.
  apply bind_ok in H as (g & _ & H).
  destruct (parallel_eq_n m) as [| |pe]; cbn [get_attr bind] in H;
    try discriminate.
  apply bind_ok in H as (starts & Hs & H).
  exists rA, rB, ro, other, g. split; [reflexivity|]. split; [reflexivity|].
  cbv zeta. split; [exact Hother|].
  destruct (Z.lt_trichotomy pe 0) as [Hpe|[->|Hpe]].
  - (* a negative stride leaves no group *)
    unfold py_range_step in Hs. destruct (Z.eqb_spec pe 0); [lia|].
    unfold ceil_div in Hs. destruct (Z.eqb_spec pe 0); [lia|].
    cbn [bind] in Hs. injection Hs as <-.
    assert (- (- eq_n m / pe) <= 0)%Z as Hc.
    { assert (0 <= - eq_n m / pe)%Z; [|lia].
      rewrite <- Z.div_opp_opp, Z.opp_involutive by lia.
      apply Z.div_pos; lia. }
    unfold py_range in H.
    replace (Z.to_nat (- (- eq_n m / pe))) with 0%nat in H by lia.
    cbn in H. discriminate.
  - cbn in Hs. discriminate.
  - destruct (Z.eq_dec (eq_n m) 0) as [Hz|Hz].
    + unfold py_range_step in Hs. destruct (Z.eqb_spec pe 0); [lia|].
      unfold ceil_div in Hs. destruct (Z.eqb_spec pe 0); [lia|].
      cbn [bind] in Hs. injection Hs as <-. rewrite Hz in H. cbn in H.
      discriminate.
    + rewrite <- (groups_score_prefix side m _ _ other _ g scales zero_points
                    pe starts Hpe ltac:(lia) Hs).
      exact H.
Qed.

Lemma search_best_scale_inv rand_like (side : Side) (m m' : QuantMatMul)
  (scales zero_points : Grid) (best : list nat) :
  search_best_scale rand_like side m scales zero_points = Ok (best, m') ->
  exists cs b_starts tables table,
    calib_size m = Val cs /\
    py_range_step cs (calib_batch_size m) = Ok b_starts /\
    mapM (chunk_similarities rand_like side m scales zero_points cs) b_starts
      = Ok tables /\
    sum_tables tables = Ok table /\
    best = argmax_dim0 table /\
    m' = set_quantizer_of side
           (set_zero_point (gather zero_points best)
              (set_scale (gather scales best) (quantizer_of side m))) m.
Proof.
  unfold search_best_scale. intros H.
  destruct (calib_size m) as [| |cs]; cbn [get_attr bind] in H;
    try discriminate.
  apply bind_ok in H as (b_starts & Hb & H).
  apply bind_ok in H as (tables & Ht & H).
  apply bind_ok in H as (table & Htab & H).
  apply bind_ok in H as (? & _ & H). apply bind_ok in H as (? & _ & H).
  injection H as <- <-.
  exists cs, b_starts, tables, table. repeat split; assumption.
Qed.

Lemma search_keeps_settings rand_like (side : Side) (m m' : QuantMatMul)
  (scales zero_points : Grid) (best : list nat) :
  search_best_scale rand_like side m scales zero_points = Ok (best, m') ->
  same_settings m m'.
Proof.
  intros H.
  apply search_best_scale_inv in H as (? & ? & ? & ? & _ & _ & _ & _ & _ & ->).
  destruct side; repeat split.
Qed.

Lemma same_settings_refl (m : QuantMatMul) : same_settings m m.
Proof. repeat split. Qed.

Lemma same_settings_trans (m m' m'' : QuantMatMul) :
  same_settings m m' -> same_settings m' m'' -> same_settings m m''.
Proof.
  unfold same_settings. intros (?&?&?&?&?&?&?) (?&?&?&?&?&?&?).
  repeat split; congruence.
Qed.

Lemma same_settings_n_levels (side : Side) (m m' : QuantMatMul) :
  same_settings m m' ->
  n_bits (quantizer_of side m') = n_bits (quantizer_of side m) /\
  n_levels (quantizer_of side m') = n_levels (quantizer_of side m).
Proof.
  intros (_&_&_&_&_&HA&HB). unfold n_levels.
  destruct side; cbn [quantizer_of]; rewrite ?HA, ?HB; split; reflexivity.
Qed.

Lemma nth_firstn_lt {A : Type} (i n : nat) (l : list A) (d : A) :
  (i < n)%nat -> nth i (firstn n l) d = nth i l d.
Proof.
  revert i l. induction n as [|n IH]; intros i l Hi; [lia|].
  destruct l as [|a l]; [now destruct i|].
  destruct i as [|i]; [reflexivity|]. cbn. apply IH. lia.
Qed.

Lemma gather_firstn (g : Grid) (best : list nat) (n : nat) :
  (forall i, In i best -> (i < n)%nat) ->
  gather (firstn n g) best = gather g best.
Proof.
  intros Hb. unfold gather. apply map_ext_in. intros [h i] Hhi.
  cbn [fst snd]. rewrite nth_firstn_lt; [reflexivity|].
  apply Hb. eapply in_combine_r. exact Hhi.
Qed.

(** ** The search returns *)

Lemma mapM_total {A B : Type} (f : A -> result B) (l : list A) :
  (forall a, In a l -> exists b, f a = Ok b) -> exists r, mapM f l = Ok r.
Proof.
  induction l as [|a l IH]; intros Hf; [now exists []|].
  destruct (Hf a (or_introl eq_refl)) as (b & Hb).
  destruct IH as (r & Hr); [intros a' Ha'; apply Hf; now right|].
  exists (b :: r). cbn. now rewrite Hb, Hr.
Qed.

Lemma quantizer_ready_forward rand_like (q : UniformQuantizer) (x : T4) :
  quantizer_ready q = true ->
  exists y, UniformQuantizer_forward rand_like q x = Ok y.
Proof.
  unfold quantizer_ready, UniformQuantizer_forward. intros H.
  apply andb_prop in H as [H Hz]. apply andb_prop in H as [Hi Hs].
  destruct (n_bits q =? 32)%Z; [eauto|].
  rewrite Hi. cbn [assert bind].
  destruct (scale q); try discriminate. destruct (zero_point q);
    try discriminate.
  cbn [get_attr bind].
  destruct (sym q); cbn [bind];
    destruct (training_mode q && Rltb (drop_prob q) 1); eauto.
Qed.

Lemma get_similarity_plain (tensor_raw tensor_sim : T4) (metric : string)
  (raw_grad : option T4) :
  (String.eqb metric "mae" || String.eqb metric "mse") = true ->
  exists s, _get_similarity tensor_raw tensor_sim metric raw_grad = Ok s.
Proof.
  unfold _get_similarity. intros H.
  destruct (String.eqb metric "mae"); [eauto|].
  destruct (String.eqb metric "mse"); [eauto|discriminate].
Qed.

Lemma searchable_inv (m : QuantMatMul) :
  searchable m = true ->
  exists cs pe rA rB ro,
    calib_size m = Val cs /\ parallel_eq_n m = Val pe /\
    raw_input m = Val (rA, rB) /\ raw_out m = Val ro /\
    (1 <= cs)%Z /\ (1 <= pe)%Z /\ (1 <= calib_batch_size m)%Z /\
    (1 <= eq_n m)%Z /\ raw_grad m <> Deleted /\
    (String.eqb (metric m) "mae" || String.eqb (metric m) "mse") = true /\
    quantizer_ready (A_quantizer m) = true /\
    quantizer_ready (B_quantizer m) = true.
Proof.
  unfold searchable. intros H.
  destruct (calib_size m) as [| |cs]; try discriminate.
  destruct (parallel_eq_n m) as [| |pe]; try discriminate.
  apply andb_prop in H as [H HqB]. apply andb_prop in H as [H HqA].
  apply andb_prop in H as [H Hmet]. apply andb_prop in H as [H Hg].
  apply andb_prop in H as [H Hro]. apply andb_prop in H as [H Hri].
  apply andb_prop in H as [H Hn]. apply andb_prop in H as [H Hcbs].
  apply andb_prop in H as [Hcs Hpe].
  destruct (raw_input m) as [| |[rA rB]]; try discriminate.
  destruct (raw_out m) as [| |ro]; try discriminate.
  exists cs, pe, rA, rB, ro.
  repeat split; try reflexivity; try (apply Z.leb_le; assumption);
    try assumption.
  intros Hd. rewrite Hd in Hg. discriminate.
Qed.

Lemma py_range_step_nonempty (n step : Z) :
  (1 <= n)%Z -> (1 <= step)%Z ->
  exists a starts, py_range_step n step = Ok (a :: starts).
Proof.
  intros Hn Hs.
  destruct (py_range_step_pos n step ltac:(lia) ltac:(lia)) as (c & Hc & _ & Hge).
  destruct c as [|c]; [cbn in Hge; lia|].
  rewrite Hc. cbn. eauto.
Qed.

(** On a searchable operator every chunk is scored. *)
Lemma chunk_returns rand_like (side : Side) (m : QuantMatMul)
  (scales zero_points : Grid) (cs b_st : Z) :
  searchable m = true ->
  exists table,
    chunk_similarities rand_like side m scales zero_points cs b_st = Ok table.
Proof.
  intros Hw.
  destruct (searchable_inv m Hw)
    as (cs' & pe & rA & rB & ro & _ & Hpe & Hri & Hro & _ & Hpe1 & _ & Hn
        & Hg & Hmet & HqA & HqB).
  unfold chunk_similarities. rewrite Hri, Hro, Hpe. cbn [get_attr bind].
  match goal with
  | |- context [other_side_sim ?r ?s ?mm ?a ?b] =>
      assert (exists o, other_side_sim r s mm a b = Ok o) as (o & ->)
  end.
  { destruct side; cbn [other_side_sim]; apply quantizer_ready_forward;
      assumption. }
  cbn [bind].
  destruct (raw_grad m) as [| |g]; [contradiction| |]; cbn [bind];
    destruct (py_range_step_pos (eq_n m) pe ltac:(lia) ltac:(lia))
      as (c' & Hc' & _ & _);
    rewrite Hc'; cbn [bind];
    (rewrite groups_score_prefix; try lia; [|exact Hc']);
    apply mapM_total; intros sz _; unfold candidate_score;
    match goal with
    | |- context [_get_similarity ?a ?b ?mt ?gg] =>
        destruct (get_similarity_plain a b mt gg Hmet) as (s & ->)
    end; cbn [bind]; eauto.
Qed.

Lemma set_quantizer_searchable (side : Side) (m : QuantMatMul)
  (s z : list R) :
  searchable m = true ->
  searchable (set_quantizer_of side
                (set_zero_point z (set_scale s (quantizer_of side m))) m)
    = true.
Proof.
  intros Hw.
  destruct (searchable_inv m Hw)
    as (cs & pe & rA & rB & ro & Hcs & Hpe & Hri & Hro & Hcs1 & Hpe1 & Hcbs
        & Hn & Hg & Hmet & HqA & HqB).
  unfold searchable in *.
  destruct side; cbn [set_quantizer_of set_A_quantizer set_B_quantizer
                      set_quantizers calib_size parallel_eq_n calib_batch_size
                      eq_n raw_input raw_out raw_grad metric A_quantizer
                      B_quantizer quantizer_of] in *;
    rewrite Hcs, Hpe in *;
    unfold quantizer_ready in *; cbn [set_zero_point set_scale inited scale
                                      zero_point is_val] in *.
  - apply andb_prop in HqA as [HqA _]. apply andb_prop in HqA as [HqA _].
    rewrite HqA. cbn [andb]. rewrite andb_true_r.
    apply andb_prop in Hw as [Hw _]. apply andb_prop in Hw as [Hw _].
    rewrite Hw. apply andb_prop in HqB as [HqB1 HqB2].
    now rewrite HqB1, HqB2.
  - apply andb_prop in HqB as [HqB _]. apply andb_prop in HqB as [HqB _].
    rewrite HqB. cbn [andb]. rewrite andb_true_r.
    apply andb_prop in Hw as [Hw _]. exact Hw.
Qed.

(** On a searchable operator the per-side search returns, and leaves a
    searchable operator. *)
Lemma search_returns rand_like (side : Side) (m : QuantMatMul)
  (scales zero_points : Grid) :
  searchable m = true ->
  exists best m',
    search_best_scale rand_like side m scales zero_points = Ok (best, m') /\
    searchable m' = true.
Proof.
  intros Hw.
  destruct (searchable_inv m Hw)
    as (cs & pe & rA & rB & ro & Hcs & Hpe & Hri & Hro & Hcs1 & Hpe1 & Hcbs
        & Hn & Hg & Hmet & HqA & HqB).
  unfold search_best_scale. rewrite Hcs. cbn [get_attr bind].
  destruct (py_range_step_nonempty cs (calib_batch_size m) Hcs1 Hcbs)
    as (b0 & b_starts & ->).
  cbn [bind].
  destruct (mapM_total
              (chunk_similarities rand_like side m scales zero_points cs)
              (b0 :: b_starts)) as (tables & Ht).
  { intros b_st _. now apply chunk_returns. }
  rewrite Ht. cbn [bind].
  destruct tables as [|t tables];
    [apply mapM_length in Ht; discriminate|].
  cbn [sum_tables bind].
  assert (is_val (scale (quantizer_of side m)) = true
          /\ is_val (zero_point (quantizer_of side m)) = true) as [Hs Hz].
  { unfold quantizer_ready in HqA, HqB.
    apply andb_prop in HqA as [HqA HzA]. apply andb_prop in HqA as [_ HsA].
    apply andb_prop in HqB as [HqB HzB]. apply andb_prop in HqB as [_ HsB].
    destruct side; split; assumption. }
  destruct (scale (quantizer_of side m)); try discriminate.
  destruct (zero_point (quantizer_of side m)); try discriminate.
  cbn [get_attr bind].
  eexists; eexists; split; [reflexivity|].
  now apply set_quantizer_searchable.
Qed.

(** ** The search controller *)

Lemma call_search_inv rand_like (side : Side) (scales zero_points : Grid)
  (m m' : QuantMatMul) (calls calls' : list SearchCall) (best : list nat) :
  call_search rand_like side scales zero_points (m, calls)
    = Ok (best, (m', calls')) ->
  search_best_scale rand_like side m scales zero_points = Ok (best, m') /\
  calls' = calls ++ [mkSearchCall side scales zero_points].
Proof.
  unfold call_search. cbn [fst snd]. intros H.
  apply bind_ok in H as ([b m0] & Hs & H). injection H as <- <- <-.
  split; [exact Hs | reflexivity].
Qed.

Lemma refine_phase_inv rand_like (side : Side) (uppers lowers : Grid) (ee : Z)
  (best best' : list nat) (m m' : QuantMatMul)
  (calls calls' : list SearchCall) :
  refine_phase rand_like side uppers lowers ee (best, (m, calls))
    = Ok (best', (m', calls')) ->
  let pc := phase_candidates (n_levels (quantizer_of side m))
                             uppers lowers best ee in
  search_best_scale rand_like side m (fst pc) (snd pc) = Ok (best', m') /\
  calls' = calls ++ [mkSearchCall side (fst pc) (snd pc)].
Proof.
  unfold refine_phase. cbn [fst snd].
  destruct (phase_candidates _ uppers lowers best ee) as [sc zp].
  intros H. now apply call_search_inv in H.
Qed.

Lemma refine_side_refined rand_like (side : Side) (p : Percentiles)
  (best best' : list nat) (m m' : QuantMatMul)
  (calls calls' : list SearchCall) :
  refine_side rand_like side p (best, (m, calls)) = Ok (best', (m', calls')) ->
  exists cl, refined rand_like side p m best m' best' cl /\
             calls' = calls ++ cl.
Proof.
  unfold refine_side, refined. cbn [fst snd].
  destruct (n_bits (quantizer_of side m) <? 32)%Z.
  - change (py_range 2) with [0%Z; 1%Z]. cbn [foldM]. intros H.
    apply bind_ok in H as ([mid [m_mid calls_mid]] & H0 & H).
    apply bind_ok in H as ([b1 [m1 calls1]] & H1 & H).
    injection H as <- <- <-.
    apply refine_phase_inv in H0 as [H0 ->].
    apply refine_phase_inv in H1 as [H1 ->].
    destruct (same_settings_n_levels side m m_mid
                (search_keeps_settings _ _ _ _ _ _ _ H0)) as [_ HL].
    rewrite HL in H1 |- *.
    eexists. split.
    + exists mid, m_mid. cbv zeta. split; [exact H0|]. split; [exact H1|].
      reflexivity.
    + now rewrite <- app_assoc.
  - intros H. injection H as <- <- <-. exists []. rewrite app_nil_r. auto.
Qed.

Lemma refined_keeps_settings rand_like (side : Side) (p : Percentiles)
  (m m' : QuantMatMul) (best best' : list nat) (cl : list SearchCall) :
  refined rand_like side p m best m' best' cl -> same_settings m m'.
Proof.
  unfold refined. destruct (n_bits (quantizer_of side m) <? 32)%Z.
  - intros (mid & m_mid & H0 & H1 & _).
    eapply same_settings_trans; eapply search_keeps_settings; eassumption.
  - intros (-> & _). apply same_settings_refl.
Qed.

(** The rows of the two grids of a phase, over a grid of at least two
    candidates: the held endpoint against every swept one. *)
Lemma nth_zip_with {A B C : Type} (f : A -> B -> C) (l : list A) (l' : list B)
  (i : nat) (a : A) (b : B) (c : C) :
  (i < length l)%nat -> (i < length l')%nat ->
  nth i (zip_with f l l') c = f (nth i l a) (nth i l' b).
Proof.
  revert l' i. induction l as [|x l IH]; intros [|y l'] [|i] Hl Hl';
    cbn in *; try lia; [reflexivity|]. apply IH; lia.
Qed.

Lemma scale_candidates_upper_held (L : R) (held : list R) (lowers : Grid)
  (i : nat) :
  (2 <= length lowers)%nat -> (i < length lowers)%nat ->
  nth i (scale_candidates L [held] lowers) [] =
    zip_with (fun u l => (u - l) / (2 * L - 1)) held (nth i lowers []).
Proof.
  intros Hl Hi. unfold scale_candidates, grid_zip.
  rewrite (expand_heads_long lowers) by exact Hl. cbn [expand_heads].
  rewrite (nth_zip_with _ _ _ _ [] []); [|rewrite repeat_length; lia|exact Hi].
  now rewrite nth_repeat_lt by lia.
Qed.

Lemma scale_candidates_lower_held (L : R) (uppers : Grid) (held : list R)
  (i : nat) :
  (2 <= length uppers)%nat -> (i < length uppers)%nat ->
  nth i (scale_candidates L uppers [held]) [] =
    zip_with (fun u l => (u - l) / (2 * L - 1)) (nth i uppers []) held.
Proof.
  intros Hl Hi. unfold scale_candidates, grid_zip.
  rewrite (expand_heads_long uppers) by exact Hl. cbn [expand_heads].
  rewrite (nth_zip_with _ _ _ _ [] []); [|exact Hi|rewrite repeat_length; lia].
  now rewrite nth_repeat_lt by lia.
Qed.

(** ** What the controller keeps, and that it returns *)

Lemma foldM_invariant {A S : Type} (f : A -> S -> result S) (P : S -> Prop)
  (l : list A) (s s' : S) :
  (forall a x y, P x -> f a x = Ok y -> P y) ->
  P s -> foldM f l s = Ok s' -> P s'.
Proof.
  intros Hf. revert s. induction l as [|a l IH]; intros s Hs H; cbn in H.
  - now injection H as <-.
  - apply bind_ok in H as (y & Hy & H). eapply IH; [|exact H].
    eapply Hf; eassumption.
Qed.

Lemma foldM_total {A S : Type} (f : A -> S -> result S) (P : S -> Prop)
  (l : list A) (s : S) :
  (forall a x, P x -> exists y, f a x = Ok y /\ P y) ->
  P s -> exists s', foldM f l s = Ok s' /\ P s'.
Proof.
  intros Hf. revert s. induction l as [|a l IH]; intros s Hs; cbn.
  - eauto.
  - destruct (Hf a s Hs) as (y & -> & Hy). cbn [bind]. now apply IH.
Qed.

Lemma refinement_round_keeps rand_like (p : Percentiles) (e : Z)
  (A_best B_best A_best' B_best' : list nat) (m m' : QuantMatMul)
  (calls calls' : list SearchCall) :
  refinement_round rand_like p e (A_best, B_best, (m, calls))
    = Ok (A_best', B_best', (m', calls')) ->
  same_settings m m'.
Proof.
  intros H. unfold refinement_round in H.
  apply bind_ok in H as ([bA [mA cA]] & HA & H).
  apply bind_ok in H as ([bB [mB cB]] & HB & H).
  injection H as <- <- <- <-.
  apply refine_side_refined in HA as (callsA & HA & _).
  apply refine_side_refined in HB as (callsB & HB & _).
  eapply same_settings_trans; eapply refined_keeps_settings; eassumption.
Qed.

Lemma searching_keeps rand_like (p : Percentiles) (c : Candidates)
  (m m' : QuantMatMul) (calls : list SearchCall) :
  searching rand_like p c m = Ok (m', calls) -> same_settings m m'.
Proof.
  unfold searching. intros H.
  apply bind_ok in H as ([bA [mA cA]] & HA & H).
  apply bind_ok in H as ([bB [mB cB]] & HB & H).
  apply bind_ok in H as ([[bA' bB'] [mR cR]] & HR & H).
  injection H as <- <-.
  apply call_search_inv in HA as [HA _]. apply call_search_inv in HB as [HB _].
  apply search_keeps_settings in HA, HB.
  eapply same_settings_trans; [exact HA|].
  eapply same_settings_trans; [exact HB|].
  refine (foldM_invariant _
            (fun acc => same_settings mB (fst (snd acc))) _ _ _ _ _ HR).
  - intros e [[a b] [x cx]] [[a' b'] [y cy]] Hx Hstep. cbn [fst snd] in *.
    eapply same_settings_trans; [exact Hx|].
    eapply refinement_round_keeps. exact Hstep.
  - apply same_settings_refl.
Qed.

Lemma seed_quantizer_inv (scales zero_points : Grid) (q q' : UniformQuantizer) :
  seed_quantizer scales zero_points q = Ok q' ->
  exists s z, py_index scales (-2) = Ok s /\
              py_index zero_points (-2) = Ok z /\
              q' = set_zero_point z (set_scale s q).
Proof.
  unfold seed_quantizer. intros H.
  apply bind_ok in H as (? & _ & H). apply bind_ok in H as (s & Hs & H).
  apply bind_ok in H as (? & _ & H). apply bind_ok in H as (z & Hz & H).
  injection H as <-. eauto.
Qed.

Lemma seeding_inv acc (dev : Device) (m ms : QuantMatMul) (p : Percentiles)
  (c : Candidates) :
  seeding acc dev m = Ok (p, c, ms) ->
  exists m1 sA zA sB zB,
    _initialize_calib_parameters dev m = Ok m1 /\
    py_index (A_scale_candidates c) (-2) = Ok sA /\
    py_index (A_zero_point_candidates c) (-2) = Ok zA /\
    py_index (B_scale_candidates c) (-2) = Ok sB /\
    py_index (B_zero_point_candidates c) (-2) = Ok zB /\
    ms = set_quantizers
           (set_inited (set_zero_point zA (set_scale sA (A_quantizer m))))
           (set_inited (set_zero_point zB (set_scale sB (B_quantizer m))))
           m1.
Proof.
  unfold seeding. intros H.
  apply bind_ok in H as (m1 & Hm1 & H).
  destruct (initialize_calib_parameters_parallel dev m m1 Hm1)
    as (rA & rB & p0 & pe & _ & _ & _ & Em1).
  apply bind_ok in H as ([rA' rB'] & _ & H).
  apply bind_ok in H as ([Au Al] & _ & H).
  apply bind_ok in H as ([Bu Bl] & _ & H).
  apply bind_ok in H as (qa & Hqa & H).
  apply bind_ok in H as (qb & Hqb & H).
  injection H as <- <- <-.
  apply seed_quantizer_inv in Hqa as (sA & zA & HsA & HzA & ->).
  apply seed_quantizer_inv in Hqb as (sB & zB & HsB & HzB & ->).
  exists m1, sA, zA, sB, zB. cbn [A_scale_candidates A_zero_point_candidates
    B_scale_candidates B_zero_point_candidates].
  repeat split; try assumption. subst m1. reflexivity.
Qed.

Lemma seeding_keeps acc (dev : Device) (m ms : QuantMatMul) (p : Percentiles)
  (c : Candidates) :
  seeding acc dev m = Ok (p, c, ms) -> same_settings m ms.
Proof.
  intros H. apply seeding_inv in H as (m1 & ? & ? & ? & ? & Hm1 & _ & _ & _ & _ & ->).
  destruct (initialize_calib_parameters_parallel dev m m1 Hm1)
    as (rA & rB & p0 & pe & _ & _ & _ & ->).
  repeat split.
Qed.

Lemma hyperparameter_searching_inv rand_like acc (dev : Device)
  (m m' : QuantMatMul) (calls : list SearchCall) :
  hyperparameter_searching rand_like acc dev m = Ok (m', calls) ->
  exists p c ms m2,
    seeding acc dev m = Ok (p, c, ms) /\
    searching rand_like p c ms = Ok (m2, calls) /\
    m' = latch_and_release m2.
Proof.
  unfold hyperparameter_searching. intros H.
  apply bind_ok in H as ([[p c] ms] & Hs & H).
  apply bind_ok in H as ([m2 calls2] & Hr & H).
  injection H as <- <-. exists p, c, ms, m2. auto.
Qed.

(** A completed search latches [calibrated] and changes neither the class nor
    the mode of the operator. *)
Lemma hyperparameter_searching_latches rand_like acc (dev : Device)
  (m m' : QuantMatMul) (calls : list SearchCall) :
  hyperparameter_searching rand_like acc dev m = Ok (m', calls) ->
  calibrated m' = true /\ mode m' = mode m /\ cls m' = cls m.
Proof.
  intros H.
  apply hyperparameter_searching_inv in H as (p & c & ms & m2 & Hs & Hr & ->).
  apply seeding_keeps in Hs. apply searching_keeps in Hr.
  destruct (same_settings_trans _ _ _ Hs Hr) as (Hc & Hm & _).
  cbn [latch_and_release calibrated mode cls]. auto.
Qed.

Lemma call_search_returns rand_like (side : Side) (scales zero_points : Grid)
  (run : Run) :
  searchable (fst run) = true ->
  exists best m',
    call_search rand_like side scales zero_points run
      = Ok (best, (m', snd run ++ [mkSearchCall side scales zero_points])) /\
    searchable m' = true.
Proof.
  intros Hw.
  destruct (search_returns rand_like side (fst run) scales zero_points Hw)
    as (best & m' & Hs & Hw').
  exists best, m'. unfold call_search. rewrite Hs. auto.
Qed.

Lemma refine_side_returns rand_like (side : Side) (p : Percentiles)
  (acc : list nat * Run) :
  searchable (fst (snd acc)) = true ->
  exists acc', refine_side rand_like side p acc = Ok acc' /\
               searchable (fst (snd acc')) = true.
Proof.
  destruct acc as [best run]. cbn [fst snd]. intros Hw.
  unfold refine_side. cbn [fst snd].
  destruct (n_bits (quantizer_of side (fst run)) <? 32)%Z; [|eauto].
  change (py_range 2) with [0%Z; 1%Z]. cbn [foldM].
  unfold refine_phase at 1.
  destruct (phase_candidates _ _ _ best 0) as [sc0 zp0].
  destruct (call_search_returns rand_like side sc0 zp0 run Hw)
    as (mid & m_mid & -> & Hw1).
  cbn [bind]. unfold refine_phase. cbn [fst snd].
  destruct (phase_candidates _ _ _ mid 1) as [sc1 zp1].
  match goal with
  | |- context [call_search ?r ?s ?a ?b ?rn] =>
      destruct (call_search_returns r s a b rn Hw1) as (b1 & m1 & -> & Hw2)
  end.
  cbn [bind]. eauto.
Qed.

Lemma refinement_round_returns rand_like (p : Percentiles) (e : Z)
  (acc : list nat * list nat * Run) :
  searchable (fst (snd acc)) = true ->
  exists acc', refinement_round rand_like p e acc = Ok acc' /\
               searchable (fst (snd acc')) = true.
Proof.
  destruct acc as [[bA bB] run]. cbn [fst snd]. intros Hw.
  unfold refinement_round.
  match goal with
  | |- context [refine_side ?r SideA ?pp ?a] =>
      destruct (refine_side_returns r SideA pp a Hw) as ([bA' runA] & -> & HwA)
  end.
  cbn [bind fst snd] in *.
  match goal with
  | |- context [refine_side ?r SideB ?pp ?a] =>
      destruct (refine_side_returns r SideB pp a HwA) as ([bB' runB] & -> & HwB)
  end.
  cbn [bind]. eexists. split; [reflexivity|]. exact HwB.
Qed.

Lemma searching_returns rand_like (p : Percentiles) (c : Candidates)
  (m : QuantMatMul) :
  searchable m = true ->
  exists m' calls, searching rand_like p c m = Ok (m', calls).
Proof.
  intros Hw. unfold searching.
  match goal with
  | |- context [call_search ?r SideA ?a ?b ?rn] =>
      destruct (call_search_returns r SideA a b rn Hw) as (bA & mA & -> & HwA)
  end.
  cbn [bind].
  match goal with
  | |- context [call_search ?r SideB ?a ?b ?rn] =>
      destruct (call_search_returns r SideB a b rn HwA) as (bB & mB & -> & HwB)
  end.
  cbn [bind].
  match goal with
  | |- context [foldM ?f ?l ?s] =>
      destruct (foldM_total f (fun acc => searchable (fst (snd acc)) = true)
                            l s) as ([[bA' bB'] [mR cR]] & -> & _)
  end.
  - intros e acc Hacc. now apply refinement_round_returns.
  - exact HwB.
  - cbn [bind]. eauto.
Qed.

(** ** The seeding, and the whole search *)

Lemma rows_ready_inv acc (x : T4) :
  rows_ready acc x = true ->
  exists rows, per_head_rows x = Ok rows /\
               Forall (fun row => row <> []) rows /\
               acc (single_batches rows) = true.
Proof.
  unfold rows_ready. destruct (per_head_rows x) as [rows|]; [|discriminate].
  intros H. apply andb_prop in H as [Hr Ha]. exists rows.
  split; [reflexivity|]. split; [|exact Ha].
  rewrite forallb_forall in Hr. apply Forall_forall. intros row Hrow ->.
  specialize (Hr [] Hrow). discriminate.
Qed.

Lemma is_val_inv {A : Type} (a : attr A) : is_val a = true -> exists v, a = Val v.
Proof. destruct a; try discriminate. eauto. Qed.

(** The second-to-last candidate of an operand is the one of the level [r]. *)
Lemma second_to_last_candidate (L : R) (n : Z) (x_ : list (list (list R))) :
  (2 <= n)%Z ->
  let U := fst (operand_percentiles n x_) in
  let Lo := snd (operand_percentiles n x_) in
  let sc := scale_candidates L U Lo in
  let zp := zero_point_candidates Lo sc in
  length sc = Z.to_nat (n + 1) /\ length zp = Z.to_nat (n + 1) /\
  nth (length sc - 2) sc [] = seed_scale L x_ /\
  nth (length zp - 2) zp [] = seed_zero_point L x_.
Proof.
  intros Hn U Lo sc zp.
  destruct (length_operand_percentiles n x_ ltac:(lia)) as [LU LL].
  fold U in LU. fold Lo in LL.
  assert (Lsc : length sc = Z.to_nat (n + 1)).
  { unfold sc, scale_candidates. rewrite length_grid_zip; lia. }
  assert (Lzp : length zp = Z.to_nat (n + 1)).
  { unfold zp, zero_point_candidates. rewrite length_grid_zip; lia. }
  split; [exact Lsc|]. split; [exact Lzp|].
  assert (Hlev : nth (Z.to_nat (n + 1) - 2) (search_levels n) 0
                 = 99999 / 100000).
  { unfold search_levels. replace (Z.to_nat (n + 1) - 2)%nat
      with (Z.to_nat (n - 1)) by lia.
    rewrite nth_levels by lia. rewrite Z2Nat.id by lia.
    now apply level_last. }
  assert (HU : nth (Z.to_nat (n + 1) - 2) U [] = row_value x_ (99999 / 100000)).
  { unfold U, operand_percentiles. cbn [fst].
    rewrite (nth_indep _ [] (row_value x_ 0))
      by (rewrite length_map; pose proof (length_search_levels n); lia).
    now rewrite map_nth, Hlev. }
  assert (HL : nth (Z.to_nat (n + 1) - 2) Lo []
               = row_value x_ (1 - 99999 / 100000)).
  { unfold Lo, operand_percentiles. cbn [snd].
    rewrite (nth_indep _ [] (row_value x_ (1 - 0)))
      by (rewrite !length_map; pose proof (length_search_levels n); lia).
    rewrite map_map.
    rewrite (map_nth (fun p => row_value x_ (1 - p))). now rewrite Hlev. }
  assert (Hsc : nth (Z.to_nat (n + 1) - 2) sc [] = seed_scale L x_).
  { unfold sc, scale_candidates, grid_zip.
    rewrite !expand_heads_long by lia.
    rewrite (nth_zip_with _ _ _ _ [] []) by lia.
    now rewrite HU, HL. }
  split; [now rewrite Lsc|]. rewrite Lzp.
  unfold zp, zero_point_candidates, grid_zip.
  rewrite !expand_heads_long by lia.
  rewrite (nth_zip_with _ _ _ _ [] []) by lia.
  now rewrite HL, Hsc.
Qed.

Lemma calibratable_inv acc (dev : Device) (m : QuantMatMul) :
  calibratable acc dev m = true ->
  exists m1 rA rB rowsA rowsB sA zA sB zB,
    _initialize_calib_parameters dev m = Ok m1 /\
    raw_input m = Val (rA, rB) /\ (2 <= eq_n m)%Z /\
    per_head_rows rA = Ok rowsA /\ Forall (fun row => row <> []) rowsA /\
    per_head_rows rB = Ok rowsB /\ Forall (fun row => row <> []) rowsB /\
    acc (single_batches rowsA) = true /\ acc (single_batches rowsB) = true /\
    scale (A_quantizer m) = Val sA /\ zero_point (A_quantizer m) = Val zA /\
    scale (B_quantizer m) = Val sB /\ zero_point (B_quantizer m) = Val zB.
Proof.
  unfold calibratable. intros H.
  destruct (raw_input m) as [| |[rA rB]]; try discriminate.
  destruct (_initialize_calib_parameters dev m) as [m1|]; [|discriminate].
  apply andb_prop in H as [H HzB]. apply andb_prop in H as [H HsB].
  apply andb_prop in H as [H HzA]. apply andb_prop in H as [H HsA].
  apply andb_prop in H as [H HrB]. apply andb_prop in H as [Hn HrA].
  apply rows_ready_inv in HrA as (rowsA & ? & ? & ?).
  apply rows_ready_inv in HrB as (rowsB & ? & ? & ?).
  apply is_val_inv in HsA as (sA & ?). apply is_val_inv in HzA as (zA & ?).
  apply is_val_inv in HsB as (sB & ?). apply is_val_inv in HzB as (zB & ?).
  apply Z.leb_le in Hn.
  exists m1, rA, rB, rowsA, rowsB, sA, zA, sB, zB. repeat split; assumption.
Qed.

(** The seeded operator, in full. *)
Lemma seeding_seeds acc (dev : Device) (m : QuantMatMul) :
  calibratable acc dev m = true ->
  exists p c m1 rA rB rowsA rowsB,
    raw_input m = Val (rA, rB) /\
    per_head_rows rA = Ok rowsA /\ per_head_rows rB = Ok rowsB /\
    _initialize_calib_parameters dev m = Ok m1 /\
    let LA := n_levels (A_quantizer m) in
    let LB := n_levels (B_quantizer m) in
    let xA := single_batches rowsA in
    let xB := single_batches rowsB in
    let qa := set_inited (set_zero_point (seed_zero_point LA xA)
                            (set_scale (seed_scale LA xA) (A_quantizer m))) in
    let qb := set_inited (set_zero_point (seed_zero_point LB xB)
                            (set_scale (seed_scale LB xB) (B_quantizer m))) in
    seeding acc dev m = Ok (p, c, set_quantizers qa qb m1) /\
    Forall (fun g : Grid => Z.of_nat (length g) = (eq_n m + 1)%Z)
           [A_scale_candidates c; A_zero_point_candidates c;
            B_scale_candidates c; B_zero_point_candidates c] /\
    py_index (A_scale_candidates c) (-2) = Ok (seed_scale LA xA) /\
    py_index (A_zero_point_candidates c) (-2) = Ok (seed_zero_point LA xA) /\
    py_index (B_scale_candidates c) (-2) = Ok (seed_scale LB xB) /\
    py_index (B_zero_point_candidates c) (-2) = Ok (seed_zero_point LB xB).
Proof.
  intros Hc.
  destruct (calibratable_inv acc dev m Hc)
    as (m1 & rA & rB & rowsA & rowsB & sA & zA & sB & zB & Hinit & Hraw & Hn
        & HrA & HneA & HrB & HneB & HaccA & HaccB & HsA & HzA & HsB & HzB).
  pose proof (seeding_returns acc dev m m1 rA rB rowsA rowsB sA zA sB zB
                Hinit Hraw Hn HrA HneA HrB HneB HaccA HaccB HsA HzA HsB HzB)
    as Hs.
  unfold operand_percentiles in Hs. cbv beta iota zeta in Hs.
  destruct (second_to_last_candidate (n_levels (A_quantizer m)) (eq_n m)
              (single_batches rowsA) Hn) as (LscA & LzpA & EscA & EzpA).
  destruct (second_to_last_candidate (n_levels (B_quantizer m)) (eq_n m)
              (single_batches rowsB) Hn) as (LscB & LzpB & EscB & EzpB).
  unfold operand_percentiles in LscA, LzpA, EscA, EzpA, LscB, LzpB, EscB, EzpB.
  cbn [fst snd] in LscA, LzpA, EscA, EzpA, LscB, LzpB, EscB, EzpB.
  unfold seeded in Hs. rewrite EscA, EzpA, EscB, EzpB in Hs.
  eexists _, _, m1, rA, rB, rowsA, rowsB.
  split; [exact Hraw|]. split; [exact HrA|]. split; [exact HrB|].
  split; [exact Hinit|]. cbv zeta.
  split; [exact Hs|].
  cbn [A_scale_candidates A_zero_point_candidates B_scale_candidates
       B_zero_point_candidates].
  split.
  { repeat constructor; lia. }
  rewrite <- EscA, <- EzpA, <- EscB, <- EzpB.
  repeat split; apply py_index_minus_two; lia.
Qed.

(** The whole search returns on an operator on which the seeding returns and
    whose metric needs no gradient. *)
Lemma hyperparameter_searching_returns rand_like acc (dev : Device)
  (m : QuantMatMul) :
  calibratable acc dev m = true -> plain_search m = true ->
  exists m' calls,
    hyperparameter_searching rand_like acc dev m = Ok (m', calls).
Proof.
  intros Hc Hp.
  destruct (seeding_seeds acc dev m Hc)
    as (p & c & m1 & rA & rB & rowsA & rowsB & Hraw & HrA & _ & Hinit & Hs & _).
  destruct (calibratable_inv acc dev m Hc)
    as (_ & _ & _ & _ & _ & _ & _ & _ & _ & _ & _ & Hn & _).
  cbv zeta in Hs. unfold hyperparameter_searching. rewrite Hs. cbn [bind].
  match goal with
  | |- context [searching ?r ?pp ?cc ?ms] =>
      destruct (searching_returns r pp cc ms) as (m2 & calls & ->)
  end; [|cbn [bind]; eauto].
  pose proof (initialize_calib_parameters_raw_out dev m m1 Hinit) as Hro.
  destruct (initialize_calib_parameters_parallel dev m m1 Hinit)
    as (rA' & rB' & p0 & pe & Hraw' & Hp0 & Hpe & ->).
  rewrite Hraw in Hraw'. injection Hraw' as <- <-.
  destruct (balanced_parallel_range (eq_n m) p0 ltac:(lia) Hp0)
    as (pe' & Hpe' & Hpe1 & _).
  rewrite Hpe in Hpe'. injection Hpe' as <-.
  assert (1 <= Z.of_nat (length rA))%Z as Hcs.
  { destruct rA; [discriminate|]. cbn [length]. lia. }
  unfold plain_search in Hp.
  apply andb_prop in Hp as [Hp Hmet]. apply andb_prop in Hp as [Hcbs Hg].
  unfold searchable.
  cbn [set_quantizers set_calib_parameters calib_size parallel_eq_n
       calib_batch_size eq_n raw_input raw_out raw_grad metric A_quantizer
       B_quantizer].
  rewrite Hraw, Hcbs, Hg, Hmet, Hro.
  replace (1 <=? Z.of_nat (length rA))%Z with true
    by (symmetry; apply Z.leb_le; lia).
  replace (1 <=? pe)%Z with true by (symmetry; apply Z.leb_le; lia).
  replace (1 <=? eq_n m)%Z with true by (symmetry; apply Z.leb_le; lia).
  reflexivity.
Qed.

(** ** Fuel, and the size of the grid *)

(** The retry loop never runs out of fuel: once the mini-batch size exceeds
    the length of a row the [view] fails, so more fuel changes nothing. *)
Lemma quantile_retry_fuel acc (rows : list (list R)) (pct : list R)
  (fuel extra mbs : nat) :
  rows <> [] -> (1 <= mbs)%nat ->
  (length (hd [] rows) < mbs * 2 ^ fuel)%nat ->
  quantile_retry acc (fuel + extra) mbs rows pct
    = quantile_retry acc fuel mbs rows pct.
Proof.
  intros Hrows. revert mbs.
  induction fuel as [|fuel IH]; intros mbs Hmbs Hlen.
  - cbn [Nat.add quantile_retry]. cbn in Hlen. destruct extra; [reflexivity|].
    cbn [quantile_retry]. destruct rows as [|row rows]; [contradiction|].
    cbn [hd] in Hlen. cbn [view_mini_batches mapM].
    destruct (length row =? 0)%nat eqn:E0; [reflexivity|].
    apply Nat.eqb_neq in E0.
    rewrite Nat.mod_small by lia.
    apply Nat.eqb_neq in E0. rewrite E0. reflexivity.
  - cbn [Nat.add quantile_retry].
    destruct (view_mini_batches mbs rows) as [x_|]; [|reflexivity].
    cbn [bind].
    destruct (uppers <- quantile_means acc x_ pct;;
              lowers <- quantile_means acc x_ (map (fun p => 1 - p) pct);;
              Ok (uppers, lowers)); [reflexivity|].
    apply IH; [lia|]. cbn [Nat.pow] in Hlen. lia.
Qed.

Lemma quantile_retry_enough_fuel acc (rows : list (list R)) (pct : list R)
  (extra : nat) :
  rows <> [] ->
  quantile_retry acc (S (length (hd [] rows)) + extra) 1 rows pct
    = quantile_retry acc (S (length (hd [] rows))) 1 rows pct.
Proof.
  intros Hrows. apply quantile_retry_fuel; [exact Hrows|lia|].
  rewrite Nat.mul_1_l.
  pose proof (Nat.pow_gt_lin_r 2 (S (length (hd [] rows))) ltac:(lia)). lia.
Qed.

Lemma quantile_retry_length acc (fuel mbs : nat) (rows : list (list R))
  (pct : list R) (uppers lowers : Grid) :
  quantile_retry acc fuel mbs rows pct = Ok (uppers, lowers) ->
  length uppers = length pct /\ length lowers = length pct.
Proof.
  revert mbs. induction fuel as [|fuel IH]; intros mbs H;
    cbn [quantile_retry] in H; [discriminate|].
  apply bind_ok in H as (x_ & _ & H).
  destruct (quantile_means acc x_ pct) as [u|] eqn:Hu; cbn [bind] in H;
    [|now apply IH in H].
  destruct (quantile_means acc x_ (map (fun p => 1 - p) pct)) as [l|] eqn:Hl;
    cbn [bind] in H; [|now apply IH in H].
  injection H as <- <-. unfold quantile_means in Hu, Hl.
  destruct (acc x_); try discriminate.
  apply mapM_length in Hu, Hl. rewrite length_map in Hl. auto.
Qed.

Lemma py_index_ok_length {A : Type} (l : list A) (v : A) :
  py_index l (-2) = Ok v -> (2 <= length l)%nat.
Proof.
  unfold py_index. cbn [Z.ltb Z.compare].
  destruct (Z.leb_spec 0 (-2 + Z.of_nat (length l))); [lia|discriminate].
Qed.

Lemma length_grid_zip_same (f : R -> R -> R) (g g' : Grid) :
  length g' = length g -> length (grid_zip f g g') = length g.
Proof.
  intros Hg. unfold grid_zip. rewrite length_zip_with.
  destruct g as [|a [|b g]], g' as [|a' [|b' g']]; cbn in *; lia.
Qed.

(** The seeding returns only for grids of at least two searched candidates:
    [eq_n = 1] divides by zero in the levels, and a smaller [eq_n] leaves no
    entry of index -2. *)
Lemma seeding_needs_two_candidates acc (dev : Device) (m ms : QuantMatMul)
  (p : Percentiles) (c : Candidates) :
  seeding acc dev m = Ok (p, c, ms) -> (2 <= eq_n m)%Z.
Proof.
  unfold seeding. intros H.
  apply bind_ok in H as (m1 & Hm1 & H).
  destruct (initialize_calib_parameters_parallel dev m m1 Hm1)
    as (rA & rB & p0 & pe & _ & _ & _ & ->).
  apply bind_ok in H as ([rA' rB'] & _ & H).
  apply bind_ok in H as ([Au Al] & HA & H).
  apply bind_ok in H as ([Bu Bl] & _ & H).
  apply bind_ok in H as (qa & Hqa & _).
  change (eq_n (set_calib_parameters _ _ m)) with (eq_n m) in *.
  unfold calculate_percentile_candidates in HA.
  apply bind_ok in HA as (pct & Hpct & HA).
  apply bind_ok in HA as (rows & _ & HA).
  apply bind_ok in HA as ([u l] & Hq & HA).
  change (eq_n (set_calib_parameters _ _ m)) with (eq_n m) in *.
  destruct (Z.eqb_spec (Z.of_nat (length pct)) (eq_n m + 1)) as [Hlen|];
    [|discriminate].
  injection HA as <- <-.
  apply quantile_retry_length in Hq as [Lu Ll].
  apply seed_quantizer_inv in Hqa as (s & z & Hs & _).
  apply py_index_ok_length in Hs. unfold scale_candidates in Hs.
  rewrite length_grid_zip_same in Hs by lia.
  destruct (Z.eq_dec (eq_n m) 1) as [E1|]; [|lia].
  unfold percentile_levels in Hpct. rewrite E1 in Hpct.
  cbn in Hpct. discriminate.
Qed.

(** ** The number of searches *)

Lemma refined_calls rand_like (side : Side) (p : Percentiles)
  (m m' : QuantMatMul) (best best' : list nat) (cl : list SearchCall) :
  refined rand_like side p m best m' best' cl ->
  length cl = if (n_bits (quantizer_of side m) <? 32)%Z then 2%nat else 0%nat.
Proof.
  unfold refined. destruct (n_bits (quantizer_of side m) <? 32)%Z.
  - intros (? & ? & _ & _ & ->). reflexivity.
  - intros (_ & _ & ->). reflexivity.
Qed.

(** A whole search runs the two initial searches and, in each of the
    [search_round] rounds, two searches per side of a bit-width below 32. *)
Lemma searching_call_count rand_like (p : Percentiles) (c : Candidates)
  (m m' : QuantMatMul) (calls : list SearchCall) :
  searching rand_like p c m = Ok (m', calls) ->
  length calls =
    (2 + Z.to_nat (search_round m)
         * ((if (n_bits (A_quantizer m) <? 32)%Z then 2 else 0)
            + (if (n_bits (B_quantizer m) <? 32)%Z then 2 else 0)))%nat.
Proof.
  unfold searching. intros H.
  apply bind_ok in H as ([bA [mA cA]] & HA & H).
  apply bind_ok in H as ([bB [mB cB]] & HB & H).
  apply bind_ok in H as ([[bA' bB'] [mR cR]] & HR & H).
  injection H as <- <-.
  apply call_search_inv in HA as [HA ->]. apply call_search_inv in HB as [HB ->].
  apply search_keeps_settings in HA, HB.
  pose proof (same_settings_trans _ _ _ HA HB) as Hset.
  set (k := ((if (n_bits (A_quantizer m) <? 32)%Z then 2 else 0)
             + (if (n_bits (B_quantizer m) <? 32)%Z then 2 else 0))%nat).
  assert (Hloop : forall l acc acc',
            foldM (refinement_round rand_like p) l acc = Ok acc' ->
            same_settings m (fst (snd acc)) ->
            same_settings m (fst (snd acc')) /\
            length (snd (snd acc'))
              = (length (snd (snd acc)) + length l * k)%nat).
  { induction l as [|e l IH]; intros acc acc' Hf Hs; cbn [foldM] in Hf.
    - injection Hf as <-. split; [exact Hs|]. cbn. lia.
    - apply bind_ok in Hf as (acc1 & H1 & Hf).
      destruct acc as [[a b] [x cx]], acc1 as [[a1 b1] [y cy]].
      cbn [fst snd] in *.
      pose proof (refinement_round_keeps _ _ _ _ _ _ _ _ _ _ _ H1) as Hk.
      unfold refinement_round in H1.
      apply bind_ok in H1 as ([bA1 [mA1 cA1]] & HrA & H1).
      apply bind_ok in H1 as ([bB1 [mB1 cB1]] & HrB & H1).
      injection H1 as <- <- <- <-.
      apply refine_side_refined in HrA as (clA & HrA & ->).
      apply refine_side_refined in HrB as (clB & HrB & ->).
      pose proof (refined_keeps_settings _ _ _ _ _ _ _ _ HrA) as HkA.
      apply refined_calls in HrA, HrB.
      destruct (same_settings_n_levels SideA m x Hs) as [EA _].
      destruct (same_settings_n_levels SideB m mA1
                  (same_settings_trans _ _ _ Hs HkA)) as [EB _].
      rewrite EA in HrA. rewrite EB in HrB. cbn [quantizer_of] in HrA, HrB.
      destruct (IH _ _ Hf (same_settings_trans _ _ _ Hs Hk)) as [Hs' Hl].
      split; [exact Hs'|]. rewrite Hl. cbn [fst snd length].
      rewrite !length_app, HrA, HrB. unfold k. lia. }
  destruct (Hloop _ _ _ HR Hset) as [_ Hl]. cbn [fst snd] in Hl.
  rewrite Hl, !length_app, length_py_range. cbn [length]. fold k. lia.
Qed.

(** ** The calibrated latch *)

Lemma step_keeps_calibrated rand_like acc (dev : Device) (o : Operation)
  (m m' : QuantMatMul) :
  calibrated m = true -> step rand_like acc dev o m = Ok m' ->
  calibrated m' = true.
Proof.
  intros Hc H. destruct o; cbn [step] in H.
  - apply bind_ok in H as (? & _ & H). now injection H as <-.
  - apply bind_ok in H as (? & _ & H). now injection H as <-.
  - destruct side; apply bind_ok in H as (? & _ & H); now injection H as <-.
  - now injection H as <-.
  - apply bind_ok in H as (? & _ & H). now injection H as <-.
  - apply initialize_calib_parameters_parallel in H
      as (? & ? & ? & ? & _ & _ & _ & ->). exact Hc.
  - apply bind_ok in H as ([best m0] & Hs & H). injection H as <-.
    apply search_keeps_settings in Hs as (_ & _ & -> & _). exact Hc.
  - apply bind_ok in H as (? & _ & H). now injection H as <-.
  - apply bind_ok in H as ([m0 calls] & Hs & H). injection H as <-.
    now apply hyperparameter_searching_latches in Hs as [-> _].
  - apply bind_ok in H as (md & Hmd & H). destruct c as [[a b] out].
    cbn [fire_hooks] in Hmd.
    apply bind_ok in Hmd as (to & _ & Hmd).
    apply bind_ok in Hmd as (ti & _ & Hmd). injection Hmd as <-.
    cbn [as_matmul] in H. injection H as <-. exact Hc.
  - apply bind_ok in H as (md & Hmd & H). cbn [collect_captured] in Hmd.
    apply bind_ok in Hmd as (to & _ & Hmd).
    apply bind_ok in Hmd as (ro & _ & Hmd).
    apply bind_ok in Hmd as ([la lb] & _ & Hmd).
    apply bind_ok in Hmd as (ra & _ & Hmd).
    apply bind_ok in Hmd as (rb & _ & Hmd). injection Hmd as <-.
    cbn [as_matmul] in H. injection H as <-. exact Hc.
  - injection H as <-. exact Hc.
Qed.

(** C4: a fresh operator is not calibrated; on an operator that is not
    calibrated the quantized-forward path, called directly or through
    [forward] in mode "quant_forward", fails with the assertion error; a
    search that completes sets [calibrated]; and no operation on the operator
    that returns resets it. *)
Theorem quant_forward_gate_and_latch rand_like acc (dev : Device)
  (m : QuantMatMul) (A B : T4) :
  (fresh m -> calibrated m = false) /\
  (calibrated m = false ->
     quant_forward rand_like m A B = Raise AssertionError /\
     forward rand_like (set_mode "quant_forward" m) A B
       = Raise AssertionError) /\
  (forall m' calls,
     hyperparameter_searching rand_like acc dev m = Ok (m', calls) ->
     calibrated m' = true) /\
  (forall o m',
     calibrated m = true -> step rand_like acc dev o m = Ok m' ->
     calibrated m' = true).
Proof.
  split; [|split; [|split]].
  - intros []; reflexivity.
  - intros Hc. unfold forward, quant_forward.
    cbn [set_mode mode calibrated String.eqb Ascii.eqb Bool.eqb].
    rewrite Hc. split; reflexivity.
  - intros m' calls H.
    now apply hyperparameter_searching_latches in H as [-> _].
  - intros o m'. apply step_keeps_calibrated.
Qed.

Lemma quant_forward_gate_and_latch_witness :
  calibrated example_fresh = false /\
  quant_forward no_rand example_fresh example_A example_B
    = Raise AssertionError /\
  forward no_rand (set_mode "quant_forward" example_fresh) example_A example_B
    = Raise AssertionError /\
  exists m' calls,
    hyperparameter_searching no_rand always_accepts example_dev example_op
      = Ok (m', calls) /\
    calibrated m' = true /\
    calibrated (set_mode "quant_forward" m') = true.
Proof.
  pose proof (quant_forward_gate_and_latch no_rand always_accepts example_dev
                example_fresh example_A example_B) as (Hf & Hg & _).
  specialize (Hf (fresh_Asymmetric 8 8 "raw" "mse" 32 1 2 1)).
  destruct (Hg Hf) as [Hq Hfw].
  split; [exact Hf|]. split; [exact Hq|]. split; [exact Hfw|].
  destruct (hyperparameter_searching_returns no_rand always_accepts
              example_dev example_op eq_refl eq_refl) as (m' & calls & Hs).
  exists m', calls. split; [exact Hs|].
  pose proof (quant_forward_gate_and_latch no_rand always_accepts example_dev
                example_op example_A example_B) as (_ & _ & Hl & _).
  pose proof (Hl m' calls Hs) as Hc. split; [exact Hc|].
  pose proof (quant_forward_gate_and_latch no_rand always_accepts example_dev
                m' example_A example_B) as (_ & _ & _ & Hk).
  exact (Hk (OpSetMode "quant_forward") _ Hc eq_refl).
Defined.

(** ** The other side of a search *)

Lemma round_half_even_near (z : Z) (x : R) :
  IZR z - 1 / 2 < x < IZR z + 1 / 2 -> round_half_even x = IZR z.
Proof.
  intros Hx. unfold round_half_even.
  destruct (Rle_dec (IZR z) x) as [Hle|Hgt].
  - rewrite <- (Int_part_spec x z) by lra.
    destruct (Rlt_dec (x - IZR z) (1 / 2)); [reflexivity|lra].
  - assert (IZR (z - 1) = IZR z - 1) as E by (rewrite minus_IZR; lra).
    rewrite <- (Int_part_spec x (z - 1)) by lra.
    rewrite E.
    destruct (Rlt_dec (x - (IZR z - 1)) (1 / 2)); [lra|].
    destruct (Rlt_dec (1 / 2) (x - (IZR z - 1))); [|lra].
    f_equal. lia.
Qed.

Lemma clamp_inside (lo hi x : R) : lo <= x <= hi -> clamp lo hi x = x.
Proof.
  intros Hx. unfold clamp. rewrite Rmax_left by lra. now rewrite Rmin_left by lra.
Qed.

(** The quantile of the row [0, 1000] at a level strictly inside (0, 1). *)
Lemma interpolate_example (q : R) :
  0 < q < 1 ->
  interpolate (sort_R [0; 1000]) (q * (INR 2 - 1)) = 1000 * q.
Proof.
  intros Hq. unfold sort_R. cbn [fold_right insert_sorted].
  destruct (Rle_dec 0 1000); [|lra].
  replace (q * (INR 2 - 1)) with q by (cbn [INR]; ring).
  unfold interpolate.
  rewrite <- (Int_part_spec q 0) by lra.
  rewrite <- (Int_part_spec (- q) (-1)) by lra.
  change (Z.to_nat 0) with 0%nat. change (Z.to_nat (- -1)) with 1%nat.
  cbn [nth]. ring.
Qed.

Lemma mean_singleton (v : R) : mean [v] = v.
Proof. unfold mean, Rsum, numel. cbn. field. Qed.

Lemma n_levels_8 (q : UniformQuantizer) : n_bits q = 8%Z -> n_levels q = 128.
Proof.
  intros H. unfold n_levels. rewrite H.
  change (powerRZ 2 (8 - 1)) with (2 ^ 7). simpl. lra.
Qed.

(** The seed of the side [B] of the example: scale [999.98 / 255] and
    zero-point 0. *)
Lemma example_seed :
  seed_scale 128 (single_batches [[0; 1000]]) = [99998 / 25500] /\
  seed_zero_point 128 (single_batches [[0; 1000]]) = [0].
Proof.
  assert (Hs : seed_scale 128 (single_batches [[0; 1000]]) = [99998 / 25500]).
  { unfold seed_scale, row_value, single_batches.
    cbn [map zip_with length].
    rewrite !interpolate_example by lra. rewrite !mean_singleton.
    f_equal. field. }
  split; [exact Hs|].
  unfold seed_zero_point. rewrite Hs.
  unfold row_value, single_batches. cbn [map zip_with length].
  rewrite interpolate_example by lra. rewrite mean_singleton.
  f_equal. rewrite (round_half_even_near 0); [lra|].
  replace (1000 * (1 - 99999 / 100000) / (99998 / 25500))
    with (255 / 99998) by field.
  lra.
Qed.

Lemma quant_asym_example_0 : quant_asym false 128 (99998 / 25500) 0 0 = 0.
Proof.
  unfold quant_asym. replace (0 / (99998 / 25500)) with 0 by field.
  rewrite (round_half_even_near 0 0) by lra.
  rewrite clamp_inside by lra. ring.
Qed.

Lemma quant_asym_example_1000 :
  quant_asym false 128 (99998 / 25500) 0 1000 = 99998 / 100.
Proof.
  unfold quant_asym.
  rewrite (round_half_even_near 0 0) by lra.
  replace (1000 / (99998 / 25500)) with (25500000 / 99998) by field.
  rewrite (round_half_even_near 255) by lra.
  rewrite clamp_inside by lra. field.
Qed.

(** At the first search of the example, [B = [0, 1000]] enters as
    [[0, 999.98]]: quantized by the seed, not as the float tensor. *)
Lemma first_search_other_side_is_quantized :
  exists p c ms,
    seeding always_accepts example_dev example_op = Ok (p, c, ms) /\
    other_side_sim no_rand SideA ms example_A example_B
      = Ok [[[[0]; [99998 / 100]]]] /\
    other_side_sim no_rand SideA ms example_A example_B <> Ok example_B.
Proof.
  destruct (seeding_seeds always_accepts example_dev example_op eq_refl)
    as (p & c & m1 & rA & rB & rowsA & rowsB & Hraw & HrA & HrB & Hinit & Hs & _).
  cbv zeta in Hs.
  injection Hraw as <- <-. injection HrB as <-.
  rewrite (n_levels_8 (B_quantizer example_op) eq_refl) in Hs.
  destruct example_seed as [Es Ez].
  change (map (fun h => concat (map (fun sample : T3 =>
            flatten_mat (nth h sample [])) example_B))
              (seq 0 (length [[[0]; [1000]]])))
    with [[0; 1000]] in Hs.
  rewrite Es, Ez in Hs.
  eexists p, c, _. split; [exact Hs|].
  assert (E : other_side_sim no_rand SideA
                (set_quantizers
                   (set_inited
                      (set_zero_point
                         (seed_zero_point (n_levels (A_quantizer example_op))
                            (single_batches rowsA))
                         (set_scale
                            (seed_scale (n_levels (A_quantizer example_op))
                               (single_batches rowsA))
                            (A_quantizer example_op))))
                   (set_inited
                      (set_zero_point [0]
                         (set_scale [99998 / 25500] (B_quantizer example_op))))
                   m1) example_A example_B
              = Ok [[[[0]; [99998 / 100]]]]).
  { unfold other_side_sim, quant_input_B, UniformQuantizer_forward.
    cbn [set_quantizers B_quantizer set_inited set_zero_point set_scale n_bits
         inited scale zero_point sym training_mode example_op set_captured
         example_fresh AsymmetricallyBatchingQuantMatMul_init
         with_class_and_batch PTQSLQuantMatMul_init UniformQuantizer_init
         Z.eqb Pos.eqb assert bind get_attr andb].
    unfold per_head2, example_B.
    cbn [map length expand_heads repeat zip_with3 mat_map].
    erewrite n_levels_8 by reflexivity.
    now rewrite quant_asym_example_0, quant_asym_example_1000. }
  split; [exact E|]. rewrite E. unfold example_B. intros H.
  injection H as H. lra.
Qed.

(** ** The orchestrator *)

Lemma nth_error_list_set {A : Type} (i j : nat) (v : A) (l : list A) :
  nth_error (list_set i v l) j =
    if (i =? j)%nat
    then match nth_error l j with Some _ => Some v | None => None end
    else nth_error l j.
Proof.
  revert i j. induction l as [|a l IH]; intros i j.
  - replace (list_set i v []) with (@nil A) by now destruct i.
    destruct j; cbn; destruct (i =? _)%nat; reflexivity.
  - destruct i as [|i], j as [|j]; cbn; try reflexivity. apply IH.
Qed.

Lemma length_list_set {A : Type} (i : nat) (v : A) (l : list A) :
  length (list_set i v l) = length l.
Proof.
  revert i. induction l as [|a l IH]; intros [|i]; cbn; try reflexivity.
  now rewrite IH.
Qed.

Lemma map_list_set_same {A B : Type} (f : A -> B) (i : nat) (v a : A)
  (l : list A) :
  nth_error l i = Some a -> f v = f a -> map f (list_set i v l) = map f l.
Proof.
  revert i. induction l as [|x l IH]; intros [|i] Hn Hf; cbn in *;
    try discriminate.
  - injection Hn as ->. now rewrite Hf.
  - f_equal. now apply IH.
Qed.

Lemma fire_hooks_mode (md md' : Module) (c : Capture) :
  fire_hooks md c = Ok md' ->
  module_mode md' = module_mode md /\ eligible md' = eligible md.
Proof.
  destruct c as [[a b] out]. destruct md as [op|e]; cbn [fire_hooks]; intros H.
  - apply bind_ok in H as (? & _ & H). apply bind_ok in H as (? & _ & H).
    injection H as <-. split; reflexivity.
  - apply bind_ok in H as (? & _ & H). destruct (e_class e) eqn:Hc.
    + apply bind_ok in H as (? & _ & H). injection H as <-. split; reflexivity.
    + apply bind_ok in H as (? & _ & H). injection H as <-. split; reflexivity.
    + injection H as <-. split; reflexivity.
Qed.

Lemma collect_captured_mode (md md' : Module) :
  collect_captured md = Ok md' -> module_mode md' = module_mode md.
Proof.
  destruct md as [op|e]; cbn [collect_captured]; intros H.
  - apply bind_ok in H as (? & _ & H). apply bind_ok in H as (? & _ & H).
    apply bind_ok in H as ([? ?] & _ & H). apply bind_ok in H as (? & _ & H).
    apply bind_ok in H as (? & _ & H). injection H as <-. reflexivity.
  - apply bind_ok in H as (? & _ & H). apply bind_ok in H as (? & _ & H).
    destruct (e_class e).
    + apply bind_ok in H as (? & _ & H). apply bind_ok in H as (? & _ & H).
      injection H as <-. reflexivity.
    + apply bind_ok in H as (? & _ & H). apply bind_ok in H as (? & _ & H).
      injection H as <-. reflexivity.
    + injection H as <-. reflexivity.
Qed.

Lemma flip_mode_eq (idx : nat) (model : list Module) (log : list Event) :
  flip_mode idx (model, log) =
    if mode_at model idx
    then (match nth_error model idx with
          | Some md => list_set idx (flipped md) model
          | None => model
          end, log ++ [EvSetMode idx])
    else (model, log).
Proof.
  unfold flip_mode, mode_at. rewrite nth_error_map.
  destruct (nth_error model idx) as [[op|e]|]; cbn; try reflexivity.
  unfold flipped. destruct (e_mode e); reflexivity.
Qed.

Lemma flipped_mode (md : Module) :
  module_mode (flipped md) = Deleted \/
  module_mode (flipped md) = Val "quant_forward"%string.
Proof.
  destruct md as [op|e]; cbn; [now right|].
  destruct (e_mode e) eqn:E; cbn; rewrite ?E; auto.
Qed.

Lemma flipped_keeps_mode_at (md : Module) (model : list Module) (k i : nat) :
  nth_error model k = Some md ->
  mode_at (list_set k (flipped md) model) i = mode_at model i.
Proof.
  intros Hk. unfold mode_at. rewrite !nth_error_map, nth_error_list_set.
  destruct (Nat.eqb_spec k i) as [<-|]; [|reflexivity].
  rewrite Hk. cbn. destruct md as [op|e]; cbn; [reflexivity|].
  destruct (e_mode e) eqn:E; cbn; rewrite ?E; reflexivity.
Qed.

(** The final pass, from index [k] on: every module in range is flipped, the
    others are kept, and one write is recorded per module that has a
    [mode]. *)
Lemma flip_all (len k : nat) (model : list Module) (log : list Event) :
  let st := fold_left (fun st idx => flip_mode idx st) (seq k len)
                      (model, log) in
  (forall i, nth_error (fst st) i =
               if ((k <=? i) && (i <? k + len))%nat
               then option_map flipped (nth_error model i)
               else nth_error model i) /\
  snd st = log ++ map EvSetMode (filter (mode_at model) (seq k len)) /\
  length (fst st) = length model.
Proof.
  revert k model log. induction len as [|len IH]; intros k model log;
    cbn [seq fold_left filter map].
  - cbn [fst snd]. rewrite app_nil_r. repeat split.
    intros i. destruct (Nat.leb_spec k i), (Nat.ltb_spec i (k + 0)); cbn;
      try reflexivity; lia.
  - pose proof (flip_mode_eq k model log) as E.
    destruct (flip_mode k (model, log)) as [model1 log1].
    assert (Hcase :
              (forall i, nth_error model1 i =
                         if (k =? i)%nat
                         then option_map flipped (nth_error model i)
                         else nth_error model i) /\
              (forall i, mode_at model1 i = mode_at model i) /\
              length model1 = length model /\
              log1 = log ++ (if mode_at model k then [EvSetMode k] else [])).
    { destruct (mode_at model k) eqn:Hk.
      - destruct (nth_error model k) as [md|] eqn:Hmd.
        + injection E as -> ->.
          split; [|split; [|split; [apply length_list_set|reflexivity]]].
          * intros i. rewrite nth_error_list_set.
            destruct (Nat.eqb_spec k i) as [<-|]; [|reflexivity].
            now rewrite Hmd.
          * intros i. now apply flipped_keeps_mode_at.
        + unfold mode_at in Hk. rewrite nth_error_map, Hmd in Hk. discriminate.
      - injection E as -> ->. rewrite app_nil_r.
        split; [|auto]. intros i.
        destruct (Nat.eqb_spec k i) as [<-|]; [|reflexivity].
        unfold mode_at in Hk. rewrite nth_error_map in Hk.
        destruct (nth_error model k) as [[op|e]|]; cbn in *;
          try reflexivity; try discriminate.
        unfold flipped. destruct (e_mode e); try discriminate. reflexivity. }
    destruct Hcase as (N1 & M1 & L1 & ->).
    destruct (IH (S k) model1 (log ++ (if mode_at model k
                                        then [EvSetMode k] else [])))
      as (N & Lg & L).
    split; [|split].
    + intros i. rewrite N, N1.
      destruct (Nat.eqb_spec k i) as [<-|Hki].
      * replace ((S k <=? k) && (k <? S k + len))%nat with false
          by (symmetry; apply andb_false_iff; left; apply Nat.leb_gt; lia).
        replace ((k <=? k) && (k <? k + S len))%nat with true; [reflexivity|].
        symmetry. apply andb_true_iff.
        split; [apply Nat.leb_le | apply Nat.ltb_lt]; lia.
      * replace ((S k <=? i) && (i <? S k + len))%nat
          with ((k <=? i) && (i <? k + S len))%nat; [reflexivity|].
        destruct (Nat.leb_spec k i), (Nat.leb_spec (S k) i),
          (Nat.ltb_spec i (k + S len)), (Nat.ltb_spec i (S k + len)); cbn;
          try reflexivity; lia.
    + rewrite Lg, <- app_assoc. f_equal.
      rewrite (filter_ext _ _ M1).
      destruct (mode_at model k); reflexivity.
    + lia.
Qed.

Section Orchestrator.

Variable rand_like : T4 -> T4.
Variable quantile_accepts : list (list (list R)) -> bool.
Variable dev : Device.
Variable run_model : list Module -> T4 -> result (list (option Capture)).
Variable extern_search : Extern -> result Extern.
Variable extern_reparam : Extern -> result Extern.

Hypothesis extern_search_mode :
  forall e e', extern_search e = Ok e' -> e_mode e' = e_mode e.
Hypothesis extern_reparam_mode :
  forall e e', extern_reparam e = Ok e' -> e_mode e' = e_mode e.

Lemma module_search_mode (md md' : Module) :
  module_search rand_like quantile_accepts dev extern_search md = Ok md' ->
  module_mode md' = module_mode md.
Proof.
  destruct md as [op|e]; cbn [module_search]; intros H.
  - destruct (cls op); try discriminate.
    apply bind_ok in H as ([op' calls] & Hs & H). injection H as <-.
    apply hyperparameter_searching_latches in Hs as (_ & Hm & _).
    cbn [module_mode]. now rewrite Hm.
  - apply bind_ok in H as (e' & He & H). injection H as <-.
    cbn [module_mode]. now apply extern_search_mode.
Qed.

Lemma warm_passes (model : list Module) (loader : list T4)
  (log log' : list Event) :
  foldM (warm_pass run_model model) loader log = Ok log' ->
  Forall (work_event model) log -> Forall (work_event model) log'.
Proof.
  revert log. induction loader as [|inp loader IH]; intros log H Hlog;
    cbn [foldM] in H.
  - now injection H as <-.
  - apply bind_ok in H as (log1 & H1 & H). apply (IH log1 H).
    unfold warm_pass in H1. apply bind_ok in H1 as (? & _ & H1).
    injection H1 as <-. apply Forall_app. split; [exact Hlog|].
    repeat constructor.
Qed.

(** The capture passes of one module change that module only, and not its
    mode. *)
Lemma capture_passes (model : list Module) (idx : nat) (loader : list T4)
  (cur cur' : list Module) (log log' : list Event) :
  foldM (capture_pass run_model idx) loader (cur, log) = Ok (cur', log') ->
  map module_mode cur = map module_mode model ->
  Forall (work_event model) log ->
  length cur' = length cur /\
  map module_mode cur' = map module_mode model /\
  Forall (work_event model) log' /\
  (forall i, i <> idx -> nth_error cur' i = nth_error cur i) /\
  (forall ev, In ev log -> In ev log').
Proof.
  revert cur log. induction loader as [|inp loader IH];
    intros cur log H Hm Hlog; cbn [foldM] in H.
  - injection H as <- <-. auto.
  - apply bind_ok in H as ([cur1 log1] & H1 & H).
    unfold capture_pass in H1. apply bind_ok in H1 as (caps & _ & H1).
    assert (length cur1 = length cur /\
            map module_mode cur1 = map module_mode model /\
            log1 = log ++ [EvForward (Some idx) (map module_mode cur)] /\
            (forall i, i <> idx -> nth_error cur1 i = nth_error cur i))
      as (L1 & M1 & -> & N1).
    { destruct (nth_error cur idx) as [md|] eqn:Hmd;
        [destruct (nth idx caps None) as [c|]|].
      - apply bind_ok in H1 as (md' & Hf & H1). injection H1 as <- <-.
        apply fire_hooks_mode in Hf as [Hf _].
        split; [apply length_list_set|].
        split; [rewrite (map_list_set_same _ _ _ md) by assumption;
                exact Hm|].
        split; [reflexivity|].
        intros i Hi. rewrite nth_error_list_set.
        destruct (Nat.eqb_spec idx i); [congruence|reflexivity].
      - injection H1 as <- <-. auto.
      - injection H1 as <- <-. auto. }
    destruct (IH cur1 _ H M1) as (L & M & F & N & I).
    { apply Forall_app. split; [exact Hlog|]. constructor; [|constructor].
      cbn. exact Hm. }
    split; [lia|]. split; [exact M|]. split; [exact F|].
    split.
    + intros i Hi. rewrite N by exact Hi. now apply N1.
    + intros ev Hev. apply I. apply in_or_app. now left.
Qed.

(** The calibration of one module changes that module only, and not its
    mode; an eligible module is searched. *)
Lemma calibrate_module_step (model : list Module) (loader : list T4)
  (idx : nat) (cur cur' : list Module) (log log' : list Event) :
  calibrate_module rand_like quantile_accepts dev run_model extern_search
                   extern_reparam loader idx (cur, log) = Ok (cur', log') ->
  map module_mode cur = map module_mode model ->
  Forall (work_event model) log ->
  length cur' = length cur /\
  map module_mode cur' = map module_mode model /\
  Forall (work_event model) log' /\
  (forall i, i <> idx -> nth_error cur' i = nth_error cur i) /\
  (forall ev, In ev log -> In ev log') /\
  (forall md, nth_error cur idx = Some md -> eligible md = true ->
              In (EvSearch idx) log').
Proof.
  intros H Hm Hlog. unfold calibrate_module in H. cbn [fst] in H.
  destruct (nth_error cur idx) as [md|] eqn:Hmd.
  2:{ injection H as <- <-. repeat split; auto. discriminate. }
  unfold eligible.
  destruct (negb (module_has_metric md) || module_calibrated md) eqn:Hel.
  { injection H as <- <-. repeat split; auto.
    intros md0 E He. injection E as <-.
    destruct (module_has_metric md), (module_calibrated md); discriminate. }
  apply bind_ok in H as ([cur1 log1] & Hcap & H).
  destruct (capture_passes model idx loader cur cur1 log log1 Hcap Hm Hlog)
    as (L1 & M1 & F1 & N1 & I1).
  destruct (nth_error cur1 idx) as [md1|] eqn:Hmd1; cbn [bind] in H;
    [|discriminate].
  apply bind_ok in H as (md2 & Hcol & H).
  apply bind_ok in H as (md3 & Hsearch & H).
  apply collect_captured_mode in Hcol. apply module_search_mode in Hsearch.
  assert (Hmode3 : module_mode md3 = module_mode md1) by congruence.
  assert (Hset : forall md4, module_mode md4 = module_mode md1 ->
            map module_mode (list_set idx md4 cur1) = map module_mode model).
  { intros md4 H4. rewrite (map_list_set_same _ _ _ md1); assumption. }
  assert (Hnth : forall md4 i, i <> idx ->
            nth_error (list_set idx md4 cur1) i = nth_error cur i).
  { intros md4 i Hi. rewrite nth_error_list_set.
    destruct (Nat.eqb_spec idx i); [congruence|]. now apply N1. }
  assert (Fs : Forall (work_event model) (log1 ++ [EvSearch idx])).
  { apply Forall_app. split; [exact F1|]. repeat constructor. }
  assert (Is : forall ev, In ev log -> In ev (log1 ++ [EvSearch idx])).
  { intros ev Hev. apply in_or_app. left. now apply I1. }
  assert (Ss : In (EvSearch idx) (log1 ++ [EvSearch idx])).
  { apply in_or_app. right. now left. }
  destruct md3 as [op|e].
  - injection H as <- <-. rewrite length_list_set.
    repeat split; auto.
  - destruct (e_has_prev_layer e).
    + apply bind_ok in H as (e' & Hre & H). injection H as <- <-.
      apply extern_reparam_mode in Hre. rewrite length_list_set.
      split; [exact L1|].
      split; [apply Hset; cbn [module_mode] in *; congruence|].
      split; [apply Forall_app; split; [exact Fs|repeat constructor]|].
      split; [apply Hnth|].
      split; [intros ev Hev; apply in_or_app; left; now apply Is|].
      intros _ _ _. apply in_or_app. now left.
    + injection H as <- <-. rewrite length_list_set.
      repeat split; auto.
Qed.

(** The loop over the modules, from index [k] on. *)
Lemma calibrate_modules (model : list Module) (loader : list T4)
  (len k : nat) (cur cur' : list Module) (log log' : list Event) :
  foldM (calibrate_module rand_like quantile_accepts dev run_model
                          extern_search extern_reparam loader)
        (seq k len) (cur, log) = Ok (cur', log') ->
  map module_mode cur = map module_mode model ->
  Forall (work_event model) log ->
  length cur' = length cur /\
  map module_mode cur' = map module_mode model /\
  Forall (work_event model) log' /\
  (forall ev, In ev log -> In ev log') /\
  (forall i md, (k <= i < k + len)%nat -> nth_error cur i = Some md ->
                eligible md = true -> In (EvSearch i) log').
Proof.
  revert k cur log. induction len as [|len IH]; intros k cur log H Hm Hlog;
    cbn [seq foldM] in H.
  - injection H as <- <-. repeat split; auto. intros; lia.
  - apply bind_ok in H as ([cur1 log1] & Hstep & H).
    destruct (calibrate_module_step model loader k cur cur1 log log1 Hstep
                Hm Hlog) as (L1 & M1 & F1 & N1 & I1 & S1).
    destruct (IH (S k) cur1 log1 H M1 F1) as (L & M & F & I & S2).
    split; [lia|]. split; [exact M|]. split; [exact F|].
    split; [intros ev Hev; apply I; now apply I1|].
    intros i md Hi Hmd Hel.
    destruct (Nat.eq_dec i k) as [->|Hik].
    + apply I. now apply (S1 md).
    + apply (S2 i md); [lia| |exact Hel]. rewrite N1 by exact Hik. exact Hmd.
Qed.

(** C6: in a run of the orchestrator that returns, the record of what it
    did splits in two.  First the calibration proper: warm-up passes,
    capture passes, searches and reparameterizations, with no write of
    [mode]; every forward pass in it runs with the modes the modules had
    at the start, and every module that was calibration-eligible has its
    search in it.  Then, in one pass over the modules in order, one write
    of [mode] for each module that has the attribute; afterwards each
    such module is in mode "quant_forward". *)
Theorem mode_flip_after_all_searches (model model' : list Module)
  (loader : list T4) (log : list Event) :
  batching_quant_calib rand_like quantile_accepts dev run_model
                       extern_search extern_reparam model loader
    = Ok (model', log) ->
  exists work,
    log = work ++ map EvSetMode
                      (filter (mode_at model) (seq 0 (length model))) /\
    Forall (work_event model) work /\
    (forall idx md, nth_error model idx = Some md -> eligible md = true ->
                    In (EvSearch idx) work) /\
    length model' = length model /\
    (forall md', In md' model' ->
                 module_mode md' = Deleted \/
                 module_mode md' = Val "quant_forward"%string).
Proof.
  unfold batching_quant_calib. intros H.
  apply bind_ok in H as (? & _ & H).
  apply bind_ok in H as (log0 & Hwarm & H).
  apply bind_ok in H as ([model1 log1] & Hcal & H).
  apply warm_passes in Hwarm; [|constructor].
  destruct (calibrate_modules model loader (length model) 0 model model1
              log0 log1 Hcal eq_refl Hwarm) as (L1 & M1 & F1 & _ & S1).
  cbn [fst] in H.
  pose proof (flip_all (length model1) 0 model1 log1) as (N & Lg & L).
  cbv zeta in N, Lg, L.
  injection H as H. rewrite H in N, Lg, L. cbn [fst snd] in N, Lg, L.
  exists log1. split; [|split; [exact F1|split; [|split; [lia|]]]].
  - rewrite Lg, L1. f_equal. f_equal. apply filter_ext. intros i.
    unfold mode_at. now rewrite M1.
  - intros idx md Hmd Hel. apply (S1 idx md); [|exact Hmd|exact Hel].
    assert (idx < length model)%nat
      by (apply nth_error_Some; congruence).
    lia.
  - intros md' Hin. apply In_nth_error in Hin as (i & Hi).
    assert (i < length model')%nat by (apply nth_error_Some; congruence).
    rewrite N in Hi.
    replace ((0 <=? i) && (i <? 0 + length model1))%nat with true in Hi
      by (symmetry; apply andb_true_iff; split;
          [apply Nat.leb_le | apply Nat.ltb_lt]; lia).
    destruct (nth_error model1 i) as [md|]; [|discriminate].
    injection Hi as <-. apply flipped_mode.
Qed.

End Orchestrator.

Lemma example_calibration_returns :
  exists m' calls,
    hyperparameter_searching no_rand always_accepts example_dev example_op
      = Ok (m', calls) /\
    batching_quant_calib no_rand always_accepts example_dev example_run_model
                         (fun e => Ok e) (fun e => Ok e)
                         example_model example_loader
      = Ok ([MatMulModule (set_mode "quant_forward"
                             (MinMaxQuantMatMul_init 8 8 "raw"));
             MatMulModule (set_mode "quant_forward" m');
             ExternModule (mkExtern OtherModule false false Deleted
                                    PyNone PyNone PyNone PyNone false false)],
            [EvForward None (map module_mode example_model);
             EvForward (Some 1%nat) (map module_mode example_model);
             EvSearch 1; EvSetMode 0; EvSetMode 1]).
Proof.
  destruct (hyperparameter_searching_returns no_rand always_accepts
              example_dev example_op eq_refl eq_refl) as (m' & calls & Hs).
  exists m', calls. split; [exact Hs|].
  unfold batching_quant_calib, example_model, example_loader.
  cbn -[hyperparameter_searching flip_mode example_A example_B example_out].
  match goal with
  | |- context [hyperparameter_searching ?a ?b ?c ?op] =>
      change (hyperparameter_searching a b c op)
        with (hyperparameter_searching a b c example_op)
  end.
  rewrite Hs. cbn -[flip_mode]. rewrite !flip_mode_eq. reflexivity.
Qed.

Lemma mode_flip_after_all_searches_witness :
  exists model' log work,
    batching_quant_calib no_rand always_accepts example_dev example_run_model
                         (fun e => Ok e) (fun e => Ok e)
                         example_model example_loader = Ok (model', log) /\
    log = work ++ map EvSetMode
                      (filter (mode_at example_model)
                              (seq 0 (length example_model))) /\
    Forall (work_event example_model) work /\
    In (EvSearch 1) work /\
    (forall md', In md' model' ->
                 module_mode md' = Deleted \/
                 module_mode md' = Val "quant_forward"%string).
Proof.
  destruct example_calibration_returns as (m' & calls & _ & Hrun).
  destruct (mode_flip_after_all_searches no_rand always_accepts example_dev
              example_run_model (fun e => Ok e) (fun e => Ok e)
              ltac:(intros e e' H; now injection H as <-)
              ltac:(intros e e' H; now injection H as <-)
              example_model _ example_loader _ Hrun)
    as (work & Hlog & Hwork & Hsearch & _ & Hmodes).
  eexists _, _, work. split; [exact Hrun|]. split; [exact Hlog|].
  split; [exact Hwork|]. split; [|exact Hmodes].
  exact (Hsearch 1%nat (MatMulModule example_fresh) eq_refl eq_refl).
Defined.

(** ** The quantizer: range, rounding error, fixed points *)

Lemma round_half_even_int (x : R) : exists k : Z, round_half_even x = IZR k.
Proof.
  unfold round_half_even.
  destruct (Rlt_dec (x - IZR (Int_part x)) (1 / 2)); [eauto|].
  destruct (Rlt_dec (1 / 2) (x - IZR (Int_part x))); [eauto|].
  destruct (Z.even (Int_part x)); eauto.
Qed.

Lemma round_half_even_error (x : R) : Rabs (round_half_even x - x) <= 1 / 2.
Proof.
  unfold round_half_even.
  destruct (base_Int_part x) as [Hl Hu].
  destruct (Rlt_dec (x - IZR (Int_part x)) (1 / 2)) as [H1|H1].
  { apply Rabs_le. lra. }
  destruct (Rlt_dec (1 / 2) (x - IZR (Int_part x))) as [H2|H2].
  { rewrite plus_IZR. apply Rabs_le. lra. }
  destruct (Z.even (Int_part x)).
  - apply Rabs_le. lra.
  - rewrite plus_IZR. apply Rabs_le. lra.
Qed.

Lemma Rabs_le_bounds (a b : R) : Rabs a <= b -> - b <= a <= b.
Proof. unfold Rabs. destruct (Rcase_abs a); lra. Qed.

Lemma round_half_even_IZR (k : Z) : round_half_even (IZR k) = IZR k.
Proof. apply round_half_even_near. lra. Qed.

Lemma round_half_even_lower (a : Z) (x : R) :
  IZR a <= x -> IZR a <= round_half_even x.
Proof.
  intros Hx. destruct (round_half_even_int x) as [k Hk].
  pose proof (round_half_even_error x) as He. rewrite Hk in *.
  apply Rabs_le_bounds in He.
  apply IZR_le. destruct (Z_lt_le_dec k a) as [Hlt|]; [|assumption].
  assert (k + 1 <= a)%Z as Hle by lia. apply IZR_le in Hle.
  rewrite plus_IZR in Hle. lra.
Qed.

Lemma round_half_even_upper (b : Z) (x : R) :
  x <= IZR b -> round_half_even x <= IZR b.
Proof.
  intros Hx. destruct (round_half_even_int x) as [k Hk].
  pose proof (round_half_even_error x) as He. rewrite Hk in *.
  apply Rabs_le_bounds in He.
  apply IZR_le. destruct (Z_lt_le_dec b k) as [Hlt|]; [|assumption].
  assert (b + 1 <= k)%Z as Hle by lia. apply IZR_le in Hle.
  rewrite plus_IZR in Hle. lra.
Qed.

(** For a bit-width of at least one, [n_levels] is the integer
    [2 ^ (n_bits - 1)]. *)
Lemma n_levels_integer (q : UniformQuantizer) :
  (1 <= n_bits q)%Z -> n_levels q = IZR (2 ^ (n_bits q - 1)) /\ 1 <= n_levels q.
Proof.
  intros Hn. unfold n_levels.
  assert (E : powerRZ 2 (n_bits q - 1) = IZR (2 ^ (n_bits q - 1))).
  { rewrite <- (Z2Nat.id (n_bits q - 1)) by lia.
    rewrite <- pow_powerRZ. now rewrite pow_IZR. }
  split; [exact E|]. rewrite E. apply IZR_le.
  assert (0 < 2 ^ (n_bits q - 1))%Z by (apply Z.pow_pos_nonneg; lia). lia.
Qed.

Lemma clamp_bounds (lo hi x : R) : lo <= hi -> lo <= clamp lo hi x <= hi.
Proof.
  intros H. unfold clamp. split.
  - apply Rmin_glb; [apply Rmax_r|exact H].
  - apply Rmin_r.
Qed.

(** One entry through the asymmetric branch. *)
Lemma quant_asym_entry (t : bool) (L s z x : R) (l : Z) :
  L = IZR l -> 1 <= L -> 0 < s ->
  let lo := (0 - round_half_even z) * s in
  let hi := (2 * L - 1 - round_half_even z) * s in
  let y := quant_asym t L s z x in
  lo <= y <= hi /\
  (lo <= x <= hi -> Rabs (y - x) <= s / 2) /\
  quant_asym t L s z y = y.
Proof.
  intros HL H1 Hs lo hi y.
  destruct (round_half_even_int z) as [kz Hz].
  destruct (round_half_even_int (x / s)) as [kx Hx].
  assert (Ey : y = (clamp 0 (2 * L - 1) (IZR kx + IZR kz) - IZR kz) * s).
  { unfold y, quant_asym, round_ste. rewrite Hx, Hz. now destruct t. }
  pose proof (clamp_bounds 0 (2 * L - 1) (IZR kx + IZR kz)) as Hc.
  assert (Hc' : 0 <= clamp 0 (2 * L - 1) (IZR kx + IZR kz) <= 2 * L - 1)
    by (apply Hc; lra).
  unfold lo, hi. rewrite Hz. split; [|split].
  - rewrite Ey. split; apply Rmult_le_compat_r; lra.
  - intros [Hlo Hhi].
    assert (Hq : IZR (- kz) <= x / s <= IZR (2 * l - 1 - kz)).
    { rewrite opp_IZR, minus_IZR, minus_IZR, mult_IZR, <- HL. split.
      - apply Rmult_le_reg_r with s; [exact Hs|].
        replace (x / s * s) with x by (field; lra). lra.
      - apply Rmult_le_reg_r with s; [exact Hs|].
        replace (x / s * s) with x by (field; lra). lra. }
    destruct Hq as [Hq1 Hq2].
    apply round_half_even_lower in Hq1. apply round_half_even_upper in Hq2.
    rewrite Hx in Hq1, Hq2.
    rewrite opp_IZR in Hq1.
    rewrite minus_IZR, minus_IZR, mult_IZR, <- HL in Hq2.
    rewrite Ey, clamp_inside by lra.
    pose proof (round_half_even_error (x / s)) as He. rewrite Hx in He.
    replace ((IZR kx + IZR kz - IZR kz) * s - x)
      with ((IZR kx - x / s) * s) by (field; lra).
    rewrite Rabs_mult, (Rabs_right s) by lra.
    replace (s / 2) with (1 / 2 * s) by field.
    apply Rmult_le_compat_r; lra.
  - assert (Hk : exists k : Z,
               clamp 0 (2 * L - 1) (IZR kx + IZR kz) = IZR k).
    { unfold clamp, Rmin, Rmax.
      destruct (Rle_dec (IZR kx + IZR kz) 0).
      - destruct (Rle_dec 0 (2 * L - 1)).
        + now exists 0%Z.
        + exists (2 * l - 1)%Z. rewrite minus_IZR, mult_IZR, HL. reflexivity.
      - destruct (Rle_dec (IZR kx + IZR kz) (2 * L - 1)).
        + exists (kx + kz)%Z. now rewrite plus_IZR.
        + exists (2 * l - 1)%Z. rewrite minus_IZR, mult_IZR, HL. reflexivity. }
    destruct Hk as [k Hk]. rewrite Hk in Ey, Hc'.
    unfold quant_asym at 1.
    replace (y / s) with (IZR (k - kz))
      by (rewrite Ey, minus_IZR; field; lra).
    assert (E : (if t then round_ste (IZR (k - kz))
                 else round_half_even (IZR (k - kz))) = IZR (k - kz)).
    { unfold round_ste. destruct t; apply round_half_even_IZR. }
    rewrite E, Hz, minus_IZR.
    replace (IZR k - IZR kz + IZR kz) with (IZR k) by ring.
    rewrite clamp_inside by lra. now rewrite Ey.
Qed.

(** One entry through the symmetric branch. *)
Lemma quant_sym_entry (t : bool) (L s x : R) (l : Z) :
  L = IZR l -> 1 <= L -> 0 < s ->
  let lo := - L * s in
  let hi := (L - 1) * s in
  let y := quant_sym t L s x in
  lo <= y <= hi /\
  (lo <= x <= hi -> Rabs (y - x) <= s / 2) /\
  quant_sym t L s y = y.
Proof.
  intros HL H1 Hs lo hi y.
  destruct (round_half_even_int (x / s)) as [kx Hx].
  assert (Ey : y = clamp (- L) (L - 1) (IZR kx) * s).
  { unfold y, quant_sym, round_ste. rewrite Hx. now destruct t. }
  pose proof (clamp_bounds (- L) (L - 1) (IZR kx)) as Hc.
  assert (Hc' : - L <= clamp (- L) (L - 1) (IZR kx) <= L - 1)
    by (apply Hc; lra).
  unfold lo, hi. split; [|split].
  - rewrite Ey. split; apply Rmult_le_compat_r; lra.
  - intros [Hlo Hhi].
    assert (Hq : IZR (- l) <= x / s <= IZR (l - 1)).
    { rewrite opp_IZR, minus_IZR, <- HL. split.
      - apply Rmult_le_reg_r with s; [exact Hs|].
        replace (x / s * s) with x by (field; lra). lra.
      - apply Rmult_le_reg_r with s; [exact Hs|].
        replace (x / s * s) with x by (field; lra). lra. }
    destruct Hq as [Hq1 Hq2].
    apply round_half_even_lower in Hq1. apply round_half_even_upper in Hq2.
    rewrite Hx in Hq1, Hq2.
    rewrite opp_IZR, <- HL in Hq1. rewrite minus_IZR, <- HL in Hq2.
    rewrite Ey, clamp_inside by lra.
    pose proof (round_half_even_error (x / s)) as He. rewrite Hx in He.
    replace (IZR kx * s - x) with ((IZR kx - x / s) * s) by (field; lra).
    rewrite Rabs_mult, (Rabs_right s) by lra.
    replace (s / 2) with (1 / 2 * s) by field.
    apply Rmult_le_compat_r; lra.
  - assert (Hk : exists k : Z, clamp (- L) (L - 1) (IZR kx) = IZR k).
    { unfold clamp, Rmin, Rmax.
      destruct (Rle_dec (IZR kx) (- L)).
      - destruct (Rle_dec (- L) (L - 1)).
        + exists (- l)%Z. now rewrite opp_IZR, HL.
        + exists (l - 1)%Z. now rewrite minus_IZR, HL.
      - destruct (Rle_dec (IZR kx) (L - 1)).
        + now exists kx.
        + exists (l - 1)%Z. now rewrite minus_IZR, HL. }
    destruct Hk as [k Hk]. rewrite Hk in Ey, Hc'.
    unfold quant_sym at 1.
    replace (y / s) with (IZR k) by (rewrite Ey; field; lra).
    assert (E : (if t then round_ste (IZR k) else round_half_even (IZR k))
                = IZR k).
    { unfold round_ste. destruct t; apply round_half_even_IZR. }
    rewrite E, clamp_inside by lra. now rewrite Ey.
Qed.

Lemma In_expand_heads {A : Type} (p : list A) (n : nat) (a : A) :
  In a (expand_heads p n) -> In a p.
Proof.
  destruct p as [|v [|w p]]; cbn; auto.
  intros H. apply repeat_spec in H. now left.
Qed.

Lemma mat_map_all2 (P : R -> R -> Prop) (f : R -> R) (m : Mat) :
  (forall v, P v (f v)) -> Forall2 (Forall2 P) m (mat_map f m).
Proof.
  intros H. unfold mat_map. induction m as [|row m IH]; cbn; constructor.
  - induction row; cbn; constructor; auto.
  - exact IH.
Qed.

(** The symmetric branch, entry by entry. *)
Lemma per_head_all2 (P : R -> R -> R -> Prop) (f : R -> R -> R) (s : list R)
  (x : T4) :
  (forall sh v, In sh s -> P sh v (f sh v)) ->
  heads_all2 P (scale_of_heads s) x (per_head f s x).
Proof.
  intros H. unfold heads_all2, per_head, scale_of_heads.
  induction x as [|sx x IH]; cbn [map]; constructor; [|exact IH].
  assert (Hin : forall sh, In sh (expand_heads s (length sx)) -> In sh s)
    by (intros sh; apply In_expand_heads).
  revert Hin. generalize (expand_heads s (length sx)) as es.
  induction sx as [|m sx IHs]; intros [|sh es] Hin; cbn; constructor.
  - cbn. apply mat_map_all2. intros v. apply H, Hin. now left.
  - apply IHs. intros sh' Hsh'. apply Hin. now right.
Qed.

(** The asymmetric branch, entry by entry. *)
Lemma per_head2_all2 (P : R * R -> R -> R -> Prop) (f : R -> R -> R -> R)
  (s z : list R) (x : T4) :
  (forall sh zh v, In sh s -> In zh z -> P (sh, zh) v (f sh zh v)) ->
  heads_all2 P (params_of_heads s z) x (per_head2 f s z x).
Proof.
  intros H. unfold heads_all2, per_head2, params_of_heads.
  induction x as [|sx x IH]; cbn [map]; constructor; [|exact IH].
  assert (Hs : forall sh, In sh (expand_heads s (length sx)) -> In sh s)
    by (intros sh; apply In_expand_heads).
  assert (Hz : forall zh, In zh (expand_heads z (length sx)) -> In zh z)
    by (intros zh; apply In_expand_heads).
  revert Hs Hz. generalize (expand_heads s (length sx)) as es.
  generalize (expand_heads z (length sx)) as ez.
  induction sx as [|m sx IHs]; intros [|zh ez] [|sh es] Hs Hz; cbn;
    constructor.
  - cbn. apply mat_map_all2. intros v. apply H; [apply Hs|apply Hz]; now left.
  - apply IHs; intros p Hp; [apply Hs|apply Hz]; now right.
Qed.

(** Applying the same per-head map twice. *)
Lemma zip_with_twice {A B : Type} (g : A -> B -> B) (a : list A) (l : list B) :
  zip_with g a (zip_with g a l) = zip_with (fun p v => g p (g p v)) a l.
Proof.
  revert l. induction a as [|p a IH]; intros [|v l]; cbn; try reflexivity.
  now rewrite IH.
Qed.

Lemma zip_with_prefix {A B C : Type} (g : A -> B -> C) (a a' : list A)
  (l : list B) :
  firstn (length l) a' = firstn (length l) a ->
  zip_with g a' l = zip_with g a l.
Proof.
  revert a a'. induction l as [|v l IH]; intros a a' H.
  - destruct a, a'; reflexivity.
  - destruct a as [|p a], a' as [|p' a']; cbn in *; try discriminate;
      [reflexivity|].
    injection H as -> H. f_equal. now apply IH.
Qed.

Lemma firstn_repeat {A : Type} (v : A) (k n : nat) :
  (k <= n)%nat -> firstn k (repeat v n) = repeat v k.
Proof.
  revert n. induction k as [|k IH]; intros [|n] Hk; cbn; try reflexivity;
    try lia.
  f_equal. apply IH. lia.
Qed.

Lemma expand_heads_prefix {A : Type} (p : list A) (k n : nat) :
  (k <= n)%nat ->
  firstn k (expand_heads p k) = firstn k (expand_heads p n).
Proof.
  intros Hk. destruct p as [|v [|w p]]; cbn [expand_heads]; try reflexivity.
  now rewrite !firstn_repeat by lia.
Qed.

Lemma zip_with_as_combine {A B C D : Type} (g : A -> B -> C -> D)
  (a : list A) (b : list B) (l : list C) :
  zip_with3 g a b l = zip_with (fun p v => g (fst p) (snd p) v) (combine a b) l.
Proof.
  revert b l. induction a as [|p a IH]; intros [|q b] [|v l]; cbn;
    try reflexivity.
  now rewrite IH.
Qed.

Lemma mat_map_twice (f : R -> R) (m : Mat) :
  (forall v, f (f v) = f v) -> mat_map f (mat_map f m) = mat_map f m.
Proof.
  intros H. unfold mat_map. rewrite map_map. apply map_ext. intros row.
  rewrite map_map. apply map_ext. exact H.
Qed.

Lemma zip_with_ext_in {A B C : Type} (g g' : A -> B -> C) (a : list A)
  (l : list B) :
  (forall p v, In p a -> g p v = g' p v) -> zip_with g a l = zip_with g' a l.
Proof.
  revert l. induction a as [|p a IH]; intros [|v l] H; cbn; try reflexivity.
  rewrite H by now left. f_equal. apply IH. intros q w Hq. apply H. now right.
Qed.

(** A per-head map whose entry function is idempotent is idempotent. *)
Lemma per_head_idempotent (f : R -> R -> R) (s : list R) (x : T4) :
  (forall sh v, In sh s -> f sh (f sh v) = f sh v) ->
  per_head f s (per_head f s x) = per_head f s x.
Proof.
  intros H. unfold per_head. rewrite map_map. apply map_ext. intros sx.
  set (g := fun sh m => mat_map (f sh) m).
  set (y := zip_with g (expand_heads s (length sx)) sx).
  assert (Hlen : (length y <= length sx)%nat)
    by (unfold y; rewrite length_zip_with; lia).
  rewrite (zip_with_prefix g (expand_heads s (length sx))
             (expand_heads s (length y)) y)
    by (apply expand_heads_prefix; exact Hlen).
  unfold y. rewrite zip_with_twice. apply zip_with_ext_in.
  intros sh m Hsh. apply mat_map_twice. intros v. apply H.
  now apply In_expand_heads in Hsh.
Qed.

Lemma combine_prefix {A B : Type} (a a' : list A) (b b' : list B) (k : nat) :
  firstn k a' = firstn k a -> firstn k b' = firstn k b ->
  firstn k (combine a' b') = firstn k (combine a b).
Proof. intros Ha Hb. now rewrite !combine_firstn, Ha, Hb. Qed.

Lemma per_head2_idempotent (f : R -> R -> R -> R) (s z : list R) (x : T4) :
  (forall sh zh v, In sh s -> In zh z -> f sh zh (f sh zh v) = f sh zh v) ->
  per_head2 f s z (per_head2 f s z x) = per_head2 f s z x.
Proof.
  intros H. unfold per_head2. rewrite map_map. apply map_ext. intros sx.
  rewrite !zip_with_as_combine.
  set (g := fun (p : R * R) m => mat_map (f (fst p) (snd p)) m).
  set (ps := fun n => combine (expand_heads s n) (expand_heads z n)).
  change (zip_with g (ps (length (zip_with g (ps (length sx)) sx)))
                   (zip_with g (ps (length sx)) sx)
          = zip_with g (ps (length sx)) sx).
  set (y := zip_with g (ps (length sx)) sx).
  assert (Hlen : (length y <= length sx)%nat)
    by (unfold y; rewrite length_zip_with; lia).
  rewrite (zip_with_prefix g (ps (length sx)) (ps (length y)) y)
    by (apply combine_prefix; apply expand_heads_prefix; exact Hlen).
  unfold y. rewrite zip_with_twice. apply zip_with_ext_in.
  intros [sh zh] m Hp. apply mat_map_twice. intros v. cbn [fst snd].
  apply H.
  - apply in_combine_l in Hp. now apply In_expand_heads in Hp.
  - apply in_combine_r in Hp. now apply In_expand_heads in Hp.
Qed.

Lemma length_expand_heads_fit {A : Type} (p : list A) (n : nat) :
  length p = 1%nat \/ n = length p -> length (expand_heads p n) = n.
Proof.
  intros [H|H].
  - destruct p as [|v [|w p]]; try discriminate. cbn. apply repeat_length.
  - subst n. destruct p as [|v [|w p]]; reflexivity.
Qed.

Lemma mat_map_same_shape (f : R -> R) (m : Mat) :
  Forall2 (fun r r' : list R => length r = length r') m (mat_map f m).
Proof.
  unfold mat_map. induction m as [|row m IH]; cbn; constructor; [|exact IH].
  now rewrite length_map.
Qed.

Lemma zip_with_same_shape {A : Type} (g : A -> Mat -> Mat) (a : list A)
  (sx : T3) :
  length a = length sx ->
  (forall p m, Forall2 (fun r r' : list R => length r = length r') m (g p m)) ->
  Forall2 (Forall2 (fun r r' : list R => length r = length r'))
          sx (zip_with g a sx).
Proof.
  intros Hlen Hg. revert a Hlen.
  induction sx as [|m sx IH]; intros [|p a] Hlen; cbn in *; try discriminate;
    constructor; [apply Hg|]. apply IH. lia.
Qed.

Lemma heads_fit_sample {A : Type} (p : list A) (x : T4) (sx : T3) :
  heads_fit p x -> In sx x -> length p = 1%nat \/ length sx = length p.
Proof.
  intros [H|H] Hin; [now left|right].
  rewrite Forall_forall in H. now apply H.
Qed.

Lemma per_head_same_shape (f : R -> R -> R) (s : list R) (x : T4) :
  heads_fit s x -> same_shape x (per_head f s x).
Proof.
  intros Hs. unfold same_shape, per_head.
  assert (Hin : forall sx, In sx x -> In sx x) by auto.
  revert Hin. generalize x at 1 3 4 as x0.
  induction x0 as [|sx x0 IH]; intros Hin; cbn [map]; constructor.
  - apply zip_with_same_shape.
    + apply length_expand_heads_fit.
      apply (heads_fit_sample s x sx Hs). apply Hin. now left.
    + intros p m. apply mat_map_same_shape.
  - apply IH. intros sx' H'. apply Hin. now right.
Qed.

Lemma per_head2_same_shape (f : R -> R -> R -> R) (s z : list R) (x : T4) :
  heads_fit s x -> heads_fit z x -> same_shape x (per_head2 f s z x).
Proof.
  intros Hs Hz. unfold same_shape, per_head2.
  assert (Hin : forall sx, In sx x -> In sx x) by auto.
  revert Hin. generalize x at 1 3 4 as x0.
  induction x0 as [|sx x0 IH]; intros Hin; cbn [map]; constructor.
  - rewrite zip_with_as_combine. apply zip_with_same_shape.
    + rewrite length_combine, !length_expand_heads_fit; [lia| |].
      * apply (heads_fit_sample z x sx Hz). apply Hin. now left.
      * apply (heads_fit_sample s x sx Hs). apply Hin. now left.
    + intros p m. apply mat_map_same_shape.
  - apply IH. intros sx' H'. apply Hin. now right.
Qed.

(** X1: an initialised asymmetric quantizer in evaluation mode, of a bit-width
    between 1 and 31 and with positive scales, applied to a tensor that its
    scale and zero-point fit (one entry, or one entry per head of every
    sample: the shapes that torch broadcasts without changing the shape of
    the input), returns a tensor of the same shape whose every entry lies in
    the representable range
    [(0 - round z) * s, (2 * n_levels - 1 - round z) * s] of its head (scale
    [s], zero-point [z]); an input entry inside that range is moved by at
    most half a scale step. *)
Theorem asymmetric_forward_rounding rand_like (q : UniformQuantizer)
  (s z : list R) (x : T4) :
  sym q = false -> (1 <= n_bits q)%Z -> n_bits q <> 32%Z ->
  inited q = true -> training_mode q = false ->
  scale q = Val s -> zero_point q = Val z ->
  Forall (fun sh => 0 < sh) s ->
  heads_fit s x -> heads_fit z x ->
  exists y,
    UniformQuantizer_forward rand_like q x = Ok y /\
    same_shape x y /\
    heads_all2
      (fun p xv yv =>
         let lo := (0 - round_half_even (snd p)) * fst p in
         let hi := (2 * n_levels q - 1 - round_half_even (snd p)) * fst p in
         lo <= yv <= hi /\ (lo <= xv <= hi -> Rabs (yv - xv) <= fst p / 2))
      (params_of_heads s z) x y.
Proof.
  intros Hsym Hn H32 Hin Htr Hs Hz Hpos Hfs Hfz.
  destruct (n_levels_integer q Hn) as [HL H1].
  unfold UniformQuantizer_forward.
  apply Z.eqb_neq in H32. rewrite H32, Hin, Htr, Hs, Hsym, Hz.
  cbn [assert bind get_attr andb]. eexists. split; [reflexivity|].
  split; [now apply per_head2_same_shape|].
  apply per_head2_all2. intros sh zh v Hsh _. cbn [fst snd].
  rewrite Forall_forall in Hpos.
  destruct (quant_asym_entry false (n_levels q) sh zh v _ HL H1 (Hpos sh Hsh))
    as (Hr & He & _).
  split; assumption.
Qed.

(** X2: an initialised symmetric quantizer in evaluation mode, of a bit-width
    between 1 and 31 and with positive scales, applied to a tensor that its
    scale fits (one entry, or one entry per head of every sample), returns a
    tensor of the same shape whose every entry lies in
    [- n_levels * s, (n_levels - 1) * s] for the scale [s] of its head; an
    input entry inside that range is moved by at most half a scale step. *)
Theorem symmetric_forward_rounding rand_like (q : UniformQuantizer)
  (s : list R) (x : T4) :
  sym q = true -> (1 <= n_bits q)%Z -> n_bits q <> 32%Z ->
  inited q = true -> training_mode q = false ->
  scale q = Val s ->
  Forall (fun sh => 0 < sh) s ->
  heads_fit s x ->
  exists y,
    UniformQuantizer_forward rand_like q x = Ok y /\
    same_shape x y /\
    heads_all2
      (fun sh xv yv =>
         let lo := - n_levels q * sh in
         let hi := (n_levels q - 1) * sh in
         lo <= yv <= hi /\ (lo <= xv <= hi -> Rabs (yv - xv) <= sh / 2))
      (scale_of_heads s) x y.
Proof.
  intros Hsym Hn H32 Hin Htr Hs Hpos Hfs.
  destruct (n_levels_integer q Hn) as [HL H1].
  unfold UniformQuantizer_forward.
  apply Z.eqb_neq in H32. rewrite H32, Hin, Htr, Hs, Hsym.
  cbn [assert bind get_attr andb]. eexists. split; [reflexivity|].
  split; [now apply per_head_same_shape|].
  apply per_head_all2. intros sh v Hsh.
  rewrite Forall_forall in Hpos.
  destruct (quant_sym_entry false (n_levels q) sh v _ HL H1 (Hpos sh Hsh))
    as (Hr & He & _).
  split; assumption.
Qed.

(** X3: quantizing is a projection.  In evaluation mode, for a bit-width of at
    least 1 and positive scales, whatever [forward] returns is returned
    unchanged when it is passed through [forward] again (symmetric or
    asymmetric, and at 32 bits, where [forward] is the identity). *)
Theorem forward_idempotent rand_like (q : UniformQuantizer) (x y : T4) :
  (1 <= n_bits q)%Z -> training_mode q = false ->
  (forall s, scale q = Val s -> Forall (fun sh => 0 < sh) s) ->
  UniformQuantizer_forward rand_like q x = Ok y ->
  UniformQuantizer_forward rand_like q y = Ok y.
Proof.
  intros Hn Htr Hpos. unfold UniformQuantizer_forward.
  destruct (n_bits q =? 32)%Z; [now intros [= ->]|].
  destruct (n_levels_integer q Hn) as [HL H1].
  rewrite Htr. cbn [andb].
  destruct (inited q); cbn [assert bind]; [|discriminate].
  destruct (scale q) as [| |s]; cbn [get_attr bind]; try discriminate.
  specialize (Hpos s eq_refl). rewrite Forall_forall in Hpos.
  destruct (sym q).
  - cbn [bind]. intros [= <-]. f_equal. apply per_head_idempotent.
    intros sh v Hsh.
    now destruct (quant_sym_entry false (n_levels q) sh v _ HL H1
                    (Hpos sh Hsh)) as (_ & _ & E).
  - destruct (zero_point q) as [| |z]; cbn [get_attr bind]; try discriminate.
    intros [= <-]. f_equal. apply per_head2_idempotent.
    intros sh zh v Hsh _.
    now destruct (quant_asym_entry false (n_levels q) sh zh v _ HL H1
                    (Hpos sh Hsh)) as (_ & _ & E).
Qed.

Lemma asymmetric_forward_rounding_witness :
  exists y,
    UniformQuantizer_forward no_rand (A_quantizer example_ready) example_A
      = Ok y /\
    same_shape example_A y /\
    heads_all2
      (fun p xv yv =>
         let lo := (0 - round_half_even (snd p)) * fst p in
         let hi := (2 * n_levels (A_quantizer example_ready) - 1
                    - round_half_even (snd p)) * fst p in
         lo <= yv <= hi /\ (lo <= xv <= hi -> Rabs (yv - xv) <= fst p / 2))
      (params_of_heads [4] [0]) example_A y.
Proof.
  apply (asymmetric_forward_rounding no_rand (A_quantizer example_ready)
           [4] [0] example_A); try reflexivity.
  - cbn. lia.
  - cbn. lia.
  - repeat constructor. lra.
  - left. reflexivity.
  - left. reflexivity.
Defined.

(** A symmetric quantizer with one scale per head, on a sample of two
    heads. *)
Lemma symmetric_forward_rounding_witness :
  let q := set_inited (set_scale [4; 2] (UniformQuantizer_init 8 true true)) in
  let x : T4 := [[[[0; 1000]]; [[1; 3]]]] in
  exists y,
    UniformQuantizer_forward no_rand q x = Ok y /\
    same_shape x y /\
    heads_all2
      (fun sh xv yv =>
         let lo := - n_levels q * sh in
         let hi := (n_levels q - 1) * sh in
         lo <= yv <= hi /\ (lo <= xv <= hi -> Rabs (yv - xv) <= sh / 2))
      (scale_of_heads [4; 2]) x y.
Proof.
  cbv zeta.
  apply (symmetric_forward_rounding no_rand
           (set_inited (set_scale [4; 2] (UniformQuantizer_init 8 true true)))
           [4; 2] [[[[0; 1000]]; [[1; 3]]]]); try reflexivity.
  - cbn. lia.
  - cbn. lia.
  - repeat constructor; lra.
  - right. repeat constructor.
Defined.

Lemma forward_idempotent_witness :
  UniformQuantizer_forward no_rand (A_quantizer example_ready)
    (per_head2 (quant_asym false (n_levels (A_quantizer example_ready)))
               [4] [0] example_A)
  = Ok (per_head2 (quant_asym false (n_levels (A_quantizer example_ready)))
                  [4] [0] example_A).
Proof.
  apply (forward_idempotent no_rand (A_quantizer example_ready) example_A).
  - cbn. lia.
  - reflexivity.
  - intros s [= <-]. repeat constructor. lra.
  - reflexivity.
Defined.

(** ** The similarity scorer: sign, errors, normalisation *)

Lemma zip_with_all {A B C : Type} (P : C -> Prop) (f : A -> B -> C)
  (l : list A) (l' : list B) :
  (forall a b, In a l -> In b l' -> P (f a b)) -> Forall P (zip_with f l l').
Proof.
  revert l'. induction l as [|a l IH]; intros [|b l'] H; cbn; constructor.
  - apply H; now left.
  - apply IH. intros a' b' Ha Hb. apply H; now right.
Qed.

Lemma zip_with3_all {A B C D : Type} (P : D -> Prop) (f : A -> B -> C -> D)
  (l : list A) (l' : list B) (l'' : list C) :
  (forall a b c, P (f a b c)) -> Forall P (zip_with3 f l l' l'').
Proof.
  intros H. revert l' l''.
  induction l as [|a l IH]; intros [|b l'] [|c l'']; cbn; constructor; auto.
Qed.

Lemma t4_zip_all (P : R -> Prop) (f : R -> R -> R) (x y : T4) :
  (forall a b, P (f a b)) -> t4_all P (t4_zip f x y).
Proof.
  intros H. unfold t4_all, t4_zip, mat_zip.
  repeat (apply zip_with_all; intros). apply H.
Qed.

Lemma t4_zip3_all (P : R -> Prop) (f : R -> R -> R -> R) (x y z : T4) :
  (forall a b c, P (f a b c)) -> t4_all P (t4_zip3 f x y z).
Proof.
  intros H. unfold t4_all, t4_zip3.
  repeat (apply zip_with3_all; intros). apply H.
Qed.

(** A tensor against itself. *)
Lemma zip_with_diag {A C : Type} (P : C -> Prop) (f : A -> A -> C)
  (l : list A) :
  (forall a, In a l -> P (f a a)) -> Forall P (zip_with f l l).
Proof.
  induction l as [|a l IH]; intros H; cbn; constructor.
  - apply H. now left.
  - apply IH. intros a' Ha. apply H. now right.
Qed.

Lemma zip_with3_diag {A B C : Type} (P : C -> Prop) (f : A -> B -> B -> C)
  (l : list A) (l' : list B) :
  (forall a b, In b l' -> P (f a b b)) -> Forall P (zip_with3 f l l' l').
Proof.
  revert l. induction l' as [|b l' IH]; intros [|a l] H; cbn; constructor.
  - apply H. now left.
  - apply IH. intros a' b' Hb. apply H. now right.
Qed.

Lemma t4_zip_diag (P : R -> Prop) (f : R -> R -> R) (x : T4) :
  (forall a, P (f a a)) -> t4_all P (t4_zip f x x).
Proof.
  intros H. unfold t4_all, t4_zip, mat_zip.
  repeat (apply zip_with_diag; intros). apply H.
Qed.

Lemma t4_zip3_diag (P : R -> Prop) (f : R -> R -> R -> R) (g x : T4) :
  (forall a b, P (f a b b)) -> t4_all P (t4_zip3 f g x x).
Proof.
  intros H. unfold t4_all, t4_zip3.
  repeat (apply zip_with3_diag; intros). apply H.
Qed.

(** X4: every score of the similarity scorer is at most zero, whatever the
    metric (mae, mse, hessian, jacobian, hessian_new) and the tensors; and
    when the simulated tensor is the reference tensor itself, every score is
    exactly zero, the best possible.  For the three metrics that use the
    gradient, the gradient is taken not to be zero everywhere: torch divides
    by the sum of its squares, and a zero sum makes every score nan. *)
Theorem similarity_never_positive (tensor_raw tensor_sim scores : T4)
  (metric : string) (raw_grad : option T4) :
  (metric_in metric ["hessian"; "jacobian"; "hessian_new"]%string = true ->
   forall g, raw_grad = Some g ->
             Rsum (map (fun v => v ^ 2) (flatten_t4 g)) <> 0) ->
  _get_similarity tensor_raw tensor_sim metric raw_grad = Ok scores ->
  t4_all (fun v => v <= 0) scores /\
  (tensor_sim = tensor_raw -> t4_all (fun v => v = 0) scores).
Proof.
  intros _.
  assert (Habs : forall v, 0 <= Rabs v) by (intros; apply Rabs_pos).
  assert (Hsq : forall v, 0 <= v ^ 2) by (intros; apply pow2_ge_0).
  assert (Hz : forall b : R, b - b = 0) by (intros; ring).
  unfold _get_similarity.
  destruct (String.eqb metric "mae").
  { intros [= <-]. split.
    - apply t4_zip_all. intros a b. specialize (Habs (a - b)). lra.
    - intros ->. apply t4_zip_diag. intros a. rewrite Hz, Rabs_R0. ring. }
  destruct (String.eqb metric "mse").
  { intros [= <-]. split.
    - apply t4_zip_all. intros a b. specialize (Hsq (a - b)). lra.
    - intros ->. apply t4_zip_diag. intros a. rewrite Hz. ring. }
  destruct (metric_in metric _); [|discriminate].
  destruct raw_grad as [g|]; [|discriminate].
  destruct (reshape_as g tensor_raw) as [G|]; cbn [bind]; [|discriminate].
  destruct (String.eqb metric "hessian").
  { intros [= <-]. split.
    - apply t4_zip3_all. intros a b c. specialize (Hsq (a * (b - c))). lra.
    - intros ->. apply t4_zip3_diag. intros a b. rewrite Hz. ring. }
  destruct (String.eqb metric "jacobian").
  { intros [= <-]. split.
    - apply t4_zip3_all. intros a b c.
      pose proof (Rmult_le_pos _ _ (Habs a) (Habs (b - c))). lra.
    - intros ->. apply t4_zip3_diag. intros a b. rewrite Hz, Rabs_R0. ring. }
  intros [= <-]. split.
  - apply t4_zip3_all. intros a b c.
    pose proof (Rmult_le_pos _ _ (Habs a) (Hsq (b - c))). lra.
  - intros ->. apply t4_zip3_diag. intros a b. rewrite Hz. ring.
Qed.

(** The metric "hessian" on the example output, with that output as the
    gradient (one entry, not zero). *)
Lemma similarity_never_positive_witness :
  exists scores,
    _get_similarity example_out example_out "hessian" (Some example_out)
      = Ok scores /\
    t4_all (fun v => v <= 0) scores /\
    t4_all (fun v => v = 0) scores.
Proof.
  eexists. split; [reflexivity|].
  destruct (similarity_never_positive example_out example_out _ "hessian"
              (Some example_out)
              ltac:(intros _ g [= <-]; cbn; lra) eq_refl) as [Hle Hz].
  split; [exact Hle | exact (Hz eq_refl)].
Defined.

(** X5: a metric name other than the five known ones makes the scorer raise
    [NotImplementedError], whatever the tensors and the gradient. *)
Theorem similarity_unknown_metric (tensor_raw tensor_sim : T4)
  (metric : string) (raw_grad : option T4) :
  metric_in metric ["mae"; "mse"; "hessian"; "jacobian"; "hessian_new"]%string
    = false ->
  _get_similarity tensor_raw tensor_sim metric raw_grad
    = Raise NotImplementedError.
Proof.
  unfold metric_in. cbn [existsb]. intros H.
  apply orb_false_elim in H as [H1 H]. apply orb_false_elim in H as [H2 H].
  apply orb_false_elim in H as [H3 H]. apply orb_false_elim in H as [H4 H].
  apply orb_false_elim in H as [H5 _].
  unfold _get_similarity, metric_in. cbn [existsb].
  now rewrite H1, H2, H3, H4, H5.
Qed.

Lemma similarity_unknown_metric_witness :
  _get_similarity example_out example_out "cosine" None
    = Raise NotImplementedError.
Proof.
  apply (similarity_unknown_metric example_out example_out "cosine" None).
  reflexivity.
Defined.

(** X6: the three gradient metrics (hessian, jacobian, hessian_new) need a
    gradient of the size of the reference tensor: with no gradient the scorer
    raises [AssertionError], and with a gradient whose number of entries
    differs from that of the reference tensor it raises [RuntimeError] (the
    [reshape_as]). *)
Theorem similarity_gradient_required (tensor_raw tensor_sim : T4)
  (metric : string) :
  metric_in metric ["hessian"; "jacobian"; "hessian_new"]%string = true ->
  _get_similarity tensor_raw tensor_sim metric None = Raise AssertionError /\
  (forall g,
      length (flatten_t4 g) <> length (flatten_t4 tensor_raw) ->
      _get_similarity tensor_raw tensor_sim metric (Some g)
        = Raise RuntimeError).
Proof.
  intros H. unfold _get_similarity.
  assert (String.eqb metric "mae" = false /\ String.eqb metric "mse" = false)
    as [-> ->].
  { unfold metric_in in H. cbn [existsb] in H.
    split; apply String.eqb_neq; intros ->; cbn in H; discriminate. }
  rewrite H. split; [reflexivity|]. intros g Hg.
  unfold reshape_as. apply Nat.eqb_neq in Hg. now rewrite Hg.
Qed.

Lemma similarity_gradient_required_witness :
  _get_similarity example_out example_out "hessian" None
    = Raise AssertionError /\
  (forall g,
      length (flatten_t4 g) <> length (flatten_t4 example_out) ->
      _get_similarity example_out example_out "hessian" (Some g)
        = Raise RuntimeError).
Proof.
  apply (similarity_gradient_required example_out example_out "hessian").
  reflexivity.
Defined.

Lemma flatten_t4_map (f : R -> R) (x : T4) :
  flatten_t4 (t4_map f x) = map f (flatten_t4 x).
Proof.
  unfold flatten_t4, flatten_t3, flatten_mat, t4_map, mat_map.
  rewrite concat_map, !map_map. f_equal. apply map_ext. intros s.
  rewrite concat_map, !map_map. f_equal. apply map_ext. intros m.
  now rewrite concat_map.
Qed.

Lemma Rsum_map_scale (k : R) (f : R -> R) (l : list R) :
  Rsum (map (fun v => k * f v) l) = k * Rsum (map f l).
Proof.
  unfold Rsum. induction l as [|v l IH]; cbn; [ring|]. rewrite IH. ring.
Qed.

Lemma Rsum_squares_nonneg (l : list R) : 0 <= Rsum (map (fun v => v ^ 2) l).
Proof.
  unfold Rsum. induction l as [|v l IH]; cbn [map fold_right]; [lra|].
  pose proof (pow2_ge_0 v). lra.
Qed.

Lemma Rsum_squares_numel (l : list R) :
  Rsum (map (fun v => v ^ 2) l) <> 0 -> 0 < numel l.
Proof.
  unfold numel. destruct l as [|v l]; [cbn; lra|]. intros _.
  apply lt_0_INR. cbn. lia.
Qed.

Lemma grad_factor_square (g : T4) :
  Rsum (map (fun v => v ^ 2) (flatten_t4 g)) <> 0 ->
  grad_factor g ^ 2
  = numel (flatten_t4 g) / Rsum (map (fun v => v ^ 2) (flatten_t4 g)).
Proof.
  intros HS. unfold grad_factor. apply pow2_sqrt.
  pose proof (Rsum_squares_nonneg (flatten_t4 g)).
  pose proof (Rsum_squares_numel _ HS).
  apply Rlt_le, Rdiv_lt_0_compat; lra.
Qed.

(** X7: the gradient that enters the gradient metrics has unit mean square:
    for a gradient that is not zero everywhere, the mean of the squares of
    the entries of the normalised gradient is 1. *)
Theorem normalize_grad_unit_mean_square (g : T4) :
  Rsum (map (fun v => v ^ 2) (flatten_t4 g)) <> 0 ->
  mean (map (fun v => v ^ 2) (flatten_t4 (normalize_grad g))) = 1.
Proof.
  intros HS. pose proof (Rsum_squares_numel _ HS) as Hn.
  unfold normalize_grad. rewrite flatten_t4_map, map_map.
  unfold mean. unfold numel at 1. rewrite length_map. fold (numel (flatten_t4 g)).
  rewrite (map_ext _ (fun v => grad_factor g ^ 2 * v ^ 2)).
  2:{ intros v. rewrite Rpow_mult_distr, pow2_abs. ring. }
  rewrite (Rsum_map_scale _ (fun v => v ^ 2)), grad_factor_square by exact HS.
  field. split; lra.
Qed.

Lemma normalize_grad_unit_mean_square_witness :
  mean (map (fun v => v ^ 2) (flatten_t4 (normalize_grad example_A))) = 1.
Proof.
  apply (normalize_grad_unit_mean_square example_A).
  cbn. lra.
Defined.

(** ** The gradient enters through its direction only *)

Lemma refill_row_map (h : R -> R) (skel d : list R) :
  refill_row skel (map h d)
  = (map h (fst (refill_row skel d)), map h (snd (refill_row skel d))).
Proof. unfold refill_row. cbn [fst snd]. now rewrite firstn_map, skipn_map. Qed.

Lemma refill_list_map {A : Type} (h : R -> R) (hA : A -> A)
  (f : A -> list R -> A * list R) :
  (forall a d, f a (map h d) = (hA (fst (f a d)), map h (snd (f a d)))) ->
  forall skel d,
    refill_list f skel (map h d)
    = (map hA (fst (refill_list f skel d)),
       map h (snd (refill_list f skel d))).
Proof.
  intros Hf skel. induction skel as [|a skel IH]; intros d; [reflexivity|].
  cbn [refill_list]. rewrite Hf. destruct (f a d) as [a' d']. cbn [fst snd].
  rewrite IH. now destruct (refill_list f skel d') as [t' d''].
Qed.

Lemma reshape_as_map (h : R -> R) (g t : T4) :
  reshape_as (t4_map h g) t = (G <- reshape_as g t ;; Ok (t4_map h G)).
Proof.
  unfold reshape_as. rewrite flatten_t4_map, length_map.
  destruct (length (flatten_t4 g) =? length (flatten_t4 t))%nat;
    [|reflexivity].
  cbn [bind]. f_equal.
  rewrite (refill_list_map h (map (mat_map h))
             (refill_list (refill_list refill_row))); [reflexivity|].
  apply (refill_list_map h (mat_map h) (refill_list refill_row)).
  apply (refill_list_map h (map h) refill_row). apply refill_row_map.
Qed.

Lemma t4_map_map (f h : R -> R) (x : T4) :
  t4_map f (t4_map h x) = t4_map (fun v => f (h v)) x.
Proof.
  unfold t4_map, mat_map. rewrite map_map. apply map_ext. intros s.
  rewrite map_map. apply map_ext. intros m.
  rewrite map_map. apply map_ext. intros row. apply map_map.
Qed.

Lemma t4_map_ext (f h : R -> R) (x : T4) :
  (forall v, f v = h v) -> t4_map f x = t4_map h x.
Proof.
  intros H. unfold t4_map, mat_map.
  repeat (apply map_ext; intros). apply H.
Qed.

Lemma grad_factor_scaled (c : R) (g : T4) :
  c <> 0 -> Rsum (map (fun v => v ^ 2) (flatten_t4 g)) <> 0 ->
  grad_factor (t4_map (Rmult c) g) = grad_factor g / Rabs c.
Proof.
  intros Hc HS. unfold grad_factor.
  pose proof (Rsum_squares_nonneg (flatten_t4 g)) as HS0.
  pose proof (Rsum_squares_numel _ HS) as Hn.
  rewrite flatten_t4_map, map_map. unfold numel at 1. rewrite length_map.
  fold (numel (flatten_t4 g)).
  rewrite (map_ext _ (fun v => c ^ 2 * v ^ 2))
    by (intros v; apply Rpow_mult_distr).
  rewrite (Rsum_map_scale _ (fun v => v ^ 2)).
  set (S := Rsum (map (fun v => v ^ 2) (flatten_t4 g))) in *.
  set (n := numel (flatten_t4 g)) in *.
  assert (Hc2 : 0 < c ^ 2) by (pose proof (pow2_ge_0 c); nra).
  replace (n / (c ^ 2 * S)) with (n / S / c ^ 2) by (field; split; lra).
  rewrite sqrt_div_alt by exact Hc2.
  f_equal. rewrite <- (pow2_abs c). apply sqrt_pow2. apply Rabs_pos.
Qed.

Lemma normalize_grad_scaled (c : R) (g : T4) :
  c <> 0 -> Rsum (map (fun v => v ^ 2) (flatten_t4 g)) <> 0 ->
  normalize_grad (t4_map (Rmult c) g) = normalize_grad g.
Proof.
  intros Hc HS. unfold normalize_grad.
  rewrite t4_map_map, grad_factor_scaled by assumption.
  apply t4_map_ext. intros v. rewrite Rabs_mult. field.
  now apply Rabs_no_R0.
Qed.

(** X8: the scorer sees the gradient through its direction only: multiplying
    a gradient that is not zero everywhere by any constant [c <> 0] changes
    no score and no error, whatever the metric. *)
Theorem similarity_gradient_scale_invariant (tensor_raw tensor_sim g : T4)
  (metric : string) (c : R) :
  c <> 0 -> Rsum (map (fun v => v ^ 2) (flatten_t4 g)) <> 0 ->
  _get_similarity tensor_raw tensor_sim metric (Some (t4_map (Rmult c) g))
  = _get_similarity tensor_raw tensor_sim metric (Some g).
Proof.
  intros Hc HS. unfold _get_similarity.
  destruct (String.eqb metric "mae"); [reflexivity|].
  destruct (String.eqb metric "mse"); [reflexivity|].
  destruct (metric_in metric _); [|reflexivity].
  rewrite reshape_as_map.
  destruct (reshape_as g tensor_raw) as [G|e] eqn:HG; [|reflexivity].
  cbn [bind].
  assert (HS' : Rsum (map (fun v => v ^ 2) (flatten_t4 G)) <> 0).
  { unfold reshape_as in HG.
    destruct (Nat.eqb_spec (length (flatten_t4 g))
                           (length (flatten_t4 tensor_raw))) as [Hlen|];
      [|discriminate].
    destruct (reshape_as_flatten g tensor_raw Hlen) as (G' & HG' & Hflat).
    unfold reshape_as in HG'. rewrite Hlen, Nat.eqb_refl in HG'.
    rewrite HG' in HG. injection HG as ->. now rewrite Hflat. }
  now rewrite normalize_grad_scaled.
Qed.

Lemma similarity_gradient_scale_invariant_witness :
  _get_similarity example_A example_A "hessian"
                  (Some (t4_map (Rmult 2) example_A))
  = _get_similarity example_A example_A "hessian" (Some example_A).
Proof.
  apply (similarity_gradient_scale_invariant example_A example_A example_A
           "hessian" 2).
  - lra.
  - cbn. lra.
Defined.

(** ** The memory budget *)

(** X9: the parallelism chosen by the memory budget is the smallest one that
    needs as few groups of candidates as the memory-derived bound [p]: for
    [eq_n >= 1] and [p >= 1], no parallelism below [ceil(eq_n / ceil(eq_n /
    p))] covers the [eq_n] candidates in [ceil(eq_n / p)] groups; and the
    groups are even up to rounding, the slots left empty in the last group
    being fewer than the number of groups. *)
Theorem balanced_parallel_minimal (n p : Z) :
  (1 <= n)%Z -> (1 <= p)%Z ->
  exists pe groups,
    balanced_parallel n p = Ok pe /\
    ceil_div n p = Ok groups /\
    (forall q, (1 <= q)%Z -> ceil_div n q = Ok groups -> (pe <= q)%Z) /\
    (0 <= groups * pe - n < groups)%Z.
Proof.
  intros Hn Hp.
  destruct (ceil_div_pos n p ltac:(lia)) as (g & Hg & Hgb).
  assert (Hg1 : (1 <= g)%Z) by nia.
  destruct (ceil_div_pos n g ltac:(lia)) as (pe & Hpe & Hpeb).
  exists pe, g. unfold balanced_parallel. rewrite Hg. cbn [bind].
  split; [exact Hpe|]. split; [reflexivity|]. split; [|nia].
  intros q Hq Hc.
  destruct (ceil_div_pos n q ltac:(lia)) as (c & Hc' & Hcb).
  rewrite Hc in Hc'. injection Hc' as <-. nia.
Qed.

Lemma balanced_parallel_minimal_witness :
  exists pe groups,
    balanced_parallel 100 40 = Ok pe /\
    ceil_div 100 40 = Ok groups /\
    (forall q, (1 <= q)%Z -> ceil_div 100 q = Ok groups -> (pe <= q)%Z) /\
    (0 <= groups * pe - 100 < groups)%Z.
Proof.
  apply (balanced_parallel_minimal 100 40); lia.
Defined.

(** ** What the controller needs, and what it leaves *)

Lemma hyperparameter_searching_seeding rand_like acc (dev : Device)
  (m : QuantMatMul) (e : exn) :
  _initialize_calib_parameters dev m = Raise e ->
  hyperparameter_searching rand_like acc dev m = Raise e.
Proof.
  intros H. unfold hyperparameter_searching, seeding. now rewrite H.
Qed.

(** X10: [hyperparameter_searching] starts by reading the captured operands
    and checking the device.  On an operator whose [raw_input] is [None] (its
    hooks have never fired) it raises [TypeError]; on one whose [raw_input]
    has been deleted it raises [AttributeError]; and with captured operands
    but no CUDA device it raises [EnvironmentError]: there is no CPU
    fallback. *)
Theorem hyperparameter_searching_preconditions rand_like acc (dev : Device)
  (m : QuantMatMul) :
  (raw_input m = PyNone ->
   hyperparameter_searching rand_like acc dev m = Raise TypeError) /\
  (raw_input m = Deleted ->
   hyperparameter_searching rand_like acc dev m = Raise AttributeError) /\
  (is_val (raw_input m) = true -> cuda_is_available dev = false ->
   hyperparameter_searching rand_like acc dev m = Raise EnvironmentError).
Proof.
  split; [|split].
  - intros H. apply hyperparameter_searching_seeding.
    unfold _initialize_calib_parameters. now rewrite H.
  - intros H. apply hyperparameter_searching_seeding.
    unfold _initialize_calib_parameters. now rewrite H.
  - intros H Hc. apply hyperparameter_searching_seeding.
    unfold _initialize_calib_parameters.
    apply is_val_inv in H as [[rA rB] ->]. cbn [get_attr bind].
    now rewrite Hc.
Qed.

Lemma hyperparameter_searching_preconditions_witness :
  hyperparameter_searching no_rand always_accepts example_dev example_fresh
    = Raise TypeError /\
  hyperparameter_searching no_rand always_accepts (mkDevice false 0)
                           example_op = Raise EnvironmentError.
Proof.
  destruct (hyperparameter_searching_preconditions
              no_rand always_accepts example_dev example_fresh)
    as (H1 & _ & _).
  destruct (hyperparameter_searching_preconditions
              no_rand always_accepts (mkDevice false 0) example_op)
    as (_ & _ & H3).
  split; [apply H1; reflexivity | apply H3; reflexivity].
Defined.

(** X11: a completed [hyperparameter_searching] deletes the captured
    tensors ([raw_input], [raw_out], [raw_grad]); the operator cannot be
    searched a second time: another call raises [AttributeError], on any
    device. *)
Theorem hyperparameter_searching_releases rand_like acc (dev : Device)
  (m m' : QuantMatMul) (calls : list SearchCall) :
  hyperparameter_searching rand_like acc dev m = Ok (m', calls) ->
  raw_input m' = Deleted /\ raw_out m' = Deleted /\ raw_grad m' = Deleted /\
  forall rand_like' acc' dev',
    hyperparameter_searching rand_like' acc' dev' m' = Raise AttributeError.
Proof.
  intros H.
  apply hyperparameter_searching_inv in H as (p & c & ms & m2 & _ & _ & ->).
  split; [reflexivity|]. split; [reflexivity|]. split; [reflexivity|].
  intros r a d. apply hyperparameter_searching_seeding. reflexivity.
Qed.

Lemma hyperparameter_searching_releases_witness :
  exists m' calls,
    hyperparameter_searching no_rand always_accepts example_dev example_op
      = Ok (m', calls) /\
    raw_input m' = Deleted /\ raw_out m' = Deleted /\ raw_grad m' = Deleted /\
    forall rand_like' acc' dev',
      hyperparameter_searching rand_like' acc' dev' m' = Raise AttributeError.
Proof.
  destruct (hyperparameter_searching_returns no_rand always_accepts
              example_dev example_op eq_refl eq_refl) as (m' & calls & H).
  exists m', calls. split; [exact H|].
  apply (hyperparameter_searching_releases no_rand always_accepts example_dev
           example_op m' calls).
  exact H.
Defined.

Lemma search_keeps_ready rand_like (side : Side) (m m' : QuantMatMul)
  (scales zero_points : Grid) (best : list nat) :
  quantizer_ready (A_quantizer m) = true /\
  quantizer_ready (B_quantizer m) = true ->
  search_best_scale rand_like side m scales zero_points = Ok (best, m') ->
  quantizer_ready (A_quantizer m') = true /\
  quantizer_ready (B_quantizer m') = true.
Proof.
  intros [HA HB] H.
  apply search_best_scale_inv in H as (? & ? & ? & ? & _ & _ & _ & _ & _ & ->).
  assert (Hq : forall q s z, quantizer_ready q = true ->
            quantizer_ready (set_zero_point z (set_scale s q)) = true).
  { intros q s z Hq. unfold quantizer_ready in *.
    apply andb_prop in Hq as [Hq _]. apply andb_prop in Hq as [Hq _].
    cbn. now rewrite Hq. }
  destruct side;
    cbn [set_quantizer_of set_A_quantizer set_B_quantizer set_quantizers
         A_quantizer B_quantizer quantizer_of];
    split; auto.
Qed.

Lemma refined_keeps_ready rand_like (side : Side) (p : Percentiles)
  (m m' : QuantMatMul) (best best' : list nat) (cl : list SearchCall) :
  quantizer_ready (A_quantizer m) = true /\
  quantizer_ready (B_quantizer m) = true ->
  refined rand_like side p m best m' best' cl ->
  quantizer_ready (A_quantizer m') = true /\
  quantizer_ready (B_quantizer m') = true.
Proof.
  intros Hm. unfold refined. destruct (n_bits (quantizer_of side m) <? 32)%Z.
  - intros (mid & m_mid & H0 & H1 & _).
    eapply search_keeps_ready; [|exact H1].
    eapply search_keeps_ready; [exact Hm|exact H0].
  - now intros (-> & _).
Qed.

Lemma searching_keeps_ready rand_like (p : Percentiles) (c : Candidates)
  (m m' : QuantMatMul) (calls : list SearchCall) :
  quantizer_ready (A_quantizer m) = true /\
  quantizer_ready (B_quantizer m) = true ->
  searching rand_like p c m = Ok (m', calls) ->
  quantizer_ready (A_quantizer m') = true /\
  quantizer_ready (B_quantizer m') = true.
Proof.
  intros Hm. unfold searching. intros H.
  apply bind_ok in H as ([bA [mA cA]] & HA & H).
  apply bind_ok in H as ([bB [mB cB]] & HB & H).
  apply bind_ok in H as ([[bA' bB'] [mR cR]] & HR & H).
  injection H as <- <-.
  apply call_search_inv in HA as [HA _]. apply call_search_inv in HB as [HB _].
  pose proof (search_keeps_ready _ _ _ _ _ _ _ Hm HA) as HmA.
  pose proof (search_keeps_ready _ _ _ _ _ _ _ HmA HB) as HmB.
  refine (foldM_invariant _
            (fun acc => quantizer_ready (A_quantizer (fst (snd acc))) = true /\
                        quantizer_ready (B_quantizer (fst (snd acc))) = true)
            _ _ _ _ _ HR); [|exact HmB].
  intros e [[a b] [x cx]] [[a' b'] [y cy]] Hx Hstep. cbn [fst snd] in *.
  unfold refinement_round in Hstep.
  apply bind_ok in Hstep as ([b1 [m1 c1]] & H1 & Hstep).
  apply bind_ok in Hstep as ([b2 [m2 c2]] & H2 & Hstep).
  injection Hstep as <- <- <- <-.
  apply refine_side_refined in H1 as (cl1 & H1 & _).
  apply refine_side_refined in H2 as (cl2 & H2 & _).
  eapply refined_keeps_ready; [|exact H2].
  eapply refined_keeps_ready; [exact Hx|exact H1].
Qed.

(** X13: the number of per-side searches of a completed
    [hyperparameter_searching] is fixed by the configuration: the two initial
    searches, and in each of the [search_round] refinement rounds two more
    for every side whose bit-width is below 32. *)
Theorem hyperparameter_searching_call_count rand_like acc (dev : Device)
  (m m' : QuantMatMul) (calls : list SearchCall) :
  hyperparameter_searching rand_like acc dev m = Ok (m', calls) ->
  length calls =
    (2 + Z.to_nat (search_round m)
         * ((if (n_bits (A_quantizer m) <? 32)%Z then 2 else 0)
            + (if (n_bits (B_quantizer m) <? 32)%Z then 2 else 0)))%nat.
Proof.
  intros H.
  apply hyperparameter_searching_inv in H as (p & c & ms & m2 & Hs & Hr & _).
  apply seeding_keeps in Hs. destruct Hs as (_ & _ & _ & _ & Hsr & HnA & HnB).
  rewrite (searching_call_count _ _ _ _ _ _ Hr), Hsr, HnA, HnB.
  reflexivity.
Qed.

Lemma hyperparameter_searching_call_count_witness :
  exists m' calls,
    hyperparameter_searching no_rand always_accepts example_dev example_op
      = Ok (m', calls) /\
    length calls = 6%nat.
Proof.
  destruct (hyperparameter_searching_returns no_rand always_accepts
              example_dev example_op eq_refl eq_refl) as (m' & calls & H).
  exists m', calls. split; [exact H|].
  apply (hyperparameter_searching_call_count no_rand always_accepts
           example_dev example_op m' calls H).
Defined.

Lemma py_range_step_nonempty_inv (n step a : Z) (l : list Z) :
  py_range_step n step = Ok (a :: l) ->
  (0 < n /\ 0 < step)%Z \/ (n < 0 /\ step < 0)%Z.
Proof.
  unfold py_range_step, ceil_div.
  destruct (Z.eqb_spec step 0) as [|Hs]; [discriminate|]. cbn [bind].
  intros H. injection H as H.
  assert (Hc : (1 <= - (- n / step))%Z).
  { destruct (Z_lt_le_dec (- (- n / step)) 1) as [Hlt|]; [|assumption].
    unfold py_range in H.
    replace (Z.to_nat (- (- n / step))) with 0%nat in H by lia.
    discriminate. }
  destruct (Z_lt_le_dec 0 step) as [Hpos|Hneg].
  - left. split; [|exact Hpos].
    pose proof (Z.div_mod (- n) step Hs).
    pose proof (Z.mod_pos_bound (- n) step Hpos). nia.
  - right. assert (Hn : (step < 0)%Z) by lia. split; [|exact Hn].
    pose proof (Z.div_mod (- n) step Hs).
    pose proof (Z.mod_neg_bound (- n) step Hn). nia.
Qed.

Lemma sum_tables_nonempty (tables : list Grid) (table : Grid) :
  sum_tables tables = Ok table -> tables <> [].
Proof. destruct tables; [discriminate|]. intros _. discriminate. Qed.

Lemma chunk_similarities_gradient rand_like (side : Side) (m : QuantMatMul)
  (scales zero_points : Grid) (cs b_st : Z) (table : Grid) :
  chunk_similarities rand_like side m scales zero_points cs b_st = Ok table ->
  raw_grad m <> Deleted.
Proof.
  unfold chunk_similarities. intros H.
  apply bind_ok in H as ([rA rB] & _ & H).
  apply bind_ok in H as (other & _ & H).
  apply bind_ok in H as (ro & _ & H).
  apply bind_ok in H as (g & Hg & _).
  intros E. rewrite E in Hg. discriminate.
Qed.

(** X14: what a completed [hyperparameter_searching] has needed: a CUDA
    device, [eq_n >= 2], captured operands with at least one sample and a
    captured output, a calibration batch size of at least one, and a
    [raw_grad] attribute (a tensor or [None]).  If any of these fails, the
    call raises. *)
Theorem hyperparameter_searching_needs rand_like acc (dev : Device)
  (m m' : QuantMatMul) (calls : list SearchCall) :
  hyperparameter_searching rand_like acc dev m = Ok (m', calls) ->
  cuda_is_available dev = true /\
  (2 <= eq_n m)%Z /\
  (exists rA rB, raw_input m = Val (rA, rB) /\ (1 <= length rA)%nat) /\
  is_val (raw_out m) = true /\
  (1 <= calib_batch_size m)%Z /\
  raw_grad m <> Deleted.
Proof.
  intros H.
  apply hyperparameter_searching_inv in H as (p & c & ms & m2 & Hs & Hr & _).
  pose proof (seeding_needs_two_candidates _ _ _ _ _ _ Hs) as Hn.
  apply seeding_inv in Hs
    as (m1 & sA & zA & sB & zB & Hi & _ & _ & _ & _ & ->).
  pose proof (initialize_calib_parameters_raw_out _ _ _ Hi) as Hro.
  assert (Hcuda : cuda_is_available dev = true).
  { unfold _initialize_calib_parameters in Hi.
    destruct (raw_input m) as [| |[rA rB]]; cbn in Hi; try discriminate.
    destruct (cuda_is_available dev); [reflexivity|discriminate]. }
  destruct (initialize_calib_parameters_parallel _ _ _ Hi)
    as (rA & rB & p0 & pe & Hraw & _ & _ & ->).
  unfold searching in Hr.
  apply bind_ok in Hr as ([bA [mA cA]] & HA & _).
  apply call_search_inv in HA as [HA _].
  apply search_best_scale_inv in HA
    as (cs & b_starts & tables & table & Hcs & Hst & Htab & Hsum & _ & _).
  cbn in Hcs. injection Hcs as <-.
  apply sum_tables_nonempty in Hsum.
  pose proof (mapM_length _ _ _ Htab) as Hlen.
  destruct b_starts as [|b_st b_starts];
    [destruct tables; [contradiction|discriminate]|].
  apply py_range_step_nonempty_inv in Hst.
  change (calib_batch_size (set_quantizers _ _ _)) with (calib_batch_size m)
    in Hst.
  cbn [mapM] in Htab. apply bind_ok in Htab as (t0 & Ht0 & _).
  apply chunk_similarities_gradient in Ht0.
  repeat split; try assumption; try lia.
  exists rA, rB. split; [exact Hraw | lia].
Qed.

Lemma hyperparameter_searching_needs_witness :
  exists m' calls,
    hyperparameter_searching no_rand always_accepts example_dev example_op
      = Ok (m', calls) /\
    cuda_is_available example_dev = true /\
    (2 <= eq_n example_op)%Z /\
    (exists rA rB, raw_input example_op = Val (rA, rB) /\
                   (1 <= length rA)%nat) /\
    is_val (raw_out example_op) = true /\
    (1 <= calib_batch_size example_op)%Z /\
    raw_grad example_op <> Deleted.
Proof.
  destruct (hyperparameter_searching_returns no_rand always_accepts
              example_dev example_op eq_refl eq_refl) as (m' & calls & H).
  exists m', calls. split; [exact H|].
  apply (hyperparameter_searching_needs no_rand always_accepts example_dev
           example_op m' calls H).
Defined.

(** ** The per-side search picks a best candidate *)






(** ** The parallelism is a matter of memory only *)

Lemma mapM_ext {A B : Type} (f g : A -> result B) (l : list A) :
  (forall a, f a = g a) -> mapM f l = mapM g l.
Proof.
  intros H. induction l as [|a l IH]; [reflexivity|].
  cbn [mapM]. now rewrite H, IH.
Qed.




(** ** The search simulates the quantizer it installs *)

Lemma per_head2_ext_in (f g : R -> R -> R -> R) (s z : list R) (x : T4) :
  (forall sh zh v, In sh s -> In zh z -> f sh zh v = g sh zh v) ->
  per_head2 f s z x = per_head2 g s z x.
Proof.
  intros H. unfold per_head2. apply map_ext. intros sx.
  rewrite !zip_with_as_combine. apply zip_with_ext_in.
  intros [sh zh] m Hp. cbn [fst snd]. unfold mat_map.
  apply map_ext. intros row. apply map_ext. intros v. apply H.
  - apply in_combine_l in Hp. now apply In_expand_heads in Hp.
  - apply in_combine_r in Hp. now apply In_expand_heads in Hp.
Qed.

Lemma zero_point_candidates_integer (lowers scales : Grid) (z : list R)
  (zh : R) :
  In z (zero_point_candidates lowers scales) -> In zh z ->
  exists k : Z, zh = IZR k.
Proof.
  unfold zero_point_candidates, grid_zip.
  generalize (expand_heads lowers (length scales)) as ls.
  generalize (expand_heads scales (length lowers)) as ss.
  intros ss ls. revert ss. induction ls as [|lrow ls IH]; intros [|srow ss];
    cbn; try contradiction.
  intros [<-|Hz] Hzh; [|eapply IH; eassumption].
  clear IH. revert srow Hzh.
  induction lrow as [|l lrow IH]; intros [|sv srow]; cbn; try contradiction.
  intros [<-|Hzh]; [|eapply IH; eassumption].
  destruct (round_half_even_int (l / sv)) as [k ->].
  exists (- k)%Z. now rewrite opp_IZR.
Qed.

(** X26: the per-side search scores the quantizer it is going to install,
    when the bit-width is not 32.  For every zero-point row of a candidate
    grid (the rows are [-round(lower / scale)], hence integers), every scale
    row, and an operand that both rows fit, the simulated quantization of the
    searched operand inside the search has the shape of the operand and is
    exactly what [UniformQuantizer.forward] returns once that scale and
    zero-point are written into an initialised asymmetric quantizer in
    evaluation mode of a bit-width other than 32.  At 32 bits [forward]
    returns its input as it is, and no equality with the simulated
    quantization, which rounds and clamps at every bit-width, holds in
    general. *)
Theorem search_simulates_quantizer rand_like (q : UniformQuantizer)
  (lowers scales : Grid) (s z : list R) (x : T4) :
  sym q = false -> inited q = true -> training_mode q = false ->
  In z (zero_point_candidates lowers scales) ->
  heads_fit s x -> heads_fit z x ->
  same_shape x (candidate_sim (n_levels q) s z x) /\
  (n_bits q <> 32%Z ->
   UniformQuantizer_forward rand_like (set_zero_point z (set_scale s q)) x
   = Ok (candidate_sim (n_levels q) s z x)) /\
  (n_bits q = 32%Z ->
   UniformQuantizer_forward rand_like (set_zero_point z (set_scale s q)) x
   = Ok x).
Proof.
  intros Hsym Hin Htr Hz Hfs Hfz.
  split; [now apply per_head2_same_shape|]. split.
  - intros H32. unfold UniformQuantizer_forward.
    cbn [set_zero_point set_scale n_bits inited training_mode scale zero_point
         sym drop_prob].
    apply Z.eqb_neq in H32. rewrite H32, Hin, Htr, Hsym.
    cbn [assert bind get_attr andb]. f_equal.
    unfold candidate_sim. apply per_head2_ext_in. intros sh zh v _ Hzh.
    destruct (zero_point_candidates_integer _ _ _ _ Hz Hzh) as [k ->].
    unfold quant_asym. now rewrite round_half_even_IZR.
  - intros H32. unfold UniformQuantizer_forward.
    cbn [set_zero_point set_scale n_bits]. now rewrite H32.
Qed.

Lemma search_simulates_quantizer_witness :
  UniformQuantizer_forward no_rand
    (set_zero_point [- round_half_even (0 / 4)]
       (set_scale [4] (A_quantizer example_ready))) example_A
  = Ok (candidate_sim (n_levels (A_quantizer example_ready)) [4]
                      [- round_half_even (0 / 4)] example_A) /\
  UniformQuantizer_forward no_rand
    (set_zero_point [- round_half_even (0 / 4)]
       (set_scale [4] (B_quantizer example_mixed))) example_B
  = Ok example_B.
Proof.
  destruct (search_simulates_quantizer no_rand (A_quantizer example_ready)
              [[0]; [0]] [[4]; [4]] [4] [- round_half_even (0 / 4)] example_A
              eq_refl eq_refl eq_refl (or_introl eq_refl)
              (or_introl eq_refl) (or_introl eq_refl)) as (_ & H8 & _).
  destruct (search_simulates_quantizer no_rand (B_quantizer example_mixed)
              [[0]; [0]] [[4]; [4]] [4] [- round_half_even (0 / 4)] example_B
              eq_refl eq_refl eq_refl (or_introl eq_refl)
              (or_introl eq_refl) (or_introl eq_refl)) as (_ & _ & H32).
  split; [apply H8; cbn; lia | apply H32; reflexivity].
Defined.

(** ** The candidate generator: shape and order of the grids *)

Lemma quantile_retry_inv acc (fuel mbs : nat) (rows : list (list R))
  (pct : list R) (uppers lowers : Grid) :
  quantile_retry acc fuel mbs rows pct = Ok (uppers, lowers) ->
  exists mbs' x_,
    view_mini_batches mbs' rows = Ok x_ /\
    quantile_means acc x_ pct = Ok uppers /\
    quantile_means acc x_ (map (fun p => 1 - p) pct) = Ok lowers.
Proof.
  revert mbs. induction fuel as [|fuel IH]; intros mbs H;
    cbn [quantile_retry] in H; [discriminate|].
  apply bind_ok in H as (x_ & Hx & H).
  destruct (quantile_means acc x_ pct) as [u|] eqn:Hu; cbn [bind] in H;
    [|now apply IH in H].
  destruct (quantile_means acc x_ (map (fun p => 1 - p) pct)) as [l|] eqn:Hl;
    cbn [bind] in H; [|now apply IH in H].
  injection H as <- <-. exists mbs, x_. auto.
Qed.

Lemma quantile_means_rows acc (x_ : list (list (list R))) (q : list R)
  (g : Grid) :
  quantile_means acc x_ q = Ok g ->
  Forall (fun row => length row = length x_) g.
Proof.
  unfold quantile_means. destruct (acc x_); [|discriminate]. intros H.
  eapply mapM_Forall; [exact H|]. intros p row _ Hrow.
  unfold level_row in Hrow. now apply mapM_length in Hrow.
Qed.

Lemma per_head_rows_length (x : T4) (rows : list (list R)) :
  per_head_rows x = Ok rows -> length rows = length (hd [] x).
Proof.
  unfold per_head_rows. destruct x as [|s x]; [discriminate|].
  destruct (length s =? 0)%nat; [discriminate|]. intros [= <-].
  now rewrite length_map, length_seq.
Qed.

(** X17: the candidate generator returns two grids of [eq_n + 1] rows, one
    row per percentile level, each row with one entry per head of the
    operand; it can return only for [eq_n = 0] or [eq_n >= 2], and for
    [eq_n = 1] it raises [ZeroDivisionError] (the levels divide by
    [eq_n - 1]) before it looks at the operand. *)
Theorem percentile_candidates_shape acc (m : QuantMatMul) (x : T4)
  (l r k : R) :
  (eq_n m = 1%Z ->
   calculate_percentile_candidates acc m x l r k = Raise ZeroDivisionError) /\
  (forall uppers lowers,
     calculate_percentile_candidates acc m x l r k = Ok (uppers, lowers) ->
     (eq_n m = 0 \/ 2 <= eq_n m)%Z /\
     Z.of_nat (length uppers) = (eq_n m + 1)%Z /\
     Z.of_nat (length lowers) = (eq_n m + 1)%Z /\
     Forall (fun row => length row = length (hd [] x)) uppers /\
     Forall (fun row => length row = length (hd [] x)) lowers).
Proof.
  assert (H1 : eq_n m = 1%Z ->
               calculate_percentile_candidates acc m x l r k
               = Raise ZeroDivisionError).
  { intros E. unfold calculate_percentile_candidates, percentile_levels.
    rewrite E. reflexivity. }
  split; [exact H1|]. intros uppers lowers H.
  assert (Hn1 : eq_n m <> 1%Z).
  { intros E. rewrite (H1 E) in H. discriminate. }
  unfold calculate_percentile_candidates in H.
  apply bind_ok in H as (pct & Hpct & H).
  apply bind_ok in H as (rows & Hrows & H).
  apply bind_ok in H as ([u lo] & Hq & H).
  destruct (Z.eqb_spec (Z.of_nat (length pct)) (eq_n m + 1)) as [Hlen|];
    [|discriminate].
  injection H as <- <-.
  destruct (quantile_retry_length _ _ _ _ _ _ _ Hq) as [Lu Ll].
  apply quantile_retry_inv in Hq as (mbs & x_ & Hx & Hu & Hl).
  apply quantile_means_rows in Hu, Hl.
  unfold view_mini_batches in Hx. apply mapM_length in Hx.
  apply per_head_rows_length in Hrows.
  unfold percentile_levels in Hpct.
  apply bind_ok in Hpct as (body & _ & Hpct). injection Hpct as <-.
  rewrite length_app in Hlen, Lu, Ll. cbn [length] in Hlen, Lu, Ll.
  split; [lia|]. split; [lia|]. split; [lia|]. split.
  - eapply Forall_impl; [|exact Hu]. cbn beta. intros row Hr. congruence.
  - eapply Forall_impl; [|exact Hl]. cbn beta. intros row Hr. congruence.
Qed.

Lemma percentile_candidates_shape_witness :
  calculate_percentile_candidates always_accepts
    (AsymmetricallyBatchingQuantMatMul_init 8 8 "raw" "mse" 32 1 1 1)
    example_A (999 / 1000) (99999 / 100000) (1 / 10)
  = Raise ZeroDivisionError.
Proof.
  apply (percentile_candidates_shape always_accepts
           (AsymmetricallyBatchingQuantMatMul_init 8 8 "raw" "mse" 32 1 1 1)
           example_A (999 / 1000) (99999 / 100000) (1 / 10)).
  reflexivity.
Defined.
(** ** Quantiles grow with the level *)

Lemma In_insert_sorted (v x : R) (l : list R) :
  In x (insert_sorted v l) <-> x = v \/ In x l.
Proof.
  induction l as [|w l IH]; cbn.
  - intuition.
  - destruct (Rle_dec v w); cbn; [intuition|]. rewrite IH. intuition.
Qed.

Lemma ascending_insert_sorted (v : R) (l : list R) :
  ascending l -> ascending (insert_sorted v l).
Proof.
  induction l as [|w l IH]; cbn [insert_sorted ascending].
  - intros _. split; [intros b []|exact I].
  - intros [Hw Hl]. destruct (Rle_dec v w) as [Hle|Hgt]; cbn [ascending].
    + split; [|split; assumption].
      intros b [<-|Hb]; [exact Hle|]. specialize (Hw b Hb). lra.
    + split; [|now apply IH].
      intros b Hb. apply In_insert_sorted in Hb as [->|Hb]; [lra|now apply Hw].
Qed.

Lemma ascending_sort_R (l : list R) : ascending (sort_R l).
Proof.
  unfold sort_R. induction l as [|v l IH]; cbn [fold_right]; [exact I|].
  now apply ascending_insert_sorted.
Qed.

Lemma length_insert_sorted (v : R) (l : list R) :
  length (insert_sorted v l) = S (length l).
Proof.
  induction l as [|w l IH]; cbn; [reflexivity|].
  destruct (Rle_dec v w); cbn; [reflexivity|]. now rewrite IH.
Qed.

Lemma length_sort_R (l : list R) : length (sort_R l) = length l.
Proof.
  unfold sort_R. induction l as [|v l IH]; cbn [fold_right length];
    [reflexivity|].
  now rewrite length_insert_sorted, IH.
Qed.

Lemma ascending_nth (s : list R) (i j : nat) :
  ascending s -> (i <= j < length s)%nat -> nth i s 0 <= nth j s 0.
Proof.
  revert i j. induction s as [|a s IH]; intros i j Hs Hij; [cbn in Hij; lia|].
  destruct Hs as [Ha Hs]. destruct j as [|j].
  - replace i with 0%nat by lia. lra.
  - destruct i as [|i]; cbn [nth].
    + apply Ha. apply nth_In. cbn in Hij. lia.
    + apply IH; [exact Hs|]. cbn in Hij. lia.
Qed.

(** Floor and ceiling of a rank. *)
Lemma floor_bounds (r : R) : IZR (Int_part r) <= r < IZR (Int_part r) + 1.
Proof. destruct (base_Int_part r). lra. Qed.

Lemma ceil_bounds (r : R) :
  IZR (- Int_part (- r)) - 1 < r <= IZR (- Int_part (- r)).
Proof. rewrite opp_IZR. destruct (base_Int_part (- r)). lra. Qed.

Lemma rank_indices (n : nat) (r : R) :
  0 <= r <= INR n - 1 ->
  (0 <= Int_part r <= - Int_part (- r))%Z /\
  (- Int_part (- r) <= Int_part r + 1)%Z /\
  (- Int_part (- r) < Z.of_nat n)%Z.
Proof.
  intros [H0 Hn]. rewrite INR_IZR_INZ in Hn.
  pose proof (floor_bounds r) as [F1 F2]. pose proof (ceil_bounds r) as [C1 C2].
  repeat split.
  - apply Z.lt_succ_r. apply lt_IZR. rewrite succ_IZR. lra.
  - apply Z.lt_succ_r. apply lt_IZR. rewrite succ_IZR. lra.
  - apply Z.lt_succ_r. apply lt_IZR. rewrite succ_IZR, plus_IZR. lra.
  - apply lt_IZR. lra.
Qed.

Lemma interpolate_between (s : list R) (r : R) :
  ascending s -> 0 <= r <= INR (length s) - 1 ->
  nth (Z.to_nat (Int_part r)) s 0 <= interpolate s r
  <= nth (Z.to_nat (- Int_part (- r))) s 0.
Proof.
  intros Hs Hr. destruct (rank_indices _ _ Hr) as ([K0 KC] & CK & CN).
  pose proof (floor_bounds r) as [F1 F2].
  assert (Hv : nth (Z.to_nat (Int_part r)) s 0
               <= nth (Z.to_nat (- Int_part (- r))) s 0)
    by (apply ascending_nth; [exact Hs | lia]).
  unfold interpolate. nra.
Qed.

Lemma interpolate_monotone (s : list R) (a b : R) :
  ascending s -> 0 <= a -> a <= b -> b <= INR (length s) - 1 ->
  interpolate s a <= interpolate s b.
Proof.
  intros Hs Ha Hab Hb.
  assert (Hra : 0 <= a <= INR (length s) - 1) by lra.
  assert (Hrb : 0 <= b <= INR (length s) - 1) by lra.
  destruct (rank_indices _ _ Hra) as ([A0 AC] & CA & AN).
  destruct (rank_indices _ _ Hrb) as ([B0 BC] & CB & BN).
  pose proof (interpolate_between s a Hs Hra) as [_ Ia].
  pose proof (interpolate_between s b Hs Hrb) as [Ib _].
  pose proof (floor_bounds a) as [Fa1 Fa2].
  pose proof (floor_bounds b) as [Fb1 Fb2].
  pose proof (ceil_bounds a) as [Ca1 Ca2].
  pose proof (ceil_bounds b) as [Cb1 Cb2].
  destruct (Z_le_gt_dec (- Int_part (- a)) (Int_part b)) as [Hle|Hgt].
  - assert (nth (Z.to_nat (- Int_part (- a))) s 0
            <= nth (Z.to_nat (Int_part b)) s 0)
      by (apply ascending_nth; [exact Hs | lia]).
    lra.
  - assert (Hfl : (Int_part a <= Int_part b)%Z).
    { apply Z.lt_succ_r. apply lt_IZR. rewrite succ_IZR. lra. }
    assert (Efl : Int_part b = Int_part a) by lia.
    assert (Eca : (- Int_part (- a) = Int_part a + 1)%Z) by lia.
    assert (Ecb : (- Int_part (- b) = Int_part a + 1)%Z).
    { assert (Int_part a < - Int_part (- b))%Z; [|lia].
      apply lt_IZR. rewrite Eca, plus_IZR in Ca1. lra. }
    unfold interpolate. rewrite Efl, Eca, Ecb.
    assert (Hv : nth (Z.to_nat (Int_part a)) s 0
                 <= nth (Z.to_nat (Int_part a + 1)) s 0)
      by (apply ascending_nth; [exact Hs | lia]).
    nra.
Qed.

Lemma torch_quantile_inv (row : list R) (q v : R) :
  torch_quantile row q = Ok v ->
  0 <= q <= 1 /\ row <> [] /\
  v = interpolate (sort_R row) (q * (INR (length row) - 1)).
Proof.
  unfold torch_quantile, Rltb.
  destruct (Rlt_dec q 0); [discriminate|].
  destruct (Rlt_dec 1 q); [discriminate|]. cbn [orb].
  destruct row as [|x row]; [discriminate|]. intros [= <-].
  repeat split; try lra. discriminate.
Qed.

(** The quantile of a row at a level [p >= 1/2] is at least its quantile at
    [1 - p]. *)
Lemma torch_quantile_ordered (row : list R) (p u lo : R) :
  1 / 2 <= p ->
  torch_quantile row p = Ok u -> torch_quantile row (1 - p) = Ok lo ->
  lo <= u.
Proof.
  intros Hp Hu Hl.
  apply torch_quantile_inv in Hu as (Hp1 & Hne & ->).
  apply torch_quantile_inv in Hl as (_ & _ & ->).
  assert (Hn : 1 <= INR (length row)).
  { destruct row as [|x row]; [contradiction|].
    change 1 with (INR 1). apply le_INR. cbn. lia. }
  apply interpolate_monotone.
  - apply ascending_sort_R.
  - nra.
  - nra.
  - rewrite length_sort_R. nra.
Qed.

Lemma mapM_rel {A B : Type} (P : B -> B -> Prop) (f g : A -> result B)
  (l : list A) (r r' : list B) :
  (forall a b b', In a l -> f a = Ok b -> g a = Ok b' -> P b' b) ->
  mapM f l = Ok r -> mapM g l = Ok r' -> Forall2 P r' r.
Proof.
  revert r r'. induction l as [|a l IH]; intros r r' HP Hf Hg; cbn in Hf, Hg.
  - injection Hf as <-. injection Hg as <-. constructor.
  - apply bind_ok in Hf as (b & Hb & Hf). apply bind_ok in Hf as (bs & Hbs & Hf).
    apply bind_ok in Hg as (c & Hc & Hg). apply bind_ok in Hg as (cs & Hcs & Hg).
    injection Hf as <-. injection Hg as <-. constructor.
    + apply (HP a); [now left | exact Hb | exact Hc].
    + apply IH; [|exact Hbs|exact Hcs].
      intros a' b' c' Ha'. apply HP. now right.
Qed.

Lemma mapM_compose {A A' B : Type} (f : A' -> result B) (h : A -> A')
  (l : list A) : mapM f (map h l) = mapM (fun a => f (h a)) l.
Proof.
  induction l as [|a l IH]; [reflexivity|]. cbn [map mapM]. now rewrite IH.
Qed.

Lemma Rsum_monotone (l l' : list R) :
  Forall2 Rle l' l -> Rsum l' <= Rsum l.
Proof.
  unfold Rsum. induction 1 as [|x y l' l Hxy _ IH]; cbn; lra.
Qed.

Lemma mean_monotone (l l' : list R) :
  Forall2 Rle l' l -> mean l' <= mean l.
Proof.
  intros H. pose proof (Rsum_monotone _ _ H) as Hs.
  pose proof (Forall2_length H) as Hlen.
  unfold mean, numel. rewrite Hlen.
  destruct l as [|x l].
  - destruct l'; [lra|discriminate].
  - apply Rmult_le_compat_r; [|exact Hs].
    apply Rlt_le, Rinv_0_lt_compat, lt_0_INR. cbn. lia.
Qed.

Lemma level_row_ordered (x_ : list (list (list R))) (p : R) (u lo : list R) :
  1 / 2 <= p ->
  level_row x_ p = Ok u -> level_row x_ (1 - p) = Ok lo ->
  Forall2 Rle lo u.
Proof.
  intros Hp. unfold level_row. apply mapM_rel.
  intros head m m' _ Hm Hm'.
  apply bind_ok in Hm as (qs & Hqs & Hm). injection Hm as <-.
  apply bind_ok in Hm' as (qs' & Hqs' & Hm'). injection Hm' as <-.
  apply mean_monotone.
  refine (mapM_rel Rle _ _ head qs qs' _ Hqs Hqs').
  intros part v v' _ Hv Hv'. eapply torch_quantile_ordered; eassumption.
Qed.

Lemma quantile_means_ordered acc (x_ : list (list (list R))) (pct : list R)
  (uppers lowers : Grid) :
  Forall (fun p => 1 / 2 <= p) pct ->
  quantile_means acc x_ pct = Ok uppers ->
  quantile_means acc x_ (map (fun p => 1 - p) pct) = Ok lowers ->
  Forall2 (Forall2 Rle) lowers uppers.
Proof.
  intros Hpct. unfold quantile_means. destruct (acc x_); [|discriminate].
  rewrite mapM_compose. apply mapM_rel.
  intros p u lo Hp Hu Hl. rewrite Forall_forall in Hpct.
  eapply level_row_ordered; [apply Hpct, Hp | exact Hu | exact Hl].
Qed.

Lemma py_pow_nonneg (x k v : R) : py_pow x k = Ok v -> 0 <= v.
Proof.
  unfold py_pow. destruct (Req_dec_T x 0).
  - destruct (Rlt_dec 0 k); [intros [= <-]; lra|].
    destruct (Req_dec_T k 0); [intros [= <-]; lra|discriminate].
  - intros [= <-]. unfold Rpower. apply Rlt_le, exp_pos.
Qed.

Lemma percentile_levels_above (eq_n : Z) (l r k : R) (pct : list R) :
  l <= r -> l <= 1 ->
  percentile_levels eq_n l r k = Ok pct -> Forall (fun p => l <= p) pct.
Proof.
  intros Hlr Hl1 H. unfold percentile_levels in H.
  apply bind_ok in H as (body & Hbody & H). injection H as <-.
  apply Forall_app. split; [|constructor; [exact Hl1|constructor]].
  eapply mapM_Forall; [exact Hbody|]. intros i p _ Hp. cbn beta.
  unfold percentile_level in Hp.
  destruct (eq_n - 1 =? 0)%Z; [discriminate|].
  apply bind_ok in Hp as (pw & Hpw & Hp). injection Hp as <-.
  apply py_pow_nonneg in Hpw. nra.
Qed.

(** The two grids of the generator, level by level and head by head. *)
Lemma percentile_grids_ordered acc (m : QuantMatMul) (x : T4)
  (l r k : R) (uppers lowers : Grid) :
  1 / 2 <= l -> l <= r -> l <= 1 ->
  calculate_percentile_candidates acc m x l r k = Ok (uppers, lowers) ->
  Forall2 (Forall2 Rle) lowers uppers.
Proof.
  intros Hl Hlr Hl1 H. unfold calculate_percentile_candidates in H.
  apply bind_ok in H as (pct & Hpct & H).
  apply bind_ok in H as (rows & Hrows & H).
  apply bind_ok in H as ([u lo] & Hq & H).
  destruct (Z.of_nat (length pct) =? eq_n m + 1)%Z; [|discriminate].
  injection H as <- <-.
  apply quantile_retry_inv in Hq as (mbs & x_ & _ & Hu & Hlo).
  eapply quantile_means_ordered; [|exact Hu|exact Hlo].
  apply percentile_levels_above in Hpct; [|exact Hlr|exact Hl1].
  eapply Forall_impl; [|exact Hpct]. cbn beta. intros p Hp. lra.
Qed.

(** X18: for levels in the upper half, [1/2 <= l <= r] and [l <= 1] (those of
    [hyperparameter_searching] are 0.999 and 0.99999), every upper percentile
    candidate is at least the lower candidate of the same level and head:
    the clipping ranges [lower, upper] are never inverted. *)
Theorem percentile_candidates_ordered acc (m : QuantMatMul) (x : T4)
  (l r k : R) (uppers lowers : Grid) :
  1 / 2 <= l -> l <= r -> l <= 1 ->
  calculate_percentile_candidates acc m x l r k = Ok (uppers, lowers) ->
  Forall2 (Forall2 Rle) lowers uppers.
Proof. exact (percentile_grids_ordered acc m x l r k uppers lowers). Qed.

Lemma percentile_candidates_ordered_witness :
  Forall2 (Forall2 Rle)
    (map (row_value (single_batches [[0; 1000]]))
         (map (fun p => 1 - p) (search_levels 2)))
    (map (row_value (single_batches [[0; 1000]])) (search_levels 2)).
Proof.
  apply (percentile_candidates_ordered always_accepts example_op example_A
           (999 / 1000) (99999 / 100000) (1 / 10)); try lra.
  apply (calculate_percentile_candidates_ok always_accepts example_op
           example_A [[0; 1000]]).
  - cbn. lia.
  - reflexivity.
  - repeat constructor. discriminate.
  - reflexivity.
Defined.

Lemma zip_with_Forall2 {A B C : Type} (P : B -> A -> Prop) (Q : C -> Prop)
  (f : A -> B -> C) (l : list A) (l' : list B) :
  Forall2 P l' l -> (forall a b, P b a -> Q (f a b)) ->
  Forall Q (zip_with f l l').
Proof.
  intros H HQ. induction H as [|b a l' l Hba _ IH]; cbn; constructor; auto.
Qed.

Lemma scale_candidates_nonneg (L : R) (uppers lowers : Grid) :
  1 <= L -> Forall2 (Forall2 Rle) lowers uppers ->
  Forall (Forall (fun s => 0 <= s)) (scale_candidates L uppers lowers).
Proof.
  intros HL H. unfold scale_candidates, grid_zip.
  assert (Hrow : forall u lo, Forall2 Rle lo u ->
            Forall (fun s => 0 <= s)
                   (zip_with (fun u l => (u - l) / (2 * L - 1)) u lo)).
  { intros u lo Hul. eapply zip_with_Forall2; [exact Hul|].
    intros a b Hab. apply Rmult_le_pos; [lra|].
    apply Rlt_le, Rinv_0_lt_compat. lra. }
  pose proof (Forall2_length H) as Hlen.
  assert (He : Forall2 (Forall2 Rle) (expand_heads lowers (length uppers))
                       (expand_heads uppers (length lowers))).
  { destruct H as [|lo u lowers uppers Hul H]; [constructor|].
    destruct H as [|lo' u' lowers uppers Hul' H]; cbn.
    - repeat constructor. exact Hul.
    - repeat (constructor; try assumption). }
  eapply zip_with_Forall2; [exact He|]. exact Hrow.
Qed.

(** X19: every scale candidate of the seeding is non-negative, for both
    operands and any bit-width of at least 1: the candidates are
    [(upper - lower) / (2 * n_levels - 1)] at the levels 0.999 to 1, where
    the upper percentile is never below the lower one.  (A scale of zero is
    possible, for an operand that is constant over a head.) *)
Theorem seeding_scales_nonnegative acc (dev : Device) (m ms : QuantMatMul)
  (p : Percentiles) (c : Candidates) :
  (1 <= n_bits (A_quantizer m))%Z -> (1 <= n_bits (B_quantizer m))%Z ->
  seeding acc dev m = Ok (p, c, ms) ->
  Forall (Forall (fun s => 0 <= s)) (A_scale_candidates c) /\
  Forall (Forall (fun s => 0 <= s)) (B_scale_candidates c).
Proof.
  intros HA HB H. unfold seeding in H.
  apply bind_ok in H as (m1 & Hi & H).
  apply bind_ok in H as ([rA rB] & _ & H).
  apply bind_ok in H as ([Au Al] & HcA & H).
  apply bind_ok in H as ([Bu Bl] & HcB & H).
  apply bind_ok in H as (qa & _ & H).
  apply bind_ok in H as (qb & _ & H).
  injection H as <- <- <-. cbn [A_scale_candidates B_scale_candidates].
  destruct (initialize_calib_parameters_parallel _ _ _ Hi)
    as (? & ? & ? & ? & _ & _ & _ & ->).
  cbn [set_calib_parameters A_quantizer B_quantizer].
  apply percentile_grids_ordered in HcA; try lra.
  apply percentile_grids_ordered in HcB; try lra.
  split; apply scale_candidates_nonneg; try assumption.
  - now apply n_levels_integer.
  - now apply n_levels_integer.
Qed.

Lemma seeding_scales_nonnegative_witness :
  exists p c ms,
    seeding always_accepts example_dev example_op = Ok (p, c, ms) /\
    Forall (Forall (fun s => 0 <= s)) (A_scale_candidates c) /\
    Forall (Forall (fun s => 0 <= s)) (B_scale_candidates c).
Proof.
  destruct (seeding_seeds always_accepts example_dev example_op eq_refl)
    as (p & c & m1 & rA & rB & rowsA & rowsB & _ & _ & _ & _ & H & _).
  eexists p, c, _. split; [exact H|].
  refine (seeding_scales_nonnegative always_accepts example_dev example_op _
            p c _ _ H).
  - cbn. lia.
  - cbn. lia.
Defined.



(** ** The orchestrator: what a run leaves in the modules *)

Lemma search_preserves rand_like (P : QuantMatMul -> Prop) (side : Side)
  (m m' : QuantMatMul) (scales zero_points : Grid) (best : list nat) :
  (forall sd q x, P x -> P (set_quantizer_of sd q x)) ->
  P m ->
  search_best_scale rand_like side m scales zero_points = Ok (best, m') ->
  P m'.
Proof.
  intros HP Hm H.
  apply search_best_scale_inv in H as (? & ? & ? & ? & _ & _ & _ & _ & _ & ->).
  now apply HP.
Qed.

Lemma searching_preserves rand_like (P : QuantMatMul -> Prop)
  (p : Percentiles) (c : Candidates) (m m' : QuantMatMul)
  (calls : list SearchCall) :
  (forall sd q x, P x -> P (set_quantizer_of sd q x)) ->
  P m -> searching rand_like p c m = Ok (m', calls) -> P m'.
Proof.
  intros HP Hm. unfold searching. intros H.
  apply bind_ok in H as ([bA [mA cA]] & HA & H).
  apply bind_ok in H as ([bB [mB cB]] & HB & H).
  apply bind_ok in H as ([[bA' bB'] [mR cR]] & HR & H).
  injection H as <- <-.
  apply call_search_inv in HA as [HA _]. apply call_search_inv in HB as [HB _].
  pose proof (search_preserves _ P _ _ _ _ _ _ HP Hm HA) as HmA.
  pose proof (search_preserves _ P _ _ _ _ _ _ HP HmA HB) as HmB.
  refine (foldM_invariant _ (fun acc => P (fst (snd acc))) _ _ _ _ _ HR);
    [|exact HmB].
  intros e [[a b] [x cx]] [[a' b'] [y cy]] Hx Hstep. cbn [fst snd] in *.
  unfold refinement_round in Hstep.
  apply bind_ok in Hstep as ([b1 [m1 c1]] & H1 & Hstep).
  apply bind_ok in Hstep as ([b2 [m2 c2]] & H2 & Hstep).
  injection Hstep as <- <- <- <-.
  apply refine_side_refined in H1 as (cl1 & H1 & _).
  apply refine_side_refined in H2 as (cl2 & H2 & _).
  assert (Hr : forall sd q0 x0 x1 bb bb' cl,
            P x0 -> refined rand_like sd q0 x0 bb x1 bb' cl -> P x1).
  { intros sd q0 x0 x1 bb bb' cl Hx0. unfold refined.
    destruct (n_bits (quantizer_of sd x0) <? 32)%Z.
    - intros (mid & m_mid & G0 & G1 & _).
      eapply search_preserves; [exact HP| |exact G1].
      eapply search_preserves; [exact HP|exact Hx0|exact G0].
    - now intros (-> & _). }
  eapply Hr; [|exact H2]. eapply Hr; [exact Hx|exact H1].
Qed.

(** The hook buffers are not touched by the search. *)
Lemma hyperparameter_searching_buffers rand_like acc (dev : Device)
  (m m' : QuantMatMul) (calls : list SearchCall) :
  hyperparameter_searching rand_like acc dev m = Ok (m', calls) ->
  tmp_input m' = tmp_input m /\ tmp_out m' = tmp_out m.
Proof.
  intros H.
  apply hyperparameter_searching_inv in H as (p & c & ms & m2 & Hs & Hr & ->).
  apply seeding_inv in Hs
    as (m1 & sA & zA & sB & zB & Hi & _ & _ & _ & _ & ->).
  destruct (initialize_calib_parameters_parallel _ _ _ Hi)
    as (? & ? & ? & ? & _ & _ & _ & ->).
  cbn [latch_and_release tmp_input tmp_out].
  refine (searching_preserves _
            (fun x => tmp_input x = tmp_input m /\ tmp_out x = tmp_out m)
            _ _ _ _ _ _ _ Hr).
  - intros sd q y Hy. now destruct sd.
  - split; reflexivity.
Qed.

Lemma skipn_cons_nth_error {A : Type} (k : nat) (l t : list A) (a : A) :
  skipn k l = a :: t -> nth_error l k = Some a /\ skipn (S k) l = t.
Proof.
  revert l. induction k as [|k IH]; intros [|x l] H; cbn in H;
    try discriminate.
  - injection H as -> ->. split; reflexivity.
  - apply IH in H. exact H.
Qed.

Section Runs.

Variable rand_like : T4 -> T4.
Variable quantile_accepts : list (list (list R)) -> bool.
Variable dev : Device.
Variable run_model : list Module -> T4 -> result (list (option Capture)).
Variable extern_search : Extern -> result Extern.
Variable extern_reparam : Extern -> result Extern.

Lemma ineligible_skipped (loader : list T4) (idx : nat)
  (model : list Module) (log : list Event) (md : Module) :
  nth_error model idx = Some md -> eligible md = false ->
  calibrate_module rand_like quantile_accepts dev run_model extern_search
                   extern_reparam loader idx (model, log)
  = Ok (model, log).
Proof.
  intros Hn He. unfold calibrate_module. cbn [fst]. rewrite Hn.
  unfold eligible in He.
  destruct (module_has_metric md), (module_calibrated md); cbn in *;
    try reflexivity; discriminate.
Qed.

Lemma warm_passes_log (model : list Module) (loader : list T4)
  (log : list Event) :
  (forall inp, In inp loader -> exists c, run_model model inp = Ok c) ->
  foldM (warm_pass run_model model) loader log
  = Ok (log ++ map (fun _ => EvForward None (map module_mode model)) loader).
Proof.
  revert log. induction loader as [|inp loader IH]; intros log Hrun.
  - cbn. now rewrite app_nil_r.
  - cbn [foldM map]. unfold warm_pass at 1.
    destruct (Hrun inp ltac:(now left)) as [c ->]. cbn [bind].
    rewrite IH by (intros i Hi; apply Hrun; now right).
    now rewrite <- app_assoc.
Qed.

Lemma ineligible_loop (loader : list T4) (model : list Module)
  (log : list Event) (idxs : list nat) :
  Forall (fun md => eligible md = false) model ->
  foldM (calibrate_module rand_like quantile_accepts dev run_model
                          extern_search extern_reparam loader)
        idxs (model, log)
  = Ok (model, log).
Proof.
  intros Hall. induction idxs as [|idx idxs IH]; [reflexivity|].
  cbn [foldM].
  destruct (nth_error model idx) as [md|] eqn:Hn.
  - rewrite (ineligible_skipped loader idx model log md Hn).
    + exact IH.
    + rewrite Forall_forall in Hall. apply Hall.
      eapply nth_error_In. exact Hn.
  - unfold calibrate_module at 1. cbn [fst]. rewrite Hn. exact IH.
Qed.

(** X21: the orchestrator starts by asking the network for its first
    parameter, and raises [StopIteration] on a network that has none,
    before any forward pass.  On a network that owns a parameter and has no
    calibration-eligible module (every module is without metric, or
    calibrated already) it runs its warm-up passes and then only writes the
    modes: no hook fires, no search runs, and every module is returned as
    it was, with mode "quant_forward" if it has a mode.  In particular a
    second calibration of a calibrated model searches nothing. *)
Theorem calibration_without_eligible_modules (model : list Module)
  (loader : list T4) :
  (existsb module_has_parameters model = false ->
   batching_quant_calib rand_like quantile_accepts dev run_model
                        extern_search extern_reparam model loader
   = Raise StopIteration) /\
  (existsb module_has_parameters model = true ->
   Forall (fun md => eligible md = false) model ->
   (forall inp, In inp loader -> exists c, run_model model inp = Ok c) ->
   batching_quant_calib rand_like quantile_accepts dev run_model
                        extern_search extern_reparam model loader
   = Ok (map flipped model,
         map (fun _ => EvForward None (map module_mode model)) loader
         ++ map EvSetMode (filter (mode_at model) (seq 0 (length model))))).
Proof.
  unfold batching_quant_calib, first_parameter. split.
  { intros ->. reflexivity. }
  intros -> Hall Hrun. cbn [bind].
  rewrite warm_passes_log by exact Hrun. cbn [bind app].
  rewrite ineligible_loop by exact Hall. cbn [bind fst].
  destruct (flip_all (length model) 0 model
              (map (fun _ => EvForward None (map module_mode model)) loader))
    as (Hnth & Hlog & Hlen).
  cbv zeta in Hnth, Hlog, Hlen.
  destruct (fold_left _ (seq 0 (length model)) _) as [model' log'].
  cbn [fst snd] in *. f_equal. f_equal; [|exact Hlog].
  apply nth_error_ext. intros i. rewrite Hnth, nth_error_map.
  destruct (Nat.ltb_spec i (0 + length model)); cbn [Nat.leb andb];
    [reflexivity|].
  assert (nth_error model i = None) as -> by (apply nth_error_None; lia).
  reflexivity.
Qed.

Lemma empty_loader_loop (model suffix : list Module) (log : list Event)
  (k : nat) :
  (forall md, In md model -> eligible md = true ->
              module_tmp_out md = PyNone) ->
  skipn k model = suffix ->
  foldM (calibrate_module rand_like quantile_accepts dev run_model
                          extern_search extern_reparam [])
        (seq k (length suffix)) (model, log)
  = if existsb eligible suffix then Raise TypeError else Ok (model, log).
Proof.
  intros Hnone. revert k. induction suffix as [|md suffix IH]; intros k Hk;
    [reflexivity|].
  apply skipn_cons_nth_error in Hk as [Hn Hk].
  cbn [length seq foldM existsb].
  destruct (eligible md) eqn:He; cbn [orb].
  - unfold calibrate_module. cbn [fst foldM bind]. rewrite Hn.
    unfold eligible in He. apply andb_prop in He as [Hm Hc].
    rewrite Hm. apply negb_true_iff in Hc. rewrite Hc. cbn [negb orb].
    rewrite ?Hn. cbn [bind].
    assert (Ht : module_tmp_out md = PyNone).
    { apply Hnone; [eapply nth_error_In; exact Hn|].
      unfold eligible. now rewrite Hm, Hc. }
    destruct md as [op|e]; cbn [module_tmp_out] in Ht;
      cbn [collect_captured]; now rewrite Ht.
  - rewrite (ineligible_skipped [] k model log md Hn He). cbn [bind].
    now apply IH.
Qed.

(** X22: with an empty calibration loader the orchestrator fails as soon as
    it reaches a module to calibrate: the hooks of that module never fire,
    its [tmp_out] is still [None], and [torch.cat(None)] raises
    [TypeError].  (Only a network that owns no parameter at all does not
    get that far: its device lookup raises [StopIteration].) *)
Theorem calibration_with_empty_loader (model : list Module) :
  (exists md, In md model /\ eligible md = true) ->
  (forall md, In md model -> eligible md = true ->
              module_tmp_out md = PyNone) ->
  batching_quant_calib rand_like quantile_accepts dev run_model
                       extern_search extern_reparam model []
  = if existsb module_has_parameters model then Raise TypeError
    else Raise StopIteration.
Proof.
  intros Hex Hnone. unfold batching_quant_calib, first_parameter.
  destruct (existsb module_has_parameters model); [|reflexivity].
  cbn [foldM bind].
  rewrite (empty_loader_loop model model [] 0 Hnone eq_refl).
  assert (existsb eligible model = true) as ->; [|reflexivity].
  apply existsb_exists. exact Hex.
Qed.

Lemma capture_pass_at (idx : nat) (inp : T4) (cur cur' : list Module)
  (log log' : list Event) :
  capture_pass run_model idx inp (cur, log) = Ok (cur', log') ->
  length cur' = length cur /\
  (forall i, i <> idx -> nth_error cur' i = nth_error cur i) /\
  (forall op, nth_error cur idx = Some (MatMulModule op) ->
              exists op', nth_error cur' idx = Some (MatMulModule op')).
Proof.
  unfold capture_pass. intros H. apply bind_ok in H as (caps & _ & H).
  destruct (nth_error cur idx) as [md|] eqn:Hn.
  2:{ injection H as <- <-. repeat split; auto. intros op Hop.
      discriminate. }
  destruct (nth idx caps None) as [c|].
  2:{ injection H as <- <-. repeat split; auto. intros op Hop.
      rewrite Hn. injection Hop as ->. eauto. }
  apply bind_ok in H as (md' & Hf & H). injection H as <- <-.
  split; [apply length_list_set|]. split.
  - intros i Hi. rewrite nth_error_list_set.
    destruct (Nat.eqb_spec idx i); [congruence|reflexivity].
  - intros op Hop. injection Hop as ->.
    rewrite nth_error_list_set, Nat.eqb_refl, Hn.
    destruct c as [[a b] out]. cbn [fire_hooks] in Hf.
    apply bind_ok in Hf as (? & _ & Hf). apply bind_ok in Hf as (? & _ & Hf).
    injection Hf as <-. eauto.
Qed.

Lemma capture_passes_at (idx : nat) (loader : list T4)
  (cur cur' : list Module) (log log' : list Event) :
  foldM (capture_pass run_model idx) loader (cur, log) = Ok (cur', log') ->
  length cur' = length cur /\
  (forall i, i <> idx -> nth_error cur' i = nth_error cur i) /\
  (forall op, nth_error cur idx = Some (MatMulModule op) ->
              exists op', nth_error cur' idx = Some (MatMulModule op')).
Proof.
  revert cur log. induction loader as [|inp loader IH]; intros cur log H.
  - injection H as <- <-. repeat split; eauto.
  - cbn [foldM] in H. apply bind_ok in H as ([cur1 log1] & H1 & H).
    apply capture_pass_at in H1 as (L1 & O1 & M1).
    apply IH in H as (L & O & M). split; [congruence|]. split.
    + intros i Hi. rewrite O, O1 by exact Hi. reflexivity.
    + intros op Hop. destruct (M1 op Hop) as [op1 Hop1]. eauto.
Qed.

Lemma module_search_matmul (op : QuantMatMul) (md' : Module) :
  tmp_input op = PyNone -> tmp_out op = PyNone ->
  module_search rand_like quantile_accepts dev extern_search
                (MatMulModule op) = Ok md' ->
  calibrated_matmul md'.
Proof.
  intros Hti Hto. cbn [module_search].
  destruct (cls op) eqn:Hc; try discriminate. intros H.
  apply bind_ok in H as ([op' calls] & Hs & H). injection H as <-.
  exists op'. split; [reflexivity|].
  destruct (hyperparameter_searching_latches _ _ _ _ _ _ Hs) as (Hcal & _ & Hcls).
  destruct (hyperparameter_searching_buffers _ _ _ _ _ _ Hs) as (Hi & Ho).
  apply hyperparameter_searching_inv in Hs as (? & ? & ? & m2 & _ & _ & E).
  subst op'. cbn [latch_and_release raw_input raw_out raw_grad] in *.
  repeat split; congruence.
Qed.

Lemma calibrate_module_at (loader : list T4) (idx : nat)
  (cur cur' : list Module) (log log' : list Event) :
  calibrate_module rand_like quantile_accepts dev run_model extern_search
                   extern_reparam loader idx (cur, log) = Ok (cur', log') ->
  length cur' = length cur /\
  (forall i, i <> idx -> nth_error cur' i = nth_error cur i) /\
  (forall md, nth_error cur idx = Some md ->
              exists md', nth_error cur' idx = Some md' /\ step_post md md').
Proof.
  unfold calibrate_module. cbn [fst]. intros H.
  destruct (nth_error cur idx) as [md|] eqn:Hn.
  2:{ injection H as <- <-. repeat split; auto. intros md Hmd.
      discriminate. }
  destruct (negb (module_has_metric md) || module_calibrated md) eqn:Hel.
  { injection H as <- <-. split; [reflexivity|]. split; [auto|].
    intros md0 Hmd0. injection Hmd0 as <-. exists md.
    split; [exact Hn|]. split; [auto|]. intros op _ He.
    unfold eligible in He.
    destruct (module_has_metric md), (module_calibrated md); discriminate. }
  apply bind_ok in H as ([model1 log1] & Hcap & H).
  apply bind_ok in H as (md1 & Hmd1 & H).
  apply bind_ok in H as (md2 & Hcol & H).
  apply bind_ok in H as (md3 & Hsearch & H).
  apply capture_passes_at in Hcap as (L1 & O1 & M1).
  destruct (nth_error model1 idx) as [md1'|] eqn:Hn1; [|discriminate].
  injection Hmd1 as ->.
  assert (HX : exists X, cur' = list_set idx X model1 /\
                         (forall op3, md3 = MatMulModule op3 -> X = md3)).
  { destruct md3 as [op3|e3].
    - injection H as <- <-. eauto.
    - destruct (e_has_prev_layer e3).
      + apply bind_ok in H as (e' & _ & H). injection H as <- <-.
        eexists. split; [reflexivity|]. intros op3 Hop3. discriminate.
      + injection H as <- <-. eauto. }
  destruct HX as (X & -> & HX).
  split; [rewrite length_list_set; exact L1|]. split.
  - intros i Hi. rewrite nth_error_list_set.
    destruct (Nat.eqb_spec idx i); [congruence|]. now apply O1.
  - intros md0 Hmd0. injection Hmd0 as <-. exists X.
    rewrite nth_error_list_set, Nat.eqb_refl, Hn1. split; [reflexivity|].
    split.
    + intros He. unfold eligible in He.
      destruct (module_has_metric md), (module_calibrated md); discriminate.
    + intros op -> _. destruct (M1 op Hn) as [op1 Hop1].
      injection Hop1 as ->.
      cbn [collect_captured] in Hcol.
      apply bind_ok in Hcol as (? & _ & Hcol).
      apply bind_ok in Hcol as (? & _ & Hcol).
      apply bind_ok in Hcol as ([? ?] & _ & Hcol).
      apply bind_ok in Hcol as (? & _ & Hcol).
      apply bind_ok in Hcol as (? & _ & Hcol).
      injection Hcol as <-.
      apply module_search_matmul in Hsearch; [|reflexivity|reflexivity].
      destruct Hsearch as (op3 & E3 & Hc). rewrite (HX op3 E3), E3.
      exists op3. split; [reflexivity|exact Hc].
Qed.

Lemma calibrate_loop_at (loader : list T4) (len k : nat)
  (cur cur' : list Module) (log log' : list Event) :
  foldM (calibrate_module rand_like quantile_accepts dev run_model
                          extern_search extern_reparam loader)
        (seq k len) (cur, log) = Ok (cur', log') ->
  length cur' = length cur /\
  forall i md, nth_error cur i = Some md ->
    exists md', nth_error cur' i = Some md' /\
                if ((k <=? i) && (i <? k + len))%nat
                then step_post md md' else md' = md.
Proof.
  revert k cur log. induction len as [|len IH]; intros k cur log H.
  - injection H as <- <-. split; [reflexivity|]. intros i md Hmd.
    exists md. split; [exact Hmd|].
    destruct (Nat.leb_spec k i), (Nat.ltb_spec i (k + 0)); cbn; try lia;
      reflexivity.
  - cbn [seq foldM] in H. apply bind_ok in H as ([cur1 log1] & H1 & H).
    apply calibrate_module_at in H1 as (L1 & O1 & P1).
    apply IH in H as (L & P). split; [congruence|].
    intros i md Hmd. destruct (Nat.eq_dec i k) as [->|Hik].
    + destruct (P1 md Hmd) as (md1 & Hmd1 & Hpost).
      destruct (P k md1 Hmd1) as (md' & Hmd' & Hsame).
      replace ((S k <=? k) && (k <? S k + len))%nat with false in Hsame
        by (symmetry; apply andb_false_iff; left; apply Nat.leb_gt; lia).
      subst md'. exists md1. split; [exact Hmd'|].
      replace ((k <=? k) && (k <? k + S len))%nat with true
        by (symmetry; apply andb_true_iff; split;
            [apply Nat.leb_le | apply Nat.ltb_lt]; lia).
      exact Hpost.
    + rewrite <- (O1 i Hik) in Hmd.
      destruct (P i md Hmd) as (md' & Hmd' & Hcase).
      exists md'. split; [exact Hmd'|].
      replace ((k <=? i) && (i <? k + S len))%nat
        with ((S k <=? i) && (i <? S k + len))%nat; [exact Hcase|].
      destruct (Nat.leb_spec (S k) i), (Nat.leb_spec k i),
               (Nat.ltb_spec i (S k + len)), (Nat.ltb_spec i (k + S len));
        cbn; try reflexivity; lia.
Qed.

Lemma flipped_calibrated_matmul (md : Module) :
  calibrated_matmul md ->
  calibrated_matmul (flipped md) /\
  module_mode (flipped md) = Val "quant_forward"%string.
Proof.
  intros (op & -> & H). cbn [flipped module_mode set_mode mode].
  split; [|reflexivity]. eexists. split; [reflexivity|]. exact H.
Qed.

(** X23: what a completed run of the orchestrator leaves.  The model keeps
    its modules; a module that was not eligible (no metric, or calibrated
    already) is returned as it was, up to its mode; and every eligible
    matmul module is returned calibrated, in mode "quant_forward", with its
    captured tensors deleted ([raw_input], [raw_out], [raw_grad]) and its
    hook buffers reset to [None]. *)
Theorem calibration_result (model model' : list Module) (loader : list T4)
  (log : list Event) :
  batching_quant_calib rand_like quantile_accepts dev run_model
                       extern_search extern_reparam model loader
    = Ok (model', log) ->
  length model' = length model /\
  forall i md, nth_error model i = Some md ->
    exists md',
      nth_error model' i = Some md' /\
      (eligible md = false -> md' = flipped md) /\
      (forall op, md = MatMulModule op -> eligible md = true ->
         calibrated_matmul md' /\
         module_mode md' = Val "quant_forward"%string).
Proof.
  unfold batching_quant_calib. intros H.
  apply bind_ok in H as (? & _ & H).
  apply bind_ok in H as (log0 & _ & H).
  apply bind_ok in H as ([cur log1] & Hloop & H).
  apply calibrate_loop_at in Hloop as (L & P).
  cbn [fst] in H.
  destruct (flip_all (length cur) 0 cur log1) as (Hnth & _ & Hlen).
  cbv zeta in Hnth, Hlen. injection H as H.
  rewrite H in Hnth, Hlen. cbn [fst] in Hnth, Hlen.
  split; [congruence|]. intros i md Hmd.
  destruct (P i md Hmd) as (md1 & Hmd1 & Hcase).
  assert (Hi : (i < length model)%nat)
    by (apply nth_error_Some; rewrite Hmd; discriminate).
  replace ((0 <=? i) && (i <? 0 + length model))%nat with true in Hcase
    by (symmetry; apply andb_true_iff; split;
        [apply Nat.leb_le | apply Nat.ltb_lt]; lia).
  exists (flipped md1). split.
  - rewrite Hnth, Hmd1.
    replace ((0 <=? i) && (i <? 0 + length cur))%nat with true
      by (symmetry; apply andb_true_iff; split;
          [apply Nat.leb_le | apply Nat.ltb_lt]; lia).
    reflexivity.
  - destruct Hcase as [Hin Hel]. split.
    + intros He. now rewrite (Hin He).
    + intros op Hop He. apply flipped_calibrated_matmul. now apply (Hel op).
Qed.

End Runs.

(** A network without calibration-eligible module: a plain matmul, and a
    module of another class that owns parameters. *)
Lemma calibration_without_eligible_modules_witness :
  let model :=
    [MatMulModule (MinMaxQuantMatMul_init 8 8 "raw");
     ExternModule (mkExtern OtherModule false false Deleted
                            PyNone PyNone PyNone PyNone false true)] in
  batching_quant_calib no_rand always_accepts example_dev
                       (fun _ _ => Ok [None; None])
                       (fun e => Ok e) (fun e => Ok e) model example_loader
  = Ok (map flipped model,
        map (fun _ => EvForward None (map module_mode model)) example_loader
        ++ map EvSetMode (filter (mode_at model) (seq 0 (length model)))) /\
  batching_quant_calib no_rand always_accepts example_dev
                       (fun _ _ => Ok [None])
                       (fun e => Ok e) (fun e => Ok e)
                       [MatMulModule (MinMaxQuantMatMul_init 8 8 "raw")]
                       example_loader
  = Raise StopIteration.
Proof.
  cbv zeta. split.
  - apply (calibration_without_eligible_modules no_rand always_accepts
             example_dev (fun _ _ => Ok [None; None]) (fun e => Ok e)
             (fun e => Ok e)
             [MatMulModule (MinMaxQuantMatMul_init 8 8 "raw");
              ExternModule (mkExtern OtherModule false false Deleted
                                     PyNone PyNone PyNone PyNone false true)]
             example_loader).
    + reflexivity.
    + repeat constructor.
    + intros inp _. eexists. reflexivity.
  - apply (calibration_without_eligible_modules no_rand always_accepts
             example_dev (fun _ _ => Ok [None]) (fun e => Ok e)
             (fun e => Ok e)
             [MatMulModule (MinMaxQuantMatMul_init 8 8 "raw")]
             example_loader).
    reflexivity.
Defined.

Lemma calibration_with_empty_loader_witness :
  batching_quant_calib no_rand always_accepts example_dev example_run_model
                       (fun e => Ok e) (fun e => Ok e) example_model []
  = Raise TypeError.
Proof.
  apply (calibration_with_empty_loader no_rand always_accepts example_dev
           example_run_model (fun e => Ok e) (fun e => Ok e) example_model).
  - exists (MatMulModule example_fresh). split; [|reflexivity].
    right. left. reflexivity.
  - intros md [<-|[<-|[<-|[]]]] _; reflexivity.
Defined.

Lemma calibration_result_witness :
  exists model' log md',
    batching_quant_calib no_rand always_accepts example_dev example_run_model
                         (fun e => Ok e) (fun e => Ok e)
                         example_model example_loader = Ok (model', log) /\
    length model' = length example_model /\
    nth_error model' 1 = Some md' /\
    calibrated_matmul md' /\
    module_mode md' = Val "quant_forward"%string.
Proof.
  destruct example_calibration_returns as (m' & calls & _ & H).
  destruct (calibration_result no_rand always_accepts example_dev
              example_run_model (fun e => Ok e) (fun e => Ok e)
              example_model _ example_loader _ H) as [L P].
  destruct (P 1%nat (MatMulModule example_fresh) eq_refl)
    as (md' & Hmd' & _ & Hc).
  eexists _, _, md'. split; [exact H|]. split; [exact L|].
  split; [exact Hmd'|]. apply (Hc example_fresh eq_refl eq_refl).
Defined.

(** ** The hooks and the collection of what they capture *)




(** ** The memory budget: what it writes *)

(** X25: the memory budget writes the number of captured samples as
    [calib_size] and a parallelism between 1 and [eq_n], and nothing else,
    when [eq_n >= 1]; for [eq_n = 0] it never returns (the balancing divides
    by [ceil(0 / p) = 0]). *)
Theorem initialize_calib_parameters_result (dev : Device)
  (m : QuantMatMul) :
  (forall m', (1 <= eq_n m)%Z ->
     _initialize_calib_parameters dev m = Ok m' ->
     exists rA rB pe,
       raw_input m = Val (rA, rB) /\
       (1 <= pe <= eq_n m)%Z /\
       m' = set_calib_parameters (Z.of_nat (length rA)) pe m) /\
  (eq_n m = 0%Z ->
   forall m', _initialize_calib_parameters dev m <> Ok m').
Proof.
  split.
  - intros m' Hn H.
    destruct (initialize_calib_parameters_parallel _ _ _ H)
      as (rA & rB & p & pe & Hraw & Hp & Hpe & ->).
    exists rA, rB, pe. split; [exact Hraw|]. split; [|reflexivity].
    unfold balanced_parallel in Hpe.
    destruct (ceil_div_pos (eq_n m) p ltac:(lia)) as (g & Hg & Hgb).
    rewrite Hg in Hpe. cbn [bind] in Hpe.
    assert (Hg1 : (1 <= g)%Z) by nia.
    destruct (ceil_div_pos (eq_n m) g ltac:(lia)) as (pe' & Hpe' & Hb).
    rewrite Hpe in Hpe'. injection Hpe' as <-. nia.
  - intros Hn m' H.
    destruct (initialize_calib_parameters_parallel _ _ _ H)
      as (rA & rB & p & pe & _ & Hp & Hpe & _).
    rewrite Hn in Hpe. unfold balanced_parallel, ceil_div in Hpe.
    destruct (Z.eqb_spec p 0); [lia|]. cbn [bind] in Hpe.
    replace (- (- 0 / p))%Z with 0%Z in Hpe
      by reflexivity.
    cbn in Hpe. discriminate.
Qed.

Lemma initialize_calib_parameters_result_witness :
  exists m' rA rB pe,
    _initialize_calib_parameters example_dev example_op = Ok m' /\
    raw_input example_op = Val (rA, rB) /\
    (1 <= pe <= eq_n example_op)%Z /\
    m' = set_calib_parameters (Z.of_nat (length rA)) pe example_op.
Proof.
  destruct (calibratable_inv always_accepts example_dev example_op eq_refl)
    as (m1 & ? & ? & ? & ? & ? & ? & ? & ? & H & _).
  destruct (initialize_calib_parameters_result example_dev example_op)
    as [Hr _].
  destruct (Hr m1 ltac:(cbn; lia) H) as (rA & rB & pe & Hres).
  exists m1, rA, rB, pe. split; [exact H | exact Hres].
Defined.

(** ** The cost of a run *)

Lemma forward_passes_app (l l' : list Event) :
  forward_passes (l ++ l') = (forward_passes l + forward_passes l')%nat.
Proof. unfold forward_passes. now rewrite filter_app, length_app. Qed.

Lemma forward_passes_set_mode (idxs : list nat) :
  forward_passes (map EvSetMode idxs) = 0%nat.
Proof. induction idxs as [|i idxs IH]; [reflexivity|exact IH]. Qed.

Lemma skipn_nth_error {A : Type} (k : nat) (l : list A) :
  skipn k l = match nth_error l k with
              | Some a => a :: skipn (S k) l
              | None => []
              end.
Proof.
  revert l. induction k as [|k IH]; intros [|x l]; try reflexivity.
  cbn [skipn nth_error]. rewrite IH. now destruct (nth_error l k).
Qed.

Lemma skipn_agree {A : Type} (k : nat) (l l' : list A) :
  (forall i, (k <= i)%nat -> nth_error l' i = nth_error l i) ->
  skipn k l' = skipn k l.
Proof.
  intros H. apply nth_error_ext. intros i. rewrite !nth_error_skipn.
  apply H. lia.
Qed.

Section Cost.

Variable rand_like : T4 -> T4.
Variable quantile_accepts : list (list (list R)) -> bool.
Variable dev : Device.
Variable run_model : list Module -> T4 -> result (list (option Capture)).
Variable extern_search : Extern -> result Extern.
Variable extern_reparam : Extern -> result Extern.

Lemma warm_passes_count (model : list Module) (loader : list T4)
  (log log' : list Event) :
  foldM (warm_pass run_model model) loader log = Ok log' ->
  forward_passes log' = (forward_passes log + length loader)%nat.
Proof.
  revert log. induction loader as [|inp loader IH]; intros log H.
  - injection H as <-. cbn. lia.
  - cbn [foldM] in H. apply bind_ok in H as (log1 & H1 & H).
    unfold warm_pass in H1. apply bind_ok in H1 as (? & _ & H1).
    injection H1 as <-. apply IH in H. rewrite H, forward_passes_app.
    cbn. lia.
Qed.

Lemma capture_passes_count (idx : nat) (loader : list T4)
  (cur cur' : list Module) (log log' : list Event) :
  foldM (capture_pass run_model idx) loader (cur, log) = Ok (cur', log') ->
  forward_passes log' = (forward_passes log + length loader)%nat.
Proof.
  revert cur log. induction loader as [|inp loader IH]; intros cur log H.
  - injection H as <- <-. cbn. lia.
  - cbn [foldM] in H. apply bind_ok in H as ([cur1 log1] & H1 & H).
    apply IH in H. rewrite H. cbn [length].
    assert (E : log1 = log ++ [EvForward (Some idx) (map module_mode cur)]).
    { unfold capture_pass in H1. apply bind_ok in H1 as (caps & _ & H1).
      destruct (nth_error cur idx) as [md|];
        [|now injection H1 as <- <-].
      destruct (nth idx caps None) as [c|]; [|now injection H1 as <- <-].
      apply bind_ok in H1 as (md' & _ & H1). now injection H1 as <- <-. }
    rewrite E, forward_passes_app. cbn. lia.
Qed.

Lemma calibrate_module_count (loader : list T4) (idx : nat)
  (cur cur' : list Module) (log log' : list Event) :
  calibrate_module rand_like quantile_accepts dev run_model extern_search
                   extern_reparam loader idx (cur, log) = Ok (cur', log') ->
  forward_passes log'
  = (forward_passes log
     + length loader
       * count_eligible (match nth_error cur idx with
                         | Some md => [md]
                         | None => []
                         end))%nat.
Proof.
  unfold calibrate_module. cbn [fst]. intros H.
  destruct (nth_error cur idx) as [md|] eqn:Hn.
  2:{ injection H as <- <-. cbn. lia. }
  unfold count_eligible. cbn [filter]. unfold eligible at 1.
  destruct (module_has_metric md), (module_calibrated md);
    cbn [negb orb andb length] in *;
    try (injection H as <- <-; lia).
  apply bind_ok in H as ([model1 log1] & Hcap & H).
  apply bind_ok in H as (md1 & _ & H).
  apply bind_ok in H as (md2 & _ & H).
  apply bind_ok in H as (md3 & _ & H).
  apply capture_passes_count in Hcap.
  assert (E : forward_passes log' = forward_passes log1).
  { destruct md3 as [op3|e3].
    - injection H as _ <-. rewrite forward_passes_app. cbn. lia.
    - destruct (e_has_prev_layer e3).
      + apply bind_ok in H as (e' & _ & H). injection H as _ <-.
        rewrite !forward_passes_app. cbn. lia.
      + injection H as _ <-. rewrite forward_passes_app. cbn. lia. }
  lia.
Qed.

Lemma calibrate_loop_count (loader : list T4) (len k : nat)
  (cur cur' : list Module) (log log' : list Event) :
  foldM (calibrate_module rand_like quantile_accepts dev run_model
                          extern_search extern_reparam loader)
        (seq k len) (cur, log) = Ok (cur', log') ->
  forward_passes log'
  = (forward_passes log
     + length loader * count_eligible (firstn len (skipn k cur)))%nat.
Proof.
  revert k cur log. induction len as [|len IH]; intros k cur log H.
  - injection H as <- <-. cbn. lia.
  - cbn [seq foldM] in H. apply bind_ok in H as ([cur1 log1] & H1 & H).
    pose proof (calibrate_module_count _ _ _ _ _ _ H1) as C1.
    apply calibrate_module_at in H1 as (L1 & O1 & _).
    apply IH in H. rewrite H, C1.
    rewrite (skipn_agree (S k) cur cur1)
      by (intros i Hi; apply O1; lia).
    rewrite (skipn_nth_error k cur).
    destruct (nth_error cur k) as [md|] eqn:Hn.
    + cbn [firstn]. unfold count_eligible. cbn [filter].
      destruct (eligible md); cbn [length]; lia.
    + assert (skipn (S k) cur = []) as ->.
      { apply skipn_all2. apply nth_error_None in Hn. lia. }
      rewrite firstn_nil. cbn. lia.
Qed.

(** X27: the cost of a calibration in forward passes of the network.  A
    completed run has passed the whole calibration loader through the
    network once to warm up and once more for every calibration-eligible
    module: [len(loader) * (1 + number of eligible modules)] passes. *)
Theorem calibration_forward_passes (model model' : list Module)
  (loader : list T4) (log : list Event) :
  batching_quant_calib rand_like quantile_accepts dev run_model
                       extern_search extern_reparam model loader
    = Ok (model', log) ->
  forward_passes log = (length loader * (1 + count_eligible model))%nat.
Proof.
  unfold batching_quant_calib. intros H.
  apply bind_ok in H as (? & _ & H).
  apply bind_ok in H as (log0 & Hwarm & H).
  apply bind_ok in H as ([cur log1] & Hloop & H).
  apply warm_passes_count in Hwarm. apply calibrate_loop_count in Hloop.
  cbn [fst] in H.
  destruct (flip_all (length cur) 0 cur log1) as (_ & Hlog & _).
  cbv zeta in Hlog. injection H as H. rewrite H in Hlog. cbn [snd] in Hlog.
  rewrite Hlog, forward_passes_app, forward_passes_set_mode, Hloop, Hwarm.
  cbn [skipn]. rewrite firstn_all. cbn. lia.
Qed.

End Cost.

Lemma calibration_forward_passes_witness :
  exists model' log,
    batching_quant_calib no_rand always_accepts example_dev example_run_model
                         (fun e => Ok e) (fun e => Ok e)
                         example_model example_loader = Ok (model', log) /\
    forward_passes log
    = (length example_loader * (1 + count_eligible example_model))%nat.
Proof.
  destruct example_calibration_returns as (m' & calls & _ & H).
  eexists _, _. split; [exact H|].
  apply (calibration_forward_passes no_rand always_accepts example_dev
           example_run_model (fun e => Ok e) (fun e => Ok e)
           example_model _ example_loader _ H).
Defined.

Lemma In_firstn_In {A : Type} (n : nat) (l : list A) (a : A) :
  In a (firstn n l) -> In a l.
Proof.
  revert l. induction n as [|n IH]; intros [|x l]; cbn; try contradiction.
  intros [->|H]; [now left|right; now apply IH].
Qed.

(** ** Shapes *)

Lemma shaped_same_shape (b h r c : nat) (x y : T4) :
  shaped b h r c x -> same_shape x y -> shaped b h r c y.
Proof.
  unfold shaped, same_shape. intros [Hb Hx] Hxy.
  split; [rewrite <- Hb; symmetry; eapply Forall2_length; exact Hxy|].
  clear Hb. induction Hxy as [|sx sy x y Hs _ IH]; [constructor|].
  apply Forall_cons_iff in Hx as [[Hh Hsx] Hx'].
  constructor; [|now apply IH].
  split; [etransitivity; [symmetry; exact (Forall2_length Hs)|exact Hh]|].
  clear IH Hx' Hh. induction Hs as [|mx my sx sy Hm _ IH]; [constructor|].
  apply Forall_cons_iff in Hsx as [[Hr Hmx] Hsx'].
  constructor; [|now apply IH].
  split; [etransitivity; [symmetry; exact (Forall2_length Hm)|exact Hr]|].
  clear IH Hsx' Hr. induction Hm as [|rx ry mx my Hrow _ IH]; [constructor|].
  apply Forall_cons_iff in Hmx as [Hc Hmx'].
  constructor; [congruence|]. now apply IH.
Qed.

Lemma shaped_heads_fit {A : Type} (p : list A) (b h r c : nat) (x : T4) :
  shaped b h r c x -> length p = 1%nat \/ length p = h -> heads_fit p x.
Proof.
  intros [_ Hx] [Hp|Hp]; [now left|right].
  eapply Forall_impl; [|exact Hx]. cbn beta. intros sx [Hh _]. congruence.
Qed.

Lemma Forall_firstn {A : Type} (P : A -> Prop) (n : nat) (l : list A) :
  Forall P l -> Forall P (firstn n l).
Proof.
  intros H. revert n. induction H as [|a l Ha _ IH]; intros [|n]; cbn;
    constructor; auto.
Qed.

Lemma Forall_skipn {A : Type} (P : A -> Prop) (n : nat) (l : list A) :
  Forall P l -> Forall P (skipn n l).
Proof.
  intros H. revert n. induction H as [|a l Ha Hl IH]; intros [|n]; cbn;
    auto.
Qed.

Lemma Forall_py_slice {A : Type} (P : A -> Prop) (a b : Z) (l : list A) :
  Forall P l -> Forall P (py_slice a b l).
Proof.
  intros H. unfold py_slice. now apply Forall_firstn, Forall_skipn.
Qed.

Lemma shaped_py_slice (b h r c : nat) (st ed : Z) (x : T4) :
  shaped b h r c x ->
  shaped (length (py_slice st ed x)) h r c (py_slice st ed x).
Proof.
  intros [_ Hx]. split; [reflexivity|]. now apply Forall_py_slice.
Qed.

Lemma length_py_slice {A : Type} (st ed : Z) (l : list A) :
  (0 <= st <= ed)%Z ->
  length (py_slice st ed l)
  = (Nat.min (Z.to_nat ed) (length l) - Z.to_nat st)%nat.
Proof.
  intros H. rewrite py_slice_nonneg by exact H.
  rewrite length_firstn, length_skipn. lia.
Qed.

Lemma t4_map_same_shape (f : R -> R) (x : T4) : same_shape x (t4_map f x).
Proof.
  unfold same_shape, t4_map.
  induction x as [|sx x IH]; cbn; constructor; [|exact IH].
  clear IH. induction sx as [|m sx IH]; cbn; constructor; [|exact IH].
  apply mat_map_same_shape.
Qed.

Lemma zip_with_Forall2_l {A B C : Type} (P : A -> C -> Prop)
  (f : A -> B -> C) (l : list A) (l' : list B) :
  length l = length l' ->
  (forall a b, In a l -> In b l' -> P a (f a b)) ->
  Forall2 P l (zip_with f l l').
Proof.
  revert l'. induction l as [|a l IH]; intros [|b l'] Hlen H; cbn in *;
    try discriminate; constructor.
  - apply H; now left.
  - apply IH; [lia|]. intros a' b' Ha Hb. apply H; now right.
Qed.

Lemma shaped_In (b h r c : nat) (x : T4) (sx : T3) (m : Mat) (row : list R) :
  shaped b h r c x -> In sx x -> In m sx -> In row m ->
  length sx = h /\ length m = r /\ length row = c.
Proof.
  intros [_ Hx] Hsx Hm Hrow. rewrite Forall_forall in Hx.
  destruct (Hx sx Hsx) as [Hh Hms]. rewrite Forall_forall in Hms.
  destruct (Hms m Hm) as [Hr Hrows]. rewrite Forall_forall in Hrows.
  auto.
Qed.

Lemma shaped_heads (b h r c : nat) (x : T4) (sx : T3) :
  shaped b h r c x -> In sx x -> length sx = h.
Proof.
  intros [_ Hx] Hsx. rewrite Forall_forall in Hx. now destruct (Hx sx Hsx).
Qed.

Lemma shaped_rows (b h r c : nat) (x : T4) (sx : T3) (m : Mat) :
  shaped b h r c x -> In sx x -> In m sx -> length m = r.
Proof.
  intros [_ Hx] Hsx Hm. rewrite Forall_forall in Hx.
  destruct (Hx sx Hsx) as [_ Hms]. rewrite Forall_forall in Hms.
  now destruct (Hms m Hm).
Qed.

(** Two lists of one length. *)
Ltac both_length H1 H2 := etransitivity; [exact H1 | symmetry; exact H2].

(** Entry-wise combination of two tensors of one shape. *)
Lemma t4_zip_same_shape (f : R -> R -> R) (b h r c : nat) (x y : T4) :
  shaped b h r c x -> shaped b h r c y -> same_shape x (t4_zip f x y).
Proof.
  intros Hx Hy. unfold same_shape, t4_zip.
  apply zip_with_Forall2_l; [both_length (proj1 Hx) (proj1 Hy)|].
  intros sx sy Hsx Hsy.
  apply zip_with_Forall2_l;
    [both_length (shaped_heads _ _ _ _ _ _ Hx Hsx)
                 (shaped_heads _ _ _ _ _ _ Hy Hsy)|].
  intros mx my Hmx Hmy. unfold mat_zip.
  apply zip_with_Forall2_l;
    [both_length (shaped_rows _ _ _ _ _ _ _ Hx Hsx Hmx)
                 (shaped_rows _ _ _ _ _ _ _ Hy Hsy Hmy)|].
  intros rx ry Hrx Hry. rewrite length_zip_with.
  destruct (shaped_In _ _ _ _ _ _ _ _ Hx Hsx Hmx Hrx) as (_ & _ & Lx).
  destruct (shaped_In _ _ _ _ _ _ _ _ Hy Hsy Hmy Hry) as (_ & _ & Ly).
  lia.
Qed.

Lemma zip_with3_Forall2_r {A B C D : Type} (P : C -> D -> Prop)
  (f : A -> B -> C -> D) (l : list A) (l' : list B) (l'' : list C) :
  length l = length l'' -> length l' = length l'' ->
  (forall a b c, In a l -> In b l' -> In c l'' -> P c (f a b c)) ->
  Forall2 P l'' (zip_with3 f l l' l'').
Proof.
  revert l l'. induction l'' as [|c l'' IH]; intros [|a l] [|b l'] H1 H2 H;
    cbn in *; try discriminate; constructor.
  - apply H; now left.
  - apply IH; [lia|lia|]. intros a' b' c' Ha Hb Hc. apply H; now right.
Qed.

Lemma length_zip_with3 {A B C D : Type} (f : A -> B -> C -> D)
  (l : list A) (l' : list B) (l'' : list C) :
  length l = length l'' -> length l' = length l'' ->
  length (zip_with3 f l l' l'') = length l''.
Proof.
  revert l l'. induction l'' as [|c l'' IH]; intros [|a l] [|b l'] H1 H2;
    cbn in *; try discriminate; try reflexivity.
  f_equal. apply IH; lia.
Qed.

Lemma t4_zip3_same_shape (f : R -> R -> R -> R) (b h r c : nat)
  (x y z : T4) :
  shaped b h r c x -> shaped b h r c y -> shaped b h r c z ->
  same_shape z (t4_zip3 f x y z).
Proof.
  intros Hx Hy Hz. unfold same_shape, t4_zip3.
  apply zip_with3_Forall2_r;
    [both_length (proj1 Hx) (proj1 Hz)|both_length (proj1 Hy) (proj1 Hz)|].
  intros sx sy sz Hsx Hsy Hsz.
  apply zip_with3_Forall2_r;
    [both_length (shaped_heads _ _ _ _ _ _ Hx Hsx)
                 (shaped_heads _ _ _ _ _ _ Hz Hsz)
    |both_length (shaped_heads _ _ _ _ _ _ Hy Hsy)
                 (shaped_heads _ _ _ _ _ _ Hz Hsz)|].
  intros mx my mz Hmx Hmy Hmz.
  apply zip_with3_Forall2_r;
    [both_length (shaped_rows _ _ _ _ _ _ _ Hx Hsx Hmx)
                 (shaped_rows _ _ _ _ _ _ _ Hz Hsz Hmz)
    |both_length (shaped_rows _ _ _ _ _ _ _ Hy Hsy Hmy)
                 (shaped_rows _ _ _ _ _ _ _ Hz Hsz Hmz)|].
  intros rx ry rz Hrx Hry Hrz.
  destruct (shaped_In _ _ _ _ _ _ _ _ Hx Hsx Hmx Hrx) as (_ & _ & Lx).
  destruct (shaped_In _ _ _ _ _ _ _ _ Hy Hsy Hmy Hry) as (_ & _ & Ly).
  destruct (shaped_In _ _ _ _ _ _ _ _ Hz Hsz Hmz Hrz) as (_ & _ & Lz).
  symmetry. apply length_zip_with3; [both_length Lx Lz|both_length Ly Lz].
Qed.

Lemma length_transpose (b : Mat) (k p : nat) :
  (1 <= k)%nat -> length b = k -> Forall (fun row => length row = p) b ->
  length (transpose b) = p.
Proof.
  revert k. induction b as [|row b IH]; intros k Hk Hb Hrows;
    [cbn in Hb; lia|].
  apply Forall_cons_iff in Hrows as [Hrow Hrows].
  destruct b as [|row' b]; [cbn; now rewrite length_map|].
  change (transpose (row :: row' :: b))
    with (zip_with cons row (transpose (row' :: b))).
  rewrite length_zip_with, (IH (length (row' :: b))); cbn; try lia.
  exact Hrows.
Qed.

Lemma length_zip_with_both {A B C : Type} (f : A -> B -> C) (l : list A)
  (l' : list B) (n : nat) :
  length l = n -> length l' = n -> length (zip_with f l l') = n.
Proof. intros H1 H2. rewrite length_zip_with, H1, H2. lia. Qed.

(** [A @ B] on operands of shapes [b, h, n, k] and [b, h, k, p], with
    [k >= 1], has the shape [b, h, n, p]. *)
Lemma matmul_shaped (b h n k p : nat) (A B : T4) :
  (1 <= k)%nat -> shaped b h n k A -> shaped b h k p B ->
  shaped b h n p (matmul A B).
Proof.
  intros Hk HA HB. unfold matmul. split.
  - apply length_zip_with_both; [exact (proj1 HA)|exact (proj1 HB)].
  - apply Forall_forall. intros s Hs.
    assert (exists sa sb, In sa A /\ In sb B /\ s = zip_with mat_mul sa sb)
      as (sa & sb & Hsa & Hsb & ->).
    { clear - Hs. revert B Hs. induction A as [|a A IH]; intros [|b0 B] Hs;
        cbn in Hs; try contradiction.
      destruct Hs as [<-|Hs].
      - exists a, b0. cbn. auto.
      - destruct (IH B Hs) as (sa & sb & ? & ? & ?). exists sa, sb. cbn. auto. }
    split.
    + apply length_zip_with_both;
        [exact (shaped_heads _ _ _ _ _ _ HA Hsa)
        |exact (shaped_heads _ _ _ _ _ _ HB Hsb)].
    + apply Forall_forall. intros m Hm.
      assert (exists ma mb, In ma sa /\ In mb sb /\ m = mat_mul ma mb)
        as (ma & mb & Hma & Hmb & ->).
      { clear - Hm. revert sb Hm. induction sa as [|a sa IH];
          intros [|b0 sb] Hm; cbn in Hm; try contradiction.
        destruct Hm as [<-|Hm].
        - exists a, b0. cbn. auto.
        - destruct (IH sb Hm) as (ma & mb & ? & ? & ?).
          exists ma, mb. cbn. auto. }
      unfold mat_mul. split.
      * etransitivity; [apply length_map|].
        exact (shaped_rows _ _ _ _ _ _ _ HA Hsa Hma).
      * apply Forall_map, Forall_forall. intros row _.
        etransitivity; [apply length_map|].
        apply (length_transpose mb k); [exact Hk| |].
        -- exact (shaped_rows _ _ _ _ _ _ _ HB Hsb Hmb).
        -- apply Forall_forall. intros r Hr.
           now destruct (shaped_In _ _ _ _ _ _ _ _ HB Hsb Hmb Hr) as (_&_&?).
Qed.

(** A refill has the shape of its skeleton. *)
Lemma refill_list_shape {A : Type} (flat : A -> list R)
  (f : A -> list R -> A * list R) (P : A -> A -> Prop) :
  refills flat f ->
  (forall a d, (length (flat a) <= length d)%nat -> P a (fst (f a d))) ->
  forall l d, (length (concat (map flat l)) <= length d)%nat ->
              Forall2 P l (fst (refill_list f l d)).
Proof.
  intros Hf HP l. induction l as [|a l IH]; intros d Hd; [constructor|].
  cbn [refill_list]. cbn [map concat] in Hd. rewrite length_app in Hd.
  destruct (Hf a d ltac:(lia)) as [E1 L1].
  pose proof (HP a d ltac:(lia)) as Ha.
  destruct (f a d) as [a' d'] eqn:Ef. cbn [fst snd] in E1, L1, Ha.
  assert (Hd' : (length (concat (map flat l)) <= length d')%nat).
  { rewrite <- E1, length_app in Hd. lia. }
  specialize (IH d' Hd').
  destruct (refill_list f l d') as [t' d'']. cbn [fst] in *.
  constructor; assumption.
Qed.

Lemma reshape_as_same_shape (g t G : T4) :
  reshape_as g t = Ok G -> same_shape t G.
Proof.
  unfold reshape_as.
  destruct (Nat.eqb_spec (length (flatten_t4 g)) (length (flatten_t4 t)))
    as [E|]; [|discriminate].
  intros [= <-]. unfold same_shape.
  apply (refill_list_shape flatten_t3);
    [apply refills_list, refills_mat| |
     change (length (flatten_t4 t) <= length (flatten_t4 g))%nat;
     rewrite E; apply Nat.le_refl].
  intros s d Hd. apply (refill_list_shape flatten_mat);
    [apply refills_mat| |exact Hd].
  intros m d' Hd'.
  apply (refill_list_shape (fun row => row)); [apply refills_row| | ].
  - intros row d'' Hd''. unfold refill_row. cbn [fst].
    rewrite length_firstn. lia.
  - unfold flatten_mat in Hd'. now rewrite map_id.
Qed.

(** A quantizer whose parameters fit tensors of [h] heads. *)
Lemma forward_shaped rand_like (q : UniformQuantizer) (b h r c : nat)
  (x y : T4) :
  (forall t, same_shape t (rand_like t)) ->
  quantizer_fits q h ->
  shaped b h r c x ->
  UniformQuantizer_forward rand_like q x = Ok y ->
  shaped b h r c y.
Proof.
  intros Hrand [Hfs Hfz] Hx. unfold UniformQuantizer_forward.
  destruct (n_bits q =? 32)%Z; [now intros [= <-]|].
  destruct (inited q); cbn [assert bind]; [|discriminate].
  destruct (scale q) as [| |s]; cbn [get_attr bind]; try discriminate.
  specialize (Hfs s eq_refl).
  assert (Hd : forall d, shaped b h r c d ->
            (if training_mode q && Rltb (drop_prob q) 1
             then Ok (t4_zip3 (fun u d0 o => if Rltb u (drop_prob q)
                                             then d0 else o)
                              (rand_like x) d x)
             else Ok d) = Ok y -> shaped b h r c y).
  { intros d Hdq. destruct (training_mode q && Rltb (drop_prob q) 1);
      intros [= <-]; [|exact Hdq].
    eapply shaped_same_shape; [exact Hx|].
    apply (t4_zip3_same_shape _ b h r c); [|exact Hdq|exact Hx].
    eapply shaped_same_shape; [exact Hx|apply Hrand]. }
  destruct (sym q); cbn [bind].
  - apply Hd. eapply shaped_same_shape; [exact Hx|].
    apply per_head_same_shape. eapply shaped_heads_fit; eassumption.
  - destruct (zero_point q) as [| |z]; cbn [get_attr bind]; try discriminate.
    specialize (Hfz z eq_refl).
    apply Hd. eapply shaped_same_shape; [exact Hx|].
    apply per_head2_same_shape; eapply shaped_heads_fit; eassumption.
Qed.

Lemma get_similarity_shaped (b h r c : nat) (tensor_raw tensor_sim s : T4)
  (metric : string) (raw_grad : option T4) :
  shaped b h r c tensor_raw -> shaped b h r c tensor_sim ->
  _get_similarity tensor_raw tensor_sim metric raw_grad = Ok s ->
  shaped b h r c s.
Proof.
  intros Hr Hs. unfold _get_similarity.
  destruct (String.eqb metric "mae").
  { intros [= <-]. eapply shaped_same_shape; [exact Hr|].
    now apply (t4_zip_same_shape _ b h r c). }
  destruct (String.eqb metric "mse").
  { intros [= <-]. eapply shaped_same_shape; [exact Hr|].
    now apply (t4_zip_same_shape _ b h r c). }
  destruct (metric_in metric _); [|discriminate].
  destruct raw_grad as [g|]; [|discriminate].
  destruct (reshape_as g tensor_raw) as [G|] eqn:HG; cbn [bind];
    [|discriminate].
  assert (HGn : shaped b h r c (normalize_grad G)).
  { eapply shaped_same_shape; [|apply t4_map_same_shape].
    eapply shaped_same_shape; [exact Hr|].
    eapply reshape_as_same_shape; exact HG. }
  destruct (String.eqb metric "hessian");
    [|destruct (String.eqb metric "jacobian")];
    intros [= <-]; (eapply shaped_same_shape; [exact Hs|]);
    now apply (t4_zip3_same_shape _ b h r c).
Qed.

Lemma length_fold_zip_eq {A : Type} (f : A -> A -> A) (ts : list (list A))
  (t : list A) (n : nat) :
  length t = n -> Forall (fun t' => length t' = n) ts ->
  length (fold_left (zip_with f) ts t) = n.
Proof.
  revert t. induction ts as [|t' ts IH]; intros t Ht Hts; [exact Ht|].
  apply Forall_cons_iff in Hts as [Ht' Hts]. cbn [fold_left].
  apply IH; [|exact Hts]. now apply length_zip_with_both.
Qed.

(** One score per head. *)
Lemma head_scores_length (b h r c : nat) (s : T4) :
  (1 <= b)%nat -> shaped b h r c s -> length (head_scores s) = h.
Proof.
  intros Hb [Hlen Hs]. unfold head_scores, sum_rows.
  destruct s as [|s0 s]; [cbn in Hlen; lia|].
  apply Forall_cons_iff in Hs as [[Hh _] Hs]. cbn [map].
  apply length_fold_zip_eq.
  - etransitivity; [apply length_map|exact Hh].
  - apply Forall_map. eapply Forall_impl; [|exact Hs]. cbn beta.
    intros sx [Hsx _]. etransitivity; [apply length_map|exact Hsx].
Qed.

(** The sum of tables of one size. *)
Lemma sum_tables_shaped (tables : list Grid) (table : Grid) (q h : nat) :
  sum_tables tables = Ok table ->
  Forall (fun t : Grid =>
            length t = q /\ Forall (fun row => length row = h) t) tables ->
  length table = q /\ Forall (fun row => length row = h) table.
Proof.
  destruct tables as [|t ts]; [discriminate|]. cbn [sum_tables].
  intros [= <-] Hall. apply Forall_cons_iff in Hall as [Ht Hts].
  revert t Ht. induction ts as [|t' ts IH]; intros t Ht; [exact Ht|].
  apply Forall_cons_iff in Hts as [Ht' Hts]. cbn [fold_left].
  apply IH; [exact Hts|]. split.
  - apply length_zip_with_both; [exact (proj1 Ht)|exact (proj1 Ht')].
  - destruct Ht as [_ Hr], Ht' as [_ Hr']. clear - Hr Hr'.
    revert t' Hr'. induction Hr as [|row t Hrow _ IH]; intros [|row' t'] Hr';
      cbn; constructor.
    + apply Forall_cons_iff in Hr' as [Hrow' _].
      now apply length_zip_with_both.
    + apply Forall_cons_iff in Hr' as [_ Hr']. now apply IH.
Qed.

Lemma py_range_step_In (n step b_st : Z) (starts : list Z) :
  (1 <= step)%Z -> py_range_step n step = Ok starts -> In b_st starts ->
  (0 <= b_st < n)%Z.
Proof.
  intros Hs H Hin. unfold py_range_step, ceil_div in H.
  destruct (Z.eqb_spec step 0); [lia|]. cbn [bind] in H. injection H as <-.
  apply in_map_iff in Hin as (i & <- & Hi). apply in_py_range in Hi.
  pose proof (Z.div_mod (- n) step ltac:(lia)).
  pose proof (Z.mod_pos_bound (- n) step ltac:(lia)). nia.
Qed.

Lemma candidate_sim_shaped (L : R) (s z : list R) (b h r c : nat) (x : T4) :
  shaped b h r c x ->
  length s = 1%nat \/ length s = h -> length z = 1%nat \/ length z = h ->
  shaped b h r c (candidate_sim L s z x).
Proof.
  intros Hx Hs Hz. eapply shaped_same_shape; [exact Hx|].
  apply per_head2_same_shape; eapply shaped_heads_fit; eassumption.
Qed.

(** The score row of a candidate has one entry per head. *)
Lemma candidate_score_length (side : Side) (m : QuantMatMul)
  (A B other raw_out : T4) (raw_grad : option T4) (sz : list R * list R)
  (row : list R) (b h n k p : nat) :
  (1 <= b)%nat -> (1 <= k)%nat ->
  shaped b h n k A -> shaped b h k p B -> shaped b h n p raw_out ->
  match side with
  | SideA => shaped b h k p other
  | SideB => shaped b h n k other
  end ->
  length (fst sz) = 1%nat \/ length (fst sz) = h ->
  length (snd sz) = 1%nat \/ length (snd sz) = h ->
  candidate_score side m A B other raw_out raw_grad sz = Ok row ->
  length row = h.
Proof.
  intros Hb Hk HA HB Hro Hother Hs Hz. unfold candidate_score. intros H.
  apply bind_ok in H as (sim & Hsim & H). injection H as <-.
  apply (head_scores_length b h n p); [exact Hb|].
  eapply get_similarity_shaped; [exact Hro| |exact Hsim].
  destruct side; cbn [candidate_out_sim].
  - apply (matmul_shaped b h n k p); [exact Hk| |exact Hother].
    now apply candidate_sim_shaped.
  - apply (matmul_shaped b h n k p); [exact Hk|exact Hother|].
    now apply candidate_sim_shaped.
Qed.

Lemma Forall_combine_l {A B : Type} (P : A -> Prop) (l : list A)
  (l' : list B) :
  Forall P l -> Forall (fun ab => P (fst ab)) (combine l l').
Proof.
  intros H. apply Forall_forall. intros [a b] Hab.
  apply in_combine_l in Hab. rewrite Forall_forall in H. now apply H.
Qed.

Lemma Forall_combine_r {A B : Type} (P : B -> Prop) (l : list A)
  (l' : list B) :
  Forall P l' -> Forall (fun ab => P (snd ab)) (combine l l').
Proof.
  intros H. apply Forall_forall. intros [a b] Hab.
  apply in_combine_r in Hab. rewrite Forall_forall in H. now apply H.
Qed.

(** The score table of a chunk of samples: one row per evaluated candidate,
    one entry per head. *)
Lemma chunk_similarities_shaped rand_like (side : Side) (m : QuantMatMul)
  (scales zero_points : Grid) (cs b_st : Z) (table : Grid)
  (N h n k p : nat) (rA rB ro : T4) :
  (forall t, same_shape t (rand_like t)) ->
  raw_input m = Val (rA, rB) -> raw_out m = Val ro ->
  shaped N h n k rA -> shaped N h k p rB -> shaped N h n p ro ->
  (1 <= k)%nat -> (cs <= Z.of_nat N)%Z -> (0 <= b_st < cs)%Z ->
  (1 <= calib_batch_size m)%Z -> (0 <= eq_n m)%Z ->
  quantizer_fits (match side with
                  | SideA => B_quantizer m
                  | SideB => A_quantizer m
                  end) h ->
  Forall (fun row => length row = 1%nat \/ length row = h) scales ->
  Forall (fun row => length row = 1%nat \/ length row = h) zero_points ->
  chunk_similarities rand_like side m scales zero_points cs b_st = Ok table ->
  length table
    = length (firstn (Z.to_nat (eq_n m)) (combine scales zero_points)) /\
  Forall (fun row => length row = h) table.
Proof.
  intros Hrand Hri Hro HA HB HO Hk Hcs Hb Hcbs Hn Hfit Hsc Hzp H.
  apply chunk_similarities_evaluates in H
    as (rA' & rB' & ro' & other & g & Hri' & Hro' & Hother & Ht); [|exact Hn].
  rewrite Hri in Hri'. injection Hri' as <- <-.
  rewrite Hro in Hro'. injection Hro' as <-.
  cbv zeta in Hother, Ht.
  set (b_ed := Z.min cs (b_st + calib_batch_size m)) in *.
  assert (Hed : (0 <= b_st <= b_ed)%Z) by (unfold b_ed; lia).
  set (b := (Nat.min (Z.to_nat b_ed) N - Z.to_nat b_st)%nat).
  assert (Hb1 : (1 <= b)%nat) by (unfold b, b_ed; lia).
  assert (HsA : shaped b h n k (py_slice b_st b_ed rA)).
  { replace b with (length (py_slice b_st b_ed rA))
      by (rewrite length_py_slice by exact Hed; unfold b;
          now rewrite (proj1 HA)).
    eapply shaped_py_slice; exact HA. }
  assert (HsB : shaped b h k p (py_slice b_st b_ed rB)).
  { replace b with (length (py_slice b_st b_ed rB))
      by (rewrite length_py_slice by exact Hed; unfold b;
          now rewrite (proj1 HB)).
    eapply shaped_py_slice; exact HB. }
  assert (HsO : shaped b h n p (py_slice b_st b_ed ro)).
  { replace b with (length (py_slice b_st b_ed ro))
      by (rewrite length_py_slice by exact Hed; unfold b;
          now rewrite (proj1 HO)).
    eapply shaped_py_slice; exact HO. }
  assert (Hos : match side with
                | SideA => shaped b h k p other
                | SideB => shaped b h n k other
                end).
  { destruct side; cbn [other_side_sim] in Hother;
      unfold quant_input_A, quant_input_B in Hother;
      eapply forward_shaped; try exact Hother; eassumption. }
  split; [now apply mapM_length in Ht|].
  eapply mapM_Forall; [exact Ht|]. intros sz row Hsz Hrow. cbn beta.
  apply In_firstn_In in Hsz.
  refine (candidate_score_length side m _ _ other _ g sz row b h n k p
            Hb1 Hk HsA HsB HsO Hos _ _ Hrow).
  - pose proof (Forall_combine_l _ scales zero_points Hsc) as F.
    rewrite Forall_forall in F. exact (F sz Hsz).
  - pose proof (Forall_combine_r _ scales zero_points Hzp) as F.
    rewrite Forall_forall in F. exact (F sz Hsz).
Qed.

Lemma length_gather (g : Grid) (best : list nat) :
  length (gather g best) = length best.
Proof.
  unfold gather. now rewrite length_map, length_combine, length_seq, Nat.min_id.
Qed.

Lemma length_argmax_dim0 (table : Grid) :
  length (argmax_dim0 table) = length (hd [] table).
Proof. unfold argmax_dim0. now rewrite length_map, length_seq. Qed.

(** One best index per head: on captured tensors of [h] heads, with
    candidates of one entry per head, the search returns [h] indices. *)
Lemma search_best_length rand_like (side : Side) (m m' : QuantMatMul)
  (scales zero_points : Grid) (best : list nat) (N h n k p : nat)
  (rA rB ro : T4) (cs : Z) :
  (forall t, same_shape t (rand_like t)) ->
  raw_input m = Val (rA, rB) -> raw_out m = Val ro ->
  shaped N h n k rA -> shaped N h k p rB -> shaped N h n p ro ->
  (1 <= k)%nat ->
  calib_size m = Val cs -> (cs <= Z.of_nat N)%Z ->
  (1 <= calib_batch_size m)%Z -> (1 <= eq_n m)%Z ->
  quantizer_fits (match side with
                  | SideA => B_quantizer m
                  | SideB => A_quantizer m
                  end) h ->
  scales <> [] -> zero_points <> [] ->
  Forall (fun row => length row = 1%nat \/ length row = h) scales ->
  Forall (fun row => length row = 1%nat \/ length row = h) zero_points ->
  search_best_scale rand_like side m scales zero_points = Ok (best, m') ->
  length best = h.
Proof.
  intros Hrand Hri Hro HA HB HO Hk Hcs HcsN Hcbs Hn Hfit Hsne Hzne Hsc Hzp H.
  apply search_best_scale_inv in H
    as (cs' & b_starts & tables & table & Hcs' & Hst & Htab & Hsum & -> & _).
  rewrite Hcs in Hcs'. injection Hcs' as <-.
  rewrite length_argmax_dim0.
  set (q := length (firstn (Z.to_nat (eq_n m)) (combine scales zero_points))).
  assert (Hq : (1 <= q)%nat).
  { unfold q. rewrite length_firstn, length_combine.
    destruct scales; [contradiction|]. destruct zero_points; [contradiction|].
    cbn [length]. lia. }
  destruct (sum_tables_shaped tables table q h Hsum) as [Hlen Hrows].
  { eapply mapM_Forall; [exact Htab|]. intros b_st t Hb Ht. cbn beta.
    eapply (chunk_similarities_shaped rand_like side m scales zero_points cs
              b_st t N h n k p rA rB ro); try eassumption; try lia.
    exact (py_range_step_In cs (calib_batch_size m) b_st b_starts Hcbs Hst Hb). }
  destruct table as [|row table]; [cbn in Hlen; lia|].
  cbn [hd]. now apply Forall_cons_iff in Hrows as [Hrow _].
Qed.

(** ** The structure of a run *)

Lemma zip_with_repeat_l {A B C : Type} (f : A -> B -> C) (a : A)
  (l : list B) :
  zip_with f (repeat a (length l)) l = map (f a) l.
Proof. induction l as [|b l IH]; cbn; [reflexivity|now rewrite IH]. Qed.

Lemma zip_with_repeat_r {A B C : Type} (f : A -> B -> C) (b : B)
  (l : list A) :
  zip_with f l (repeat b (length l)) = map (fun a => f a b) l.
Proof. induction l as [|a l IH]; cbn; [reflexivity|now rewrite IH]. Qed.

Lemma expand_heads_one {A : Type} (p : list A) : expand_heads p 1 = p.
Proof. destruct p as [|v [|w p]]; reflexivity. Qed.

Lemma expand_heads_same {A : Type} (p : list A) (n : nat) :
  n = length p -> expand_heads p n = p.
Proof. intros ->. destruct p as [|v [|w p]]; reflexivity. Qed.

(** The grids that the controller builds for the two phases are those of the
    specification. *)
Lemma phase_candidates_upper_held (L : R) (uppers lowers : Grid)
  (best : list nat) :
  phase_candidates L uppers lowers best 0
  = upper_held_grids L uppers lowers best.
Proof.
  unfold phase_candidates, upper_held_grids.
  change (0 mod 2 =? 0)%Z with true. cbv iota.
  assert (E : scale_candidates L [gather uppers best] lowers
              = map (fun lrow => zip_with (fun u l => (u - l) / (2 * L - 1))
                                          (gather uppers best) lrow) lowers).
  { unfold scale_candidates, grid_zip. cbn [expand_heads length].
    now rewrite expand_heads_one, zip_with_repeat_l. }
  rewrite E. f_equal. unfold zero_point_candidates, grid_zip.
  now rewrite !expand_heads_same by (now rewrite length_map).
Qed.

Lemma phase_candidates_lower_held (L : R) (uppers lowers : Grid)
  (best : list nat) :
  phase_candidates L uppers lowers best 1
  = lower_held_grids L uppers lowers best.
Proof.
  unfold phase_candidates, lower_held_grids.
  change (1 mod 2 =? 0)%Z with false. cbv iota.
  assert (E : scale_candidates L uppers [gather lowers best]
              = map (fun urow => zip_with (fun u l => (u - l) / (2 * L - 1))
                                          urow (gather lowers best)) uppers).
  { unfold scale_candidates, grid_zip. cbn [expand_heads length].
    now rewrite expand_heads_one, zip_with_repeat_r. }
  rewrite E. f_equal. unfold zero_point_candidates, grid_zip.
  cbn [expand_heads length]. rewrite expand_heads_one.
  now rewrite zip_with_repeat_l.
Qed.

Lemma mapM_Forall2 {A B : Type} (f : A -> result B) (l : list A)
  (r : list B) :
  mapM f l = Ok r -> Forall2 (fun a b => f a = Ok b) l r.
Proof.
  revert r. induction l as [|a l IH]; intros r H; cbn in H.
  - injection H as <-. constructor.
  - apply bind_ok in H as (b & Hb & H). apply bind_ok in H as (bs & Hbs & H).
    injection H as <-. constructor; [exact Hb|now apply IH].
Qed.

Lemma candidate_score_recomputed (side : Side) (m : QuantMatMul)
  (A B other raw_out : T4) (raw_grad : option T4) (sz : list R * list R) :
  candidate_score side m A B other raw_out raw_grad sz
  = (similarity <-
       _get_similarity raw_out
         (recomputed_output side m A B other (fst sz) (snd sz))
         (metric m) raw_grad ;;
     Ok (head_scores similarity)).
Proof. unfold candidate_score. now destruct side. Qed.

(** What a chunk of a search computes. *)
Lemma chunk_similarities_recomputed rand_like (side : Side) (m : QuantMatMul)
  (scales zero_points : Grid) (cs b_st : Z) (table : Grid) :
  (0 <= eq_n m)%Z ->
  chunk_similarities rand_like side m scales zero_points cs b_st = Ok table ->
  exists rA rB ro,
    raw_input m = Val (rA, rB) /\ raw_out m = Val ro /\
    recomputed_chunk rand_like side m scales zero_points rA rB ro cs b_st
                     table.
Proof.
  intros Hn H. unfold chunk_similarities in H.
  destruct (raw_input m) as [| |[rA rB]]; cbn [get_attr bind] in H;
    try discriminate.
  apply bind_ok in H as (other & Hother & H).
  destruct (raw_out m) as [| |ro]; cbn [get_attr bind] in H; try discriminate.
  apply bind_ok in H as (g & Hg & H).
  destruct (parallel_eq_n m) as [| |pe]; cbn [get_attr bind] in H;
    try discriminate.
  apply bind_ok in H as (starts & Hs & H).
  exists rA, rB, ro. split; [reflexivity|]. split; [reflexivity|].
  unfold recomputed_chunk. cbv zeta. exists other. split.
  { destruct side; exact Hother. }
  assert (Eg : g = match raw_grad m with
                   | Val g0 =>
                       Some (py_slice b_st
                               (Z.min cs (b_st + calib_batch_size m)) g0)
                   | _ => None
                   end).
  { destruct (raw_grad m); try discriminate; now injection Hg as <-. }
  rewrite <- Eg.
  rewrite (mapM_ext _ (candidate_score side m
                         (py_slice b_st (Z.min cs (b_st + calib_batch_size m))
                                   rA)
                         (py_slice b_st (Z.min cs (b_st + calib_batch_size m))
                                   rB)
                         other
                         (py_slice b_st (Z.min cs (b_st + calib_batch_size m))
                                   ro) g))
    by (intros sz; symmetry; apply candidate_score_recomputed).
  destruct (Z.lt_trichotomy pe 0) as [Hpe|[->|Hpe]].
  - unfold py_range_step in Hs. destruct (Z.eqb_spec pe 0); [lia|].
    unfold ceil_div in Hs. destruct (Z.eqb_spec pe 0); [lia|].
    cbn [bind] in Hs. injection Hs as <-.
    assert (- (- eq_n m / pe) <= 0)%Z as Hc.
    { assert (0 <= - eq_n m / pe)%Z; [|lia].
      rewrite <- Z.div_opp_opp, Z.opp_involutive by lia.
      apply Z.div_pos; lia. }
    unfold py_range in H.
    replace (Z.to_nat (- (- eq_n m / pe))) with 0%nat in H by lia.
    cbn in H. discriminate.
  - cbn in Hs. discriminate.
  - destruct (Z.eq_dec (eq_n m) 0) as [Hz|Hz].
    + unfold py_range_step in Hs. destruct (Z.eqb_spec pe 0); [lia|].
      unfold ceil_div in Hs. destruct (Z.eqb_spec pe 0); [lia|].
      cbn [bind] in Hs. injection Hs as <-. rewrite Hz in H. cbn in H.
      discriminate.
    + rewrite <- (groups_score_prefix side m _ _ other _ g scales zero_points
                    pe starts Hpe ltac:(lia) Hs).
      exact H.
Qed.

Lemma Forall2_impl {A B : Type} (P Q : A -> B -> Prop) (l : list A)
  (l' : list B) :
  (forall a b, P a b -> Q a b) -> Forall2 P l l' -> Forall2 Q l l'.
Proof. intros H. induction 1; constructor; auto. Qed.

Lemma search_table_rows rand_like (side : Side) (m : QuantMatMul)
  (scales zero_points : Grid) (cs : Z) (b_starts : list Z)
  (tables : list Grid) (table : Grid) :
  (0 <= eq_n m)%Z ->
  mapM (chunk_similarities rand_like side m scales zero_points cs) b_starts
    = Ok tables ->
  sum_tables tables = Ok table ->
  (length table <= Z.to_nat (eq_n m))%nat.
Proof.
  intros Hn Ht Hsum. apply (sum_tables_length tables); [exact Hsum|].
  apply (mapM_Forall _ _ _ _ Ht). intros b_st t _ Hc.
  apply chunk_similarities_evaluates in Hc
    as (? & ? & ? & ? & ? & _ & _ & _ & Hm); [|exact Hn].
  apply mapM_length in Hm. rewrite Hm, length_firstn. lia.
Qed.

(** What a search computes: per chunk of samples the recomputed scores of
    the first [eq_n] candidates, their sum over the chunks, and the first
    index of the largest sum for every head. *)
Lemma search_recomputes rand_like (side : Side) (m m' : QuantMatMul)
  (scales zero_points : Grid) (best : list nat) :
  (0 <= eq_n m)%Z ->
  search_best_scale rand_like side m scales zero_points = Ok (best, m') ->
  exists rA rB ro cs b_starts tables table,
    raw_input m = Val (rA, rB) /\ raw_out m = Val ro /\
    calib_size m = Val cs /\
    py_range_step cs (calib_batch_size m) = Ok b_starts /\
    Forall2 (recomputed_chunk rand_like side m scales zero_points rA rB ro cs)
            b_starts tables /\
    sum_tables tables = Ok table /\
    best = argmax_dim0 table /\
    (length table <= Z.to_nat (eq_n m))%nat /\
    m' = set_quantizer_of side
           (set_zero_point (gather zero_points best)
              (set_scale (gather scales best) (quantizer_of side m))) m.
Proof.
  intros Hn H.
  apply search_best_scale_inv in H
    as (cs & b_starts & tables & table & Hcs & Hst & Htab & Hsum & -> & ->).
  pose proof (search_table_rows _ _ _ _ _ _ _ _ _ Hn Htab Hsum) as Hrows.
  apply mapM_Forall2 in Htab.
  destruct Htab as [|b_st t b_starts tables H0 Hrest]; [discriminate|].
  destruct (chunk_similarities_recomputed _ _ _ _ _ _ _ _ Hn H0)
    as (rA & rB & ro & Hri & Hro & Hc0).
  exists rA, rB, ro, cs, (b_st :: b_starts), (t :: tables), table.
  repeat (split; [assumption|]).
  split; [|split; [exact Hsum|split; [reflexivity|split;
                                      [exact Hrows|reflexivity]]]].
  constructor; [exact Hc0|].
  eapply Forall2_impl; [|exact Hrest]. cbn beta. intros b t' Hc.
  destruct (chunk_similarities_recomputed _ _ _ _ _ _ _ _ Hn Hc)
    as (rA' & rB' & ro' & Hri' & Hro' & Hc').
  rewrite Hri in Hri'. injection Hri' as <- <-.
  rewrite Hro in Hro'. now injection Hro' as <-.
Qed.

(** ** The candidate of index [eq_n] is never looked at *)

Lemma chunk_similarities_strides rand_like (side : Side) (m : QuantMatMul)
  (scales zero_points : Grid) (cs b_st : Z) (table : Grid) :
  (0 <= eq_n m)%Z ->
  chunk_similarities rand_like side m scales zero_points cs b_st = Ok table ->
  exists pe, parallel_eq_n m = Val pe /\ (0 < pe)%Z /\ (1 <= eq_n m)%Z.
Proof.
  intros Hn H. unfold chunk_similarities in H.
  apply bind_ok in H as ([rA rB] & _ & H).
  apply bind_ok in H as (other & _ & H).
  apply bind_ok in H as (ro & _ & H).
  apply bind_ok in H as (g & _ & H).
  destruct (parallel_eq_n m) as [| |pe]; cbn [get_attr bind] in H;
    try discriminate.
  apply bind_ok in H as (starts & Hs & H).
  apply bind_ok in H as (groups & Hg & H).
  exists pe. split; [reflexivity|].
  assert (starts <> []) as Hne.
  { intros ->. cbn in Hg. injection Hg as <-. discriminate. }
  destruct starts as [|a starts]; [contradiction|].
  apply py_range_step_nonempty_inv in Hs. lia.
Qed.

Lemma chunk_similarities_prefix rand_like (side : Side) (m : QuantMatMul)
  (scales zero_points scales' zero_points' : Grid) (cs b_st pe : Z) :
  parallel_eq_n m = Val pe -> (0 < pe)%Z -> (1 <= eq_n m)%Z ->
  firstn (Z.to_nat (eq_n m)) scales' = firstn (Z.to_nat (eq_n m)) scales ->
  firstn (Z.to_nat (eq_n m)) zero_points'
    = firstn (Z.to_nat (eq_n m)) zero_points ->
  chunk_similarities rand_like side m scales' zero_points' cs b_st
  = chunk_similarities rand_like side m scales zero_points cs b_st.
Proof.
  intros Hpe Hpos Hn Hs Hz. unfold chunk_similarities. rewrite Hpe.
  destruct (raw_input m) as [| |[rA rB]]; try reflexivity.
  cbn [get_attr bind].
  destruct (other_side_sim rand_like side m _ _) as [other|]; [|reflexivity].
  cbn [bind]. destruct (raw_out m) as [| |ro]; try reflexivity.
  cbn [get_attr bind].
  match goal with
  | |- bind ?g _ = bind ?g _ => destruct g as [rg|]; [|reflexivity]
  end.
  cbn [bind].
  destruct (py_range_step_pos (eq_n m) pe Hpos ltac:(lia)) as (c & Hc & _).
  rewrite Hc. cbn [bind].
  rewrite !(groups_score_prefix side m _ _ _ _ _ _ _ pe _ Hpos Hn Hc).
  now rewrite !combine_firstn, Hs, Hz.
Qed.

Lemma mapM_ext_in {A B : Type} (f g : A -> result B) (l : list A) :
  (forall a, In a l -> f a = g a) -> mapM f l = mapM g l.
Proof.
  induction l as [|a l IH]; intros H; [reflexivity|].
  cbn [mapM]. rewrite (H a) by now left.
  rewrite IH; [reflexivity|]. intros b Hb. apply H. now right.
Qed.

(** A search depends on its grids through their first [eq_n] rows only. *)
Lemma search_ignores_tail rand_like (side : Side) (m m' : QuantMatMul)
  (scales zero_points scales' zero_points' : Grid) (best : list nat) :
  (0 <= eq_n m)%Z ->
  search_best_scale rand_like side m scales zero_points = Ok (best, m') ->
  firstn (Z.to_nat (eq_n m)) scales' = firstn (Z.to_nat (eq_n m)) scales ->
  firstn (Z.to_nat (eq_n m)) zero_points'
    = firstn (Z.to_nat (eq_n m)) zero_points ->
  search_best_scale rand_like side m scales' zero_points' = Ok (best, m').
Proof.
  intros Hn H Hs Hz. unfold search_best_scale in *.
  destruct (calib_size m) as [| |cs]; cbn [get_attr bind] in *;
    try discriminate.
  destruct (py_range_step cs (calib_batch_size m)) as [b_starts|];
    cbn [bind] in *; [|discriminate].
  destruct (mapM (chunk_similarities rand_like side m scales zero_points cs)
                 b_starts) as [tables|] eqn:Ht; cbn [bind] in H;
    [|discriminate].
  assert (Hne : b_starts <> []).
  { intros ->. cbn in Ht. injection Ht as <-. discriminate. }
  destruct b_starts as [|b0 b_starts]; [contradiction|].
  assert (Hst : exists pe, parallel_eq_n m = Val pe /\ (0 < pe)%Z
                           /\ (1 <= eq_n m)%Z).
  { cbn [mapM] in Ht. apply bind_ok in Ht as (t0 & Ht0 & _).
    eapply chunk_similarities_strides; eassumption. }
  destruct Hst as (pe & Hpe & Hpos & Hn1).
  rewrite (mapM_ext_in _ (chunk_similarities rand_like side m scales
                            zero_points cs))
    by (intros b _; now apply (chunk_similarities_prefix _ _ _ _ _ _ _ _ _ pe)).
  rewrite Ht. cbn [bind].
  destruct (sum_tables tables) as [table|] eqn:Hsum; cbn [bind] in *;
    [|discriminate].
  destruct (get_attr (scale (quantizer_of side m))); cbn [bind] in *;
    [|discriminate].
  destruct (get_attr (zero_point (quantizer_of side m))); cbn [bind] in *;
    [|discriminate].
  injection H as <- <-.
  assert (Hb : forall i, In i (argmax_dim0 table) ->
                         (i < Z.to_nat (eq_n m))%nat).
  { intros i Hi. apply argmax_dim0_bound in Hi.
    pose proof (search_table_rows _ _ _ _ _ _ _ _ _ Hn Ht Hsum). lia. }
  rewrite <- (gather_firstn scales' _ _ Hb), <- (gather_firstn zero_points' _ _ Hb).
  rewrite Hs, Hz, !gather_firstn by exact Hb. reflexivity.
Qed.

Lemma search_scored rand_like (side : Side) (m m' : QuantMatMul)
  (scales zero_points : Grid) (best : list nat) :
  (0 <= eq_n m)%Z ->
  search_best_scale rand_like side m scales zero_points = Ok (best, m') ->
  scored_search rand_like side m scales zero_points best m'.
Proof.
  intros Hn H. split; [exact H|]. split.
  - destruct (search_recomputes _ _ _ _ _ _ _ Hn H)
      as (rA & rB & ro & cs & b_starts & tables & table & Hri & Hro & Hcs
          & Hst & Hch & Hsum & Hbest & Hrows & Hm').
    exists rA, rB, ro, cs, b_starts, tables, table.
    repeat (split; [assumption|]). split; [|exact Hm'].
    intros h i Hi. apply nth_error_In in Hi. rewrite Hbest in Hi.
    apply argmax_dim0_bound in Hi. lia.
  - intros scales' zero_points' Hs Hz.
    now apply (search_ignores_tail _ _ _ _ scales zero_points).
Qed.

Lemma refined_side_refinement rand_like (side : Side) (p : Percentiles)
  (m m' : QuantMatMul) (best best' : list nat) (cl : list SearchCall) :
  (0 <= eq_n m)%Z ->
  refined rand_like side p m best m' best' cl ->
  side_refinement rand_like side (n_bits (quantizer_of side m))
                  (n_levels (quantizer_of side m))
                  (uppers_of side p) (lowers_of side p) m best m' best' cl.
Proof.
  intros Hn. unfold refined, side_refinement.
  destruct (n_bits (quantizer_of side m) <? 32)%Z; [|auto].
  rewrite phase_candidates_upper_held. intros (mid & m_mid & H).
  rewrite phase_candidates_lower_held in H. cbv zeta in H.
  destruct H as (H0 & H1 & Hc).
  destruct (search_keeps_settings _ _ _ _ _ _ _ H0) as (_ & _ & _ & E & _).
  exists mid, m_mid. cbv zeta.
  split; [now apply search_scored|].
  split; [apply search_scored; [rewrite E; exact Hn|exact H1]|exact Hc].
Qed.

Lemma foldM_refinement_rounds rand_like (p : Percentiles) (m0 : QuantMatMul)
  (l : list Z) :
  forall (bA bB bA' bB' : list nat) (m m' : QuantMatMul)
         (calls calls' : list SearchCall),
    (0 <= eq_n m0)%Z -> same_settings m0 m ->
    foldM (refinement_round rand_like p) l (bA, bB, (m, calls))
      = Ok (bA', bB', (m', calls')) ->
    exists rest,
      refinement_rounds rand_like (length l)
        (n_bits (A_quantizer m0)) (n_bits (B_quantizer m0))
        (n_levels (A_quantizer m0)) (n_levels (B_quantizer m0))
        p m bA bB m' rest /\
      calls' = calls ++ rest /\ same_settings m0 m'.
Proof.
  induction l as [|e l IH]; intros bA bB bA' bB' m m' calls calls' Hn Hs H.
  - cbn in H. injection H as <- <- <- <-. exists []. cbn.
    rewrite app_nil_r. auto.
  - cbn [foldM] in H. apply bind_ok in H as ([[bA1 bB1] [m1 calls1]] & H1 & H).
    unfold refinement_round in H1.
    apply bind_ok in H1 as ([bA2 [mA cA]] & HA & H1).
    apply bind_ok in H1 as ([bB2 [mB cB]] & HB & H1).
    injection H1 as <- <- <- <-.
    apply refine_side_refined in HA as (clA & HA & ->).
    apply refine_side_refined in HB as (clB & HB & ->).
    pose proof (refined_keeps_settings _ _ _ _ _ _ _ _ HA) as KA.
    pose proof (refined_keeps_settings _ _ _ _ _ _ _ _ HB) as KB.
    pose proof (same_settings_trans _ _ _ Hs KA) as HsA.
    pose proof (same_settings_trans _ _ _ HsA KB) as HsB.
    apply refined_side_refinement in HA;
      [|destruct Hs as (_ & _ & _ & E & _); rewrite E; exact Hn].
    apply refined_side_refinement in HB;
      [|destruct HsA as (_ & _ & _ & E & _); rewrite E; exact Hn].
    destruct (same_settings_n_levels SideA _ _ Hs) as [EA1 EA2].
    destruct (same_settings_n_levels SideB _ _ HsA) as [EB1 EB2].
    cbn [quantizer_of uppers_of lowers_of] in *.
    rewrite EA1, EA2 in HA. rewrite EB1, EB2 in HB.
    destruct (IH _ _ _ _ _ _ _ _ Hn HsB H) as (rest & Hr & -> & Hs').
    exists (clA ++ clB ++ rest). split; [|split; [|exact Hs']].
    + cbn [length refinement_rounds].
      exists mA, bA2, clA, mB, bB2, clB, rest. auto.
    + now rewrite <- !app_assoc.
Qed.

(** A completed [hyperparameter_searching] is a run. *)
Lemma hyperparameter_searching_run rand_like acc (dev : Device)
  (m m' : QuantMatMul) (calls : list SearchCall) :
  hyperparameter_searching rand_like acc dev m = Ok (m', calls) ->
  exists p c ms A_best mA B_best mB,
    search_run rand_like acc dev m p c ms A_best mA B_best mB m' calls.
Proof.
  intros H.
  apply hyperparameter_searching_inv in H as (p & c & ms & m2 & Hs & Hr & ->).
  pose proof (seeding_keeps _ _ _ _ _ _ Hs) as Ks.
  pose proof (seeding_needs_two_candidates _ _ _ _ _ _ Hs) as Hn.
  assert (Hn0 : (0 <= eq_n m)%Z) by lia.
  unfold searching in Hr.
  apply bind_ok in Hr as ([bA [mA cA]] & HA & Hr).
  apply bind_ok in Hr as ([bB [mB cB]] & HB & Hr).
  apply bind_ok in Hr as ([[bA' bB'] [mR cR]] & HR & Hr).
  injection Hr as <- <-.
  apply call_search_inv in HA as [HA ->]. apply call_search_inv in HB as [HB ->].
  pose proof (search_keeps_settings _ _ _ _ _ _ _ HA) as KA.
  pose proof (search_keeps_settings _ _ _ _ _ _ _ HB) as KB.
  pose proof (same_settings_trans _ _ _ Ks
                (same_settings_trans _ _ _ KA KB)) as K.
  destruct (foldM_refinement_rounds _ _ m _ _ _ _ _ _ _ _ _ Hn0 K HR)
    as (rest & Hrounds & -> & _).
  rewrite length_py_range in Hrounds.
  pose proof Ks as (_ & _ & _ & _ & Esr & _). rewrite Esr in Hrounds.
  exists p, c, ms, bA, mA, bB, mB. unfold search_run.
  split; [exact Hs|].
  split.
  { apply search_scored; [|exact HA].
    destruct Ks as (_ & _ & _ & E & _). rewrite E. exact Hn0. }
  split.
  { apply search_scored; [|exact HB].
    destruct (same_settings_trans _ _ _ Ks KA) as (_ & _ & _ & E & _).
    rewrite E. exact Hn0. }
  exists mR, rest. split; [exact Hrounds|]. split; reflexivity.
Qed.

(** One best index per head, stated on the tensors of the search. *)
Lemma recomputed_search_length rand_like (side : Side) (m : QuantMatMul)
  (scales zero_points : Grid) (N h n k p : nat) (rA rB ro : T4) (cs : Z)
  (b_starts : list Z) (tables : list Grid) (table : Grid) :
  (forall t, same_shape t (rand_like t)) ->
  shaped N h n k rA -> shaped N h k p rB -> shaped N h n p ro ->
  (1 <= k)%nat -> (cs <= Z.of_nat N)%Z ->
  (1 <= calib_batch_size m)%Z -> (1 <= eq_n m)%Z ->
  quantizer_fits (match side with
                  | SideA => B_quantizer m
                  | SideB => A_quantizer m
                  end) h ->
  scales <> [] -> zero_points <> [] ->
  Forall (fun row => length row = 1%nat \/ length row = h) scales ->
  Forall (fun row => length row = 1%nat \/ length row = h) zero_points ->
  py_range_step cs (calib_batch_size m) = Ok b_starts ->
  Forall2 (recomputed_chunk rand_like side m scales zero_points rA rB ro cs)
          b_starts tables ->
  sum_tables tables = Ok table ->
  length (argmax_dim0 table) = h.
Proof.
  intros Hrand HA HB HO Hk HcsN Hcbs Hn Hfit Hsne Hzne Hsc Hzp Hst Hch Hsum.
  rewrite length_argmax_dim0.
  set (q := length (firstn (Z.to_nat (eq_n m)) (combine scales zero_points))).
  assert (Hq : (1 <= q)%nat).
  { unfold q. rewrite length_firstn, length_combine.
    destruct scales; [contradiction|]. destruct zero_points; [contradiction|].
    cbn [length]. lia. }
  destruct (sum_tables_shaped tables table q h Hsum) as [Hlen Hrows].
  { assert (Hin : forall b_st, In b_st b_starts -> (0 <= b_st < cs)%Z)
      by (intros b_st Hb;
          exact (py_range_step_In cs (calib_batch_size m) b_st b_starts
                   Hcbs Hst Hb)).
    clear Hst Hsum. induction Hch as [|b_st t bs ts Hc _ IH]; constructor.
    - specialize (Hin b_st (or_introl eq_refl)).
      unfold recomputed_chunk in Hc. cbv zeta in Hc.
      destruct Hc as (other & Hother & Ht).
      set (b_ed := Z.min cs (b_st + calib_batch_size m)) in *.
      assert (Hed : (0 <= b_st <= b_ed)%Z) by (unfold b_ed; lia).
      set (b := (Nat.min (Z.to_nat b_ed) N - Z.to_nat b_st)%nat).
      assert (Hb1 : (1 <= b)%nat) by (unfold b, b_ed; lia).
      assert (HsA : shaped b h n k (py_slice b_st b_ed rA)).
      { replace b with (length (py_slice b_st b_ed rA))
          by (rewrite length_py_slice by exact Hed; unfold b;
              now rewrite (proj1 HA)).
        eapply shaped_py_slice; exact HA. }
      assert (HsB : shaped b h k p (py_slice b_st b_ed rB)).
      { replace b with (length (py_slice b_st b_ed rB))
          by (rewrite length_py_slice by exact Hed; unfold b;
              now rewrite (proj1 HB)).
        eapply shaped_py_slice; exact HB. }
      assert (HsO : shaped b h n p (py_slice b_st b_ed ro)).
      { replace b with (length (py_slice b_st b_ed ro))
          by (rewrite length_py_slice by exact Hed; unfold b;
              now rewrite (proj1 HO)).
        eapply shaped_py_slice; exact HO. }
      assert (Hos : match side with
                    | SideA => shaped b h k p other
                    | SideB => shaped b h n k other
                    end).
      { destruct side; eapply forward_shaped; try exact Hother;
          eassumption. }
      split; [now apply mapM_length in Ht|].
      eapply mapM_Forall; [exact Ht|]. intros sz row Hsz Hrow. cbn beta.
      apply In_firstn_In in Hsz.
      refine (candidate_score_length side m _ _ other _ _ sz row b h n k p
                Hb1 Hk HsA HsB HsO Hos _ _ _);
        [| |rewrite candidate_score_recomputed; exact Hrow].
      + pose proof (Forall_combine_l _ scales zero_points Hsc) as F.
        rewrite Forall_forall in F. exact (F sz Hsz).
      + pose proof (Forall_combine_r _ scales zero_points Hzp) as F.
        rewrite Forall_forall in F. exact (F sz Hsz).
    - apply IH. intros b' Hb'. apply Hin. now right. }
  destruct table as [|row table]; [cbn in Hlen; lia|].
  cbn [hd]. now apply Forall_cons_iff in Hrows as [Hrow _].
Qed.

(** ** The heads of a run *)

Lemma same_shape_refl (x : T4) : same_shape x x.
Proof.
  unfold same_shape. induction x as [|s x IH]; constructor; [|exact IH].
  induction s as [|mt s IHs]; constructor; [|exact IHs].
  induction mt as [|row mt IHm]; constructor; [reflexivity|exact IHm].
Qed.

Lemma per_head_parameters_fits (h : nat) (q : UniformQuantizer) :
  per_head_parameters h q -> quantizer_fits q h.
Proof.
  intros (s & z & Hs & Hz & Ls & Lz). split.
  - intros s' E. rewrite Hs in E. injection E as <-. now right.
  - intros z' E. rewrite Hz in E. injection E as <-. now right.
Qed.

Lemma per_head_grid_fits (h : nat) (g : Grid) :
  per_head_grid h g ->
  g <> [] /\ Forall (fun row => length row = 1%nat \/ length row = h) g.
Proof.
  intros [Hne Hg]. split; [exact Hne|].
  eapply Forall_impl; [|exact Hg]. cbn beta. intros row Hr. now right.
Qed.

(** A search on such an operator returns one index per head and leaves such
    an operator. *)
Lemma search_keeps_heads rand_like (side : Side) (m m' : QuantMatMul)
  (scales zero_points : Grid) (best : list nat) (N h n k p : nat)
  (rA rB ro : T4) :
  (forall t, same_shape t (rand_like t)) ->
  shaped N h n k rA -> shaped N h k p rB -> shaped N h n p ro ->
  (1 <= k)%nat ->
  searching_on N h rA rB ro m ->
  per_head_grid h scales -> per_head_grid h zero_points ->
  search_best_scale rand_like side m scales zero_points = Ok (best, m') ->
  length best = h /\ searching_on N h rA rB ro m'.
Proof.
  intros Hrand HA HB HO Hk (Hri & Hro & Hcs & Hn & HqA & HqB) Hsc Hzp H.
  destruct (per_head_grid_fits h scales Hsc) as [Hsne Hsf].
  destruct (per_head_grid_fits h zero_points Hzp) as [Hzne Hzf].
  assert (Hn0 : (0 <= eq_n m)%Z) by lia.
  destruct (search_recomputes _ _ _ _ _ _ _ Hn0 H)
    as (rA' & rB' & ro' & cs & b_starts & tables & table & Hri' & Hro' & Hcs'
        & Hst & Hch & Hsum & Hbest & _ & Hm').
  rewrite Hri in Hri'. injection Hri' as <- <-.
  rewrite Hro in Hro'. injection Hro' as <-.
  rewrite Hcs in Hcs'. injection Hcs' as <-.
  assert (Hcbs : (1 <= calib_batch_size m)%Z).
  { destruct b_starts as [|b0 b_starts].
    - inversion Hch; subst. discriminate.
    - apply py_range_step_nonempty_inv in Hst. lia. }
  assert (Hlen : length best = h).
  { rewrite Hbest.
    eapply (recomputed_search_length rand_like side m scales zero_points
              N h n k p rA rB ro (Z.of_nat N)); try eassumption; try lia.
    destruct side; now apply per_head_parameters_fits. }
  split; [exact Hlen|].
  assert (Hq : per_head_parameters h
                 (set_zero_point (gather zero_points best)
                    (set_scale (gather scales best) (quantizer_of side m)))).
  { exists (gather scales best), (gather zero_points best).
    rewrite !length_gather. auto. }
  rewrite Hm'. unfold searching_on.
  destruct side; cbn [set_quantizer_of set_A_quantizer set_B_quantizer
                      set_quantizers raw_input raw_out calib_size eq_n
                      A_quantizer B_quantizer quantizer_of] in *;
    repeat (split; [assumption|]); assumption.
Qed.

Lemma zip_with_rows {A B : Type} (f : A -> B -> list R) (l : list A)
  (l' : list B) (h : nat) :
  (forall a b, In a l -> In b l' -> length (f a b) = h) ->
  Forall (fun row => length row = h) (zip_with f l l').
Proof.
  revert l'. induction l as [|a l IH]; intros [|b l'] H; cbn; constructor.
  - apply H; now left.
  - apply IH. intros a' b' Ha Hb. apply H; now right.
Qed.

Lemma upper_held_grids_heads (L : R) (uppers lowers : Grid) (best : list nat)
  (h : nat) :
  per_head_grid h lowers -> length best = h ->
  per_head_grid h (fst (upper_held_grids L uppers lowers best)) /\
  per_head_grid h (snd (upper_held_grids L uppers lowers best)).
Proof.
  intros [Hne Hrows] Hb. unfold upper_held_grids. cbn [fst snd].
  set (f := fun u l : R => (u - l) / (2 * L - 1)).
  assert (Hs : Forall (fun row => length row = h)
                 (map (fun lrow => zip_with f (gather uppers best) lrow)
                      lowers)).
  { apply Forall_map. eapply Forall_impl; [|exact Hrows]. cbn beta.
    intros lrow Hl. apply length_zip_with_both; [|exact Hl].
    now rewrite length_gather. }
  split; split.
  - destruct lowers; [contradiction|discriminate].
  - exact Hs.
  - destruct lowers; [contradiction|discriminate].
  - apply zip_with_rows. intros a b Ha Hb'.
    rewrite Forall_forall in Hrows, Hs.
    apply length_zip_with_both; [now apply Hrows|now apply Hs].
Qed.

Lemma lower_held_grids_heads (L : R) (uppers lowers : Grid) (best : list nat)
  (h : nat) :
  per_head_grid h uppers -> length best = h ->
  per_head_grid h (fst (lower_held_grids L uppers lowers best)) /\
  per_head_grid h (snd (lower_held_grids L uppers lowers best)).
Proof.
  intros [Hne Hrows] Hb. unfold lower_held_grids. cbn [fst snd].
  set (f := fun u l : R => (u - l) / (2 * L - 1)).
  assert (Hs : Forall (fun row => length row = h)
                 (map (fun urow => zip_with f urow (gather lowers best))
                      uppers)).
  { apply Forall_map. eapply Forall_impl; [|exact Hrows]. cbn beta.
    intros urow Hu. apply length_zip_with_both; [exact Hu|].
    now rewrite length_gather. }
  split; split.
  - destruct uppers; [contradiction|discriminate].
  - exact Hs.
  - destruct uppers; [contradiction|discriminate].
  - apply Forall_map. eapply Forall_impl; [|exact Hs]. cbn beta.
    intros srow Hsr. apply length_zip_with_both; [|exact Hsr].
    now rewrite length_gather.
Qed.

Lemma side_refinement_keeps_heads rand_like (side : Side) (bits : Z) (L : R)
  (uppers lowers : Grid) (m m' : QuantMatMul) (best best' : list nat)
  (calls : list SearchCall) (N h n k p : nat) (rA rB ro : T4) :
  (forall t, same_shape t (rand_like t)) ->
  shaped N h n k rA -> shaped N h k p rB -> shaped N h n p ro ->
  (1 <= k)%nat ->
  per_head_grid h uppers -> per_head_grid h lowers ->
  searching_on N h rA rB ro m -> length best = h ->
  side_refinement rand_like side bits L uppers lowers m best m' best' calls ->
  searching_on N h rA rB ro m' /\ length best' = h.
Proof.
  intros Hrand HA HB HO Hk Hu Hl Hm Hb. unfold side_refinement.
  destruct (bits <? 32)%Z; [|now intros (-> & -> & _)].
  intros (mid & m_mid & [H0 _] & [H1 _] & _). cbv zeta in H0, H1.
  destruct (upper_held_grids_heads L uppers lowers best h Hl Hb) as [G0 G0'].
  destruct (search_keeps_heads rand_like side m m_mid _ _ mid N h n k p
              rA rB ro Hrand HA HB HO Hk Hm G0 G0' H0) as [Hmid Hm_mid].
  destruct (lower_held_grids_heads L uppers lowers mid h Hu Hmid)
    as [G1 G1'].
  destruct (search_keeps_heads rand_like side m_mid m' _ _ best' N h n k p
              rA rB ro Hrand HA HB HO Hk Hm_mid G1 G1' H1) as [Hb' Hm'].
  auto.
Qed.

Lemma refinement_rounds_keep_heads rand_like (rounds : nat) (bitsA bitsB : Z)
  (LA LB : R) (pc : Percentiles) (N h n k p : nat) (rA rB ro : T4) :
  (forall t, same_shape t (rand_like t)) ->
  shaped N h n k rA -> shaped N h k p rB -> shaped N h n p ro ->
  (1 <= k)%nat ->
  per_head_grid h (A_uppers pc) -> per_head_grid h (A_lowers pc) ->
  per_head_grid h (B_uppers pc) -> per_head_grid h (B_lowers pc) ->
  forall (m m' : QuantMatMul) (A_best B_best : list nat)
         (calls : list SearchCall),
    searching_on N h rA rB ro m -> length A_best = h -> length B_best = h ->
    refinement_rounds rand_like rounds bitsA bitsB LA LB pc m A_best B_best
                      m' calls ->
    searching_on N h rA rB ro m'.
Proof.
  intros Hrand HA HB HO Hk GAu GAl GBu GBl.
  induction rounds as [|rounds IH]; intros m m' A_best B_best calls Hm Ha Hb.
  - now intros (-> & _).
  - cbn [refinement_rounds].
    intros (mA & A_best' & cA & mB & B_best' & cB & rest & H1 & H2 & H3 & _).
    destruct (side_refinement_keeps_heads rand_like SideA bitsA LA _ _ m mA
                A_best A_best' cA N h n k p rA rB ro Hrand HA HB HO Hk
                GAu GAl Hm Ha H1) as [HmA Ha'].
    destruct (side_refinement_keeps_heads rand_like SideB bitsB LB _ _ mA mB
                B_best B_best' cB N h n k p rA rB ro Hrand HA HB HO Hk
                GBu GBl HmA Hb H2) as [HmB Hb'].
    exact (IH mB m' A_best' B_best' rest HmB Ha' Hb' H3).
Qed.

(** ** The seeding of a run *)

Lemma mapM_map_inv {A B : Type} (f : A -> result B) (g : A -> B)
  (l : list A) (r : list B) :
  (forall a b, In a l -> f a = Ok b -> b = g a) ->
  mapM f l = Ok r -> r = map g l.
Proof.
  revert r. induction l as [|a l IH]; intros r Hf H; cbn in H.
  - now injection H as <-.
  - apply bind_ok in H as (b & Hb & H). apply bind_ok in H as (bs & Hbs & H).
    injection H as <-. cbn [map]. f_equal.
    + apply Hf; [now left|exact Hb].
    + apply IH; [|exact Hbs]. intros a' b' Ha'. apply Hf. now right.
Qed.

Lemma level_row_value (x_ : list (list (list R))) (p : R) (u : list R) :
  level_row x_ p = Ok u -> u = row_value x_ p.
Proof.
  unfold level_row, row_value. apply mapM_map_inv.
  intros head v _ H. apply bind_ok in H as (qs & Hqs & H). injection H as <-.
  f_equal. revert Hqs. apply mapM_map_inv.
  intros part q _ Hq. now apply torch_quantile_inv in Hq as (_ & _ & ->).
Qed.

Lemma quantile_means_value acc (x_ : list (list (list R))) (q : list R)
  (g : Grid) :
  quantile_means acc x_ q = Ok g ->
  acc x_ = true /\ g = map (row_value x_) q.
Proof.
  unfold quantile_means. destruct (acc x_); [|discriminate].
  intros H. split; [reflexivity|]. revert H. apply mapM_map_inv.
  intros p u _. apply level_row_value.
Qed.

(** The grids of an operand are its quantile rows at the view at which the
    quantile has been accepted: the first, of one mini-batch, or a later one
    of the retry loop. *)
Lemma percentile_candidates_view acc (m : QuantMatMul) (x : T4)
  (uppers lowers : Grid) :
  (2 <= eq_n m)%Z ->
  calculate_percentile_candidates acc m x
    (999 / 1000) (99999 / 100000) (1 / 10) = Ok (uppers, lowers) ->
  exists rows mbs x_,
    per_head_rows x = Ok rows /\
    view_mini_batches mbs rows = Ok x_ /\ acc x_ = true /\
    (uppers, lowers) = operand_percentiles (eq_n m) x_.
Proof.
  intros Hn H. unfold calculate_percentile_candidates in H.
  rewrite search_levels_ok in H by exact Hn. cbn [bind] in H.
  apply bind_ok in H as (rows & Hrows & H).
  apply bind_ok in H as ([u lo] & Hq & H).
  destruct (Z.of_nat (length (search_levels (eq_n m))) =? eq_n m + 1)%Z;
    [|discriminate].
  injection H as <- <-.
  apply quantile_retry_inv in Hq as (mbs & x_ & Hx & Hu & Hl).
  apply quantile_means_value in Hu as [Hacc ->].
  apply quantile_means_value in Hl as [_ ->].
  exists rows, mbs, x_. auto.
Qed.

(** The seeded operator of a completed seeding, in full. *)
Lemma seeding_view acc (dev : Device) (m ms : QuantMatMul) (p : Percentiles)
  (c : Candidates) :
  seeding acc dev m = Ok (p, c, ms) ->
  exists m1 rA rB rowsA rowsB mbsA mbsB xA xB,
    _initialize_calib_parameters dev m = Ok m1 /\
    raw_input m = Val (rA, rB) /\ (2 <= eq_n m)%Z /\
    per_head_rows rA = Ok rowsA /\ per_head_rows rB = Ok rowsB /\
    view_mini_batches mbsA rowsA = Ok xA /\ acc xA = true /\
    view_mini_batches mbsB rowsB = Ok xB /\ acc xB = true /\
    (A_uppers p, A_lowers p) = operand_percentiles (eq_n m) xA /\
    (B_uppers p, B_lowers p) = operand_percentiles (eq_n m) xB /\
    A_scale_candidates c
      = scale_candidates (n_levels (A_quantizer m)) (A_uppers p) (A_lowers p) /\
    A_zero_point_candidates c
      = zero_point_candidates (A_lowers p) (A_scale_candidates c) /\
    B_scale_candidates c
      = scale_candidates (n_levels (B_quantizer m)) (B_uppers p) (B_lowers p) /\
    B_zero_point_candidates c
      = zero_point_candidates (B_lowers p) (B_scale_candidates c) /\
    ms = set_quantizers
           (seeded (A_scale_candidates c) (A_zero_point_candidates c)
                   (A_quantizer m))
           (seeded (B_scale_candidates c) (B_zero_point_candidates c)
                   (B_quantizer m)) m1.
Proof.
  intros H. pose proof (seeding_needs_two_candidates _ _ _ _ _ _ H) as Hn.
  unfold seeding in H.
  apply bind_ok in H as (m1 & Hi & H).
  destruct (initialize_calib_parameters_parallel dev m m1 Hi)
    as (rA & rB & p0 & pe & Hraw & _ & _ & Em1).
  apply bind_ok in H as ([rA' rB'] & Hraw' & H).
  assert (Hraw1 : raw_input m1 = Val (rA, rB)) by (subst m1; exact Hraw).
  rewrite Hraw1 in Hraw'. injection Hraw' as <- <-.
  apply bind_ok in H as ([Au Al] & HcA & H).
  apply bind_ok in H as ([Bu Bl] & HcB & H).
  apply bind_ok in H as (qa & Hqa & H).
  apply bind_ok in H as (qb & Hqb & H).
  injection H as <- <- <-.
  assert (En : eq_n m1 = eq_n m) by (subst m1; reflexivity).
  assert (EA : A_quantizer m1 = A_quantizer m) by (subst m1; reflexivity).
  assert (EB : B_quantizer m1 = B_quantizer m) by (subst m1; reflexivity).
  apply percentile_candidates_view in HcA
    as (rowsA & mbsA & xA & HrA & HxA & HaA & HpA); [|lia].
  apply percentile_candidates_view in HcB
    as (rowsB & mbsB & xB & HrB & HxB & HaB & HpB); [|lia].
  rewrite En in HpA, HpB. rewrite EA in Hqa |- *. rewrite EB in Hqb |- *.
  apply seed_quantizer_inv in Hqa as (sA & zA & HsA & HzA & ->).
  apply seed_quantizer_inv in Hqb as (sB & zB & HsB & HzB & ->).
  exists m1, rA, rB, rowsA, rowsB, mbsA, mbsB, xA, xB.
  cbn [A_uppers A_lowers B_uppers B_lowers A_scale_candidates
       A_zero_point_candidates B_scale_candidates B_zero_point_candidates].
  repeat (split; [assumption || reflexivity|]).
  unfold seeded.
  rewrite (py_index_minus_two _ [] (py_index_ok_length _ _ HsA)) in HsA.
  rewrite (py_index_minus_two _ [] (py_index_ok_length _ _ HzA)) in HzA.
  rewrite (py_index_minus_two _ [] (py_index_ok_length _ _ HsB)) in HsB.
  rewrite (py_index_minus_two _ [] (py_index_ok_length _ _ HzB)) in HzB.
  injection HsA as <-. injection HzA as <-.
  injection HsB as <-. injection HzB as <-. reflexivity.
Qed.

(** ** A seeding through the retry loop *)

Lemma quantile_retry_second acc (rows : list (list R))
  (x2 : list (list (list R))) (pct : list R) (fuel : nat) :
  Forall (fun row => row <> []) rows ->
  acc (single_batches rows) = false ->
  view_mini_batches 2 rows = Ok x2 -> acc x2 = true ->
  Forall (Forall (fun part => part <> [])) x2 ->
  (forall p, In p pct -> 0 <= p <= 1) ->
  quantile_retry acc (S (S fuel)) 1 rows pct
  = Ok (map (row_value x2) pct, map (row_value x2) (map (fun p => 1 - p) pct)).
Proof.
  intros Hne Hrej Hv Hacc Hx Hp. cbn [quantile_retry].
  rewrite view_single_batches by exact Hne. cbn [bind].
  unfold quantile_means at 1. rewrite Hrej. cbn [bind].
  change (2 * 1)%nat with 2%nat. rewrite Hv. cbn [bind].
  unfold quantile_means. rewrite Hacc.
  rewrite (mapM_map _ (row_value x2)).
  2:{ intros p Hin. apply level_row_ok; [exact Hx|now apply Hp]. }
  cbn [bind].
  rewrite (mapM_map _ (row_value x2)).
  2:{ intros p Hin. apply level_row_ok; [exact Hx|].
      apply in_map_iff in Hin as (p' & <- & Hp'). specialize (Hp p' Hp').
      lra. }
  reflexivity.
Qed.

Lemma percentile_candidates_after_retry acc (m : QuantMatMul) (x : T4)
  (rows : list (list R)) (x2 : list (list (list R))) :
  (2 <= eq_n m)%Z ->
  per_head_rows x = Ok rows ->
  Forall (fun row => row <> []) rows ->
  (1 <= length (hd [] rows))%nat ->
  acc (single_batches rows) = false ->
  view_mini_batches 2 rows = Ok x2 -> acc x2 = true ->
  Forall (Forall (fun part => part <> [])) x2 ->
  calculate_percentile_candidates acc m x
      (999 / 1000) (99999 / 100000) (1 / 10)
  = Ok (operand_percentiles (eq_n m) x2).
Proof.
  intros Hn Hrows Hne Hlen Hrej Hv Hacc Hx.
  unfold calculate_percentile_candidates.
  rewrite search_levels_ok by exact Hn. cbn [bind]. rewrite Hrows. cbn [bind].
  destruct (length (hd [] rows)) as [|fuel]; [lia|].
  rewrite (quantile_retry_second acc rows x2 _ fuel Hne Hrej Hv Hacc Hx).
  2:{ intros p Hp. pose proof (search_levels_bounds _ _ Hn Hp). lra. }
  cbn [bind]. rewrite length_search_levels by lia.
  now rewrite Z.eqb_refl.
Qed.

(** On the example, with a quantile that is rejected at the first attempt,
    the seeding returns after one retry, from the view of two mini-batches
    per head. *)
Lemma example_seeding_after_retry :
  accepts_split (single_batches [[0; 1000]]) = false /\
  view_mini_batches 2 [[0; 1000]] = Ok [[[0]; [1000]]] /\
  exists p c ms,
    seeding accepts_split example_dev example_op = Ok (p, c, ms).
Proof.
  split; [reflexivity|]. split; [reflexivity|].
  destruct (seeding_seeds always_accepts example_dev example_op eq_refl)
    as (p0 & c0 & m1 & rA & rB & rowsA & rowsB & Hraw & HrA & HrB & Hinit & _).
  injection Hraw as <- <-.
  assert (EA : rowsA = [[0; 1000]]) by (injection HrA as <-; reflexivity).
  assert (EB : rowsB = [[0; 1000]]) by (injection HrB as <-; reflexivity).
  subst rowsA rowsB.
  destruct (initialize_calib_parameters_parallel _ _ _ Hinit)
    as (rA' & rB' & p1 & pe & Hraw' & _ & _ & Em1).
  assert (Hcand : forall x, per_head_rows x = Ok [[0; 1000]] ->
            calculate_percentile_candidates accepts_split m1 x
              (999 / 1000) (99999 / 100000) (1 / 10)
            = Ok (operand_percentiles (eq_n m1) [[[0]; [1000]]])).
  { intros x Hx.
    apply (percentile_candidates_after_retry accepts_split m1 x [[0; 1000]]).
    - rewrite Em1. cbn. lia.
    - exact Hx.
    - repeat constructor. discriminate.
    - cbn. lia.
    - reflexivity.
    - reflexivity.
    - reflexivity.
    - repeat constructor; discriminate. }
  unfold seeding. rewrite Hinit. cbn [bind].
  assert (Hri : raw_input m1 = Val (example_A, example_B))
    by (rewrite Em1; reflexivity).
  rewrite Hri. cbn [get_attr bind].
  rewrite (Hcand example_A HrA). cbn [bind].
  rewrite (Hcand example_B HrB). cbn [bind].
  destruct (length_operand_percentiles (eq_n m1) [[[0]; [1000]]])
    as [Lu Ll]; [rewrite Em1; cbn; lia|].
  assert (En : Z.to_nat (eq_n m1 + 1) = 3%nat) by (rewrite Em1; reflexivity).
  rewrite En in Lu, Ll.
  destruct (operand_percentiles (eq_n m1) [[[0]; [1000]]]) as [U Lo].
  cbn [fst snd] in Lu, Ll.
  assert (Hlen : forall f g g', length g = 3%nat -> length g' = 3%nat ->
            length (grid_zip f g g') = 3%nat).
  { intros f g g' Hg Hg'. rewrite length_grid_zip; lia. }
  assert (HqA : exists sA zA, scale (A_quantizer m1) = Val sA /\
                              zero_point (A_quantizer m1) = Val zA)
    by (rewrite Em1; eexists _, _; split; reflexivity).
  assert (HqB : exists sB zB, scale (B_quantizer m1) = Val sB /\
                              zero_point (B_quantizer m1) = Val zB)
    by (rewrite Em1; eexists _, _; split; reflexivity).
  destruct HqA as (sA & zA & HsA & HzA). destruct HqB as (sB & zB & HsB & HzB).
  rewrite (seed_quantizer_ok _ _ _ sA zA HsA HzA).
  2:{ unfold scale_candidates. rewrite Hlen; lia. }
  2:{ unfold zero_point_candidates, scale_candidates.
      rewrite Hlen; [lia | lia | rewrite Hlen; lia]. }
  cbn [bind].
  rewrite (seed_quantizer_ok _ _ _ sB zB HsB HzB).
  2:{ unfold scale_candidates. rewrite Hlen; lia. }
  2:{ unfold zero_point_candidates, scale_candidates.
      rewrite Hlen; [lia | lia | rewrite Hlen; lia]. }
  cbn [bind]. eexists _, _, _. reflexivity.
Qed.

(** C7: a completed seeding, the first part of [hyperparameter_searching],
    whether the quantile has been accepted at the first attempt or after
    retries, has built four grids of [eq_n + 1] candidates, in which index -2
    is the index [eq_n - 1], of the level [r]; for each side the entry of
    index -2, the scale and zero-point computed from the quantiles of level
    [r] and [1 - r], is what the quantizer's [scale] and [zero_point] hold
    afterwards; both [inited] flags are true; and every search of
    [hyperparameter_searching], hence every forward simulation, starts from
    this seeded operator. *)
Theorem seeding_copies_second_to_last rand_like acc (dev : Device)
  (m ms : QuantMatMul) (p : Percentiles) (c : Candidates) :
  seeding acc dev m = Ok (p, c, ms) ->
  exists rA rB rowsA rowsB mbsA mbsB xA xB,
    raw_input m = Val (rA, rB) /\ (2 <= eq_n m)%Z /\
    per_head_rows rA = Ok rowsA /\ per_head_rows rB = Ok rowsB /\
    view_mini_batches mbsA rowsA = Ok xA /\ acc xA = true /\
    view_mini_batches mbsB rowsB = Ok xB /\ acc xB = true /\
    percentile_levels (eq_n m) (999 / 1000) (99999 / 100000) (1 / 10)
      = Ok (search_levels (eq_n m)) /\
    nth (Z.to_nat (eq_n m - 1)) (search_levels (eq_n m)) 0 = 99999 / 100000 /\
    Forall (fun g : Grid => Z.of_nat (length g) = (eq_n m + 1)%Z)
           [A_scale_candidates c; A_zero_point_candidates c;
            B_scale_candidates c; B_zero_point_candidates c] /\
    let sA := seed_scale (n_levels (A_quantizer m)) xA in
    let zA := seed_zero_point (n_levels (A_quantizer m)) xA in
    let sB := seed_scale (n_levels (B_quantizer m)) xB in
    let zB := seed_zero_point (n_levels (B_quantizer m)) xB in
    py_index (A_scale_candidates c) (-2) = Ok sA /\
    py_index (A_zero_point_candidates c) (-2) = Ok zA /\
    py_index (B_scale_candidates c) (-2) = Ok sB /\
    py_index (B_zero_point_candidates c) (-2) = Ok zB /\
    nth (Z.to_nat (eq_n m - 1)) (A_scale_candidates c) [] = sA /\
    nth (Z.to_nat (eq_n m - 1)) (A_zero_point_candidates c) [] = zA /\
    nth (Z.to_nat (eq_n m - 1)) (B_scale_candidates c) [] = sB /\
    nth (Z.to_nat (eq_n m - 1)) (B_zero_point_candidates c) [] = zB /\
    scale (A_quantizer ms) = Val sA /\ zero_point (A_quantizer ms) = Val zA /\
    scale (B_quantizer ms) = Val sB /\ zero_point (B_quantizer ms) = Val zB /\
    inited (A_quantizer ms) = true /\ inited (B_quantizer ms) = true /\
    hyperparameter_searching rand_like acc dev m =
      ('(m', calls) <- searching rand_like p c ms ;;
       Ok (latch_and_release m', calls)).
Proof.
  intros H.
  destruct (seeding_view acc dev m ms p c H)
    as (m1 & rA & rB & rowsA & rowsB & mbsA & mbsB & xA & xB & _ & Hraw & Hn
        & HrA & HrB & HxA & HaA & HxB & HaB & HpA & HpB & EA & EzA & EB & EzB
        & ->).
  exists rA, rB, rowsA, rowsB, mbsA, mbsB, xA, xB.
  repeat (split; [assumption|]).
  split; [now apply search_levels_ok|].
  split.
  { unfold search_levels. rewrite nth_levels by lia.
    rewrite Z2Nat.id by lia. now apply level_last. }
  destruct (second_to_last_candidate (n_levels (A_quantizer m)) (eq_n m) xA Hn)
    as (LscA & LzpA & EscA & EzpA).
  destruct (second_to_last_candidate (n_levels (B_quantizer m)) (eq_n m) xB Hn)
    as (LscB & LzpB & EscB & EzpB).
  rewrite <- HpA in LscA, LzpA, EscA, EzpA.
  rewrite <- HpB in LscB, LzpB, EscB, EzpB.
  cbn [fst snd] in LscA, LzpA, EscA, EzpA, LscB, LzpB, EscB, EzpB.
  rewrite <- EA in LscA, LzpA, EscA, EzpA. rewrite <- EzA in LzpA, EzpA.
  rewrite <- EB in LscB, LzpB, EscB, EzpB. rewrite <- EzB in LzpB, EzpB.
  split; [repeat constructor; lia|]. cbv zeta.
  rewrite <- EscA, <- EzpA, <- EscB, <- EzpB.
  repeat (split; [apply py_index_minus_two; lia|]).
  repeat (split; [f_equal; lia|]).
  unfold seeded. cbn [set_quantizers A_quantizer B_quantizer set_inited
                      set_zero_point set_scale scale zero_point inited].
  repeat (split; [reflexivity|]).
  unfold hyperparameter_searching. rewrite H. reflexivity.
Qed.

Lemma seeding_copies_second_to_last_witness :
  accepts_split (single_batches [[0; 1000]]) = false /\
  exists p c ms xA xB,
    seeding accepts_split example_dev example_op = Ok (p, c, ms) /\
    accepts_split xA = true /\ accepts_split xB = true /\
    py_index (A_scale_candidates c) (-2)
      = Ok (seed_scale (n_levels (A_quantizer example_op)) xA) /\
    py_index (B_zero_point_candidates c) (-2)
      = Ok (seed_zero_point (n_levels (B_quantizer example_op)) xB) /\
    scale (A_quantizer ms)
      = Val (seed_scale (n_levels (A_quantizer example_op)) xA) /\
    zero_point (B_quantizer ms)
      = Val (seed_zero_point (n_levels (B_quantizer example_op)) xB) /\
    inited (A_quantizer ms) = true /\ inited (B_quantizer ms) = true.
Proof.
  destruct example_seeding_after_retry as (Hrej & _ & p & c & ms & H).
  split; [exact Hrej|].
  destruct (seeding_copies_second_to_last no_rand accepts_split example_dev
              example_op ms p c H)
    as (rA & rB & rowsA & rowsB & mbsA & mbsB & xA & xB & _ & _ & _ & _ & _
        & HaA & _ & HaB & _ & _ & _ & HA & _ & _ & HB & _ & _ & _ & _
        & HsA & _ & _ & HzB & HiA & HiB & _).
  exists p, c, ms, xA, xB. split; [exact H|].
  repeat (split; [assumption|]). exact HiB.
Defined.

Lemma per_head_grid_rows {A : Type} (f : A -> list R) (l : list A)
  (h : nat) :
  l <> [] -> (forall a, length (f a) = h) -> per_head_grid h (map f l).
Proof.
  intros Hne Hf. split.
  - destruct l; [contradiction|discriminate].
  - apply Forall_map. apply Forall_forall. intros a _. apply Hf.
Qed.

Lemma per_head_grid_zip (f : R -> R -> R) (g g' : Grid) (h : nat) :
  length g' = length g ->
  per_head_grid h g -> per_head_grid h g' -> per_head_grid h (grid_zip f g g').
Proof.
  intros Hlen [Hne Hg] [_ Hg']. split.
  - intros E. apply (f_equal (@length (list R))) in E.
    rewrite (length_grid_zip_same f g g' Hlen) in E.
    destruct g; [contradiction|discriminate].
  - unfold grid_zip. apply zip_with_rows. intros a b Ha Hb.
    apply In_expand_heads in Ha. apply In_expand_heads in Hb.
    rewrite Forall_forall in Hg, Hg'.
    apply length_zip_with_both; [now apply Hg|now apply Hg'].
Qed.

Lemma per_head_grid_nth (g : Grid) (h i : nat) :
  per_head_grid h g -> (i < length g)%nat -> length (nth i g []) = h.
Proof.
  intros [_ Hg] Hi. rewrite Forall_forall in Hg. apply Hg. now apply nth_In.
Qed.

Lemma search_levels_nonempty (n : Z) : search_levels n <> [].
Proof.
  unfold search_levels. intros E. apply (f_equal (@length R)) in E.
  rewrite length_app in E. cbn in E. lia.
Qed.

Lemma operand_percentiles_heads (n : Z) (x_ : list (list (list R)))
  (uppers lowers : Grid) :
  (uppers, lowers) = operand_percentiles n x_ ->
  per_head_grid (length x_) uppers /\ per_head_grid (length x_) lowers /\
  length lowers = length uppers.
Proof.
  unfold operand_percentiles. intros [= -> ->].
  assert (Hrow : forall q, length (row_value x_ q) = length x_).
  { intros q. unfold row_value. apply length_map. }
  split; [|split].
  - apply per_head_grid_rows; [apply search_levels_nonempty|exact Hrow].
  - apply per_head_grid_rows; [|exact Hrow].
    intros E. apply map_eq_nil in E. now apply search_levels_nonempty in E.
  - now rewrite !length_map.
Qed.

Lemma shaped_hd (N h n k : nat) (x : T4) :
  shaped N h n k x -> x <> [] -> length (hd [] x) = h.
Proof.
  intros [_ Hx] Hne. destruct x as [|s x]; [contradiction|].
  apply Forall_cons_iff in Hx as [[Hs _] _]. exact Hs.
Qed.

Lemma view_heads (N h n k mbs : nat) (x : T4) (rows : list (list R))
  (x_ : list (list (list R))) :
  shaped N h n k x -> per_head_rows x = Ok rows ->
  view_mini_batches mbs rows = Ok x_ -> length x_ = h.
Proof.
  intros Hx Hrows Hv. unfold view_mini_batches in Hv.
  apply mapM_length in Hv. rewrite Hv.
  rewrite (per_head_rows_length _ _ Hrows).
  apply (shaped_hd N h n k); [exact Hx|].
  intros ->. discriminate.
Qed.

(** A completed seeding on captured tensors of [N] samples and [h] heads
    leaves grids of one entry per head and an operator that owns one scale
    and one zero-point per head. *)
Lemma seeding_heads acc (dev : Device) (m ms : QuantMatMul) (pc : Percentiles)
  (c : Candidates) (N h n k p : nat) (rA rB ro : T4) :
  seeding acc dev m = Ok (pc, c, ms) ->
  raw_input m = Val (rA, rB) -> raw_out m = Val ro ->
  shaped N h n k rA -> shaped N h k p rB ->
  (per_head_grid h (A_uppers pc) /\ per_head_grid h (A_lowers pc) /\
   per_head_grid h (B_uppers pc) /\ per_head_grid h (B_lowers pc)) /\
  (per_head_grid h (A_scale_candidates c) /\
   per_head_grid h (A_zero_point_candidates c) /\
   per_head_grid h (B_scale_candidates c) /\
   per_head_grid h (B_zero_point_candidates c)) /\
  searching_on N h rA rB ro ms.
Proof.
  intros H Hri Hro HA HB.
  destruct (seeding_view acc dev m ms pc c H)
    as (m1 & rA' & rB' & rowsA & rowsB & mbsA & mbsB & xA & xB & Hi & Hraw
        & Hn & HrA & HrB & HxA & _ & HxB & _ & HpA & HpB & EA & EzA & EB
        & EzB & ->).
  rewrite Hri in Hraw. injection Hraw as <- <-.
  destruct (initialize_calib_parameters_parallel dev m m1 Hi)
    as (rA' & rB' & p0 & pe & Hraw & _ & _ & ->).
  rewrite Hri in Hraw. injection Hraw as <- <-.
  apply operand_percentiles_heads in HpA as (GAu & GAl & LA).
  apply operand_percentiles_heads in HpB as (GBu & GBl & LB).
  rewrite (view_heads N h n k mbsA rA rowsA xA HA HrA HxA) in GAu, GAl.
  rewrite (view_heads N h k p mbsB rB rowsB xB HB HrB HxB) in GBu, GBl.
  assert (GAs : per_head_grid h (A_scale_candidates c)).
  { rewrite EA. now apply per_head_grid_zip. }
  assert (GBs : per_head_grid h (B_scale_candidates c)).
  { rewrite EB. now apply per_head_grid_zip. }
  assert (GAz : per_head_grid h (A_zero_point_candidates c)).
  { rewrite EzA. apply per_head_grid_zip; try assumption.
    rewrite EA. unfold scale_candidates.
    now rewrite (length_grid_zip_same _ _ _ LA). }
  assert (GBz : per_head_grid h (B_zero_point_candidates c)).
  { rewrite EzB. apply per_head_grid_zip; try assumption.
    rewrite EB. unfold scale_candidates.
    now rewrite (length_grid_zip_same _ _ _ LB). }
  split; [auto|]. split; [auto|].
  assert (Hseed : forall sc zp q,
            per_head_grid h sc -> per_head_grid h zp ->
            per_head_parameters h (seeded sc zp q)).
  { intros sc zp q Gs Gz.
    exists (nth (length sc - 2) sc []), (nth (length zp - 2) zp []).
    unfold seeded. cbn [set_inited set_zero_point set_scale scale zero_point].
    repeat split.
    - apply per_head_grid_nth; [exact Gs|].
      destruct Gs as [Hne _]. destruct sc; [contradiction|cbn; lia].
    - apply per_head_grid_nth; [exact Gz|].
      destruct Gz as [Hne _]. destruct zp; [contradiction|cbn; lia]. }
  unfold searching_on.
  cbn [set_quantizers set_calib_parameters raw_input raw_out calib_size eq_n
       A_quantizer B_quantizer].
  destruct HA as [HN _]. rewrite HN.
  repeat split; auto; lia.
Qed.

(** A completed run on captured tensors of [h] heads leaves both quantizers
    initialised, each with one scale and one zero-point per head. *)
Lemma search_run_heads rand_like acc (dev : Device) (m ms mA mB m' : QuantMatMul)
  (pc : Percentiles) (c : Candidates) (A_best B_best : list nat)
  (calls : list SearchCall) (N h n k p : nat) (rA rB ro : T4) :
  (forall t, same_shape t (rand_like t)) ->
  raw_input m = Val (rA, rB) -> raw_out m = Val ro ->
  shaped N h n k rA -> shaped N h k p rB -> shaped N h n p ro ->
  (1 <= k)%nat ->
  search_run rand_like acc dev m pc c ms A_best mA B_best mB m' calls ->
  per_head_parameters h (A_quantizer m') /\
  per_head_parameters h (B_quantizer m').
Proof.
  intros Hrand Hri Hro HA HB HO Hk (Hs & [H1 _] & [H2 _] & mR & rest & HR & _ & ->).
  destruct (seeding_heads acc dev m ms pc c N h n k p rA rB ro Hs Hri Hro
              HA HB)
    as ((GAu & GAl & GBu & GBl) & (GAs & GAz & GBs & GBz) & Hms).
  destruct (search_keeps_heads rand_like SideA ms mA _ _ A_best N h n k p
              rA rB ro Hrand HA HB HO Hk Hms GAs GAz H1) as [La HmA].
  destruct (search_keeps_heads rand_like SideB mA mB _ _ B_best N h n k p
              rA rB ro Hrand HA HB HO Hk HmA GBs GBz H2) as [Lb HmB].
  pose proof (refinement_rounds_keep_heads rand_like _ _ _ _ _ pc N h n k p
                rA rB ro Hrand HA HB HO Hk GAu GAl GBu GBl mB mR A_best
                B_best rest HmB La Lb HR) as (_ & _ & _ & _ & QA & QB).
  cbn [latch_and_release A_quantizer B_quantizer]. auto.
Qed.

(** C10: a per-side search that returns has scored, in every chunk of
    samples, exactly the first [eq_n] candidates of the grid, which holds
    [eq_n + 1]; it returns one best index for every head slot (every column
    of the score table, and every head of the captured tensors when these
    have [h] heads and the candidates one entry per head), and each index is
    below [eq_n]; what it writes into the quantizer is taken from the first
    [eq_n] candidates; and the rows of the grid from index [eq_n] on have no
    influence on the search, whatever they hold. *)
Theorem search_skips_last_candidate rand_like (side : Side)
  (m m' : QuantMatMul) (scales zero_points : Grid) (best : list nat) :
  (0 <= eq_n m)%Z ->
  search_best_scale rand_like side m scales zero_points = Ok (best, m') ->
  exists rA rB ro cs b_starts tables table,
    raw_input m = Val (rA, rB) /\ raw_out m = Val ro /\
    calib_size m = Val cs /\
    py_range_step cs (calib_batch_size m) = Ok b_starts /\
    Forall2 (recomputed_chunk rand_like side m scales zero_points rA rB ro cs)
            b_starts tables /\
    sum_tables tables = Ok table /\
    (length table <= Z.to_nat (eq_n m))%nat /\
    length best = length (hd [] table) /\
    (forall h i, nth_error best h = Some i ->
                 (i < length table)%nat /\ (Z.of_nat i < eq_n m)%Z) /\
    scale (quantizer_of side m')
      = Val (gather (firstn (Z.to_nat (eq_n m)) scales) best) /\
    zero_point (quantizer_of side m')
      = Val (gather (firstn (Z.to_nat (eq_n m)) zero_points) best) /\
    (forall scales' zero_points',
        firstn (Z.to_nat (eq_n m)) scales'
          = firstn (Z.to_nat (eq_n m)) scales ->
        firstn (Z.to_nat (eq_n m)) zero_points'
          = firstn (Z.to_nat (eq_n m)) zero_points ->
        search_best_scale rand_like side m scales' zero_points'
          = Ok (best, m')) /\
    (forall N h n k p,
        (forall t, same_shape t (rand_like t)) ->
        shaped N h n k rA -> shaped N h k p rB -> shaped N h n p ro ->
        (1 <= k)%nat -> (cs <= Z.of_nat N)%Z ->
        (1 <= calib_batch_size m)%Z -> (1 <= eq_n m)%Z ->
        quantizer_fits (match side with
                        | SideA => B_quantizer m
                        | SideB => A_quantizer m
                        end) h ->
        scales <> [] -> zero_points <> [] ->
        Forall (fun row => length row = 1%nat \/ length row = h) scales ->
        Forall (fun row => length row = 1%nat \/ length row = h)
               zero_points ->
        length best = h).
Proof.
  intros Hn H.
  destruct (search_recomputes _ _ _ _ _ _ _ Hn H)
    as (rA & rB & ro & cs & b_starts & tables & table & Hri & Hro & Hcs & Hst
        & Hch & Hsum & Hbest & Hrows & Hm').
  exists rA, rB, ro, cs, b_starts, tables, table.
  repeat (split; [assumption|]).
  assert (Hb : forall i, In i best -> (i < Z.to_nat (eq_n m))%nat).
  { intros i Hi. rewrite Hbest in Hi. apply argmax_dim0_bound in Hi. lia. }
  split; [rewrite Hbest; apply length_argmax_dim0|].
  split.
  { intros h i Hi. apply nth_error_In in Hi. pose proof (Hb i Hi).
    rewrite Hbest in Hi. apply argmax_dim0_bound in Hi. lia. }
  rewrite !gather_firstn by exact Hb.
  split; [rewrite Hm'; now destruct side|].
  split; [rewrite Hm'; now destruct side|].
  split.
  { intros scales' zero_points' Hs Hz.
    now apply (search_ignores_tail _ _ _ _ scales zero_points). }
  intros N h n k p Hrand HA HB HO Hk HcsN Hcbs Hn1 Hfit Hsne Hzne Hsc Hzp.
  rewrite Hbest.
  eapply (recomputed_search_length rand_like side m scales zero_points
            N h n k p rA rB ro cs); eassumption.
Qed.

Lemma search_skips_last_candidate_witness :
  (0 <= eq_n example_ready)%Z /\
  length example_scales = Z.to_nat (eq_n example_ready + 1) /\
  exists best m',
    search_best_scale no_rand SideA example_ready example_scales
                      example_zero_points = Ok (best, m') /\
    length best = 1%nat /\
    (forall h i, nth_error best h = Some i ->
                 (Z.of_nat i < eq_n example_ready)%Z) /\
    scale (A_quantizer m')
      = Val (gather (firstn (Z.to_nat (eq_n example_ready)) example_scales)
                    best) /\
    (forall last_scale last_zero_point,
        search_best_scale no_rand SideA example_ready
          [[8]; [4]; last_scale] [[0]; [0]; last_zero_point]
        = Ok (best, m')).
Proof.
  split; [discriminate|]. split; [reflexivity|].
  destruct (search_returns no_rand SideA example_ready example_scales
              example_zero_points eq_refl) as (best & m' & Hs & _).
  exists best, m'. split; [exact Hs|].
  destruct (search_skips_last_candidate no_rand SideA example_ready m'
              example_scales example_zero_points best
              ltac:(discriminate) Hs)
    as (rA & rB & ro & cs & b_starts & tables & table & Hri & Hro & Hcs & _
        & _ & _ & _ & _ & Hb & Hsc & _ & Htail & Hheads).
  injection Hri as <- <-. injection Hro as <-. injection Hcs as <-.
  split.
  { apply (Hheads 1%nat 1%nat 1%nat 2%nat 1%nat).
    - exact same_shape_refl.
    - repeat constructor.
    - repeat constructor.
    - repeat constructor.
    - lia.
    - lia.
    - cbn. lia.
    - cbn. lia.
    - split; intros ? [= <-]; now left.
    - discriminate.
    - discriminate.
    - repeat constructor; now left.
    - repeat constructor; now left. }
  split; [intros h i Hi; now destruct (Hb h i Hi)|].
  split; [exact Hsc|].
  intros last_scale last_zero_point. apply Htail; reflexivity.
Defined.

(** ** The other side, in a whole run *)

Lemma forward_quantized_with rand_like (q : UniformQuantizer) (s z : list R)
  (x other : T4) :
  training_mode q = false ->
  UniformQuantizer_forward rand_like
    (set_inited (set_zero_point z (set_scale s q))) x = Ok other ->
  other = quantized_with q s z x.
Proof.
  intros Htr. unfold UniformQuantizer_forward, quantized_with.
  cbn [set_inited set_zero_point set_scale n_bits inited scale zero_point sym
       training_mode drop_prob].
  destruct (n_bits q =? 32)%Z; [now intros [= <-]|].
  rewrite Htr. cbn [assert bind get_attr andb].
  unfold n_levels.
  cbn [set_inited set_zero_point set_scale n_bits].
  destruct (sym q); cbn [bind get_attr]; now intros [= <-].
Qed.

(** C3 (as amended): every per-side search that returns has scored, in every
    chunk of samples, the first [eq_n] candidates, each on the output
    recomputed from the searched side quantized with that candidate and the
    other side passed through its own quantizer as the operator holds it
    then.  A completed [hyperparameter_searching] is the seeding, the search
    of A on the seeded operator, the search of B on the operator the search
    of A has left, and the refinement rounds, in this order.  At the first
    search of A the quantizer of B is initialised and holds B's seed, the
    grid entry of index -2, and at the first search of B the quantizer of A
    holds the winner of that A search: outside training the other operand
    enters quantized with these parameters, and as the float tensor only at a
    bit-width of 32. *)
Theorem other_side_enters_through_quantizer rand_like acc (dev : Device)
  (m m' : QuantMatMul) (calls : list SearchCall) :
  hyperparameter_searching rand_like acc dev m = Ok (m', calls) ->
  (forall side mq scales zero_points best mq',
      (0 <= eq_n mq)%Z ->
      search_best_scale rand_like side mq scales zero_points = Ok (best, mq') ->
      recomputed_search rand_like side mq scales zero_points best mq') /\
  exists p c ms A_best mA B_best mB sB zB,
    search_run rand_like acc dev m p c ms A_best mA B_best mB m' calls /\
    py_index (B_scale_candidates c) (-2) = Ok sB /\
    py_index (B_zero_point_candidates c) (-2) = Ok zB /\
    B_quantizer ms
      = set_inited (set_zero_point zB (set_scale sB (B_quantizer m))) /\
    (training_mode (B_quantizer m) = false ->
     forall B other,
       UniformQuantizer_forward rand_like (B_quantizer ms) B = Ok other ->
       other = quantized_with (B_quantizer m) sB zB B) /\
    let sA := gather (A_scale_candidates c) A_best in
    let zA := gather (A_zero_point_candidates c) A_best in
    A_quantizer mA
      = set_inited (set_zero_point zA (set_scale sA (A_quantizer m))) /\
    (training_mode (A_quantizer m) = false ->
     forall A other,
       UniformQuantizer_forward rand_like (A_quantizer mA) A = Ok other ->
       other = quantized_with (A_quantizer m) sA zA A).
Proof.
  intros H. split.
  { intros side mq scales zero_points best mq' Hn Hs.
    now destruct (search_scored _ _ _ _ _ _ _ Hn Hs) as (_ & Hr & _). }
  destruct (hyperparameter_searching_run _ _ _ _ _ _ H)
    as (p & c & ms & A_best & mA & B_best & mB & Hrun).
  pose proof Hrun as (Hs & (_ & HA & _) & _).
  destruct (seeding_view acc dev m ms p c Hs)
    as (m1 & rA & rB & rowsA & rowsB & mbsA & mbsB & xA & xB & _ & _ & Hn
        & _ & _ & _ & _ & _ & _ & HpA & HpB & EA & EzA & EB & EzB & Ems).
  destruct (second_to_last_candidate (n_levels (B_quantizer m)) (eq_n m) xB Hn)
    as (LscB & LzpB & _ & _).
  rewrite <- HpB in LscB, LzpB. cbn [fst snd] in LscB, LzpB.
  rewrite <- EB in LscB, LzpB. rewrite <- EzB in LzpB.
  assert (EBq : B_quantizer ms
                = seeded (B_scale_candidates c) (B_zero_point_candidates c)
                         (B_quantizer m)) by (rewrite Ems; reflexivity).
  assert (EAq : A_quantizer ms
                = seeded (A_scale_candidates c) (A_zero_point_candidates c)
                         (A_quantizer m)) by (rewrite Ems; reflexivity).
  exists p, c, ms, A_best, mA, B_best, mB,
         (nth (length (B_scale_candidates c) - 2) (B_scale_candidates c) []),
         (nth (length (B_zero_point_candidates c) - 2)
              (B_zero_point_candidates c) []).
  split; [exact Hrun|].
  split; [apply py_index_minus_two; lia|].
  split; [apply py_index_minus_two; lia|].
  split; [exact EBq|].
  split.
  { intros Htr B other Ho. rewrite EBq in Ho.
    exact (forward_quantized_with rand_like _ _ _ B other Htr Ho). }
  cbv zeta.
  destruct HA as (? & ? & ? & ? & ? & ? & ? & _ & _ & _ & _ & _ & _ & _ & _
                  & EmA).
  assert (EAq' : A_quantizer mA
                 = set_inited
                     (set_zero_point (gather (A_zero_point_candidates c) A_best)
                        (set_scale (gather (A_scale_candidates c) A_best)
                                   (A_quantizer m)))).
  { rewrite EmA. cbn [set_quantizer_of set_A_quantizer A_quantizer
                       quantizer_of].
    rewrite EAq. reflexivity. }
  split; [exact EAq'|].
  intros Htr A other Ho. rewrite EAq' in Ho.
  exact (forward_quantized_with rand_like _ _ _ A other Htr Ho).
Qed.

Lemma other_side_enters_through_quantizer_witness :
  exists m' calls p c ms A_best mA B_best mB sB zB,
    hyperparameter_searching no_rand always_accepts example_dev example_op
      = Ok (m', calls) /\
    search_run no_rand always_accepts example_dev example_op p c ms A_best mA
               B_best mB m' calls /\
    py_index (B_scale_candidates c) (-2) = Ok sB /\
    py_index (B_zero_point_candidates c) (-2) = Ok zB /\
    B_quantizer ms
      = set_inited
          (set_zero_point zB (set_scale sB (B_quantizer example_op))) /\
    A_quantizer mA
      = set_inited
          (set_zero_point (gather (A_zero_point_candidates c) A_best)
             (set_scale (gather (A_scale_candidates c) A_best)
                        (A_quantizer example_op))).
Proof.
  destruct (hyperparameter_searching_returns no_rand always_accepts
              example_dev example_op eq_refl eq_refl) as (m' & calls & H).
  destruct (other_side_enters_through_quantizer no_rand always_accepts
              example_dev example_op m' calls H)
    as (_ & p & c & ms & A_best & mA & B_best & mB & sB & zB & Hrun & HsB
        & HzB & EB & _ & EA & _).
  exists m', calls, p, c, ms, A_best, mA, B_best, mB, sB, zB.
  repeat (split; [assumption|]). exact EA.
Defined.

(** ** The refinement rounds, in a whole run *)

Lemma length_upper_held_grids (L : R) (uppers lowers : Grid)
  (best : list nat) :
  length (fst (upper_held_grids L uppers lowers best)) = length lowers /\
  length (snd (upper_held_grids L uppers lowers best)) = length lowers.
Proof.
  unfold upper_held_grids. cbn [fst snd].
  rewrite length_zip_with, !length_map. split; [reflexivity|lia].
Qed.

Lemma length_lower_held_grids (L : R) (uppers lowers : Grid)
  (best : list nat) :
  length (fst (lower_held_grids L uppers lowers best)) = length uppers /\
  length (snd (lower_held_grids L uppers lowers best)) = length uppers.
Proof.
  unfold lower_held_grids. cbn [fst snd].
  rewrite !length_map. split; reflexivity.
Qed.

(** C8 (as amended): a completed [hyperparameter_searching] is the seeding,
    the two initial searches and then [search_round] refinement rounds, each
    refining side A and then side B.  A side whose bit-width is below 32
    undergoes exactly two search phases in order: first the upper percentile
    endpoint is held at the current best index of every head while the lower
    endpoint runs over the lower percentile grid, then the lower endpoint is
    held at the index the first phase has returned while the upper endpoint
    runs over the upper grid.  The grids of a phase hold [eq_n + 1]
    candidates, of which the search scores the first [eq_n] only: the last
    endpoint is never tried.  A side whose bit-width is 32 undergoes no
    refinement phase at all. *)
Theorem refinement_round_phases rand_like acc (dev : Device)
  (m m' : QuantMatMul) (calls : list SearchCall) :
  hyperparameter_searching rand_like acc dev m = Ok (m', calls) ->
  exists p c ms A_best mA B_best mB,
    search_run rand_like acc dev m p c ms A_best mA B_best mB m' calls /\
    (2 <= eq_n m)%Z /\ eq_n ms = eq_n m /\
    (forall side L best g,
        g = upper_held_grids L (uppers_of side p) (lowers_of side p) best \/
        g = lower_held_grids L (uppers_of side p) (lowers_of side p) best ->
        Z.of_nat (length (fst g)) = (eq_n m + 1)%Z /\
        Z.of_nat (length (snd g)) = (eq_n m + 1)%Z) /\
    length calls =
      (2 + Z.to_nat (search_round m)
           * ((if (n_bits (A_quantizer m) <? 32)%Z then 2 else 0)
              + (if (n_bits (B_quantizer m) <? 32)%Z then 2 else 0)))%nat.
Proof.
  intros H.
  destruct (hyperparameter_searching_run _ _ _ _ _ _ H)
    as (p & c & ms & A_best & mA & B_best & mB & Hrun).
  pose proof Hrun as (Hs & _).
  destruct (seeding_view acc dev m ms p c Hs)
    as (m1 & rA & rB & rowsA & rowsB & mbsA & mbsB & xA & xB & _ & _ & Hn
        & _ & _ & _ & _ & _ & _ & HpA & HpB & _).
  destruct (length_operand_percentiles (eq_n m) xA ltac:(lia)) as [LAu LAl].
  destruct (length_operand_percentiles (eq_n m) xB ltac:(lia)) as [LBu LBl].
  rewrite <- HpA in LAu, LAl. rewrite <- HpB in LBu, LBl.
  cbn [fst snd] in LAu, LAl, LBu, LBl.
  exists p, c, ms, A_best, mA, B_best, mB.
  split; [exact Hrun|]. split; [exact Hn|].
  split; [now destruct (seeding_keeps _ _ _ _ _ _ Hs) as (_ & _ & _ & E & _)|].
  split.
  - intros side L best g [-> | ->].
    + destruct (length_upper_held_grids L (uppers_of side p)
                  (lowers_of side p) best) as [-> ->].
      destruct side; cbn [lowers_of]; rewrite ?LAl, ?LBl; lia.
    + destruct (length_lower_held_grids L (uppers_of side p)
                  (lowers_of side p) best) as [-> ->].
      destruct side; cbn [uppers_of]; rewrite ?LAu, ?LBu; lia.
  - apply hyperparameter_searching_inv in H
      as (p' & c' & ms' & m2 & Hs' & Hr & _).
    apply seeding_keeps in Hs'.
    destruct Hs' as (_ & _ & _ & _ & Hsr & HnA & HnB).
    rewrite (searching_call_count _ _ _ _ _ _ Hr), Hsr, HnA, HnB.
    reflexivity.
Qed.

Lemma refinement_round_phases_witness :
  exists m' calls p c ms A_best mA B_best mB,
    hyperparameter_searching no_rand always_accepts example_dev example_op
      = Ok (m', calls) /\
    search_run no_rand always_accepts example_dev example_op p c ms A_best mA
               B_best mB m' calls /\
    length calls = 6%nat.
Proof.
  destruct (hyperparameter_searching_returns no_rand always_accepts
              example_dev example_op eq_refl eq_refl) as (m' & calls & H).
  destruct (refinement_round_phases no_rand always_accepts example_dev
              example_op m' calls H)
    as (p & c & ms & A_best & mA & B_best & mB & Hrun & _ & _ & _ & Hc).
  exists m', calls, p, c, ms, A_best, mA, B_best, mB.
  split; [exact H|]. split; [exact Hrun|exact Hc].
Defined.

Lemma example_phase_grids :
  upper_held_grids (n_levels (A_quantizer example_ready)) example_held_uppers
                   example_swept_lowers [0%nat]
  = ([[3]; [9 / 2]; [5]], [[-85]; [28]; [51]]).
Proof.
  rewrite (n_levels_8 (A_quantizer example_ready) eq_refl).
  unfold upper_held_grids, example_held_uppers, example_swept_lowers, gather.
  cbn [length seq combine map nth fst snd zip_with].
  replace ((1020 - 255) / (2 * 128 - 1)) with 3 by field.
  replace ((1020 - -255 / 2) / (2 * 128 - 1)) with (9 / 2) by field.
  replace ((1020 - -255) / (2 * 128 - 1)) with 5 by field.
  rewrite (round_half_even_near 85) by lra.
  rewrite (round_half_even_near (-28)) by lra.
  rewrite (round_half_even_near (-51)) by lra.
  repeat f_equal; lra.
Qed.

Lemma example_other_side :
  other_side_sim no_rand SideA example_ready example_A example_B
  = Ok [[[[0]; [1000]]]].
Proof.
  unfold other_side_sim, quant_input_B, UniformQuantizer_forward.
  cbn [example_ready set_quantizers B_quantizer set_inited set_zero_point
       set_scale n_bits inited scale zero_point sym training_mode example_op
       set_captured set_calib_parameters example_fresh
       AsymmetricallyBatchingQuantMatMul_init with_class_and_batch
       PTQSLQuantMatMul_init UniformQuantizer_init Z.eqb Pos.eqb assert bind
       get_attr andb].
  unfold per_head2, example_B.
  cbn [map length expand_heads repeat zip_with3 mat_map].
  erewrite n_levels_8 by reflexivity.
  unfold quant_asym.
  rewrite (round_half_even_near 0 0) by lra.
  replace (0 / 4) with 0 by field.
  rewrite (round_half_even_near 0 0) by lra.
  replace (1000 / 4) with 250 by field.
  rewrite (round_half_even_near 250 250) by lra.
  rewrite !clamp_inside by lra.
  repeat f_equal; lra.
Qed.

(** The score of a candidate that takes 1000 to [v]; the entry 0 of [A]
    meets the entry 0 of [B]. *)
Lemma example_candidate_score (s z v : R) :
  (clamp 0 (2 * 128 - 1) (round_half_even (1000 / s) + z) - z) * s = v ->
  candidate_score SideA example_ready example_A example_B [[[[0]; [1000]]]]
                  example_out None ([s], [z])
  = Ok [- (1000000 - v * 1000) ^ 2].
Proof.
  intros Hv. unfold candidate_score, candidate_out_sim, candidate_sim.
  cbn [fst snd]. rewrite (n_levels_8 (A_quantizer example_ready) eq_refl).
  unfold per_head2, example_A.
  cbn [map length expand_heads repeat zip_with3 mat_map].
  rewrite Hv.
  change (metric example_ready) with "mse"%string.
  unfold _get_similarity. cbn [String.eqb Ascii.eqb Bool.eqb bind].
  unfold matmul, mat_mul, dot, example_out, t4_zip, mat_zip.
  cbn [zip_with map transpose Rsum fold_right].
  unfold head_scores, sum_rows, mean, flatten_mat, Rsum, numel.
  cbn [map concat app fold_left fold_right length INR].
  repeat f_equal. field.
Qed.

(** A phase of the refinement on the example, side A with the upper endpoint
    held at 1020: the grid holds [eq_n + 1 = 3] candidates.  The last one,
    of lower endpoint -255, reproduces the captured output exactly and has
    the score 0, the highest there is; the two others take 1000 to 999 and
    have the score -1000000.  The search returns the index 0: the last
    candidate has not been scored. *)
Lemma last_endpoint_is_not_swept :
  let g := upper_held_grids (n_levels (A_quantizer example_ready))
                            example_held_uppers example_swept_lowers
                            [0%nat] in
  let score := fun i : nat =>
    candidate_score SideA example_ready example_A example_B [[[[0]; [1000]]]]
                    example_out None (nth i (fst g) [], nth i (snd g) []) in
  eq_n example_ready = 2%Z /\ length (fst g) = 3%nat /\
  other_side_sim no_rand SideA example_ready example_A example_B
    = Ok [[[[0]; [1000]]]] /\
  score 0%nat = Ok [-1000000] /\ score 1%nat = Ok [-1000000] /\
  score 2%nat = Ok [0] /\
  exists m',
    search_best_scale no_rand SideA example_ready (fst g) (snd g)
      = Ok ([0%nat], m').
Proof.
  cbv zeta. rewrite example_phase_grids. cbn [fst snd nth length].
  assert (S0 : candidate_score SideA example_ready example_A example_B
                 [[[[0]; [1000]]]] example_out None ([3], [-85])
               = Ok [-1000000]).
  { rewrite (example_candidate_score 3 (-85) 999).
    - repeat f_equal. lra.
    - replace (1000 / 3) with (333 + 1 / 3) by field.
      rewrite (round_half_even_near 333) by lra.
      rewrite clamp_inside by lra. lra. }
  assert (S1 : candidate_score SideA example_ready example_A example_B
                 [[[[0]; [1000]]]] example_out None ([9 / 2], [28])
               = Ok [-1000000]).
  { rewrite (example_candidate_score (9 / 2) 28 999).
    - repeat f_equal. lra.
    - replace (1000 / (9 / 2)) with (222 + 2 / 9) by field.
      rewrite (round_half_even_near 222) by lra.
      rewrite clamp_inside by lra. lra. }
  assert (S2 : candidate_score SideA example_ready example_A example_B
                 [[[[0]; [1000]]]] example_out None ([5], [51])
               = Ok [0]).
  { rewrite (example_candidate_score 5 51 1000).
    - repeat f_equal. lra.
    - replace (1000 / 5) with 200 by field.
      rewrite (round_half_even_near 200 200) by lra.
      rewrite clamp_inside by lra. lra. }
  split; [reflexivity|]. split; [reflexivity|].
  split; [exact example_other_side|].
  split; [exact S0|]. split; [exact S1|]. split; [exact S2|].
  destruct (search_returns no_rand SideA example_ready
              [[3]; [9 / 2]; [5]] [[-85]; [28]; [51]] eq_refl)
    as (best & m' & Hs & _).
  exists m'. rewrite Hs. do 2 f_equal.
  destruct (search_recomputes no_rand SideA example_ready m' _ _ best
              ltac:(discriminate) Hs)
    as (rA & rB & ro & cs & b_starts & tables & table & Hri & Hro & Hcs & Hst
        & Hch & Hsum & -> & _).
  injection Hri as <- <-. injection Hro as <-. injection Hcs as <-.
  injection Hst as <-.
  inversion Hch as [|b_st t b_starts' tables' Hc Hrest]; subst.
  inversion Hrest; subst.
  injection Hsum as <-.
  destruct Hc as (other & Ho & Ht). cbv zeta in Ho, Ht.
  change (calib_batch_size example_ready) with 32%Z in Ho, Ht.
  change (py_slice 0 (Z.min 1 (0 + 32)) example_B) with example_B in Ho, Ht.
  change (py_slice 0 (Z.min 1 (0 + 32)) example_A) with example_A in Ht.
  change (py_slice 0 (Z.min 1 (0 + 32)) example_out) with example_out in Ht.
  pose proof example_other_side as Eo.
  unfold other_side_sim, quant_input_B in Eo.
  rewrite Eo in Ho. injection Ho as <-.
  change (Z.to_nat (eq_n example_ready)) with 2%nat in Ht.
  rewrite (mapM_ext _ (candidate_score SideA example_ready example_A
                         example_B [[[[0]; [1000]]]] example_out None)) in Ht
    by (intros sz; symmetry; apply candidate_score_recomputed).
  cbn [combine firstn mapM] in Ht.
  rewrite S0, S1 in Ht. cbn [bind] in Ht. injection Ht as <-.
  unfold argmax_dim0, column, argmax. cbn [hd length seq map nth argmax_from].
  destruct (Rlt_dec (-1000000) (-1000000)) as [Hlt|_]; [lra|reflexivity].
Qed.

(** X12: a completed [hyperparameter_searching] on captured tensors of [h]
    heads, of shapes that multiply, leaves an operator on which the quantized
    forward pass returns for all operands of [h] heads whose shapes
    multiply: both quantizers accept their input and keep its shape,
    [quant_forward] no longer asserts and yields the product of the two
    quantized operands, and so does [forward] once the mode is
    "quant_forward". *)
Theorem quant_forward_after_search rand_like acc (dev : Device)
  (m m' : QuantMatMul) (calls : list SearchCall) (rA rB ro A B : T4)
  (N h n k p N' n' k' p' : nat) :
  (forall t, same_shape t (rand_like t)) ->
  raw_input m = Val (rA, rB) -> raw_out m = Val ro ->
  shaped N h n k rA -> shaped N h k p rB -> shaped N h n p ro ->
  (1 <= k)%nat ->
  shaped N' h n' k' A -> shaped N' h k' p' B -> (1 <= k')%nat ->
  hyperparameter_searching rand_like acc dev m = Ok (m', calls) ->
  exists a b,
    quant_input_A rand_like m' A = Ok a /\ shaped N' h n' k' a /\
    quant_input_B rand_like m' B = Ok b /\ shaped N' h k' p' b /\
    quant_forward rand_like m' A B = Ok (matmul a b) /\
    forward rand_like (set_mode "quant_forward" m') A B = Ok (matmul a b) /\
    shaped N' h n' p' (matmul a b).
Proof.
  intros Hrand Hri Hro HrA HrB HrO Hk HA HB Hk' H.
  destruct (hyperparameter_searching_run _ _ _ _ _ _ H)
    as (pc & c & ms & A_best & mA & B_best & mB & Hrun).
  destruct (search_run_heads rand_like acc dev m ms mA mB m' pc c A_best
              B_best calls N h n k p rA rB ro Hrand Hri Hro HrA HrB HrO Hk
              Hrun) as [QA QB].
  apply hyperparameter_searching_inv in H
    as (pc' & c' & ms' & m2 & Hs & Hr & ->).
  apply seeding_inv in Hs
    as (m1 & sA & zA & sB & zB & _ & _ & _ & _ & _ & ->).
  assert (Hready : quantizer_ready (A_quantizer m2) = true /\
                   quantizer_ready (B_quantizer m2) = true).
  { eapply searching_keeps_ready; [|exact Hr]. split; reflexivity. }
  destruct Hready as [RA RB].
  destruct (quantizer_ready_forward rand_like _ A RA) as [a Ha].
  destruct (quantizer_ready_forward rand_like _ B RB) as [b Hb].
  cbn [latch_and_release A_quantizer B_quantizer] in QA, QB.
  pose proof (forward_shaped rand_like _ N' h n' k' A a Hrand
                (per_head_parameters_fits h _ QA) HA Ha) as Sa.
  pose proof (forward_shaped rand_like _ N' h k' p' B b Hrand
                (per_head_parameters_fits h _ QB) HB Hb) as Sb.
  exists a, b.
  assert (Hq : quant_forward rand_like (latch_and_release m2) A B
               = Ok (matmul a b)).
  { unfold quant_forward, quant_input_A, quant_input_B.
    cbn [latch_and_release calibrated A_quantizer B_quantizer assert bind].
    now rewrite Ha, Hb. }
  repeat split; try assumption; try exact (proj1 Sa); try exact (proj2 Sa);
    try exact (proj1 Sb); try exact (proj2 Sb);
    try exact (proj1 (matmul_shaped N' h n' k' p' a b Hk' Sa Sb));
    try exact (proj2 (matmul_shaped N' h n' k' p' a b Hk' Sa Sb)).
Qed.

Lemma example_shapes :
  shaped 1 1 1 2 example_A /\ shaped 1 1 2 1 example_B /\
  shaped 1 1 1 1 example_out.
Proof.
  unfold shaped. repeat split; repeat constructor.
Qed.

Lemma quant_forward_after_search_witness :
  exists m' calls a b,
    hyperparameter_searching no_rand always_accepts example_dev example_op
      = Ok (m', calls) /\
    quant_input_A no_rand m' example_A = Ok a /\
    quant_input_B no_rand m' example_B = Ok b /\
    quant_forward no_rand m' example_A example_B = Ok (matmul a b) /\
    forward no_rand (set_mode "quant_forward" m') example_A example_B
      = Ok (matmul a b) /\
    shaped 1 1 1 1 (matmul a b).
Proof.
  destruct (hyperparameter_searching_returns no_rand always_accepts
              example_dev example_op eq_refl eq_refl) as (m' & calls & H).
  destruct example_shapes as (SA & SB & SO).
  destruct (quant_forward_after_search no_rand always_accepts example_dev
              example_op m' calls example_A example_B example_out
              example_A example_B 1 1 1 2 1 1 1 2 1
              same_shape_refl eq_refl eq_refl SA SB SO (le_n_S 0 1 (le_0_n 1))
              SA SB (le_n_S 0 1 (le_0_n 1)) H)
    as (a & b & Ha & _ & Hb & _ & Hq & Hf & Hs).
  exists m', calls, a, b. auto 10.
Defined.

